(* ===== verification/_CoqProject ===== *)
-Q . S2P
Prelude.v
Int64.v
Float64.v
Errors.v
Runtime.v
Envelope.v
Hooks.v
Codec.v
Options.v
Cache.v
Memory.v
Group.v
GetOrSet.v
GetOrSetFacts.v
Instances.v
GetOrSetSpec.v
GetOrSetThms.v
Batch.v
BatchFacts.v
BatchThms.v
Server.v
Redis.v
Valkey.v
FakeServer.v
Reliable.v
Lossy.v
BackendThms.v
Detached.v
CoreThms.v
RefreshThms.v
Flights.v
FlightsThms.v
Provenance.v
MixedProvenance.v
Staged.v
Herd.v
NetworkHerd.v
Staleness.v
BackendAges.v
OpContext.v
EarlyRefresh.v
Termination.v
BatchSpec.v
MemoryHeap.v
MemoryClient.v
TestApp.v
TestAppThms.v
ServerProvenance.v
Fleet.v
