(* ===== verification/Prelude.v ===== *)
(** * cache-kit: a verification development

    cache-kit (src/*.go, package cachekit) is a caching toolkit: a byte-oriented
    [Cache] interface with three backends (in memory, go-redis, valkey-go) and
    the cache-aside helpers GetOrSet and GetOrSetMany with single-flight
    deduplication, negative caching, TTL jitter, stale-while-revalidate and
    early refresh.  This library models all of it, executable and over any
    backend, value type, codec and loader, and proves what makes it correct.

    ** The parts, and the files that model them

    - errors: the sentinels, fmt.Errorf and errors.Is (cache.go, negative.go):
      Errors.v.
    - the machine: int64 and time.Duration with their wrap-around, big-endian
      encoding (Int64.v); float64 as rounded integer arithmetic (Float64.v);
      clock, contexts, randomness, map iteration order, select, the trace of
      hook calls, and the code monad [act] of atomic steps (Runtime.v).
    - what is stored (envelope.go, negative.go): [wrapEnvelope],
      [parseEnvelope], [stale], [shouldEarlyRefresh], [isNegativeEntry] in
      Envelope.v.
    - hooks and the per-cache configuration (hooks.go): Hooks.v.
    - codecs (codec.go): Codec.v.
    - options and jitter (options.go): Options.v.
    - the interfaces Cache and BatchCache (cache.go, batch.go): records of
      methods in Cache.v, with their contract over an abstract state [view]:
      the classes [CacheSpec], [BatchSpec] and [BatchCacheSpec] of a backend
      that answers under every context, and [BoundedBackendSpec] of one that
      may give up once its context is done or its time has run out.
    - MemoryCache (memory.go): Memory.v, its operations [mem_*] over values;
      MemoryHeap.v, the same operations [hmem_*] over a heap of byte slices,
      with the copies the code makes; MemoryClient.v, a client that shares
      slices with the cache.
    - RedisCache (redis.go) and ValkeyCache (valkey.go): Redis.v and Valkey.v,
      operations [redis_*] and [valkey_*]; what they share is in Server.v.
      Concrete clients of a server in memory, one that is never late and one
      that waits for a network and honours its context, are in FakeServer.v;
      clients that answer until the context of a command is done, step by step
      between others, in Reliable.v; clients that lose packets, retry, give up
      and keep copies of their own in Lossy.v.
    - the single-flight group (group.go): Group.v for one caller, Flights.v for
      many.
    - GetOrSet (cache.go): GetOrSet.v; GetOrSetMany (batch.go): Batch.v.
    - the test application (deploy/k3d/testapp/main.go): TestApp.v.

    A definition has the name of the Go function, method or type it models,
    prefixed by the backend for methods that several types have.  A function
    body that is long is cut at its phases: loadAndStore is [flightContext],
    [recheck], [loadPhase] and [storeLoaded]; GetOrSetMany is [uniqKeys],
    [readRaw], [decode_step], [loadMissing], [pack_step] and [writeBack].

    ** How the parts interact

    A backend is a value [c : Cache S] over a store of type [S]; the helpers
    only call its methods, its configuration ([c_config], the type assertion
    to [configured]) and its batch methods if it has them ([c_batch]).  So the
    theorems on the helpers are proved against the contract [CacheSpec].
    MemoryCache ignores its context and discharges it under every one.  An
    operation of RedisCache or ValkeyCache fails when its context is done, even
    on a healthy server, so they discharge [BoundedBackendSpec]; with OpTimeout
    off and under contexts that never end ([endless]) that is the contract in
    full, and Detached.v carries the theorems on the helpers over.  The state
    is explicit: a [World] has the
    clock, the store, the fired cancellation signals and the trace of hook
    calls; errors are values of [result], panics of [outcome].

    A loader, a codec and a client are arbitrary arguments.  A caller of
    GetOrSet is a [prog]: steps, and its two uses of the group.  [solo] runs it
    when it finds no flight in progress (its background refreshes are handed
    back, to be run at any later time); [step_sys] interleaves the atomic
    steps of any number of callers and flights, with time passing and contexts
    being canceled in between.  A mutex-guarded section is one atomic step
    ([locked]); what happens between the steps of an operation is thereby
    open to everybody else.

    ** The theorems

    - GetOrSetThms.v: the paths of GetOrSet: hit, negative hit, miss and load,
      negative caching, self-healing, degraded cache, failed and panicking
      loader, the context of a flight, the footprint of a call.
    - RefreshThms.v: what a background refresh does to the entry, which
      entries satisfy a re-check, the stale window, the unused codec option.
    - FlightsThms.v: in every reachable state of the concurrent system: one
      flight per cache and key, flights can finish and release their waiters,
      one result for all of them, the sequential run as one of the schedules.
    - Provenance.v: no concurrent call returns a value that a loader of its key
      did not produce (rely-guarantee over [HonestCache]); MixedProvenance.v:
      the same with clients of every kind at once - GetOrSet, GetOrSetMany and
      direct operations of one key or many - over [HonestBatch], which
      MemoryCache keeps; ServerProvenance.v: RedisCache and ValkeyCache keep
      it too, with the client-side cache of the latter on or off; Fleet.v: so
      do any number of caches of different types and backends that share the
      flight group of a process and a server, if their addresses differ and
      their prefixes are apart.
    - Termination.v: every schedule of the concurrent system ends, with all
      callers returned and all flights delivered, and it never deadlocks: a
      well-founded measure on phases, flights and callers that every step of
      the code decreases.
    - Staged.v: however many callers miss at once, the loader of a key
      completes at most once per cache within the TTL, on any backend that
      keeps the promise of [StagedCache]: MemoryCache in Herd.v; in
      NetworkHerd.v RedisCache and ValkeyCache, OpTimeout off, over any client
      of Reliable.v, for a key whose callers have no deadline within the window,
      and the replicas of a service that share a server.
    - Staleness.v: rely-guarantee with time in it: a call returns a value its
      source held no longer ago than R + D before the call began, where D
      bounds the flights and R what a read finds: B + D if B bounds the
      lifetimes, and the TTL of the client-side cache on top, on any backend
      that keeps the promise of [AgedCache].  The three backends do in
      BackendAges.v, those of the network over clients that fail and retry.
    - BatchThms.v: the result of GetOrSetMany on every branch, its caching, its
      footprint, and the expiry of entries stored with another key's TTL.
    - BatchSpec.v: GetOrSetMany is equivalent to a key-by-key reference
      definition, [many_spec], on a cache whose reads are stable.
    - MemoryClient.v: the heap model of MemoryCache refines the value model for
      every client program, so the copies on Set and Get make sharing
      unobservable.
    - TestAppThms.v: the start-up of the test application ends once the cluster
      answers; its demo loads each key once and then only hits.
    - BackendThms.v: the refinement of the interface by each backend,
      read-your-writes of RedisCache across any sequence of operations, and the
      error and hook behaviour of the operations, whatever the client replies.
    - Detached.v: GetOrSet and GetOrSetMany do on a backend that may give up,
      under a context that never ends, what they do on one that does not.
    - OpContext.v: every command an operation of RedisCache or ValkeyCache
      issues, it issues under the one context that OpTimeout bounds.
    - EarlyRefresh.v: the window in which a hit may be refreshed early.
    - CoreThms.v: the stored formats and their round trip, options, jitter
      bounds, early refresh, flight keys.

    GetOrSetFacts.v, GetOrSetSpec.v and BatchFacts.v hold the lemmas on the
    phases of the helpers; Instances.v the concrete inputs of the witnesses.

    ** What is assumed of code outside src/

    Each is a class, and has an instance, so no hypothesis is vacuous:
    - [JSON T]: encoding/json at a type; [CodecRoundTrip] and [CodecNoNUL]
      where a theorem needs them (instance: JSON booleans, Codec.v);
    - [ResponsiveCluster]: the cluster client of the test application, over
      [RedisServer] (instance: a server in memory, TestAppThms.v);
    - [RedisServer] and [ValkeyServer]: that GET, SET, DEL and MGET are answered
      as documented, or fail - the write done or not - with an error that is not
      one of this package, and only once the context of the command is done
      (instances in FakeServer.v: a server that is always in time, and one
      behind a network, which honours the context);
    - [KeyedRedis] and [KeyedValkey]: that a client hands out under a key only
      bytes stored under that key (instances in ServerProvenance.v, one with a
      client-side cache that never sees an invalidation);
    - [ReliableRedis] and [ReliableValkey]: the same step by step, while others
      use the server: a command may be sent and executed more than once before
      its reply, and is answered truly unless its context is done (instances in
      Reliable.v: requests and replies on a network being steps);
    - [LossyRedis], [LossyValkey] and [NearCache]: that a client may fail and
      retry, but reads only what the server or a copy held meanwhile, has no
      effect after its reply, and keeps no copy past its TTL (instances in
      Lossy.v: a network that loses packets; weaker than [ReliableRedis] and
      [ReliableValkey]);
    - [SingleFlight] with [SingleFlightLaws]: the table of
      golang.org/x/sync/singleflight (instance: a finite map, Flights.v);
    - [Oracle]: the time between clock readings, random draws, iteration
      orders, select choices, the logarithm, the int64 of an unrepresentable
      float: every theorem holds for all of them.
    Where a theorem bounds a duration it says so: Go's time arithmetic wraps
    and the model wraps with it.  The contract of the interface is stated of
    clocks past the zero Time and at millisecond resolution, the resolution of
    the servers.

    ** Bounds and fuel

    All recursion is structural, except the hexadecimal digits of an address:
    sixteen of them ([fmt_p]) are enough for 64 bits, and [fmt_p_inj] shows it,
    and the endless loop of waitReady, whose fuel counts attempts: every fuel
    past the bound of [waitReady_returns] gives the same result.
    Code is a well-founded tree of steps, so a loader that runs for ever is
    not expressed; flights finish when they are scheduled, for every loader
    that returns, fails or panics.
    The bound D of Staleness.v on flights restricts the schedules considered
    ([step_timely]): Go bounds a flight by RefreshTimeout or the deadline of
    its caller only as far as the loader and the client obey their context.

    ** What is not modelled

    - the text of error messages (an error keeps format and arguments);
    - the bodies of hook callbacks (a call is an event of the trace), and hooks
      or codecs that panic;
    - sharing of byte slices outside MemoryCache (MemoryHeap.v and
      MemoryClient.v model it there; everywhere else bytes are values), and
      data races of a client on its own slices;
    - the difference between the wall clock and the monotonic clock;
    - the client-side cache of ValkeyCache in its refinement theorem (the
      operations are modelled with it; [NoClientCache] is a hypothesis there),
      and go-redis's KeepTTL = -1 ([NoKeepTTL]);
    - in the theorems on load counts, that client-side cache and any Set that
      fails, for a value that is not stored is loaded again: a server or network
      that fails half-way (every caller loads: [GetOrSet_degraded]), an
      OpTimeout, or a flight that outlives the deadline it keeps of its caller
      ([flight_context_detached]); hence OpTimeout is off in NetworkHerd.v and
      no caller of the key has a deadline within the window ([unhurried]);
    - a command that takes effect after its client has given up;
    - the address of a cache that is no pointer: flightKey prints it with %p,
      and only of a pointer, as every backend of the package is, is that the
      hexadecimal number of [fmt_p];
    - the boundary between processes: Fleet.v and the replicas of NetworkHerd.v
      tell caches apart by address, as one process does; processes whose caches
      happen to have equal addresses have separate groups in reality;
    - loaders that call GetOrSet themselves: a loader is code over the store,
      clock and hooks, so the flights it would wait for are not expressed, nor
      is a goroutine that takes a mutex it already holds;
    - fused multiply-add of float64, which Go allows on some machines;
    - of deploy/k3d/testapp/main.go: the text of its log and JSON bodies, the
      HTTP server and its routing, and white space outside ASCII in the reply
      to CLUSTER NODES. *)
From stdpp Require Export base gmap strings list fin_maps sorting.
From Stdlib Require Export Init.Byte.
From Stdlib Require Strings.Byte.
From Stdlib Require Import Lia.

(** The library's hint databases: [ck] holds the lemmas that close routine
    side conditions, the rewrite base [ckrun] the equations that execute a
    step of the code monad (see Runtime.v). *)
Create HintDb ck.
Create Rewrite HintDb ckrun.

Declare Scope ck_scope.
Delimit Scope ck_scope with ck.

(** ** Bytes *)

(** Go's [[]byte]. *)
Abbreviation bytes := (list byte).

Definition byte_to_Z (b : byte) : Z := Z.of_N (Byte.to_N b).

(** Go's conversion [byte(v)]: the low eight bits. *)
Definition byte_of_Z (z : Z) : byte :=
  default x00 (Byte.of_N (Z.to_N (z mod 256))).

#[export] Instance byte_eq_dec : EqDecision byte := Byte.byte_eq_dec.

(** [bytes.Equal]. *)
Definition bytes_Equal (a b : bytes) : bool := bool_decide (a = b).

(** [bytes.HasPrefix]. *)
Definition bytes_HasPrefix (s prefix : bytes) : bool :=
  bytes_Equal (take (length prefix) s) prefix.

(** The bytes of an ASCII literal, for Go's [[]byte("...")] conversions. *)
Definition bytes_of_string (s : string) : bytes := String.list_byte_of_string s.

(** ** Orders of iteration *)

(** Go leaves the iteration order of a map unspecified.  [shuffle seed l]
    takes the elements of [l] out in the order that [seed] encodes (a number
    in the factorial number system), so a run of the model is given any order
    by choosing the seed. *)
Fixpoint shuffle {A} (n : nat) (seed : nat) (l : list A) : list A :=
  match n with
  | O => l
  | S n' =>
      match l !! (seed mod length l) with
      | Some x =>
          x :: shuffle n' (seed / length l) (delete (seed mod length l) l)
      | None => l
      end
  end.

(** ** Tactics *)

(** Split a hypothesis of the form [(x, w) = (y, w')] and substitute. *)
Ltac inv_pair :=
  repeat match goal with
  | H : (_, _) = (_, _) |- _ => injection H as ?; subst
  end.

(** Case analysis on the scrutinee of a [match] or [if] of the goal. *)
Ltac case_goal :=
  match goal with
  | |- context [match ?x with _ => _ end] => destruct x eqn:?
  end.

(** Turn boolean comparisons on [Z] into propositions. *)
Ltac zbool :=
  repeat match goal with
  | H : (_ <? _)%Z = true |- _ => apply Z.ltb_lt in H
  | H : (_ <? _)%Z = false |- _ => apply Z.ltb_ge in H
  | H : (_ <=? _)%Z = true |- _ => apply Z.leb_le in H
  | H : (_ <=? _)%Z = false |- _ => apply Z.leb_gt in H
  | H : (_ =? _)%Z = true |- _ => apply Z.eqb_eq in H
  | H : (_ =? _)%Z = false |- _ => apply Z.eqb_neq in H
  | H : (_ && _) = true |- _ => apply andb_true_iff in H; destruct H
  | H : (_ || _) = false |- _ => apply orb_false_iff in H; destruct H
  | H : negb _ = true |- _ => apply negb_true_iff in H
  | H : negb _ = false |- _ => apply negb_false_iff in H
  | H : bool_decide _ = true |- _ => apply bool_decide_eq_true in H
  | H : bool_decide _ = false |- _ => apply bool_decide_eq_false in H
  end.

(** ** Lemmas *)

Lemma byte_to_Z_range b : (0 <= byte_to_Z b < 256)%Z.
Proof.
  unfold byte_to_Z. pose proof (Byte.to_N_bounded b).
  assert (Byte.to_N b <= 255)%N by done. lia.
Qed.

Lemma byte_to_of_Z z : byte_to_Z (byte_of_Z z) = (z mod 256)%Z.
Proof.
  unfold byte_to_Z, byte_of_Z.
  pose proof (Z.mod_pos_bound z 256 ltac:(lia)).
  destruct (Byte.of_N (Z.to_N (z mod 256))) as [b|] eqn:E; simpl.
  - apply Byte.to_of_N in E. rewrite E. lia.
  - apply Byte.of_N_None_iff in E. lia.
Qed.

Lemma byte_to_Z_inj a b : byte_to_Z a = byte_to_Z b → a = b.
Proof.
  unfold byte_to_Z. intros H%N2Z.inj.
  pose proof (Byte.of_to_N a) as Ha. pose proof (Byte.of_to_N b) as Hb.
  rewrite H in Ha. congruence.
Qed.

Lemma byte_of_to_Z b : byte_of_Z (byte_to_Z b) = b.
Proof.
  apply byte_to_Z_inj. rewrite byte_to_of_Z.
  apply Z.mod_small, byte_to_Z_range.
Qed.

Lemma bytes_Equal_spec a b : bytes_Equal a b = true ↔ a = b.
Proof. apply bool_decide_eq_true. Qed.

Lemma bytes_Equal_refl a : bytes_Equal a a = true.
Proof. by apply bytes_Equal_spec. Qed.

Lemma bytes_HasPrefix_app p l : bytes_HasPrefix (p ++ l) p = true.
Proof. unfold bytes_HasPrefix. rewrite take_app_length. apply bytes_Equal_refl. Qed.

Lemma bytes_HasPrefix_spec s p :
  bytes_HasPrefix s p = true ↔ ∃ l, s = p ++ l.
Proof.
  split.
  - intros H%bytes_Equal_spec. exists (drop (length p) s).
    by rewrite <- H at 1; rewrite take_drop.
  - intros [l ->]. apply bytes_HasPrefix_app.
Qed.

Lemma elem_of_snoc {A} (l : list A) x y : y ∈ l ++ [x] ↔ y ∈ l ∨ y = x.
Proof. by rewrite elem_of_app, list_elem_of_singleton. Qed.

Lemma delete_Permutation' {A} (l : list A) i x :
  l !! i = Some x → x :: delete i l ≡ₚ l.
Proof. intros H. symmetry. by apply delete_Permutation. Qed.

(** Whatever the seed, [shuffle] only reorders. *)
Lemma shuffle_Permutation {A} n seed (l : list A) : shuffle n seed l ≡ₚ l.
Proof.
  revert seed l. induction n as [|n IH]; intros seed l; simpl; [done|].
  destruct (l !! _) as [x|] eqn:E; [|done].
  rewrite IH. by apply delete_Permutation'.
Qed.

(** Every order is the image of some seed: the model leaves none out. *)
Lemma shuffle_complete {A} (l l' : list A) :
  l' ≡ₚ l → ∃ seed, shuffle (length l) seed l = l'.
Proof.
  revert l. induction l' as [|x l' IH]; intros l Hp.
  { apply Permutation_nil_l in Hp. subst. by exists 0. }
  assert (x ∈ l) as Hin by (rewrite <-Hp; apply list_elem_of_here).
  apply list_elem_of_lookup in Hin as [i Hi].
  pose proof (lookup_lt_Some _ _ _ Hi) as Hlt.
  pose proof (delete_Permutation l i x Hi) as Hd.
  assert (l' ≡ₚ delete i l) as Hl'.
  { apply (Permutation_cons_inv (a := x)). by rewrite Hp, <- Hd. }
  destruct (IH _ Hl') as [seed Hs].
  assert (length l = S (length (delete i l))) as Hlen.
  { apply Permutation_length in Hd. done. }
  exists (i + seed * length l)%nat.
  rewrite Hlen at 1. simpl.
  rewrite Nat.Div0.mod_add, Nat.mod_small, Hi by lia.
  rewrite Nat.div_add, Nat.div_small, Nat.add_0_l by lia.
  by rewrite Hs.
Qed.

#[export] Hint Resolve byte_to_Z_range bytes_Equal_refl shuffle_Permutation : ck.

(** Strings form a monoid. *)
Lemma string_app_nil_r (s : string) : s +:+ EmptyString = s.
Proof. induction s as [|a s IH]; [done|]. exact (f_equal (String a) IH). Qed.

Lemma string_app_assoc (s1 s2 s3 : string) : s1 +:+ (s2 +:+ s3) = (s1 +:+ s2) +:+ s3.
Proof. induction s1 as [|a s1 IH]; [done|]. exact (f_equal (String a) IH). Qed.
