(* ===== verification/Int64.v ===== *)
(** * Machine integers: Go's int64/uint64, time.Duration, encoding/binary

    The width-64 arithmetic the envelope and the TTL code rely on, with its
    wrap-around written out, and [binary.BigEndian]'s PutUint64/Uint64. *)
From S2P Require Import Prelude.
From Stdlib Require Import ZArith Lia.
Local Open Scope Z_scope.

(** ** Definitions *)

Definition min_int64 : Z := - 2 ^ 63.
Definition max_int64 : Z := 2 ^ 63 - 1.

(** The value an int64 register holds after a computation with exact result
    [z]; also the conversion [int64(u)] of a uint64. *)
Definition wrap64 (z : Z) : Z := (z + 2 ^ 63) mod 2 ^ 64 - 2 ^ 63.

(** The conversion [uint64(z)] of an int64. *)
Definition uint64 (z : Z) : Z := z mod 2 ^ 64.

Definition is_int64 (z : Z) : Prop := min_int64 <= z <= max_int64.

#[export] Instance is_int64_dec z : Decision (is_int64 z).
Proof. unfold is_int64. apply _. Defined.

(** [time.Duration] is an int64 number of nanoseconds. *)
Abbreviation Duration := Z (only parsing).

Definition Millisecond : Duration := 1000000.
Definition Second : Duration := 1000 * Millisecond.
Definition Minute : Duration := 60 * Second.

(** Addition and multiplication of durations wrap like any int64. *)
Definition dur_add (a b : Duration) : Duration := wrap64 (a + b).
Definition dur_mul (a b : Duration) : Duration := wrap64 (a * b).

(** [Duration.Milliseconds]: division truncated towards zero. *)
Definition Milliseconds (d : Duration) : Z := Z.quot d Millisecond.

(** A duration cut to whole milliseconds, the resolution of the servers. *)
Definition floor_ms (d : Duration) : Duration := d / Millisecond * Millisecond.

(** [binary.BigEndian.PutUint64] writes the eight bytes of [v], the most
    significant one first: b[i] = byte(v >> (8*(7-i))). *)
Fixpoint be_put (n : nat) (v : Z) : bytes :=
  match n with
  | O => []
  | S n' => byte_of_Z (Z.shiftr v (8 * Z.of_nat n')) :: be_put n' v
  end.

Definition PutUint64 (v : Z) : bytes := be_put 8 v.

(** [binary.BigEndian.Uint64]: the or of the shifted bytes. *)
Definition be_get (b : bytes) : Z :=
  foldl (λ acc x, Z.lor (Z.shiftl acc 8) (byte_to_Z x)) 0 b.

Definition Uint64 (b : bytes) : Z := be_get (take 8 b).

(** ** Wrap-around *)

Lemma wrap64_range z : is_int64 (wrap64 z).
Proof.
  unfold is_int64, wrap64, min_int64, max_int64.
  pose proof (Z.mod_pos_bound (z + 2 ^ 63) (2 ^ 64) ltac:(lia)). lia.
Qed.

Lemma wrap64_id z : is_int64 z → wrap64 z = z.
Proof.
  unfold is_int64, wrap64, min_int64, max_int64. intros H.
  rewrite Z.mod_small; lia.
Qed.

Lemma wrap64_uint64 z : wrap64 (uint64 z) = wrap64 z.
Proof.
  unfold wrap64, uint64. by rewrite Z.add_mod_idemp_l by lia.
Qed.

Lemma wrap64_uint64_id z : is_int64 z → wrap64 (uint64 z) = z.
Proof. intros H. rewrite wrap64_uint64. by apply wrap64_id. Qed.

Lemma dur_add_id a b : is_int64 (a + b) → dur_add a b = a + b.
Proof. apply wrap64_id. Qed.

(** Durations keep their order under [Milliseconds], lose less than one
    millisecond and stay within int64. *)
Lemma Milliseconds_bounds d :
  0 <= d → Milliseconds d * Millisecond <= d < (Milliseconds d + 1) * Millisecond.
Proof.
  intros Hd. unfold Milliseconds, Millisecond.
  rewrite Z.quot_div_nonneg by lia.
  pose proof (Z.div_mod d 1000000 ltac:(lia)).
  pose proof (Z.mod_pos_bound d 1000000 ltac:(lia)). lia.
Qed.

Lemma Milliseconds_int64 d : is_int64 d → is_int64 (Milliseconds d).
Proof.
  unfold is_int64, Milliseconds, Millisecond, min_int64, max_int64. intros H.
  pose proof (Z.quot_rem' d 1000000) as Hqr.
  destruct (Z.le_gt_cases 0 d).
  - pose proof (Z.rem_bound_pos d 1000000 ltac:(lia) ltac:(lia)). lia.
  - pose proof (Z.rem_bound_pos_neg d 1000000 ltac:(lia) ltac:(lia)). lia.
Qed.

Lemma Milliseconds_mul_int64 d :
  is_int64 d → is_int64 (Milliseconds d * Millisecond).
Proof.
  unfold is_int64, Milliseconds, Millisecond, min_int64, max_int64. intros H.
  pose proof (Z.quot_rem' d 1000000) as Hqr.
  destruct (Z.le_gt_cases 0 d).
  - pose proof (Z.rem_bound_pos d 1000000 ltac:(lia) ltac:(lia)). lia.
  - pose proof (Z.rem_bound_pos_neg d 1000000 ltac:(lia) ltac:(lia)). lia.
Qed.

(** ** The big-endian codec *)

Lemma be_put_length n v : length (be_put n v) = n.
Proof. induction n; simpl; congruence. Qed.

Lemma PutUint64_length v : length (PutUint64 v) = 8%nat.
Proof. apply be_put_length. Qed.

Lemma lor_shiftl_add acc x n :
  0 <= n → 0 <= x < 2 ^ n → Z.lor (Z.shiftl acc n) x = acc * 2 ^ n + x.
Proof.
  intros Hn Hx.
  rewrite <-Z.shiftl_mul_pow2 by lia. symmetry. apply Z.add_nocarry_lor.
  apply Z.bits_inj'. intros i Hi.
  rewrite Z.land_spec, Z.bits_0, Z.shiftl_spec by lia.
  destruct (Z.lt_ge_cases i n) as [Hlt|Hge].
  { by rewrite Z.testbit_neg_r by lia. }
  rewrite <-(Z.mod_small x (2 ^ n)) by lia.
  rewrite Z.mod_pow2_bits_high by lia. apply andb_false_r.
Qed.

Lemma be_fold_acc b acc :
  foldl (λ acc x, Z.lor (Z.shiftl acc 8) (byte_to_Z x)) acc b
  = acc * 256 ^ Z.of_nat (length b)
    + foldl (λ acc x, Z.lor (Z.shiftl acc 8) (byte_to_Z x)) 0 b.
Proof.
  revert acc. induction b as [|x b IH]; intros acc; simpl; [lia|].
  rewrite IH, (IH (Z.lor _ _)).
  pose proof (byte_to_Z_range x).
  rewrite !lor_shiftl_add by lia.
  rewrite Nat2Z.inj_succ, Z.pow_succ_r by lia. lia.
Qed.

(** Reading back what was written gives the low [8*n] bits of the value. *)
Lemma be_get_put n v : be_get (be_put n v) = v mod 256 ^ Z.of_nat n.
Proof.
  unfold be_get. induction n as [|n IH]; simpl.
  { by rewrite Z.mod_1_r. }
  rewrite be_fold_acc, IH, be_put_length, byte_to_of_Z.
  rewrite lor_shiftl_add by (try apply Z.mod_pos_bound; lia).
  rewrite Z.shiftr_div_pow2, Nat2Z.inj_succ, Z.pow_succ_r by lia.
  replace (2 ^ (8 * Z.of_nat n)) with (256 ^ Z.of_nat n)
    by (rewrite Z.pow_mul_r by lia; done).
  assert (0 < 256 ^ Z.of_nat n) by (apply Z.pow_pos_nonneg; lia).
  rewrite (Z.mul_comm 256), Z.rem_mul_r by lia. lia.
Qed.

Lemma Uint64_PutUint64 v l : Uint64 (PutUint64 v ++ l) = uint64 v.
Proof.
  unfold Uint64. rewrite take_app_le by (by rewrite PutUint64_length).
  rewrite take_ge by (by rewrite PutUint64_length).
  apply (be_get_put 8).
Qed.

#[export] Hint Resolve wrap64_range wrap64_id Milliseconds_int64
  Milliseconds_mul_int64 PutUint64_length : ck.

Lemma floor_ms_le d : floor_ms d <= d.
Proof. unfold floor_ms, Millisecond. pose proof (Z.mul_div_le d 1000000). lia. Qed.

Lemma floor_ms_mono a b : a <= b → floor_ms a <= floor_ms b.
Proof.
  intros H. unfold floor_ms, Millisecond. pose proof (Z.div_le_mono a b 1000000). lia.
Qed.

Lemma floor_ms_gt d : d - Millisecond < floor_ms d.
Proof.
  unfold floor_ms, Millisecond.
  pose proof (Z.div_mod d 1000000). pose proof (Z.mod_pos_bound d 1000000). lia.
Qed.
