(* ===== verification/Float64.v ===== *)
(** * Go's float64

    IEEE 754 binary64 with round-to-nearest-even, as executable integer
    arithmetic.  Every finite double is an integer multiple of 2^-1074, the
    smallest subnormal, so [Fin n] stands for n * 2^-1074: the representation
    is unique, comparison is comparison of integers and sums are exact before
    rounding.  The two zeros are one value (the program never divides and
    never inspects a sign bit).  Each operation is rounded on its own: the
    model is of a compiler that does not fuse a multiply with an add. *)
From S2P Require Import Prelude Int64.
From Stdlib Require Import ZArith Lia.
Local Open Scope Z_scope.

(** ** Definitions *)

Inductive float64 :=
| NaN
| Inf (neg : bool)
| Fin (n : Z).

#[export] Instance float64_eq_dec : EqDecision float64.
Proof. solve_decision. Defined.

(** The number of units in 1.0, and the precision. *)
Definition unit_exp : Z := 1074.
Definition one_units : Z := 2 ^ 1074.
Definition precision : Z := 53.

(** Number of significant bits of an integer. *)
Definition digits (z : Z) : Z := if z =? 0 then 0 else Z.log2 (Z.abs z) + 1.

(** z / 2^k to the nearest integer, ties to even ([0 <= k]). *)
Definition rne (z k : Z) : Z :=
  let q := z / 2 ^ k in
  let r := z mod 2 ^ k in
  if 2 * r <? 2 ^ k then q
  else if 2 ^ k <? 2 * r then q + 1
  else if Z.even q then q else q + 1.

(** The exponent of the last kept bit when z * 2^-s units are rounded: 53
    significant bits, and never finer than one unit (the subnormals). *)
Definition round_exp (z s : Z) : Z := Z.max s (digits z - precision).

(** The double nearest to z * 2^-s units; infinite from 2^1024 on. *)
Definition round (z s : Z) : float64 :=
  let k := round_exp z s in
  let n := rne z k * 2 ^ (k - s) in
  if 2 ^ (1024 + unit_exp) <=? Z.abs n then Inf (n <? 0) else Fin n.

(** The conversion [float64(z)] of an integer, and untyped constants. *)
Definition of_int (z : Z) : float64 := round (z * one_units) 0.

Definition fneg (x : float64) : float64 :=
  match x with
  | NaN => NaN
  | Inf s => Inf (negb s)
  | Fin n => Fin (- n)
  end.

Definition fadd (x y : float64) : float64 :=
  match x, y with
  | NaN, _ | _, NaN => NaN
  | Inf s, Inf t => if Bool.eqb s t then Inf s else NaN
  | Inf s, _ => Inf s
  | _, Inf t => Inf t
  | Fin m, Fin n => round (m + n) 0
  end.

Definition fsub (x y : float64) : float64 := fadd x (fneg y).

Definition fmul (x y : float64) : float64 :=
  match x, y with
  | NaN, _ | _, NaN => NaN
  | Inf s, Inf t => Inf (xorb s t)
  | Inf s, Fin n | Fin n, Inf s =>
      if n =? 0 then NaN else Inf (xorb s (n <? 0))
  | Fin m, Fin n => round (m * n) unit_exp
  end.

(** [x < y]: false as soon as one side is NaN. *)
Definition flt (x y : float64) : bool :=
  match x, y with
  | NaN, _ | _, NaN => false
  | Inf true, Inf true => false
  | Inf true, _ => true
  | _, Inf true => false
  | Inf false, _ => false
  | _, Inf false => true
  | Fin m, Fin n => m <? n
  end.

(** [x <= y]. *)
Definition fle (x y : float64) : bool :=
  match x, y with
  | NaN, _ | _, NaN => false
  | _, _ => negb (flt y x)
  end.

Definition fzero : float64 := Fin 0.
Definition fone : float64 := Fin one_units.

(** The constant 0.9, rounded as the compiler rounds it:
    8106479329266893 * 2^-53. *)
Definition f09 : float64 := Fin (8106479329266893 * 2 ^ (1074 - 53)).

(** The conversion to int64: the fraction is discarded; what is not
    representable is implementation-defined, the argument [oob]. *)
Definition to_int64 (oob : float64 → Z) (x : float64) : Z :=
  match x with
  | Fin n =>
      let z := Z.quot n one_units in
      if bool_decide (is_int64 z) then z else oob x
  | _ => oob x
  end.

(** [rand.Float64] returns k / 2^53 for a uniformly drawn 53-bit integer k. *)
Definition of_draw (k : Z) : float64 := Fin ((k mod 2 ^ 53) * 2 ^ (1074 - 53)).

(** ** Basic facts *)

Lemma one_units_pos : 0 < one_units.
Proof. reflexivity. Qed.

Lemma digits_spec z : z ≠ 0 → 2 ^ (digits z - 1) <= Z.abs z < 2 ^ digits z.
Proof.
  intros Hz. unfold digits. rewrite (proj2 (Z.eqb_neq z 0)) by done.
  replace (Z.log2 (Z.abs z) + 1 - 1) with (Z.log2 (Z.abs z)) by lia.
  pose proof (Z.log2_spec (Z.abs z) ltac:(lia)) as [H1 H2].
  rewrite Z.add_1_r. lia.
Qed.

Lemma digits_nonneg z : 0 <= digits z.
Proof.
  unfold digits. destruct (z =? 0); [lia|].
  pose proof (Z.log2_nonneg (Z.abs z)). lia.
Qed.

Lemma digits_le z p : 0 <= p → Z.abs z < 2 ^ p → digits z <= p.
Proof.
  intros Hp H. unfold digits. destruct (Z.eqb_spec z 0) as [|Hz]; [lia|].
  assert (Z.log2 (Z.abs z) < p) by (apply Z.log2_lt_pow2; lia). lia.
Qed.

Lemma digits_0 : digits 0 = 0.
Proof. reflexivity. Qed.

(** [rne] is within half a unit in the last place. *)
Lemma rne_error z k : 0 <= k → 2 * Z.abs (rne z k * 2 ^ k - z) <= 2 ^ k.
Proof.
  intros Hk. assert (0 < 2 ^ k) by (apply Z.pow_pos_nonneg; lia).
  pose proof (Z.div_mod z (2 ^ k) ltac:(lia)) as Hdm.
  pose proof (Z.mod_pos_bound z (2 ^ k) ltac:(lia)) as Hr.
  unfold rne. generalize dependent (z / 2 ^ k). generalize dependent (z mod 2 ^ k).
  generalize dependent (2 ^ k). intros e He r Hr q Hdm.
  destruct (Z.ltb_spec (2 * r) e); [nia|].
  destruct (Z.ltb_spec e (2 * r)); [nia|].
  destruct (Z.even q); nia.
Qed.

(** Rounding is exact on multiples of the last place. *)
Lemma rne_exact q k : 0 <= k → rne (q * 2 ^ k) k = q.
Proof.
  intros Hk. assert (0 < 2 ^ k) by (apply Z.pow_pos_nonneg; lia).
  unfold rne. rewrite Z.div_mul, Z.mod_mul by lia.
  by rewrite (proj2 (Z.ltb_lt _ _)) by lia.
Qed.

(** [rne] is monotone, hence keeps a value between two exact bounds. *)
Lemma rne_le z q k : 0 <= k → z <= q * 2 ^ k → rne z k <= q.
Proof.
  intros Hk Hle. assert (0 < 2 ^ k) by (apply Z.pow_pos_nonneg; lia).
  pose proof (Z.div_mod z (2 ^ k) ltac:(lia)) as Hdm.
  pose proof (Z.mod_pos_bound z (2 ^ k) ltac:(lia)) as Hr.
  unfold rne. generalize dependent (z / 2 ^ k). generalize dependent (z mod 2 ^ k).
  generalize dependent (2 ^ k). intros e Hle He r Hr d Hdm.
  assert (d <= q) by nia.
  destruct (Z.ltb_spec (2 * r) e); [lia|].
  assert (d + 1 <= q) by nia.
  destruct (e <? 2 * r); [lia|]. destruct (Z.even d); lia.
Qed.

Lemma rne_ge z q k : 0 <= k → q * 2 ^ k <= z → q <= rne z k.
Proof.
  intros Hk Hle. assert (0 < 2 ^ k) by (apply Z.pow_pos_nonneg; lia).
  assert (q <= z / 2 ^ k) by (apply Z.div_le_lower_bound; lia).
  unfold rne. destruct (_ <? _); [lia|]. destruct (_ <? _); [lia|].
  destruct (Z.even _); lia.
Qed.

Lemma round_exp_bounds z s : 0 <= s → 0 <= s <= round_exp z s.
Proof. unfold round_exp. lia. Qed.

(** ** Rounding error

    A value of magnitude at most 2^p units rounds to a finite double of
    magnitude at most 2^p, and moves by at most 2^(p-53) units. *)
Lemma round_error z s p :
  0 <= s → 53 <= p < 1024 + unit_exp → Z.abs z <= 2 ^ (p + s) →
  ∃ n, round z s = Fin n ∧ Z.abs n <= 2 ^ p
       ∧ Z.abs (n * 2 ^ s - z) <= 2 ^ (p - 53 + s).
Proof.
  intros Hs Hp Hz. pose proof (round_exp_bounds z s Hs) as Hk.
  assert (digits z <= p + s + 1) as Hd.
  { apply digits_le; [lia|]. rewrite Z.pow_add_r by lia. lia. }
  assert (round_exp z s <= p + s - 52) as Hk2
    by (unfold round_exp, precision; lia).
  unfold round. generalize dependent (round_exp z s). intros k Hk Hk2.
  pose proof (rne_error z k ltac:(lia)) as He.
  assert (Z.abs (rne z k) <= 2 ^ (p + s - k)) as Hm.
  { assert (2 ^ (p + s) = 2 ^ (p + s - k) * 2 ^ k) as Hsplit
      by (rewrite <-Z.pow_add_r by lia; f_equal; lia).
    apply Z.abs_le. split.
    - apply rne_ge; lia.
    - apply rne_le; lia. }
  exists (rne z k * 2 ^ (k - s)).
  assert (Z.abs (rne z k * 2 ^ (k - s)) <= 2 ^ p) as Hn.
  { rewrite Z.abs_mul, (Z.abs_eq (2 ^ (k - s))) by (apply Z.pow_nonneg; lia).
    replace p with ((p + s - k) + (k - s)) at 1 by lia.
    rewrite Z.pow_add_r by lia. apply Z.mul_le_mono_nonneg_r; [|done].
    apply Z.pow_nonneg; lia. }
  assert (2 ^ p < 2 ^ (1024 + unit_exp)) as Hov
    by (apply Z.pow_lt_mono_r; unfold unit_exp in *; lia).
  rewrite (proj2 (Z.leb_gt _ _)) by lia.
  split_and!; [done|done|].
  rewrite <-Z.mul_assoc, <-Z.pow_add_r by lia.
  replace (k - s + s) with k by lia.
  assert (2 ^ k <= 2 ^ (p - 53 + s + 1)) by (apply Z.pow_le_mono_r; lia).
  rewrite (Z.pow_add_r 2 (p - 53 + s)) in * by lia. lia.
Qed.

(** Values with at most 53 significant bits are represented exactly. *)
Lemma round_exact q j s :
  0 <= s → 0 <= j → Z.abs q < 2 ^ 53 → j + 53 <= 1024 + unit_exp →
  round (q * 2 ^ (j + s)) s = Fin (q * 2 ^ j).
Proof.
  intros Hs Hj Hq Hov.
  assert (round_exp (q * 2 ^ (j + s)) s <= j + s) as Hk.
  { unfold round_exp, precision.
    assert (digits (q * 2 ^ (j + s)) <= 53 + (j + s)); [|lia].
    apply digits_le; [lia|].
    rewrite Z.abs_mul, (Z.abs_eq (2 ^ _)) by (apply Z.pow_nonneg; lia).
    rewrite (Z.pow_add_r 2 53) by lia.
    apply Z.mul_lt_mono_pos_r; [apply Z.pow_pos_nonneg; lia|done]. }
  pose proof (round_exp_bounds (q * 2 ^ (j + s)) s Hs) as Hk'.
  unfold round. generalize dependent (round_exp (q * 2 ^ (j + s)) s).
  intros k Hk Hk'.
  replace (q * 2 ^ (j + s)) with (q * 2 ^ (j + s - k) * 2 ^ k)
    by (rewrite <-Z.mul_assoc, <-Z.pow_add_r by lia; do 2 f_equal; lia).
  rewrite rne_exact by lia.
  rewrite <-Z.mul_assoc, <-Z.pow_add_r by lia.
  replace (j + s - k + (k - s)) with j by lia.
  assert (Z.abs (q * 2 ^ j) < 2 ^ (1024 + unit_exp)).
  { rewrite Z.abs_mul, (Z.abs_eq (2 ^ _)) by (apply Z.pow_nonneg; lia).
    apply Z.lt_le_trans with (2 ^ 53 * 2 ^ j).
    - apply Z.mul_lt_mono_pos_r; [apply Z.pow_pos_nonneg; lia|done].
    - rewrite <-Z.pow_add_r by lia. apply Z.pow_le_mono_r; lia. }
  by rewrite (proj2 (Z.leb_gt _ _)) by lia.
Qed.

(** A positive int64 converts with a relative error of at most 2^-52. *)
Lemma of_int_error z :
  0 < z < 2 ^ 63 →
  ∃ X, of_int z = Fin X ∧ 0 <= X <= 2 ^ digits z * one_units
       ∧ 2 ^ 52 * Z.abs (X - z * one_units) <= z * one_units.
Proof.
  intros Hz. pose proof (digits_spec z ltac:(lia)) as Hd.
  assert (0 < digits z <= 63) as Hdr.
  { split; [|apply digits_le; lia]. pose proof (digits_nonneg z).
    destruct (decide (digits z = 0)) as [E|]; [|lia]. rewrite E in Hd. simpl in Hd. lia. }
  assert (2 ^ digits z = 2 * 2 ^ (digits z - 1)) as H2
    by (rewrite <-Z.pow_succ_r by lia; f_equal; lia).
  destruct (round_error (z * one_units) 0 (digits z + 1074)) as (X & HX & HB & HE).
  - lia.
  - unfold unit_exp. lia.
  - rewrite Z.add_0_r, Z.pow_add_r by lia. fold one_units.
    rewrite Z.abs_mul. pose proof one_units_pos. nia.
  - exists X. split; [done|]. rewrite Z.pow_add_r in HB by lia. fold one_units in HB.
    rewrite Z.pow_0_r, Z.mul_1_r, Z.add_0_r in HE.
    replace (digits z + 1074 - 53) with ((digits z - 1) + (1074 - 52)) in HE by lia.
    rewrite Z.pow_add_r in HE by lia.
    assert (one_units = 2 ^ 52 * 2 ^ (1074 - 52)) as HU
      by (unfold one_units; by rewrite <-Z.pow_add_r by lia).
    generalize dependent (2 ^ (1074 - 52)). intros v HE HU.
    pose proof one_units_pos. rewrite HU in *. split; nia.
Qed.

#[export] Hint Resolve one_units_pos digits_nonneg : ck.
