(* ===== verification/Errors.v ===== *)
(** * Error values

    Go's [error]: the sentinels of the package (cache.go, negative.go) and of
    [context], opaque errors of other code, and what [fmt.Errorf] builds.  An
    error made by [fmt.Errorf] keeps its format, its arguments and, for the
    [%w] verb, the error it wraps; the rendered text is never inspected by
    the program and is not modelled. *)
From S2P Require Import Prelude.

(** ** Definitions *)

(** An argument of a format verb other than [%w]. *)
Inductive fmt_arg :=
| AStr (s : string)
| AInt (n : Z).

Inductive error :=
(** cache.go: the key is absent from the cache *)
| ErrCacheMiss
(** negative.go: the entity does not exist at the source of truth *)
| ErrNotFound
(** context.Canceled and context.DeadlineExceeded *)
| Canceled
| DeadlineExceeded
(** an error value of code outside the package, identified by a name *)
| ErrOther (name : string)
(** fmt.Errorf *)
| Errorf (format : string) (args : list fmt_arg) (wrapped : option error).

#[export] Instance fmt_arg_eq_dec : EqDecision fmt_arg.
Proof. solve_decision. Defined.

#[export] Instance error_eq_dec : EqDecision error.
Proof.
  refine (fix go x y : Decision (x = y) :=
    match x, y with
    | ErrCacheMiss, ErrCacheMiss | ErrNotFound, ErrNotFound
    | Canceled, Canceled | DeadlineExceeded, DeadlineExceeded => left eq_refl
    | ErrOther a, ErrOther b => cast_if (decide (a = b))
    | Errorf f a None, Errorf g b None =>
        cast_if_and (decide (f = g)) (decide (a = b))
    | Errorf f a (Some e), Errorf g b (Some e') =>
        cast_if_and3 (decide (f = g)) (decide (a = b)) (go e e')
    | _, _ => right _
    end); clear go; abstract congruence.
Defined.

(** [errors.Is]: the chain of wrapped errors contains [target]. *)
Fixpoint errors_Is (err target : error) : bool :=
  bool_decide (err = target) ||
  match err with
  | Errorf _ _ (Some e) => errors_Is e target
  | _ => false
  end.

(** cache.go, IsMiss. *)
Definition IsMiss (err : error) : bool := errors_Is err ErrCacheMiss.

(** What a Go function with results [(T, error)] returns. *)
Inductive result (A : Type) :=
| Ok (a : A)
| Err (e : error).
Arguments Ok {A} a.
Arguments Err {A} e.

(** What running a Go function that may panic leads to: a return, or a panic
    carrying a value (here its printed form). *)
Inductive outcome (A : Type) :=
| Returned (a : A)
| Panicked (v : string).
Arguments Returned {A} a.
Arguments Panicked {A} v.

Definition is_Ok {A} (r : result A) : bool :=
  match r with Ok _ => true | Err _ => false end.

(** ** Lemmas *)

Lemma errors_Is_refl e : errors_Is e e = true.
Proof. destruct e; cbn [errors_Is]; by rewrite bool_decide_eq_true_2. Qed.

(** Wrapping with [%w] is transparent to [errors.Is]. *)
Lemma errors_Is_wrap f a e t :
  errors_Is e t = true → errors_Is (Errorf f a (Some e)) t = true.
Proof. cbn [errors_Is]. intros ->. apply orb_true_r. Qed.

Lemma errors_Is_Errorf_leaf f a e t :
  (∀ f' a' w', t ≠ Errorf f' a' w') →
  errors_Is (Errorf f a (Some e)) t = errors_Is e t.
Proof. intros Ht. cbn [errors_Is]. rewrite bool_decide_eq_false_2; [done|]. intros <-. by eapply Ht. Qed.

Lemma IsMiss_wrap f a e : IsMiss (Errorf f a (Some e)) = IsMiss e.
Proof. by apply errors_Is_Errorf_leaf. Qed.

#[export] Hint Resolve errors_Is_refl errors_Is_wrap : ck.
