(* ===== verification/Runtime.v ===== *)
(** * The run-time: code, clock, randomness, contexts

    The package is written once, in the monad [act] of atomic steps over a
    [World].  [run] executes the steps one after the other (the sequential
    meaning); Flights.v interleaves the steps of several goroutines (the
    concurrent meaning).  The store the caches live in is the type parameter
    [S].  What the machine decides - how much time passes before a reading of
    the clock, the random draws, the iteration order of a map, the libm
    logarithm and the conversion of an unrepresentable float - is in the
    [Oracle] of the world, over which every theorem quantifies. *)
From S2P Require Import Prelude Int64 Float64 Errors.
From Stdlib Require Import ZArith Lia.
Local Open Scope Z_scope.

(** ** Time

    [time.Time] is an instant, in nanoseconds since the zero Time (January 1,
    year 1 UTC); the wall and the monotonic reading of an instant are taken to
    agree. *)
Abbreviation Time := Z (only parsing).

Definition zero_time : Time := 0.
Definition IsZero (t : Time) : bool := t =? zero_time.
Definition After (t u : Time) : bool := u <? t.
Definition Before (t u : Time) : bool := t <? u.
Definition time_Add (t : Time) (d : Duration) : Time := t + d.

(** [Time.Sub] saturates at the ends of int64. *)
Definition time_Sub (t u : Time) : Duration :=
  Z.max min_int64 (Z.min max_int64 (t - u)).

(** The Unix epoch: 62135596800 seconds after the zero Time. *)
Definition unix_epoch : Time := 62135596800 * 1000000000.

(** [Time.UnixMilli] and [time.UnixMilli]. *)
Definition UnixMilli (t : Time) : Z := wrap64 ((t - unix_epoch) / Millisecond).
Definition of_UnixMilli (ms : Z) : Time := unix_epoch + ms * Millisecond.

(** ** Contexts

    What the package observes of a [context.Context]: its values, the
    cancellation signals it listens to, its deadline. *)
Record Context := mkContext {
  cx_values : nat;
  cx_tokens : list nat;
  cx_deadline : option Time
}.

Definition Background : Context := mkContext 0 [] None.

(** [context.WithoutCancel] keeps the values only. *)
Definition WithoutCancel (ctx : Context) : Context :=
  mkContext (cx_values ctx) [] None.

(** [context.WithDeadline] never extends an earlier deadline. *)
Definition WithDeadline (ctx : Context) (d : Time) : Context :=
  mkContext (cx_values ctx) (cx_tokens ctx)
    (Some (match cx_deadline ctx with Some d' => Z.min d' d | None => d end)).

(** ** Events: the calls to the user's hooks, in order *)

Inductive Op := OpGet | OpSet | OpDelete | OpDecode | OpEncode | OpRefresh.

Inductive event :=
| EvHit (key : string)
| EvMiss (key : string)
| EvError (op : Op) (key : string) (err : error)
| EvLoad (key : string) (dur : Duration) (err : option error).

#[export] Instance Op_eq_dec : EqDecision Op.
Proof. solve_decision. Defined.
#[export] Instance event_eq_dec : EqDecision event.
Proof. solve_decision. Defined.

(** ** The world *)

Record Oracle := {
  tick : nat → N;            (* nanoseconds before the n-th clock reading *)
  draw : nat → Z;              (* the n-th random 53-bit integer *)
  order : nat → nat;           (* the seed of the n-th map iteration *)
  select : nat → bool;         (* the n-th choice between two ready cases *)
  libm_log : float64 → float64;
  float_oob : float64 → Z      (* int64 of an unrepresentable float *)
}.

Record World (S : Type) := mkWorld {
  w_orc : Oracle;
  w_reads : nat;               (* clock readings so far *)
  w_draws : nat;               (* random draws so far *)
  w_ranges : nat;              (* map iterations so far *)
  w_selects : nat;             (* select choices so far *)
  w_time : Time;
  w_canceled : list nat;       (* the cancellation signals that fired *)
  w_store : S;
  w_trace : list event
}.
Arguments mkWorld {S}.
Arguments w_orc {S}. Arguments w_reads {S}. Arguments w_draws {S}.
Arguments w_ranges {S}. Arguments w_selects {S}. Arguments w_time {S}.
Arguments w_canceled {S}. Arguments w_store {S}. Arguments w_trace {S}.

Definition set_store {S} (s : S) (w : World S) : World S :=
  mkWorld (w_orc w) (w_reads w) (w_draws w) (w_ranges w) (w_selects w)
    (w_time w) (w_canceled w) s (w_trace w).

Definition add_event {S} (e : event) (w : World S) : World S :=
  mkWorld (w_orc w) (w_reads w) (w_draws w) (w_ranges w) (w_selects w)
    (w_time w) (w_canceled w) (w_store w) (w_trace w ++ [e]).

(** Let [d] more nanoseconds pass. *)
Definition elapse {S} (d : N) (w : World S) : World S :=
  mkWorld (w_orc w) (w_reads w) (w_draws w) (w_ranges w) (w_selects w)
    (w_time w + Z.of_N d) (w_canceled w) (w_store w) (w_trace w).

(** One clock reading: the reading and the world after it. *)
Definition read_clock {S} (w : World S) : Time * World S :=
  let t := w_time w + Z.of_N (tick (w_orc w) (w_reads w)) in
  (t, mkWorld (w_orc w) (1 + w_reads w) (w_draws w) (w_ranges w) (w_selects w)
        t (w_canceled w) (w_store w) (w_trace w)).

(** One call of [rand.Float64]. *)
Definition read_rand {S} (w : World S) : float64 * World S :=
  (of_draw (draw (w_orc w) (w_draws w)),
   mkWorld (w_orc w) (w_reads w) (1 + w_draws w) (w_ranges w) (w_selects w)
     (w_time w) (w_canceled w) (w_store w) (w_trace w)).

(** The key/value pairs of a map in the order a [range] visits them. *)
Definition range_map {S A} (m : gmap string A) (w : World S)
    : list (string * A) * World S :=
  let l := map_to_list m in
  (shuffle (length l) (order (w_orc w) (w_ranges w)) l,
   mkWorld (w_orc w) (w_reads w) (w_draws w) (1 + w_ranges w) (w_selects w)
     (w_time w) (w_canceled w) (w_store w) (w_trace w)).

(** The choice of a [select] with two ready cases. *)
Definition read_select {S} (w : World S) : bool * World S :=
  (select (w_orc w) (w_selects w),
   mkWorld (w_orc w) (w_reads w) (w_draws w) (w_ranges w) (1 + w_selects w)
     (w_time w) (w_canceled w) (w_store w) (w_trace w)).

(** [ctx.Err()]: nil until a signal it listens to fires or its deadline
    passes. *)
Definition ctx_Err {S} (ctx : Context) (w : World S) : option error :=
  if existsb (λ t, bool_decide (t ∈ w_canceled w)) (cx_tokens ctx)
  then Some Canceled
  else match cx_deadline ctx with
       | Some d => if d <=? w_time w then Some DeadlineExceeded else None
       | None => None
       end.

(** ** Code *)

Inductive act (S A : Type) :=
| Ret (a : A)
| Step (f : World S → act S A * World S).
Arguments Ret {S A} a.
Arguments Step {S A} f.

Fixpoint run {S A} (m : act S A) (w : World S) : A * World S :=
  match m with
  | Ret a => (a, w)
  | Step f => let '(m', w') := f w in run m' w'
  end.

Fixpoint act_bind_def {S A B} (k : A → act S B) (m : act S A) : act S B :=
  match m with
  | Ret a => k a
  | Step f => Step (λ w, let '(m', w') := f w in (act_bind_def k m', w'))
  end.

#[export] Instance act_ret S : MRet (act S) := λ A a, Ret a.
#[export] Instance act_mbind S : MBind (act S) := λ A B k m, act_bind_def k m.

(** One atomic step. *)
Definition atom {S A} (f : World S → A * World S) : act S A :=
  Step (λ w, let '(a, w') := f w in (Ret a, w')).

Definition now {S} : act S Time := atom read_clock.
Definition rand_Float64 {S} : act S float64 := atom read_rand.
Definition get_oracle {S} : act S Oracle := atom (λ w, (w_orc w, w)).
Definition emit {S} (e : event) : act S () := atom (λ w, ((), add_event e w)).
Definition range {S A} (m : gmap string A) : act S (list (string * A)) :=
  atom (range_map m).

Definition get_store {S} : act S S := atom (λ w, (w_store w, w)).
Definition modify_store {S} (f : S → S) : act S () :=
  atom (λ w, ((), set_store (f (w_store w)) w)).

(** Code between a mutex's Lock and Unlock: one step for everybody else. *)
Definition locked {S A} (m : act S A) : act S A := atom (run m).

(** [context.WithTimeout] reads the clock. *)
Definition WithTimeout {S} (ctx : Context) (d : Duration) : act S Context :=
  t ← now; mret (WithDeadline ctx (time_Add t d)).

(** A loop over a slice for its effects, and one that threads a value. *)
Fixpoint for_each {S A} (f : A → act S ()) (l : list A) : act S () :=
  match l with
  | [] => mret ()
  | x :: l' => f x;; for_each f l'
  end.

Fixpoint for_fold {S A B} (f : B → A → act S B) (b : B) (l : list A) : act S B :=
  match l with
  | [] => mret b
  | x :: l' => b' ← f b x; for_fold f b' l'
  end.

(** ** Equality of code *)

(** Two pieces of code are equal when they run to the same result and world
    from every world: the equivalence the monad laws hold for. *)
Definition act_eq {S A} (m1 m2 : act S A) : Prop := ∀ w, run m1 w = run m2 w.
#[export] Instance act_equiv S A : Equiv (act S A) := act_eq.

Section run.
Context {S : Type}.

(** Induction on code, with the hypothesis for every step the code may take. *)
Fixpoint act_rect' {A} (P : act S A → Prop) (HR : ∀ a, P (Ret a))
    (HS : ∀ f, (∀ w, P (f w).1) → P (Step f)) (m : act S A) : P m :=
  match m with
  | Ret a => HR a
  | Step f => HS f (λ w, act_rect' P HR HS (f w).1)
  end.

Lemma run_ret {A} (a : A) (w : World S) : run (mret a) w = (a, w).
Proof. done. Qed.

Lemma run_atom {A} (f : World S → A * World S) w : run (atom f) w = f w.
Proof. simpl. by destruct (f w). Qed.

Lemma run_bind {A B} (m : act S A) (k : A → act S B) w :
  run (m ≫= k) w = run (k (run m w).1) (run m w).2.
Proof.
  revert w. induction m as [a|f IH] using act_rect'; intros w; [done|].
  simpl. specialize (IH w). destruct (f w) as [m' w']. apply IH.
Qed.

#[export] Instance act_eq_equivalence A : Equivalence (≡@{act S A}).
Proof.
  split.
  - by intros m w.
  - intros m1 m2 H w. by rewrite H.
  - intros m1 m2 m3 H1 H2 w. by rewrite H1.
Qed.

#[export] Instance run_proper A : Proper ((≡@{act S A}) ==> (=) ==> (=)) run.
Proof. intros m1 m2 H w ? <-. apply H. Qed.

#[export] Instance bind_proper A B :
  Proper (pointwise_relation A (≡) ==> (≡) ==> (≡@{act S B}))
    (mbind (M := act S)).
Proof.
  intros k1 k2 Hk m1 m2 Hm w. rewrite !run_bind, (Hm w). apply Hk.
Qed.

Lemma bind_ret_l {A B} (a : A) (k : A → act S B) : mret a ≫= k ≡ k a.
Proof. intros w. by rewrite run_bind. Qed.

Lemma bind_ret_r {A} (m : act S A) : m ≫= mret ≡ m.
Proof. intros w. rewrite run_bind, run_ret. by destruct (run m w). Qed.

Lemma bind_assoc {A B C} (m : act S A) (k : A → act S B) (h : B → act S C) :
  (m ≫= k) ≫= h ≡ m ≫= (λ x, k x ≫= h).
Proof. intros w. by rewrite !run_bind. Qed.

Lemma run_now (w : World S) : run now w = read_clock w.
Proof. apply run_atom. Qed.

Lemma run_rand (w : World S) : run rand_Float64 w = read_rand w.
Proof. apply run_atom. Qed.

Lemma run_emit e (w : World S) : run (emit e) w = ((), add_event e w).
Proof. done. Qed.

Lemma run_range {A} (m : gmap string A) (w : World S) :
  run (range m) w = range_map m w.
Proof. apply run_atom. Qed.

Lemma run_oracle (w : World S) : run get_oracle w = (w_orc w, w).
Proof. done. Qed.

Lemma run_get_store (w : World S) : run get_store w = (w_store w, w).
Proof. done. Qed.

Lemma run_modify_store f (w : World S) :
  run (modify_store f) w = ((), set_store (f (w_store w)) w).
Proof. done. Qed.

Lemma run_locked {A} (m : act S A) w : run (locked m) w = run m w.
Proof. apply run_atom. Qed.

Lemma run_for_each_cons {A} (f : A → act S ()) x l w :
  run (for_each f (x :: l)) w = run (for_each f l) (run (f x) w).2.
Proof. simpl. by rewrite run_bind. Qed.

Lemma run_for_fold_cons {A B} (f : B → A → act S B) b x l w :
  run (for_fold f b (x :: l)) w
  = run (for_fold f (run (f b x) w).1 l) (run (f b x) w).2.
Proof. simpl. by rewrite run_bind. Qed.

(** Loop rules: an invariant indexed by the elements already visited. *)
Lemma for_fold_inv {A B} (P : list A → B → World S → Prop)
    (f : B → A → act S B) l b w :
  (∀ seen x rest b w, l = seen ++ x :: rest → P seen b w →
     P (seen ++ [x]) (run (f b x) w).1 (run (f b x) w).2) →
  P [] b w →
  P l (run (for_fold f b l) w).1 (run (for_fold f b l) w).2.
Proof.
  intros Hf H. assert (∀ seen rest b w, l = seen ++ rest → P seen b w →
    P l (run (for_fold f b rest) w).1 (run (for_fold f b rest) w).2)
    as Hgen; [|by apply (Hgen [])].
  clear H b w. intros seen rest. revert seen.
  induction rest as [|x rest IH]; intros seen b w Hl H.
  - rewrite app_nil_r in Hl. by subst.
  - rewrite run_for_fold_cons. apply (IH (seen ++ [x])).
    + by rewrite <-(assoc_L (++)).
    + by eapply Hf.
Qed.

Lemma for_each_inv {A} (P : list A → World S → Prop) (f : A → act S ()) l w :
  (∀ seen x rest w, l = seen ++ x :: rest → P seen w → P (seen ++ [x]) (run (f x) w).2) →
  P [] w →
  P l (run (for_each f l) w).2.
Proof.
  intros Hf H. assert (∀ seen rest w, l = seen ++ rest → P seen w →
    P l (run (for_each f rest) w).2) as Hgen; [|by apply (Hgen [])].
  clear H w. intros seen rest. revert seen.
  induction rest as [|x rest IH]; intros seen w Hl H.
  - rewrite app_nil_r in Hl. by subst.
  - rewrite run_for_each_cons. apply (IH (seen ++ [x])).
    + by rewrite <-(assoc_L (++)).
    + by eapply Hf.
Qed.
(** A [range] visits every pair once. *)
Lemma range_map_spec {A} (m : gmap string A) (w : World S) :
  (range_map m w).1 ≡ₚ map_to_list m ∧ NoDup (range_map m w).1.*1.
Proof.
  unfold range_map. cbn [fst]. pose proof (shuffle_Permutation
    (length (map_to_list m)) (order (w_orc w) (w_ranges w)) (map_to_list m)) as H.
  split; [done|]. rewrite H. apply NoDup_fst_map_to_list.
Qed.

End run.

#[export] Hint Rewrite @run_bind @run_ret @run_now @run_rand @run_emit @run_range
  @run_oracle @run_get_store @run_modify_store @run_locked @run_atom : ckrun.

(** Execute the code at the head of the goal. *)
Ltac step := autorewrite with ckrun; cbn [fst snd].

(** ** What every step respects *)

(** Code for which the clock does not run backwards. *)
Definition monotone {S A} (m : act S A) : Prop :=
  ∀ w, w_time w <= w_time (run m w).2.

(** Code that leaves the store alone. *)
Definition pure_store {S A} (m : act S A) : Prop :=
  ∀ w, w_store (run m w).2 = w_store w.

Section respects.
Context {S : Type}.

Lemma monotone_ret {A} (a : A) : monotone (S := S) (mret a).
Proof. intros w. simpl. lia. Qed.

Lemma monotone_bind {A B} (m : act S A) (k : A → act S B) :
  monotone m → (∀ a, monotone (k a)) → monotone (m ≫= k).
Proof.
  intros Hm Hk w. rewrite run_bind. specialize (Hm w).
  specialize (Hk (run m w).1 (run m w).2). lia.
Qed.

Lemma monotone_now : monotone (S := S) now.
Proof. intros w. rewrite run_now. simpl. lia. Qed.

Lemma monotone_emit e : monotone (S := S) (emit e).
Proof. intros w. rewrite run_emit. simpl. lia. Qed.

Lemma monotone_rand : monotone (S := S) rand_Float64.
Proof. intros w. rewrite run_rand. simpl. lia. Qed.

Lemma monotone_oracle : monotone (S := S) get_oracle.
Proof. intros w. rewrite run_oracle. simpl. lia. Qed.

Lemma monotone_range {A} (m : gmap string A) : monotone (S := S) (range m).
Proof. intros w. rewrite run_range. simpl. lia. Qed.

Lemma pure_ret {A} (a : A) : pure_store (S := S) (mret a).
Proof. done. Qed.

Lemma pure_bind {A B} (m : act S A) (k : A → act S B) :
  pure_store m → (∀ a, pure_store (k a)) → pure_store (m ≫= k).
Proof. intros Hm Hk w. rewrite run_bind, Hk. apply Hm. Qed.

Lemma pure_now : pure_store (S := S) now.
Proof. intros w. by rewrite run_now. Qed.

Lemma pure_emit e : pure_store (S := S) (emit e).
Proof. intros w. by rewrite run_emit. Qed.

Lemma pure_rand : pure_store (S := S) rand_Float64.
Proof. intros w. by rewrite run_rand. Qed.

Lemma pure_oracle : pure_store (S := S) get_oracle.
Proof. intros w. by rewrite run_oracle. Qed.
End respects.

#[export] Hint Resolve monotone_ret monotone_bind monotone_now monotone_emit
  monotone_rand monotone_oracle monotone_range pure_ret pure_bind pure_now
  pure_emit pure_rand pure_oracle : ck.

(** ** Contexts: lemmas *)

(** A detached context never ends. *)
Lemma ctx_Err_WithoutCancel {S} ctx (w : World S) :
  ctx_Err (WithoutCancel ctx) w = None.
Proof. done. Qed.

Lemma ctx_Err_Background {S} (w : World S) : ctx_Err Background w = None.
Proof. done. Qed.
