(* ===== verification/Envelope.v ===== *)
(** * The metadata envelope and the negative marker (envelope.go, negative.go)

    What the GetOrSet helpers store: either bare payload bytes, or the payload
    behind a 21-byte header (magic, freshness deadline, load duration), or the
    marker of a negative entry. *)
From S2P Require Import Prelude Int64 Float64 Errors Runtime.
From Stdlib Require Import ZArith Lia.
Local Open Scope Z_scope.

(** ** negative.go *)

Definition negativeMarker : bytes :=
  [x00] ++ bytes_of_string "cachekit:negative" ++ [x00].

Definition isNegativeEntry (data : bytes) : bool :=
  bytes_Equal data negativeMarker.

(** ** envelope.go *)

Definition envelopeMagic : bytes := [x00] ++ bytes_of_string "cke1".

Definition envelopeHeaderLen : nat := 5 + 8 + 8.

Record envelope := mkEnvelope {
  freshUntil : Time;   (* zero: fresh until the backend's TTL expires *)
  delta : Duration     (* duration of the load that produced the entry *)
}.

#[export] Instance envelope_eq_dec : EqDecision envelope.
Proof. solve_decision. Defined.

(** The zero value [envelope{}]. *)
Definition no_envelope : envelope := mkEnvelope zero_time 0.

Definition wrapEnvelope (payload : bytes) (fu : Time) (d : Duration) : bytes :=
  let fu_ms := if negb (IsZero fu) then UnixMilli fu else 0 in
  envelopeMagic
    ++ PutUint64 (uint64 fu_ms)
    ++ PutUint64 (uint64 (Milliseconds d))
    ++ payload.

Definition hasEnvelope (data : bytes) : bool :=
  (envelopeHeaderLen <=? length data)%nat && bytes_HasPrefix data envelopeMagic.

Definition parseEnvelope (data : bytes) : envelope * bytes :=
  if (length data <? envelopeHeaderLen)%nat
     || negb (bytes_HasPrefix data envelopeMagic)
  then (no_envelope, data)
  else
    let fu := wrap64 (Uint64 (drop 5 data)) in
    let e_fresh := if negb (fu =? 0) then of_UnixMilli fu else zero_time in
    let e_delta := dur_mul (wrap64 (Uint64 (drop 13 data))) Millisecond in
    (mkEnvelope e_fresh e_delta, drop envelopeHeaderLen data).

(** Past the freshness window. *)
Definition stale (e : envelope) (now : Time) : bool :=
  negb (IsZero (freshUntil e)) && After now (freshUntil e).

(** XFetch.  The random draw, the logarithm and the conversion of an
    overflowing spread come from the oracle. *)
Definition shouldEarlyRefresh {S} (e : envelope) (now : Time) (beta : float64)
    : act S bool :=
  if fle beta fzero || IsZero (freshUntil e) then mret false
  else
    let d := if delta e <=? 0 then Millisecond else delta e in
    u ← rand_Float64;
    o ← get_oracle;
    let spread :=
      to_int64 (float_oob o)
        (fmul (fmul (of_int d) beta) (fneg (libm_log o (fsub fone u)))) in
    mret (After (time_Add now spread) (freshUntil e)).

(** ** Shape of what is stored *)

Lemma wrapEnvelope_length p fu d :
  length (wrapEnvelope p fu d) = (envelopeHeaderLen + length p)%nat.
Proof. unfold wrapEnvelope. rewrite !length_app, !PutUint64_length. done. Qed.

Lemma wrapEnvelope_hasEnvelope p fu d : hasEnvelope (wrapEnvelope p fu d) = true.
Proof.
  unfold hasEnvelope. rewrite wrapEnvelope_length. apply andb_true_iff. split.
  - apply Nat.leb_le. lia.
  - apply bytes_HasPrefix_app.
Qed.

Lemma hasEnvelope_parse data :
  hasEnvelope data = false → parseEnvelope data = (no_envelope, data).
Proof.
  unfold hasEnvelope, parseEnvelope. intros H.
  destruct (Nat.ltb_spec (length data) envelopeHeaderLen); [done|].
  rewrite (proj2 (Nat.leb_le _ _)) in H by done. simpl in *. by rewrite H.
Qed.

Lemma drop_header (m a b p : bytes) :
  length m = 5%nat → length a = 8%nat → length b = 8%nat →
  drop 5 (m ++ a ++ b ++ p) = a ++ b ++ p
  ∧ drop 13 (m ++ a ++ b ++ p) = b ++ p
  ∧ drop envelopeHeaderLen (m ++ a ++ b ++ p) = p.
Proof.
  intros Hm Ha Hb. split_and!.
  - by rewrite drop_app_length'.
  - rewrite (assoc_L (++) m a). rewrite drop_app_length'; [done|].
    rewrite length_app. lia.
  - rewrite (assoc_L (++) m a), (assoc_L (++) _ b).
    rewrite drop_app_length'; [done|]. rewrite !length_app, Hm, Ha, Hb. done.
Qed.

(** Parsing a wrapped payload, whatever the metadata. *)
Lemma parse_wrap p fu d :
  parseEnvelope (wrapEnvelope p fu d)
  = (mkEnvelope
       (let ms := if negb (IsZero fu) then UnixMilli fu else 0 in
        if negb (ms =? 0) then of_UnixMilli ms else zero_time)
       (dur_mul (wrap64 (Milliseconds d)) Millisecond), p).
Proof.
  unfold parseEnvelope.
  pose proof (wrapEnvelope_hasEnvelope p fu d) as H.
  unfold hasEnvelope in H. apply andb_true_iff in H as [Hl Hp].
  apply Nat.leb_le in Hl. rewrite (proj2 (Nat.ltb_ge _ _)) by lia.
  rewrite Hp. cbn [negb orb]. unfold wrapEnvelope.
  destruct (drop_header envelopeMagic
    (PutUint64 (uint64 (if negb (IsZero fu) then UnixMilli fu else 0)))
    (PutUint64 (uint64 (Milliseconds d))) p) as (-> & -> & ->);
    [done|apply PutUint64_length..|].
  rewrite !Uint64_PutUint64.
  assert (∀ z, wrap64 (uint64 (uint64 z)) = wrap64 z) as Hw.
  { intros z. by rewrite !wrap64_uint64. }
  rewrite !Hw.
  assert (wrap64 (if negb (IsZero fu) then UnixMilli fu else 0)
          = if negb (IsZero fu) then UnixMilli fu else 0) as ->; [|done].
  destruct (negb (IsZero fu)); [|done].
  apply wrap64_id, wrap64_range.
Qed.

Lemma parse_payload_wrap p fu d : (parseEnvelope (wrapEnvelope p fu d)).2 = p.
Proof. by rewrite parse_wrap. Qed.

(** The instants whose millisecond count fits an int64: years -292 million to
    +292 million. *)
Definition unixmilli_ok (t : Time) : Prop := is_int64 ((t - unix_epoch) / Millisecond).

(** The freshness deadline an envelope carries: the written one, truncated to
    the millisecond. *)
Definition trunc_ms (t : Time) : Time := of_UnixMilli ((t - unix_epoch) / Millisecond).

Lemma trunc_ms_bounds t : trunc_ms t <= t < trunc_ms t + Millisecond.
Proof.
  unfold trunc_ms, of_UnixMilli, Millisecond.
  pose proof (Z.div_mod (t - unix_epoch) 1000000 ltac:(lia)).
  pose proof (Z.mod_pos_bound (t - unix_epoch) 1000000 ltac:(lia)). lia.
Qed.

Lemma UnixMilli_of_UnixMilli ms : is_int64 ms → UnixMilli (of_UnixMilli ms) = ms.
Proof.
  intros H. unfold UnixMilli, of_UnixMilli.
  replace (unix_epoch + ms * Millisecond - unix_epoch) with (ms * Millisecond) by lia.
  rewrite Z.div_mul by done. by apply wrap64_id.
Qed.

(** Every instant after the epoch's first millisecond survives. *)
Lemma parse_wrap_fresh p fu d :
  unixmilli_ok fu → unix_epoch + Millisecond <= fu → is_int64 d →
  parseEnvelope (wrapEnvelope p fu d)
  = (mkEnvelope (trunc_ms fu) (Milliseconds d * Millisecond), p).
Proof.
  intros Hok Hfu Hd. rewrite parse_wrap. do 2 f_equal.
  - unfold IsZero, zero_time. rewrite (proj2 (Z.eqb_neq fu 0))
      by (unfold unix_epoch, Millisecond in *; lia).
    cbn [negb]. unfold UnixMilli. rewrite wrap64_id by done.
    assert (1 <= (fu - unix_epoch) / Millisecond).
    { apply Z.div_le_lower_bound; unfold Millisecond in *; lia. }
    rewrite (proj2 (Z.eqb_neq _ 0)) by lia. done.
  - rewrite wrap64_id by eauto with ck. apply wrap64_id. eauto with ck.
Qed.

Lemma parse_wrap_zero p d :
  is_int64 d →
  parseEnvelope (wrapEnvelope p zero_time d)
  = (mkEnvelope zero_time (Milliseconds d * Millisecond), p).
Proof.
  intros Hd. rewrite parse_wrap. do 2 f_equal.
  rewrite wrap64_id by eauto with ck. apply wrap64_id. eauto with ck.
Qed.

(** The range of deadlines that matters here: until the year 2554. *)
Lemma unixmilli_ok_range t : unix_epoch <= t <= unix_epoch + 2 ^ 64 → unixmilli_ok t.
Proof.
  intros H. assert (0 <= (t - unix_epoch) / Millisecond <= 2 ^ 63 - 1);
    [|unfold unixmilli_ok, is_int64, min_int64, max_int64; lia].
  split; [apply Z.div_pos|apply Z.div_le_upper_bound]; unfold Millisecond in *; lia.
Qed.

(** The deadline alone, whatever the load duration. *)
Lemma parse_wrap_deadline p fu d :
  unix_epoch + Millisecond <= fu <= unix_epoch + 2 ^ 64 →
  freshUntil (parseEnvelope (wrapEnvelope p fu d)).1 = trunc_ms fu.
Proof.
  intros Hfu. assert (unixmilli_ok fu) as Hok
    by (apply unixmilli_ok_range; unfold Millisecond in *; lia).
  pose proof (parse_wrap_fresh p fu 0 Hok (proj1 Hfu) ltac:(done)) as H.
  rewrite parse_wrap in H |- *. exact (f_equal (λ r, freshUntil r.1) H).
Qed.

(** A negative marker is too short to be an envelope, an envelope too long to
    be a negative marker. *)
Lemma hasEnvelope_not_negative data :
  hasEnvelope data = true → isNegativeEntry data = false.
Proof.
  unfold hasEnvelope, isNegativeEntry. intros [Hl _]%andb_true_iff.
  apply Nat.leb_le in Hl. apply bool_decide_eq_false. intros ->.
  vm_compute in Hl. lia.
Qed.

Lemma negativeMarker_bare : parseEnvelope negativeMarker = (no_envelope, negativeMarker).
Proof. done. Qed.

(** The backend never serves a stale entry as fresh: [stale] is monotone. *)
Lemma stale_mono e t t' : t <= t' → stale e t = true → stale e t' = true.
Proof.
  unfold stale, After. intros Ht [-> H]%andb_true_iff. simpl. apply Z.ltb_lt in H.
  apply Z.ltb_lt. lia.
Qed.

Lemma stale_no_envelope t : stale no_envelope t = false.
Proof. done. Qed.

(** Without beta or without metadata the early refresh neither fires nor draws. *)
Lemma shouldEarlyRefresh_off {S} e t beta (w : World S) :
  fle beta fzero = true ∨ IsZero (freshUntil e) = true →
  run (shouldEarlyRefresh e t beta) w = (false, w).
Proof.
  unfold shouldEarlyRefresh. intros [-> | ->]; [done|]. by rewrite orb_true_r.
Qed.

Lemma monotone_shouldEarlyRefresh {S} e t beta :
  monotone (S := S) (shouldEarlyRefresh e t beta).
Proof. unfold shouldEarlyRefresh. case_match; eauto 10 with ck. Qed.

Lemma pure_shouldEarlyRefresh {S} e t beta :
  pure_store (S := S) (shouldEarlyRefresh e t beta).
Proof. unfold shouldEarlyRefresh. case_match; eauto 10 with ck. Qed.

#[export] Hint Resolve wrapEnvelope_hasEnvelope hasEnvelope_not_negative
  monotone_shouldEarlyRefresh pure_shouldEarlyRefresh : ck.
