(* ===== verification/Hooks.v ===== *)
(** * Hooks and the cache configuration (hooks.go)

    A callback of [Hooks] is user code: the model keeps whether it is set, and
    records each call of a set callback, with its arguments, in the trace of
    the world. *)
From S2P Require Import Prelude Int64 Float64 Errors Runtime Envelope.
From Stdlib Require Import ZArith Lia.
Local Open Scope Z_scope.

(** ** Definitions *)

Definition Op_string (op : Op) : string :=
  match op with
  | OpGet => "get"
  | OpSet => "set"
  | OpDelete => "delete"
  | OpDecode => "decode"
  | OpEncode => "encode"
  | OpRefresh => "refresh"
  end.

(** Which of the four callbacks are non-nil. *)
Record Hooks := mkHooks {
  OnHit : bool;
  OnMiss : bool;
  OnError : bool;
  OnLoad : bool
}.

(** The zero value: every callback nil. *)
Definition no_hooks : Hooks := mkHooks false false false false.
(** Every callback set. *)
Definition all_hooks : Hooks := mkHooks true true true true.

Definition hooks_hit {S} (h : Hooks) (key : string) : act S () :=
  if OnHit h then emit (EvHit key) else mret ().

Definition hooks_miss {S} (h : Hooks) (key : string) : act S () :=
  if OnMiss h then emit (EvMiss key) else mret ().

Definition hooks_error {S} (h : Hooks) (op : Op) (key : string) (err : error)
    : act S () :=
  if OnError h then emit (EvError op key err) else mret ().

Definition hooks_load {S} (h : Hooks) (key : string) (dur : Duration)
    (err : option error) : act S () :=
  if OnLoad h then emit (EvLoad key dur err) else mret ().

Record cacheConfig := mkConfig {
  cfg_hooks : Hooks;
  cfg_negativeTTL : Duration;
  cfg_defaultTTL : Duration;
  cfg_staleTTL : Duration;
  cfg_earlyRefreshBeta : float64;
  cfg_ttlJitter : float64
}.

(** The zero value [cacheConfig{}]. *)
Definition no_config : cacheConfig := mkConfig no_hooks 0 0 0 fzero fzero.

Definition envelopeEnabled (c : cacheConfig) : bool :=
  (0 <? cfg_staleTTL c) || flt fzero (cfg_earlyRefreshBeta c).

Definition parseStored (c : cacheConfig) (data : bytes) : envelope * bytes :=
  if negb (envelopeEnabled c) then (no_envelope, data) else parseEnvelope data.

(** [configOf]: the configuration of a cache that has one (the type assertion
    to [configured]), the zero value for any other. *)
Definition configOf (configured : option cacheConfig) : cacheConfig :=
  match configured with Some cfg => cfg | None => no_config end.

(** ** Lemmas *)

(** What a hook call adds to the trace. *)
Definition ev_if (b : bool) (e : event) : list event := if b then [e] else [].

(** The world after events were appended to its trace. *)
Definition add_events {S} (l : list event) (w : World S) : World S :=
  mkWorld (w_orc w) (w_reads w) (w_draws w) (w_ranges w) (w_selects w)
    (w_time w) (w_canceled w) (w_store w) (w_trace w ++ l).

Section hooks.
Context {S : Type}.
Implicit Types (w : World S) (h : Hooks).

Lemma add_events_nil w : add_events [] w = w.
Proof. destruct w. unfold add_events. simpl. by rewrite app_nil_r. Qed.

Lemma add_events_app l l' w : add_events l' (add_events l w) = add_events (l ++ l') w.
Proof. unfold add_events. simpl. by rewrite assoc_L by apply _. Qed.

Lemma run_hooks_hit h k w :
  run (hooks_hit h k) w = ((), add_events (ev_if (OnHit h) (EvHit k)) w).
Proof. unfold hooks_hit, ev_if. destruct (OnHit h); [done|]. by rewrite add_events_nil. Qed.

Lemma run_hooks_miss h k w :
  run (hooks_miss h k) w = ((), add_events (ev_if (OnMiss h) (EvMiss k)) w).
Proof. unfold hooks_miss, ev_if. destruct (OnMiss h); [done|]. by rewrite add_events_nil. Qed.

Lemma run_hooks_error h op k e w :
  run (hooks_error h op k e) w = ((), add_events (ev_if (OnError h) (EvError op k e)) w).
Proof. unfold hooks_error, ev_if. destruct (OnError h); [done|]. by rewrite add_events_nil. Qed.

Lemma run_hooks_load h k d e w :
  run (hooks_load h k d e) w = ((), add_events (ev_if (OnLoad h) (EvLoad k d e)) w).
Proof. unfold hooks_load, ev_if. destruct (OnLoad h); [done|]. by rewrite add_events_nil. Qed.

(** A hook called for each element of a slice, in order. *)
Lemma run_each_event {A} (b : bool) (g : A → event) l w :
  run (for_each (λ x, if b then emit (g x) else mret ()) l) w
  = ((), add_events (if b then g <$> l else []) w).
Proof.
  revert w. induction l as [|x l IH]; intros w.
  { simpl. destruct b; by rewrite add_events_nil. }
  rewrite run_for_each_cons, IH. destruct b; [|done].
  rewrite run_emit. cbn [snd]. change (add_event (g x) w) with (add_events [g x] w).
  by rewrite add_events_app.
Qed.

Lemma run_each_hit h l w :
  run (for_each (hooks_hit h) l) w = ((), add_events (if OnHit h then EvHit <$> l else []) w).
Proof. apply (run_each_event (OnHit h) EvHit). Qed.

Lemma run_each_miss h l w :
  run (for_each (hooks_miss h) l) w
  = ((), add_events (if OnMiss h then EvMiss <$> l else []) w).
Proof. apply (run_each_event (OnMiss h) EvMiss). Qed.

Lemma run_each_error h op e l w :
  run (for_each (λ k, hooks_error h op k e) l) w
  = ((), add_events (if OnError h then (λ k, EvError op k e) <$> l else []) w).
Proof. apply (run_each_event (OnError h) (λ k, EvError op k e)). Qed.

Lemma run_each_load h d e l w :
  run (for_each (λ k, hooks_load h k d e) l) w
  = ((), add_events (if OnLoad h then (λ k, EvLoad k d e) <$> l else []) w).
Proof. apply (run_each_event (OnLoad h) (λ k, EvLoad k d e)). Qed.

Lemma monotone_hooks_error h op k e : monotone (S := S) (hooks_error h op k e).
Proof. intros w. rewrite run_hooks_error. simpl. lia. Qed.

Lemma monotone_hooks_load h k d e : monotone (S := S) (hooks_load h k d e).
Proof. intros w. rewrite run_hooks_load. simpl. lia. Qed.

Lemma monotone_hooks_hit h k : monotone (S := S) (hooks_hit h k).
Proof. intros w. rewrite run_hooks_hit. simpl. lia. Qed.

Lemma monotone_hooks_miss h k : monotone (S := S) (hooks_miss h k).
Proof. intros w. rewrite run_hooks_miss. simpl. lia. Qed.

Lemma pure_hooks_error h op k e : pure_store (S := S) (hooks_error h op k e).
Proof. intros w. by rewrite run_hooks_error. Qed.

Lemma pure_hooks_load h k d e : pure_store (S := S) (hooks_load h k d e).
Proof. intros w. by rewrite run_hooks_load. Qed.
End hooks.

#[export] Hint Rewrite @run_hooks_hit @run_hooks_miss @run_hooks_error
  @run_hooks_load : ckrun.
#[export] Hint Resolve monotone_hooks_error monotone_hooks_load monotone_hooks_hit
  monotone_hooks_miss pure_hooks_error pure_hooks_load : ck.

(** A cache that never opted in treats every byte as payload. *)
Lemma parseStored_off c data :
  envelopeEnabled c = false → parseStored c data = (no_envelope, data).
Proof. unfold parseStored. by intros ->. Qed.

Lemma parseStored_on c data :
  envelopeEnabled c = true → parseStored c data = parseEnvelope data.
Proof. unfold parseStored. by intros ->. Qed.

Lemma no_config_envelope : envelopeEnabled no_config = false.
Proof. done. Qed.
