(* ===== verification/Codec.v ===== *)
(** * Codecs (codec.go)

    A [Codec] at the value type [T]: [Marshal(v any)] and [Unmarshal(data, v)]
    applied at [T].  encoding/json works by reflection on the type of the
    value; what it does at [T] is the argument [JSON T] of the model, and the
    two facts about a codec that theorems rely on are the classes
    [CodecRoundTrip] and [CodecNoNUL]. *)
From S2P Require Import Prelude Errors.

(** ** Definitions *)

Record Codec (T : Type) := mkCodec {
  Marshal : T → result bytes;
  Unmarshal : bytes → result T
}.
Arguments mkCodec {T}.
Arguments Marshal {T} c v.
Arguments Unmarshal {T} c data.

(** encoding/json at the type [T]. *)
Class JSON (T : Type) := {
  json_Marshal : T → result bytes;
  json_Unmarshal : bytes → result T
}.

Definition JSONCodec {T} `{JSON T} : Codec T := mkCodec json_Marshal json_Unmarshal.

Definition defaultCodec {T} `{JSON T} : Codec T := JSONCodec.

(** A codec argument: nil means the package default. *)
Definition codec_or_default {T} `{JSON T} (codec : option (Codec T)) : Codec T :=
  match codec with Some c => c | None => defaultCodec end.

(** ** What theorems ask of a codec *)

(** Decoding inverts encoding. *)
Class CodecRoundTrip {T} (c : Codec T) : Prop :=
  codec_round_trip : ∀ v data, Marshal c v = Ok data → Unmarshal c data = Ok v.

(** Encodings do not start with a NUL byte: documented of JSON, whose texts
    contain no control characters outside escapes. *)
Class CodecNoNUL {T} (c : Codec T) : Prop :=
  codec_no_nul : ∀ v data, Marshal c v = Ok data → head data ≠ Some x00.

(** ** A concrete instance: JSON booleans *)

Definition json_true : bytes := bytes_of_string "true".
Definition json_false : bytes := bytes_of_string "false".

#[export] Instance JSON_bool : JSON bool := {|
  json_Marshal := λ b : bool, Ok (if b then json_true else json_false);
  json_Unmarshal := λ data : bytes,
    if bytes_Equal data json_true then Ok true
    else if bytes_Equal data json_false then Ok false
    else Err (ErrOther "json: invalid value")
|}.

#[export] Instance JSON_bool_round_trip : CodecRoundTrip (JSONCodec (T := bool)).
Proof. intros [] data; cbn; intros [= <-]; reflexivity. Qed.

#[export] Instance JSON_bool_no_nul : CodecNoNUL (JSONCodec (T := bool)).
Proof. intros [] data; cbn; intros [= <-]; discriminate. Qed.
