(* ===== verification/Options.v ===== *)
(** * Options and TTL jitter (options.go)

    The functional options and what buildOptions makes of them, the jitter
    arithmetic on float64 with its error bound, and the context of one
    backend operation. *)
From S2P Require Import Prelude Int64 Float64 Errors Runtime Envelope Hooks Codec.
From Stdlib Require Import ZArith Lia.
Local Open Scope Z_scope.

(** ** Definitions *)

Record Options (T : Type) := mkOptions {
  Addr : string;
  Username : string;
  Password : string;
  DB : Z;
  Prefix : string;
  DefaultTTL : Duration;
  OptCodec : option (Codec T);
  ClientSideCacheTTL : Duration;
  OptHooks : Hooks;
  TTLJitter : float64;
  NegativeTTL : Duration;
  OpTimeout : Duration;
  StaleTTL : Duration;
  EarlyRefreshBeta : float64
}.
Arguments mkOptions {T}.
Arguments Addr {T}. Arguments Username {T}. Arguments Password {T}.
Arguments DB {T}. Arguments Prefix {T}. Arguments DefaultTTL {T}.
Arguments OptCodec {T}. Arguments ClientSideCacheTTL {T}.
Arguments OptHooks {T}. Arguments TTLJitter {T}. Arguments NegativeTTL {T}.
Arguments OpTimeout {T}. Arguments StaleTTL {T}. Arguments EarlyRefreshBeta {T}.

(** An [Option] mutates an [Options]. *)
Definition Option (T : Type) : Type := Options T → Options T.

Section options.
Context {T : Type}.

Definition WithAddr (addr : string) : Option T := λ o,
  mkOptions addr (Username o) (Password o) (DB o) (Prefix o) (DefaultTTL o)
    (OptCodec o) (ClientSideCacheTTL o) (OptHooks o) (TTLJitter o)
    (NegativeTTL o) (OpTimeout o) (StaleTTL o) (EarlyRefreshBeta o).

Definition WithAuth (user pass : string) : Option T := λ o,
  mkOptions (Addr o) user pass (DB o) (Prefix o) (DefaultTTL o)
    (OptCodec o) (ClientSideCacheTTL o) (OptHooks o) (TTLJitter o)
    (NegativeTTL o) (OpTimeout o) (StaleTTL o) (EarlyRefreshBeta o).

Definition WithDB (db : Z) : Option T := λ o,
  mkOptions (Addr o) (Username o) (Password o) db (Prefix o) (DefaultTTL o)
    (OptCodec o) (ClientSideCacheTTL o) (OptHooks o) (TTLJitter o)
    (NegativeTTL o) (OpTimeout o) (StaleTTL o) (EarlyRefreshBeta o).

Definition WithPrefix (prefix : string) : Option T := λ o,
  mkOptions (Addr o) (Username o) (Password o) (DB o) prefix (DefaultTTL o)
    (OptCodec o) (ClientSideCacheTTL o) (OptHooks o) (TTLJitter o)
    (NegativeTTL o) (OpTimeout o) (StaleTTL o) (EarlyRefreshBeta o).

Definition WithDefaultTTL (d : Duration) : Option T := λ o,
  mkOptions (Addr o) (Username o) (Password o) (DB o) (Prefix o) d
    (OptCodec o) (ClientSideCacheTTL o) (OptHooks o) (TTLJitter o)
    (NegativeTTL o) (OpTimeout o) (StaleTTL o) (EarlyRefreshBeta o).

Definition WithCodec (c : option (Codec T)) : Option T := λ o,
  mkOptions (Addr o) (Username o) (Password o) (DB o) (Prefix o) (DefaultTTL o)
    c (ClientSideCacheTTL o) (OptHooks o) (TTLJitter o)
    (NegativeTTL o) (OpTimeout o) (StaleTTL o) (EarlyRefreshBeta o).

Definition WithClientSideCacheTTL (d : Duration) : Option T := λ o,
  mkOptions (Addr o) (Username o) (Password o) (DB o) (Prefix o) (DefaultTTL o)
    (OptCodec o) d (OptHooks o) (TTLJitter o)
    (NegativeTTL o) (OpTimeout o) (StaleTTL o) (EarlyRefreshBeta o).

Definition WithHooks (h : Hooks) : Option T := λ o,
  mkOptions (Addr o) (Username o) (Password o) (DB o) (Prefix o) (DefaultTTL o)
    (OptCodec o) (ClientSideCacheTTL o) h (TTLJitter o)
    (NegativeTTL o) (OpTimeout o) (StaleTTL o) (EarlyRefreshBeta o).

Definition WithTTLJitter (fraction : float64) : Option T := λ o,
  mkOptions (Addr o) (Username o) (Password o) (DB o) (Prefix o) (DefaultTTL o)
    (OptCodec o) (ClientSideCacheTTL o) (OptHooks o) fraction
    (NegativeTTL o) (OpTimeout o) (StaleTTL o) (EarlyRefreshBeta o).

Definition WithNegativeTTL (d : Duration) : Option T := λ o,
  mkOptions (Addr o) (Username o) (Password o) (DB o) (Prefix o) (DefaultTTL o)
    (OptCodec o) (ClientSideCacheTTL o) (OptHooks o) (TTLJitter o)
    d (OpTimeout o) (StaleTTL o) (EarlyRefreshBeta o).

Definition WithOpTimeout (d : Duration) : Option T := λ o,
  mkOptions (Addr o) (Username o) (Password o) (DB o) (Prefix o) (DefaultTTL o)
    (OptCodec o) (ClientSideCacheTTL o) (OptHooks o) (TTLJitter o)
    (NegativeTTL o) d (StaleTTL o) (EarlyRefreshBeta o).

Definition WithStaleTTL (d : Duration) : Option T := λ o,
  mkOptions (Addr o) (Username o) (Password o) (DB o) (Prefix o) (DefaultTTL o)
    (OptCodec o) (ClientSideCacheTTL o) (OptHooks o) (TTLJitter o)
    (NegativeTTL o) (OpTimeout o) d (EarlyRefreshBeta o).

Definition WithEarlyRefresh (beta : float64) : Option T := λ o,
  mkOptions (Addr o) (Username o) (Password o) (DB o) (Prefix o) (DefaultTTL o)
    (OptCodec o) (ClientSideCacheTTL o) (OptHooks o) (TTLJitter o)
    (NegativeTTL o) (OpTimeout o) (StaleTTL o) beta.

(** [Options{Addr: "localhost:6379"}]. *)
Definition initial_options : Options T :=
  mkOptions "localhost:6379" "" "" 0 "" 0 None 0 no_hooks fzero 0 0 0 fzero.

(** The normalisation that ends [buildOptions]. *)
Definition normalize_options `{JSON T} (o : Options T) : Options T :=
  let o := match OptCodec o with
           | None => WithCodec (Some defaultCodec) o
           | Some _ => o
           end in
  let o := if flt (TTLJitter o) fzero then WithTTLJitter fzero o else o in
  let o := if flt f09 (TTLJitter o) then WithTTLJitter f09 o else o in
  if flt (EarlyRefreshBeta o) fzero then WithEarlyRefresh fzero o else o.

Definition buildOptions `{JSON T} (opts : list (Option T)) : Options T :=
  normalize_options (foldl (λ o opt, opt o) initial_options opts).
End options.

(** The arithmetic of [applyJitter] for a draw [u] of [rand.Float64]. *)
Definition jittered (oob : float64 → Z) (ttl : Duration) (frac u : float64)
    : Duration :=
  let d := fmul (fsub (fmul u (of_int 2)) fone) frac in
  to_int64 oob (fmul (of_int ttl) (fadd fone d)).

Definition applyJitter {S} (ttl : Duration) (frac : float64) : act S Duration :=
  if (ttl <=? 0) || fle frac fzero then mret ttl
  else
    u ← rand_Float64;
    o ← get_oracle;
    mret (jittered (float_oob o) ttl frac u).

(** [opContext]: the deadline of a single cache operation. *)
Definition opContext {S} (ctx : Context) (d : Duration) : act S Context :=
  if d <=? 0 then mret ctx else WithTimeout ctx d.

(** ** Jitter: no-ops *)

Lemma applyJitter_off {S} ttl frac (w : World S) :
  ttl <= 0 ∨ fle frac fzero = true → run (applyJitter ttl frac) w = (ttl, w).
Proof.
  unfold applyJitter. intros [Ht | ->].
  - by rewrite (proj2 (Z.leb_le _ _)).
  - by rewrite orb_true_r.
Qed.

Lemma monotone_applyJitter {S} ttl frac : monotone (S := S) (applyJitter ttl frac).
Proof. unfold applyJitter. case_match; eauto 10 with ck. Qed.

Lemma pure_applyJitter {S} ttl frac : pure_store (S := S) (applyJitter ttl frac).
Proof. unfold applyJitter. case_match; eauto 10 with ck. Qed.

Lemma monotone_WithTimeout {S} ctx d : monotone (S := S) (WithTimeout ctx d).
Proof. unfold WithTimeout. eauto with ck. Qed.

Lemma monotone_opContext {S} ctx d : monotone (S := S) (opContext ctx d).
Proof. unfold opContext. case_match; eauto using monotone_WithTimeout with ck. Qed.

#[export] Hint Resolve monotone_applyJitter pure_applyJitter monotone_WithTimeout
  monotone_opContext : ck.

(** ** Jitter: the error of the floating-point computation

    [W] is 2u-1, exact; [E] the rounded product with the fraction; [G] the
    rounded 1+E; [Y] the rounded product with the TTL. *)

(** 2u - 1 is computed exactly, and lies in [-1, 1). *)
Lemma draw_centered k :
  ∃ W, fsub (fmul (of_draw k) (of_int 2)) fone = Fin W
       ∧ - one_units <= W < one_units.
Proof.
  pose proof (Z.mod_pos_bound k (2 ^ 53) ltac:(lia)) as Hk.
  unfold of_draw. generalize dependent (k mod 2 ^ 53). intros q Hq.
  assert (of_int 2 = Fin (2 * one_units)) as ->.
  { apply (round_exact 2 1074 0); unfold unit_exp; lia. }
  cbn [fmul].
  replace (q * 2 ^ (1074 - 53) * (2 * one_units))
    with (q * 2 ^ ((1074 - 52) + unit_exp)).
  2:{ unfold one_units, unit_exp.
      rewrite (Z.pow_add_r 2 (1074 - 52)) by lia.
      replace (2 ^ (1074 - 52)) with (2 ^ (1074 - 53) * 2)
        by (rewrite Z.mul_comm, <-Z.pow_succ_r by lia; done).
      generalize (2 ^ (1074 - 53)) (2 ^ 1074). intros. ring. }
  rewrite round_exact by (unfold unit_exp; lia).
  unfold fsub, fone. cbn [fneg fadd].
  assert (one_units = 2 ^ 52 * 2 ^ (1074 - 52)) as HU
    by (unfold one_units; by rewrite <-Z.pow_add_r by lia).
  replace (q * 2 ^ (1074 - 52) + - one_units)
    with ((q - 2 ^ 52) * 2 ^ ((1074 - 52) + 0)) by (rewrite HU, Z.add_0_r; lia).
  rewrite round_exact by (unfold unit_exp; lia).
  eexists. split; [done|]. rewrite HU.
  assert (0 < 2 ^ (1074 - 52)) by (apply Z.pow_pos_nonneg; lia).
  generalize dependent (2 ^ (1074 - 52)). intros v _ Hv. nia.
Qed.

(** The factor 1 + delta, within 2^-51 of 1 + W*frac. *)
Lemma jitter_factor W f :
  - one_units <= W < one_units → 0 <= f <= one_units →
  ∃ G, fadd fone (fmul (Fin W) (Fin f)) = Fin G ∧ Z.abs G <= 2 * one_units
       ∧ 2 ^ 51 * Z.abs (G * one_units - (one_units * one_units + W * f))
         <= one_units * one_units.
Proof.
  intros HW Hf. cbn [fmul].
  destruct (round_error (W * f) unit_exp 1074) as (E & -> & HE & Herr).
  { unfold unit_exp; lia. } { unfold unit_exp; lia. }
  { unfold unit_exp. rewrite Z.pow_add_r by lia. fold one_units.
    rewrite Z.abs_mul. pose proof one_units_pos. nia. }
  unfold fone. cbn [fadd].
  destruct (round_error (one_units + E) 0 1075) as (G & HG & HGb & HGe).
  { lia. } { unfold unit_exp; lia. }
  { replace (2 ^ (1075 + 0)) with (2 * one_units) by (unfold one_units; by rewrite <-Z.pow_succ_r by lia).
    fold one_units in HE. lia. }
  exists G. split; [done|].
  replace (2 ^ 1075) with (2 * one_units) in HGb
    by (unfold one_units; by rewrite <-Z.pow_succ_r by lia).
  split; [done|].
  replace (2 ^ unit_exp) with one_units in Herr by done.
  rewrite Z.pow_0_r, Z.mul_1_r, Z.add_0_r in HGe.
  replace (1074 - 53 + unit_exp) with (1021 + 1074) in Herr by (unfold unit_exp; lia).
  rewrite Z.pow_add_r in Herr by lia. fold one_units in Herr.
  replace (2 ^ (1075 - 53)) with (2 * 2 ^ 1021) in HGe by (by rewrite <-Z.pow_succ_r by lia).
  assert (one_units = 2 ^ 53 * 2 ^ 1021) as HU
    by (unfold one_units; by rewrite <-Z.pow_add_r by lia).
  assert (0 < 2 ^ 1021) by (apply Z.pow_pos_nonneg; lia).
  pose proof one_units_pos.
  generalize dependent (2 ^ 1021). intros v HGe Herr HU Hv.
  replace (G * one_units - (one_units * one_units + W * f))
    with ((G - (one_units + E)) * one_units + (E * one_units - W * f)) by ring.
  pose proof (Z.abs_triangle ((G - (one_units + E)) * one_units)
    (E * one_units - W * f)) as Htri.
  rewrite Z.abs_mul, (Z.abs_eq one_units) in Htri by lia.
  assert (Z.abs (G - (one_units + E)) * one_units <= 2 * v * one_units)
    by (apply Z.mul_le_mono_nonneg_r; lia).
  assert (one_units * one_units = 2 ^ 53 * (v * one_units)) as HUU
    by (rewrite HU at 1; lia).
  rewrite HUU. lia.
Qed.

(** The integer core of the error analysis. *)
Lemma jitter_error_core U t X G Y W f :
  0 < U → 0 < t → 0 <= f →
  2 ^ 52 * Z.abs (X - t * U) <= t * U →
  Z.abs G <= 2 * U →
  2 ^ 51 * Z.abs (G * U - (U * U + W * f)) <= U * U →
  2 ^ 51 * Z.abs (Y * U - X * G) <= t * (U * U) →
  Z.abs W <= U →
  2 ^ 51 * Z.abs (Y - t * U) <= 3 * (t * U) + 2 ^ 51 * (t * f).
Proof.
  intros HU Ht Hf HX HG HGe HY HW.
  assert (Z.abs (X * G - t * U * G) <= Z.abs (X - t * U) * (2 * U)) as H1.
  { rewrite <-Z.mul_sub_distr_r, Z.abs_mul. apply Z.mul_le_mono_nonneg_l; lia. }
  assert (Z.abs (W * f) <= U * f) as H2.
  { rewrite Z.abs_mul, (Z.abs_eq f) by lia. apply Z.mul_le_mono_nonneg_r; lia. }
  assert (Z.abs (G * U - U * U) <= Z.abs (G * U - (U * U + W * f)) + U * f) as H3
    by lia.
  assert (Z.abs (t * U * G - t * (U * U)) = t * Z.abs (G * U - U * U)) as H4.
  { replace (t * U * G - t * (U * U)) with (t * (G * U - U * U)) by ring.
    rewrite Z.abs_mul. lia. }
  assert (t * Z.abs (G * U - U * U)
    <= t * (Z.abs (G * U - (U * U + W * f)) + U * f)) as H5
    by (apply Z.mul_le_mono_nonneg_l; lia).
  assert (2 ^ 51 * (t * Z.abs (G * U - (U * U + W * f))) <= t * (U * U)) as H6.
  { replace (2 ^ 51 * (t * Z.abs (G * U - (U * U + W * f))))
      with (t * (2 ^ 51 * Z.abs (G * U - (U * U + W * f)))) by ring.
    apply Z.mul_le_mono_nonneg_l; lia. }
  assert (2 ^ 52 * (Z.abs (X - t * U) * (2 * U)) <= t * U * (2 * U)) as H7.
  { rewrite Z.mul_assoc. apply Z.mul_le_mono_nonneg_r; lia. }
  assert (2 ^ 51 * Z.abs (Y * U - t * (U * U))
    <= 3 * (t * (U * U)) + 2 ^ 51 * (t * (U * f))) as H8 by lia.
  replace (Y * U - t * (U * U)) with ((Y - t * U) * U) in H8 by ring.
  rewrite Z.abs_mul, (Z.abs_eq U) in H8 by lia.
  apply (Z.mul_le_mono_pos_r _ _ U); lia.
Qed.

(** Truncation towards zero moves by less than one. *)
Lemma quot_error Y U : 0 < U → Z.abs (Z.quot Y U * U - Y) < U.
Proof.
  intros HU. pose proof (Z.quot_rem' Y U). pose proof (Z.rem_bound_abs Y U ltac:(lia)).
  replace (Z.quot Y U * U - Y) with (- Z.rem Y U) by lia. lia.
Qed.

Lemma one_units_split : one_units = 2 ^ 53 * 2 ^ 1021 ∧ 0 < 2 ^ 1021.
Proof.
  split; [unfold one_units; by rewrite <-Z.pow_add_r by lia|apply Z.pow_pos_nonneg; lia].
Qed.

(** The rounding of the product of the TTL with the factor. *)
Lemma jitter_product ttl X G :
  0 < ttl <= 2 ^ 62 → 0 <= X <= 2 ^ digits ttl * one_units → Z.abs G <= 2 * one_units →
  ∃ Y, fmul (Fin X) (Fin G) = Fin Y
    ∧ 2 ^ 51 * Z.abs (Y * one_units - X * G) <= ttl * (one_units * one_units).
Proof.
  intros Ht HX HG. destruct one_units_split as [HU Hv]. pose proof one_units_pos as HUp.
  pose proof (digits_spec ttl ltac:(lia)) as Hd.
  rewrite (Z.abs_eq ttl) in Hd by lia.
  assert (digits ttl <= 63) as Hd63 by (apply digits_le; lia).
  pose proof (digits_nonneg ttl) as Hd0.
  assert (1 <= digits ttl) as Hd1.
  { destruct (decide (digits ttl = 0)) as [E|]; [rewrite E in Hd; simpl in Hd; lia|lia]. }
  assert (2 ^ digits ttl = 2 * 2 ^ (digits ttl - 1)) as Hd2
    by (rewrite <-Z.pow_succ_r by lia; f_equal; lia).
  cbn [fmul].
  destruct (round_error (X * G) unit_exp (digits ttl + 1075)) as (Y & -> & _ & HYe).
  { unfold unit_exp; lia. } { unfold unit_exp; lia. }
  { replace (digits ttl + 1075 + unit_exp) with (digits ttl + 1 + 1074 + 1074)
      by (unfold unit_exp; lia).
    rewrite !Z.pow_add_r by lia. fold one_units. rewrite Z.abs_mul, (Z.abs_eq X) by lia.
    transitivity (2 ^ digits ttl * one_units * (2 * one_units)); [|lia].
    apply Z.mul_le_mono_nonneg; lia. }
  exists Y. split; [done|]. replace (2 ^ unit_exp) with one_units in HYe by done.
  replace (digits ttl + 1075 - 53 + unit_exp)
    with ((digits ttl - 1) + 2 + 1021 + 1074) in HYe by (unfold unit_exp; lia).
  rewrite !Z.pow_add_r in HYe by lia. fold one_units in HYe.
  transitivity (2 ^ 51 * (2 ^ (digits ttl - 1) * 2 ^ 2 * 2 ^ 1021 * one_units)).
  - apply Z.mul_le_mono_nonneg_l; lia.
  - rewrite HU at 2. generalize dependent (2 ^ 1021). intros v _ Hv _.
    transitivity (2 ^ 53 * v * one_units * 2 ^ (digits ttl - 1)); [lia|].
    transitivity (2 ^ 53 * v * one_units * ttl); [|lia].
    apply Z.mul_le_mono_nonneg_l; lia.
Qed.

(** A fraction within the cap is below 9/10 and two ulps. *)
Lemma frac_capped f :
  0 <= f → fle (Fin f) f09 = true →
  f <= 8106479329266893 * 2 ^ 1021 ∧ 10 * f <= 9 * one_units + 2 * 2 ^ 1021 ∧ f <= one_units.
Proof.
  intros Hf Hf09. destruct one_units_split as [HU Hv].
  cbn [fle flt f09 negb] in Hf09. apply negb_true_iff, Z.ltb_ge in Hf09.
  change (1074 - 53) with 1021 in Hf09. rewrite HU.
  generalize dependent (2 ^ 1021). intros. lia.
Qed.

(** For TTLs up to 146 years: the jittered TTL is the float64 product,
    truncated, and is within frac*ttl + ttl/2^49 + 1 ns of the TTL. *)
Lemma jittered_error oob ttl f k :
  0 < ttl <= 2 ^ 62 → 0 <= f → fle (Fin f) f09 = true →
  let r := jittered oob ttl (Fin f) (of_draw k) in
  2 ^ 49 * (Z.abs (r - ttl) * one_units) <= 2 ^ 49 * (ttl * f) + (ttl + 2 ^ 49) * one_units.
Proof.
  intros Ht Hf Hf09. destruct (frac_capped f Hf Hf09) as (_ & Hf10 & Hf1).
  destruct one_units_split as [HU Hv]. pose proof one_units_pos as HUp. unfold jittered.
  destruct (draw_centered k) as (W & -> & HW).
  destruct (jitter_factor W f HW ltac:(lia)) as (G & -> & HG & HGe).
  destruct (of_int_error ttl ltac:(lia)) as (X & -> & HX & HXe).
  destruct (jitter_product ttl X G Ht HX HG) as (Y & -> & HY).
  pose proof (jitter_error_core one_units ttl X G Y W f HUp ltac:(lia) Hf HXe HG HGe HY
    ltac:(lia)) as Hcore.
  pose proof (quot_error Y one_units HUp) as Hq. unfold to_int64.
  assert (10 * (ttl * f) <= ttl * (9 * one_units + 2 * 2 ^ 1021)) as Htf.
  { rewrite Z.mul_assoc, (Z.mul_comm 10), <-Z.mul_assoc.
    apply Z.mul_le_mono_nonneg_l; lia. }
  assert (ttl * one_units <= 2 ^ 62 * one_units) as Hsz
    by (apply Z.mul_le_mono_nonneg_r; lia).
  assert (ttl * (2 * 2 ^ 1021) <= 2 ^ 62 * (2 * 2 ^ 1021)) as Hsz2
    by (apply Z.mul_le_mono_nonneg_r; lia).
  set (r := Z.quot Y one_units) in *.
  assert (- 2 ^ 63 * one_units < r * one_units < 2 ^ 63 * one_units) as [Hr1 Hr2].
  { rewrite HU in *. generalize dependent (2 ^ 1021). intros. lia. }
  apply Z.mul_lt_mono_pos_r in Hr1, Hr2; [|done..].
  rewrite bool_decide_eq_true_2 by (unfold is_int64, min_int64, max_int64; lia).
  rewrite <-(Z.abs_eq one_units) at 1 by lia.
  rewrite <-Z.abs_mul, Z.mul_sub_distr_r. lia.
Qed.

(** The same without the scale of the floats. *)
Lemma jittered_error_cap oob ttl f k :
  0 < ttl <= 2 ^ 62 → 0 <= f → fle (Fin f) f09 = true →
  let r := jittered oob ttl (Fin f) (of_draw k) in
  2 ^ 49 * (Z.abs (r - ttl) * 2 ^ 53)
  <= 2 ^ 49 * (ttl * 8106479329266893) + (ttl + 2 ^ 49) * 2 ^ 53.
Proof.
  intros Ht Hf Hf09. cbn zeta.
  pose proof (jittered_error oob ttl f k Ht Hf Hf09) as H. cbn zeta in H.
  destruct (frac_capped f Hf Hf09) as (Hcap & _). destruct one_units_split as [HU Hv].
  assert (ttl * f <= ttl * (8106479329266893 * 2 ^ 1021)) as Htf
    by (apply Z.mul_le_mono_nonneg_l; lia).
  generalize dependent (jittered oob ttl (Fin f) (of_draw k)). intros r H.
  rewrite HU in H. generalize dependent (2 ^ 1021). intros v _ _ Hv Htf H.
  apply (Z.mul_le_mono_pos_r _ _ v); [lia|]. lia.
Qed.

(** ** Consequences *)

Lemma run_applyJitter_on {S} ttl frac (w : World S) :
  0 < ttl → fle frac fzero = false →
  run (applyJitter ttl frac) w
  = (jittered (float_oob (w_orc w)) ttl frac (of_draw (draw (w_orc w) (w_draws w))),
     (read_rand w).2).
Proof.
  intros Ht Hf. unfold applyJitter. rewrite (proj2 (Z.leb_gt _ _)), Hf by lia.
  by step.
Qed.

(** A TTL of at least 12 ns never jitters down to "no expiry". *)
Lemma jittered_positive oob ttl f k :
  12 <= ttl <= 2 ^ 62 → 0 <= f → fle (Fin f) f09 = true →
  0 < jittered oob ttl (Fin f) (of_draw k) < 2 ^ 63.
Proof.
  intros Ht Hf Hf09. pose proof (jittered_error_cap oob ttl f k ltac:(lia) Hf Hf09) as H.
  cbn zeta in H. lia.
Qed.

(** Whatever the draw, a jittered TTL stays below twice the TTL. *)
Lemma jittered_le oob ttl f k :
  0 < ttl <= 2 ^ 62 → 0 <= f → fle (Fin f) f09 = true →
  jittered oob ttl (Fin f) (of_draw k) <= 2 * ttl + 1.
Proof.
  intros Ht Hf Hf09. pose proof (jittered_error_cap oob ttl f k Ht Hf Hf09) as H.
  cbn zeta in H. lia.
Qed.
