(* ===== verification/Cache.v ===== *)
(** * The Cache and BatchCache interfaces (cache.go, batch.go)

    A Go interface value is the record of its methods.  [CacheSpec] states
    what the documentation of the interface promises of a working backend that
    answers under every context; the GetOrSet theorems are proved against it.
    [BoundedCacheSpec] is the promise of a backend that may give up when its
    context is done; [detached_spec] leads from it to the former.  Each
    backend's file discharges one of them. *)
From S2P Require Import Prelude Int64 Float64 Errors Runtime Envelope Hooks Options.
From Stdlib Require Import ZArith Lia.
Local Open Scope Z_scope.

(** ** Definitions *)

(** batch.go, BatchCache: the methods beyond those of Cache. *)
Record BatchOps (S : Type) := mkBatchOps {
  b_GetMany : Context → list string → act S (result (gmap string bytes));
  b_SetMany : Context → gmap string bytes → Duration → act S (option error)
}.
Arguments mkBatchOps {S}.
Arguments b_GetMany {S}. Arguments b_SetMany {S}.

(** cache.go, Cache.  [c_addr] is the pointer the interface value holds,
    [c_config] and [c_batch] what the type assertions to [configured] and to
    [BatchCache] find. *)
Record Cache (S : Type) := mkCache {
  c_addr : N;
  c_Get : Context → string → act S (result bytes);
  c_Set : Context → string → bytes → Duration → act S (option error);
  c_Delete : Context → string → act S (option error);
  c_config : option cacheConfig;
  c_batch : option (BatchOps S)
}.
Arguments mkCache {S}.
Arguments c_addr {S}. Arguments c_Get {S}. Arguments c_Set {S}.
Arguments c_Delete {S}. Arguments c_config {S}. Arguments c_batch {S}.

(** "ttl <= 0 means the backend's default TTL; if the backend has no default,
    the key does not expire." *)
Definition base_ttl (cfg : cacheConfig) (ttl : Duration) : Duration :=
  if ttl <=? 0 then cfg_defaultTTL cfg else ttl.

(** The TTLs a backend may resolve for a write: the default fallback, then
    jitter, except for enveloped values. *)
Definition resolved_ttl (cfg : cacheConfig) (v : bytes) (ttl e : Duration) : Prop :=
  let base := base_ttl cfg ttl in
  if hasEnvelope v || (base <=? 0) || fle (cfg_ttlJitter cfg) fzero then e = base
  else ∃ oob k, e = jittered oob base (cfg_ttlJitter cfg) (of_draw k).

(** ** The contract

    [view s k t] is the value a reader would see at the logical key [k] if
    the store were [s] at time [t]; the [lifetime] relation names the TTLs a
    backend may give a write.  [written]: between the worlds [w] and [w'] the
    value [v] was stored at [k], and stays visible for a lifetime of [ttl]. *)
Definition written {S} (view : S → string → Time → option bytes)
    (lifetime : bytes → Duration → Duration → Prop)
    (k : string) (v : bytes) (ttl : Duration) (w w' : World S) : Prop :=
  ∃ e, lifetime v ttl e
  ∧ (e <= 0 → ∀ t', w_time w' <= t' → view (w_store w') k t' = Some v)
  ∧ (0 < e → ∃ d, w_time w + e <= d <= w_time w' + e
       ∧ ∀ t', w_time w' <= t' →
           view (w_store w') k t' = if t' <? d then Some v else None).

Class CacheSpec {S} (c : Cache S) (view : S → string → Time → option bytes)
    (lifetime : bytes → Duration → Duration → Prop) : Prop := {
  (** Get returns what is visible at some instant of the call, a miss when
      nothing is; it changes nothing a later reader could see. *)
  spec_Get ctx k w :
    ∃ t, w_time w <= t <= w_time (run (c_Get c ctx k) w).2
    ∧ match (run (c_Get c ctx k) w).1 with
      | Ok data => view (w_store w) k t = Some data
      | Err e => IsMiss e = true ∧ view (w_store w) k t = None
      end
    ∧ ∀ k' t', t <= t' →
        view (w_store (run (c_Get c ctx k) w).2) k' t' = view (w_store w) k' t';
  (** Set makes the value visible at once, for its lifetime, and touches no
      other key (the clock is past the zero Time). *)
  spec_Set ctx k v ttl w :
    0 <= w_time w →
    let w' := (run (c_Set c ctx k v ttl) w).2 in
    (run (c_Set c ctx k v ttl) w).1 = None
    ∧ w_time w <= w_time w'
    ∧ (∀ k' t', k' ≠ k → w_time w' <= t' →
         view (w_store w') k' t' = view (w_store w) k' t')
    ∧ written view lifetime k v ttl w w';
  (** Delete removes the key, present or not. *)
  spec_Delete ctx k w :
    let w' := (run (c_Delete c ctx k) w).2 in
    (run (c_Delete c ctx k) w).1 = None
    ∧ w_time w <= w_time w'
    ∧ ∀ k' t', w_time w' <= t' →
        view (w_store w') k' t' = if decide (k' = k) then None
                                  else view (w_store w) k' t';
  (** Lifetimes: enveloped values are never jittered, nor is anything when
      jitter is off; a backend may cut the TTL to milliseconds, its resolution,
      and rounds up what is shorter. *)
  spec_lifetime v ttl e :
    lifetime v ttl e →
    hasEnvelope v = true ∨ fle (cfg_ttlJitter (configOf (c_config c))) fzero = true →
    let base := base_ttl (configOf (c_config c)) ttl in
    (base <= 0 → e <= 0)
    ∧ (0 < base → 0 < e ∧ floor_ms base <= e <= Z.max base Millisecond)
}.

(** The same for the batch operations: they are the pointwise operations. *)
Class BatchSpec {S} (b : BatchOps S) (view : S → string → Time → option bytes)
    (lifetime : bytes → Duration → Duration → Prop) : Prop := {
  spec_GetMany ctx keys w :
    let w' := (run (b_GetMany b ctx keys) w).2 in
    ∃ out, (run (b_GetMany b ctx keys) w).1 = Ok out
    ∧ w_time w <= w_time w'
    ∧ (∀ k, k ∉ keys → out !! k = None)
    ∧ (∀ k, k ∈ keys → ∃ t, w_time w <= t <= w_time w'
         ∧ out !! k = view (w_store w) k t)
    ∧ ∀ k' t', w_time w' <= t' →
        view (w_store w') k' t' = view (w_store w) k' t';
  spec_SetMany ctx m ttl w :
    0 <= w_time w →
    let w' := (run (b_SetMany b ctx m ttl) w).2 in
    (run (b_SetMany b ctx m ttl) w).1 = None
    ∧ w_time w <= w_time w'
    ∧ (∀ k t', m !! k = None → w_time w' <= t' →
         view (w_store w') k t' = view (w_store w) k t')
    ∧ ∀ k v, m !! k = Some v → written view lifetime k v ttl w w'
}.

(** ** The contract of a backend that gives up

    An operation on a server ends early once its context is done: the caller's
    ("Context: caller's ctx always controls cancellation/timeout"), or the
    bound of WithOpTimeout, [d] after the start. *)
Definition op_done {S} (d : Duration) (ctx : Context) (w w' : World S) : Prop :=
  is_Some (ctx_Err ctx w') ∨ 0 < d ∧ w_time w + d <= w_time w'.

(** A reader of the key sees after it what it saw before. *)
Definition kept {S} (view : S → string → Time → option bytes) (k : string)
    (w w' : World S) : Prop :=
  ∀ t', w_time w' <= t' → view (w_store w') k t' = view (w_store w) k t'.

(** As [CacheSpec], but an operation may fail, no sooner than its context is
    done: it has then had its effect or none.  An operation that does not fail
    has kept the whole promise, and a failed Get is not taken for a miss. *)
Class BoundedCacheSpec {S} (c : Cache S) (view : S → string → Time → option bytes)
    (lifetime : bytes → Duration → Duration → Prop) (d : Duration) : Prop := {
  bspec_Get ctx k w :
    let w' := (run (c_Get c ctx k) w).2 in
    ∃ t, w_time w <= t <= w_time w'
    ∧ match (run (c_Get c ctx k) w).1 with
      | Ok data => view (w_store w) k t = Some data
      | Err e => if IsMiss e then view (w_store w) k t = None else op_done d ctx w w'
      end
    ∧ ∀ k' t', t <= t' → view (w_store w') k' t' = view (w_store w) k' t';
  bspec_Set ctx k v ttl w :
    let w' := (run (c_Set c ctx k v ttl) w).2 in
    w_time w <= w_time w'
    ∧ (∀ k', k' ≠ k → kept view k' w w')
    ∧ match (run (c_Set c ctx k v ttl) w).1 with
      | None => written view lifetime k v ttl w w'
      | Some _ => op_done d ctx w w' ∧ (written view lifetime k v ttl w w' ∨ kept view k w w')
      end;
  bspec_Delete ctx k w :
    let w' := (run (c_Delete c ctx k) w).2 in
    let gone := ∀ t', w_time w' <= t' → view (w_store w') k t' = None in
    w_time w <= w_time w'
    ∧ (∀ k', k' ≠ k → kept view k' w w')
    ∧ match (run (c_Delete c ctx k) w).1 with
      | None => gone
      | Some _ => op_done d ctx w w' ∧ (gone ∨ kept view k w w')
      end;
  bspec_lifetime v ttl e :
    lifetime v ttl e →
    hasEnvelope v = true ∨ fle (cfg_ttlJitter (configOf (c_config c))) fzero = true →
    let base := base_ttl (configOf (c_config c)) ttl in
    (base <= 0 → e <= 0)
    ∧ (0 < base → 0 < e ∧ floor_ms base <= e <= Z.max base Millisecond)
}.

(** A failed batch write may have written some of the keys. *)
Class BoundedBatchSpec {S} (b : BatchOps S) (view : S → string → Time → option bytes)
    (lifetime : bytes → Duration → Duration → Prop) (d : Duration) : Prop := {
  bspec_GetMany ctx keys w :
    let w' := (run (b_GetMany b ctx keys) w).2 in
    w_time w <= w_time w'
    ∧ (∀ k', kept view k' w w')
    ∧ match (run (b_GetMany b ctx keys) w).1 with
      | Ok out =>
          (∀ k, k ∉ keys → out !! k = None)
          ∧ ∀ k, k ∈ keys → ∃ t, w_time w <= t <= w_time w' ∧ out !! k = view (w_store w) k t
      | Err _ => op_done d ctx w w'
      end;
  bspec_SetMany ctx m ttl w :
    let w' := (run (b_SetMany b ctx m ttl) w).2 in
    let all (P : string → bytes → Prop) := ∀ k v, m !! k = Some v → P k v in
    w_time w <= w_time w'
    ∧ (∀ k, m !! k = None → kept view k w w')
    ∧ match (run (b_SetMany b ctx m ttl) w).1 with
      | None => all (λ k v, written view lifetime k v ttl w w')
      | Some _ => op_done d ctx w w'
          ∧ all (λ k v, written view lifetime k v ttl w w' ∨ kept view k w w')
      end
}.

Class BoundedBackendSpec {S} (c : Cache S) (view : S → string → Time → option bytes)
    (lifetime : bytes → Duration → Duration → Prop) (d : Duration) : Prop := {
  bbs_cache :: BoundedCacheSpec c view lifetime d;
  bbs_batch bc : c_batch c = Some bc → BoundedBatchSpec bc view lifetime d
}.

(** The cache behind contexts that never end. *)
Definition detached {S} (c : Cache S) : Cache S :=
  mkCache (c_addr c) (λ ctx, c_Get c (WithoutCancel ctx)) (λ ctx, c_Set c (WithoutCancel ctx))
    (λ ctx, c_Delete c (WithoutCancel ctx)) (c_config c)
    ((λ b, mkBatchOps (λ ctx, b_GetMany b (WithoutCancel ctx))
             (λ ctx, b_SetMany b (WithoutCancel ctx))) <$> c_batch c).

(** A context nothing can end: no signal, no deadline. *)
Definition endless (ctx : Context) : Prop := cx_tokens ctx = [] ∧ cx_deadline ctx = None.

Lemma base_ttl_pos cfg ttl : 0 < ttl → base_ttl cfg ttl = ttl.
Proof. intros H. unfold base_ttl. by rewrite (proj2 (Z.leb_gt _ _)). Qed.

(** Without any TTL, asking for the default gives none either. *)
Lemma base_ttl_neg cfg ttl : base_ttl cfg ttl <= 0 → base_ttl cfg 0 <= 0.
Proof. unfold base_ttl. simpl. destruct (Z.leb_spec ttl 0); lia. Qed.

Lemma resolved_ttl_base cfg v ttl e :
  hasEnvelope v = true ∨ fle (cfg_ttlJitter cfg) fzero = true →
  resolved_ttl cfg v ttl e → e = base_ttl cfg ttl.
Proof.
  unfold resolved_ttl. intros Hoff.
  assert (hasEnvelope v || (base_ttl cfg ttl <=? 0) || fle (cfg_ttlJitter cfg) fzero = true)
    as ->; [|done].
  destruct Hoff as [-> | ->]; [done|apply orb_true_r].
Qed.

(** The code that resolves it. *)
Lemma run_resolve {S} cfg v ttl (w : World S) :
  ∃ e w', run (if hasEnvelope v then mret (base_ttl cfg ttl)
               else applyJitter (base_ttl cfg ttl) (cfg_ttlJitter cfg)) w = (e, w')
    ∧ w_time w' = w_time w ∧ w_store w' = w_store w ∧ w_trace w' = w_trace w
    ∧ resolved_ttl cfg v ttl e.
Proof.
  unfold resolved_ttl. set (base := base_ttl cfg ttl).
  destruct (hasEnvelope v); simpl; [by eexists _, _|].
  destruct (base <=? 0) eqn:Eb; simpl.
  { apply Z.leb_le in Eb. rewrite applyJitter_off by eauto. by eexists _, _. }
  destruct (fle (cfg_ttlJitter cfg) fzero) eqn:Ef; simpl.
  { rewrite applyJitter_off by eauto. by eexists _, _. }
  apply Z.leb_gt in Eb. rewrite run_applyJitter_on by done.
  eexists _, _. split; [done|]. eauto 10.
Qed.

(** What is done afterwards to other keys leaves a write written. *)
Lemma written_later {S} (view : S → string → Time → option bytes) lifetime k v ttl
    (w0 w w1 w2 : World S) :
  w_time w0 <= w_time w → w_time w1 <= w_time w2 →
  (∀ t, w_time w2 <= t → view (w_store w2) k t = view (w_store w1) k t) →
  written view lifetime k v ttl w w1 → written view lifetime k v ttl w0 w2.
Proof.
  intros H0 H2 Hv (e & He & Hforever & Huntil). exists e. split_and!; [done| |].
  - intros Hle t' Ht'. rewrite Hv by done. apply Hforever; lia.
  - intros Hlt. destruct (Huntil Hlt) as (d & Hd & H). exists d.
    split; [lia|]. intros t' Ht'. rewrite Hv by done. apply H. lia.
Qed.

(** A cache that keeps the contract in full, batch operations included. *)
Class BatchCacheSpec {S} (c : Cache S) (view : S → string → Time → option bytes)
    (lifetime : bytes → Duration → Duration → Prop) : Prop := {
  bcs_cache :: CacheSpec c view lifetime;
  bcs_batch bc : c_batch c = Some bc → BatchSpec bc view lifetime
}.

Lemma WithoutCancel_endless ctx : endless ctx → WithoutCancel ctx = ctx.
Proof. destruct ctx as [v tok dl]. intros [Ht Hd]. cbn in *. by subst. Qed.

Lemma endless_WithoutCancel ctx : endless (WithoutCancel ctx).
Proof. done. Qed.

Lemma ctx_Err_endless {S} ctx (w : World S) : endless ctx → ctx_Err ctx w = None.
Proof. intros [Ht Hd]. unfold ctx_Err. by rewrite Ht, Hd. Qed.

(** Whether a context is done depends on the clock and the signals. *)
Lemma ctx_Err_same {S} ctx (w w' : World S) :
  w_time w' = w_time w → w_canceled w' = w_canceled w → ctx_Err ctx w' = ctx_Err ctx w.
Proof. unfold ctx_Err. by intros -> ->. Qed.

(** Where nothing ends an operation, nothing fails. *)
Lemma op_never_done {S} d ctx (w w' : World S) : d <= 0 → ¬ op_done d (WithoutCancel ctx) w w'.
Proof. intros Hd [[e He]|[H _]]; [by rewrite ctx_Err_WithoutCancel in He|lia]. Qed.

Section detached.
Context {S} (c : Cache S) (view : S → string → Time → option bytes).
Context (lifetime : bytes → Duration → Duration → Prop) (d : Duration) (Hd : d <= 0).

Lemma detached_cache_spec :
  BoundedCacheSpec c view lifetime d → CacheSpec (detached c) view lifetime.
Proof using Hd.
  intros Hc. split; cbn [detached c_Get c_Set c_Delete c_config].
  - intros ctx k w. destruct (bspec_Get (c := c) (WithoutCancel ctx) k w) as (t & Ht & Hr & Hf).
    exists t. split; [done|]. split; [|done]. destruct (run _ w).1 as [data|e]; [done|].
    destruct (IsMiss e); [done|by apply (op_never_done _ _ _ _ Hd) in Hr].
  - intros ctx k v ttl w _. cbn zeta.
    destruct (bspec_Set (c := c) (WithoutCancel ctx) k v ttl w) as (Ht & Hf & Hr).
    destruct (run _ w).1 as [e|]; [by apply proj1, op_never_done in Hr|].
    split_and!; [done|done|by intros; apply Hf|done].
  - intros ctx k w. cbn zeta.
    destruct (bspec_Delete (c := c) (WithoutCancel ctx) k w) as (Ht & Hf & Hr).
    destruct (run _ w).1 as [e|]; [by apply proj1, op_never_done in Hr|].
    split_and!; [done|done|]. intros k' t' Ht'. case_decide as Hk; [subst; by apply Hr|by apply Hf].
  - apply bspec_lifetime.
Qed.

(** Behind contexts that never end, with WithOpTimeout off, a backend that may
    give up keeps the contract in full. *)
Lemma detached_spec :
  BoundedBackendSpec c view lifetime d → BatchCacheSpec (detached c) view lifetime.
Proof using Hd.
  intros [Hc Hb]. split; [by apply detached_cache_spec|].
  intros b Hbc. cbn [detached c_batch] in Hbc.
  destruct (c_batch c) as [bc|] eqn:E; [|done]. injection Hbc as <-. specialize (Hb bc eq_refl).
  split; cbn [b_GetMany b_SetMany].
  - intros ctx keys w. cbn zeta.
    destruct (bspec_GetMany (b := bc) (WithoutCancel ctx) keys w) as (Ht & Hf & Hr).
    destruct (run _ w).1 as [out|e]; [|by apply (op_never_done _ _ _ _ Hd) in Hr].
    exists out. destruct Hr. split_and!; [done..|]. intros k' t'. apply Hf.
  - intros ctx m ttl w _. cbn zeta.
    destruct (bspec_SetMany (b := bc) (WithoutCancel ctx) m ttl w) as (Ht & Hf & Hr).
    destruct (run _ w).1 as [e|]; [by apply proj1, op_never_done in Hr|].
    split_and!; [done..| |done]. intros k t' Hk. by apply Hf.
Qed.
End detached.

Section spec.
Context {S} (c : Cache S) view lifetime `{!CacheSpec c view lifetime}.

Lemma spec_Get_time ctx k w : w_time w <= w_time (run (c_Get c ctx k) w).2.
Proof. destruct (spec_Get ctx k w) as (t & Ht & _). lia. Qed.

(** Reading never loses a value: what is visible after the call was visible
    before it, and conversely. *)
Lemma spec_Get_frame ctx k w k' t' :
  w_time (run (c_Get c ctx k) w).2 <= t' →
  view (w_store (run (c_Get c ctx k) w).2) k' t' = view (w_store w) k' t'.
Proof.
  destruct (spec_Get ctx k w) as (t & Ht & _ & Hv). intros. apply Hv. lia.
Qed.

(** A value visible throughout the call is the one returned. *)
Lemma spec_Get_hit ctx k w data :
  (∀ t, w_time w <= t <= w_time (run (c_Get c ctx k) w).2 →
     view (w_store w) k t = Some data) →
  (run (c_Get c ctx k) w).1 = Ok data.
Proof.
  intros H. destruct (spec_Get ctx k w) as (t & Ht & Hr & _).
  destruct (run (c_Get c ctx k) w).1 as [data'|e].
  - rewrite H in Hr by done. congruence.
  - rewrite H in Hr by done. by destruct Hr.
Qed.

Lemma spec_Get_miss ctx k w :
  (∀ t, w_time w <= t <= w_time (run (c_Get c ctx k) w).2 →
     view (w_store w) k t = None) →
  ∃ e, (run (c_Get c ctx k) w).1 = Err e ∧ IsMiss e = true.
Proof.
  intros H. destruct (spec_Get ctx k w) as (t & Ht & Hr & _).
  destruct (run (c_Get c ctx k) w).1 as [data'|e].
  - rewrite H in Hr by done. done.
  - exists e. by destruct Hr.
Qed.
End spec.
