(* ===== verification/Memory.v ===== *)
(** * MemoryCache (memory.go)

    The process-local backend: a map from prefixed keys to values with a
    deadline, guarded by a mutex.  The model's store is the map [items]; the
    other fields are the immutable [MemoryCache] record.  Bytes are values here,
    and [bytes.Clone] is their identity; MemoryHeap.v has the same operations
    over shared slices, and shows that the difference cannot be observed. *)
From S2P Require Import Prelude Int64 Float64 Errors Runtime Envelope Hooks Codec.
From S2P Require Import Options Cache.
From Stdlib Require Import ZArith Lia.
Local Open Scope Z_scope.

(** ** Definitions *)

Record memoryItem := mkItem {
  mi_val : bytes;
  mi_deadline : Time   (* zero means no expiry *)
}.

(** The field [items]. *)
Abbreviation items := (gmap string memoryItem).

Record MemoryCache (T : Type) := mkMemory {
  m_addr : N;          (* the pointer *)
  m_prefix : string;
  m_defaultTTL : Duration;
  m_codec : option (Codec T);
  m_hooks : Hooks;
  m_ttlJitter : float64;
  m_negativeTTL : Duration;
  m_staleTTL : Duration;
  m_earlyBeta : float64
}.
Arguments mkMemory {T}. Arguments m_addr {T}.
Arguments m_prefix {T}. Arguments m_defaultTTL {T}. Arguments m_codec {T}.
Arguments m_hooks {T}. Arguments m_ttlJitter {T}. Arguments m_negativeTTL {T}.
Arguments m_staleTTL {T}. Arguments m_earlyBeta {T}.

Section memory.
Context {T : Type}.
Implicit Types c : MemoryCache T.

(** [NewMemory], for the address [addr] the allocation returns.  The store it
    starts with is the empty map. *)
Definition NewMemory `{JSON T} (addr : N) (opts : list (Option T)) : MemoryCache T :=
  let o := buildOptions opts in
  mkMemory addr (Prefix o) (DefaultTTL o) (OptCodec o) (OptHooks o) (TTLJitter o)
    (NegativeTTL o) (StaleTTL o) (EarlyRefreshBeta o).

Definition mem_config c : cacheConfig :=
  mkConfig (m_hooks c) (m_negativeTTL c) (m_defaultTTL c) (m_staleTTL c)
    (m_earlyBeta c) (m_ttlJitter c).

Definition mem_key c (k : string) : string := m_prefix c +:+ k.

(** The lookup shared by Get and GetMany, under the lock: an expired entry is
    dropped and counts as absent.  The clock is read only for entries that
    have a deadline. *)
Definition mem_lookup c (key : string) : act items (option bytes) :=
  its ← get_store;
  match its !! mem_key c key with
  | None => mret None
  | Some it =>
      if IsZero (mi_deadline it) then mret (Some (mi_val it))
      else
        t ← now;
        if negb (Before t (mi_deadline it))
        then modify_store (delete (mem_key c key));; mret None
        else mret (Some (mi_val it))
  end.

Definition mem_Get c (_ : Context) (key : string) : act items (result bytes) :=
  v ← locked (mem_lookup c key);
  match v with
  | None =>
      hooks_miss (m_hooks c) key;;
      mret (Err (Errorf "%w: %s" [AStr key] (Some ErrCacheMiss)))
  | Some val =>
      hooks_hit (m_hooks c) key;;
      mret (Ok val)
  end.

Definition newItem c (val : bytes) (ttl : Duration) : act items memoryItem :=
  let ttl := if ttl <=? 0 then m_defaultTTL c else ttl in
  ttl ← (if negb (hasEnvelope val) then applyJitter ttl (m_ttlJitter c)
         else mret ttl);
  if 0 <? ttl
  then t ← now; mret (mkItem val (time_Add t ttl))
  else mret (mkItem val zero_time).

Definition mem_Set c (_ : Context) (key : string) (val : bytes) (ttl : Duration)
    : act items (option error) :=
  it ← newItem c val ttl;
  locked (modify_store <[mem_key c key := it]>);;
  mret None.

(** One pass of the loop of GetMany: the result map, the hits, the misses. *)
Definition mem_GetMany_step c (acc : gmap string bytes * list string * list string)
    (k : string) : act items (gmap string bytes * list string * list string) :=
  let '(out, hits, misses) := acc in
  v ← mem_lookup c k;
  match v with
  | None => mret (out, hits, misses ++ [k])
  | Some val => mret (<[k := val]> out, hits ++ [k], misses)
  end.

Definition mem_GetMany c (_ : Context) (keys : list string)
    : act items (result (gmap string bytes)) :=
  r ← locked (for_fold (mem_GetMany_step c) (∅, [], []) keys);
  let '(out, hits, misses) := r in
  for_each (hooks_hit (m_hooks c)) hits;;
  for_each (hooks_miss (m_hooks c)) misses;;
  mret (Ok out).

Definition mem_SetMany c (_ : Context) (m : gmap string bytes) (ttl : Duration)
    : act items (option error) :=
  locked (
    l ← range m;
    for_each (λ kv : string * bytes,
      it ← newItem c kv.2 ttl;
      modify_store <[mem_key c kv.1 := it]>) l);;
  mret None.

Definition mem_Delete c (_ : Context) (key : string) : act items (option error) :=
  locked (modify_store (delete (mem_key c key)));;
  mret None.

Definition mem_Codec c : option (Codec T) := m_codec c.

Definition mem_Len : act items nat := locked (its ← get_store; mret (size its)).

(** The cache as an interface value: all three interfaces are implemented. *)
Definition MemoryCache_Cache c : Cache items :=
  mkCache (m_addr c) (mem_Get c) (mem_Set c) (mem_Delete c)
    (Some (mem_config c))
    (Some (mkBatchOps (mem_GetMany c) (mem_SetMany c))).

(** ** The abstract state *)

(** What a reader sees at time [t] under a logical key. *)
Definition item_at (it : memoryItem) (t : Time) : option bytes :=
  if IsZero (mi_deadline it) || Before t (mi_deadline it)
  then Some (mi_val it) else None.

Definition mem_view c (s : items) (k : string) (t : Time) : option bytes :=
  it ← s !! mem_key c k; item_at it t.

(** The TTLs a write may end up with. *)
Definition mem_lifetime c : bytes → Duration → Duration → Prop :=
  resolved_ttl (mem_config c).

(** ** Lemmas *)

Lemma mem_key_inj c k k' : mem_key c k = mem_key c k' → k = k'.
Proof. apply (inj (String.append (m_prefix c))). Qed.

Lemma mem_view_insert_eq c s k it t :
  mem_view c (<[mem_key c k := it]> s) k t = item_at it t.
Proof. unfold mem_view. by rewrite lookup_insert_eq. Qed.

Lemma mem_view_insert_ne c s k k' it t :
  k' ≠ k → mem_view c (<[mem_key c k := it]> s) k' t = mem_view c s k' t.
Proof.
  intros H. unfold mem_view. rewrite lookup_insert_ne; [done|].
  intros E%mem_key_inj. done.
Qed.

Lemma mem_view_delete c s k k' t :
  mem_view c (delete (mem_key c k) s) k' t
  = if decide (k' = k) then None else mem_view c s k' t.
Proof.
  unfold mem_view. case_decide as H; [by subst; rewrite lookup_delete_eq|].
  rewrite lookup_delete_ne; [done|]. intros E%mem_key_inj. done.
Qed.

(** Values only ever expire. *)
Lemma item_at_mono it t t' v : t' <= t → item_at it t = Some v → item_at it t' = Some v.
Proof.
  unfold item_at, Before. intros Ht. destruct (IsZero _); [done|]. simpl.
  destruct (Z.ltb_spec t (mi_deadline it)); [|done].
  by rewrite (proj2 (Z.ltb_lt _ _)) by lia.
Qed.

(** The lookup under the lock: it returns what is visible at the reading it
    makes, and a deletion it does hides nothing from later readers. *)
Lemma mem_lookup_spec c k w :
  let w' := (run (mem_lookup c k) w).2 in
  ∃ t, w_time w <= t <= w_time w'
  ∧ (run (mem_lookup c k) w).1 = mem_view c (w_store w) k t
  ∧ (∀ k' t', t <= t' → mem_view c (w_store w') k' t' = mem_view c (w_store w) k' t')
  ∧ w_trace w' = w_trace w.
Proof.
  cbn zeta. unfold mem_lookup. step. unfold mem_view at 1.
  destruct (w_store w !! mem_key c k) as [it|] eqn:E; cbn [mbind option_bind].
  2:{ exists (w_time w). simpl. split_and!; [lia..|done|done|done]. }
  unfold item_at. destruct (IsZero (mi_deadline it)) eqn:Ez; simpl.
  { exists (w_time w). split_and!; [lia..|done|done|done]. }
  set (t := w_time w + Z.of_N (tick (w_orc w) (w_reads w))).
  exists t. destruct (Before t (mi_deadline it)) eqn:Eb; simpl.
  { split_and!; [lia..|done|done|done]. }
  split_and!; [lia..|done| |done].
  intros k' t' Ht. rewrite mem_view_delete. case_decide; [subst k'|done].
  unfold mem_view. rewrite E. simpl. unfold item_at. rewrite Ez. simpl.
  unfold Before in *. apply Z.ltb_ge in Eb. by rewrite (proj2 (Z.ltb_ge _ _)) by lia.
Qed.

Lemma run_mem_Get c ctx k w :
  run (mem_Get c ctx k) w =
  let r := run (mem_lookup c k) w in
  match r.1 with
  | None => (Err (Errorf "%w: %s" [AStr k] (Some ErrCacheMiss)),
             add_events (ev_if (OnMiss (m_hooks c)) (EvMiss k)) r.2)
  | Some v => (Ok v, add_events (ev_if (OnHit (m_hooks c)) (EvHit k)) r.2)
  end.
Proof. unfold mem_Get. step. by case_match; step. Qed.

(** newItem: the value, and the deadline of some allowed lifetime. *)
Lemma newItem_spec c v ttl w :
  let w' := (run (newItem c v ttl) w).2 in
  w_time w <= w_time w' ∧ w_store w' = w_store w ∧ w_trace w' = w_trace w
  ∧ ∃ e, mem_lifetime c v ttl e
    ∧ (run (newItem c v ttl) w).1
      = mkItem v (if 0 <? e then w_time w' + e else zero_time).
Proof.
  cbn zeta. unfold newItem, mem_lifetime.
  destruct (run_resolve (mem_config c) v ttl w) as (e & w1 & Hrun & Ht & Hs & Htr & He).
  assert (run (if negb (hasEnvelope v) then applyJitter (if ttl <=? 0 then m_defaultTTL c
    else ttl) (m_ttlJitter c) else mret (if ttl <=? 0 then m_defaultTTL c else ttl)) w
    = (e, w1)) as Hrun' by (by rewrite <-Hrun; destruct (hasEnvelope v)).
  step. rewrite Hrun'. cbn [fst snd].
  destruct (0 <? e) eqn:Ee; step.
  - cbn [read_clock w_time w_store w_trace fst snd]. rewrite Ht, Hs, Htr.
    split_and!; [lia|done|done|]. exists e. rewrite Ee. done.
  - rewrite Ht, Hs, Htr. split_and!; [lia|done|done|]. exists e. by rewrite Ee.
Qed.

(** What a freshly made item shows, and for how long. *)
Lemma item_at_new v e t0 t :
  e <= 0 ∨ t0 + e ≠ 0 →
  item_at (mkItem v (if 0 <? e then t0 + e else zero_time)) t
  = if (0 <? e) && negb (t <? t0 + e) then None else Some v.
Proof.
  intros He. unfold item_at, IsZero, Before, zero_time. cbn [mi_deadline mi_val].
  destruct (Z.ltb_spec 0 e); simpl; [|done].
  rewrite (proj2 (Z.eqb_neq _ _)) by lia. by destruct (t <? t0 + e).
Qed.

(** ** MemoryCache keeps the contract of the interface *)

Lemma mem_spec_Get c ctx k w :
  ∃ t, w_time w <= t <= w_time (run (mem_Get c ctx k) w).2
  ∧ match (run (mem_Get c ctx k) w).1 with
    | Ok data => mem_view c (w_store w) k t = Some data
    | Err e => IsMiss e = true ∧ mem_view c (w_store w) k t = None
    end
  ∧ ∀ k' t', t <= t' →
      mem_view c (w_store (run (mem_Get c ctx k) w).2) k' t'
      = mem_view c (w_store w) k' t'.
Proof.
  destruct (mem_lookup_spec c k w) as (t & Ht & Hr & Hv & _).
  rewrite run_mem_Get. exists t. cbn zeta.
  destruct (run (mem_lookup c k) w) as [r w'] eqn:E. cbn [fst snd] in *.
  by destruct r; cbn [fst snd w_time w_store add_events] in *.
Qed.

Lemma mem_spec_Set c ctx k v ttl w :
  0 <= w_time w →
  let w' := (run (mem_Set c ctx k v ttl) w).2 in
  (run (mem_Set c ctx k v ttl) w).1 = None
  ∧ w_time w <= w_time w'
  ∧ (∀ k' t', k' ≠ k → w_time w' <= t' →
       mem_view c (w_store w') k' t' = mem_view c (w_store w) k' t')
  ∧ written (mem_view c) (mem_lifetime c) k v ttl w w'.
Proof.
  intros Hw. cbn zeta. unfold mem_Set, written. step.
  destruct (newItem_spec c v ttl w) as (Ht & Hs & _ & e & He & Hit).
  destruct (run (newItem c v ttl) w) as [it w1]. cbn [fst snd] in *. subst it.
  cbn [w_time w_store set_store]. rewrite Hs.
  split_and!; [done|done| |].
  { intros k' t' Hk' _. by apply mem_view_insert_ne. }
  exists e. split_and!; [done| |].
  - intros Hle t' _. rewrite mem_view_insert_eq, item_at_new by lia.
    by rewrite (proj2 (Z.ltb_ge _ _)) by lia.
  - intros Hlt. exists (w_time w1 + e). split; [lia|]. intros t' _.
    rewrite mem_view_insert_eq, item_at_new, (proj2 (Z.ltb_lt 0 e)) by lia.
    by destruct (t' <? _).
Qed.

Lemma mem_spec_Delete c ctx k w :
  let w' := (run (mem_Delete c ctx k) w).2 in
  (run (mem_Delete c ctx k) w).1 = None
  ∧ w_time w <= w_time w'
  ∧ ∀ k' t', w_time w' <= t' →
      mem_view c (w_store w') k' t' = if decide (k' = k) then None
                                      else mem_view c (w_store w) k' t'.
Proof.
  cbn zeta. unfold mem_Delete. step. cbn [w_time w_store set_store].
  split_and!; [done|lia|]. intros. apply mem_view_delete.
Qed.

Lemma mem_spec_lifetime c v ttl e :
  mem_lifetime c v ttl e →
  hasEnvelope v = true ∨ fle (m_ttlJitter c) fzero = true →
  let base := base_ttl (mem_config c) ttl in
  (base <= 0 → e <= 0)
  ∧ (0 < base → 0 < e ∧ floor_ms base <= e <= Z.max base Millisecond).
Proof.
  intros H Hoff. apply resolved_ttl_base in H as ->; [|done].
  cbn zeta. pose proof (floor_ms_le (base_ttl (mem_config c) ttl)). lia.
Qed.

#[export] Instance MemoryCache_spec c :
  CacheSpec (MemoryCache_Cache c) (mem_view c) (mem_lifetime c).
Proof.
  split.
  - apply mem_spec_Get.
  - apply mem_spec_Set.
  - apply mem_spec_Delete.
  - apply mem_spec_lifetime.
Qed.

(** ** The batch operations are the pointwise ones *)

(** One pass of the loop of GetMany is one lookup. *)
Lemma run_mem_GetMany_step c out hits misses k w :
  run (mem_GetMany_step c (out, hits, misses) k) w
  = (match (run (mem_lookup c k) w).1 with
     | None => (out, hits, misses ++ [k])
     | Some val => (<[k := val]> out, hits ++ [k], misses)
     end, (run (mem_lookup c k) w).2).
Proof. unfold mem_GetMany_step. step. by case_match; step. Qed.

(** The loop invariant of GetMany, started in the world [w0], after the keys
    [seen]: each entry of the result was visible at some instant of the loop,
    each key read but absent was invisible at some instant, hits and misses
    split the keys read, and no lookup hid anything. *)
Record getmany_inv c (w0 : World items) (seen : list string)
    (acc : gmap string bytes * list string * list string) (w : World items) : Prop := {
  gi_time : w_time w0 <= w_time w;
  gi_trace : w_trace w = w_trace w0;
  gi_frame k t : w_time w <= t → mem_view c (w_store w) k t = mem_view c (w_store w0) k t;
  gi_some k v : acc.1.1 !! k = Some v → k ∈ seen
    ∧ ∃ t, w_time w0 <= t <= w_time w ∧ mem_view c (w_store w0) k t = Some v;
  gi_none k : k ∈ seen → acc.1.1 !! k = None →
    ∃ t, w_time w0 <= t <= w_time w ∧ mem_view c (w_store w0) k t = None;
  gi_split : acc.1.2 ++ acc.2 ≡ₚ seen;
  gi_hits k : k ∈ acc.1.2 ↔ is_Some (acc.1.1 !! k)
}.

Lemma getmany_inv_step c w0 seen k acc w :
  getmany_inv c w0 seen acc w →
  getmany_inv c w0 (seen ++ [k]) (run (mem_GetMany_step c acc k) w).1
    (run (mem_GetMany_step c acc k) w).2.
Proof.
  destruct acc as [[out hits] misses]. intros [Ht0 Htr0 Hfr0 Hs Hn Hp Hh].
  rewrite run_mem_GetMany_step. cbn [fst snd] in *.
  destruct (mem_lookup_spec c k w) as (t & Ht & Hv & Hfr & Htr).
  destruct (run (mem_lookup c k) w) as [v w1]. cbn [fst snd] in *.
  rewrite Hfr0 in Hv by lia.
  split; cbn [fst snd]; [lia|congruence| | | | |].
  - intros k' t' Ht'. rewrite Hfr, Hfr0 by lia. done.
  - intros k' v' H.
    assert (out !! k' = Some v' ∨ (k' = k ∧ v = Some v')) as [Ho | [-> ->]].
    { destruct v as [val|]; cbn [fst] in H; [|by left].
      apply lookup_insert_Some in H as [[<- <-] | [_ H]]; [by right|by left]. }
    + destruct (Hs _ _ Ho) as (? & t1 & ? & ?). rewrite elem_of_snoc.
      split; [by left|]. exists t1. split; [lia|done].
    + rewrite elem_of_snoc. split; [by right|]. exists t. split; [lia|done].
  - intros k' [Hin | ->]%elem_of_snoc H.
    + destruct (Hn k' Hin) as (t1 & ? & ?); [|exists t1; split; [lia|done]].
      destruct v; cbn [fst] in H; [|done].
      by apply lookup_insert_None in H as [H _].
    + destruct v as [val|]; cbn [fst] in H; [by rewrite lookup_insert_eq in H|].
      exists t. split; [lia|done].
  - destruct v; cbn [fst snd]; rewrite <-Hp; solve_Permutation.
  - intros k'. destruct v as [val|]; cbn [fst snd]; [|apply Hh].
    rewrite elem_of_snoc, Hh, lookup_insert_is_Some. destruct (decide (k = k')); naive_solver.
Qed.

Lemma getmany_inv_loop c keys w :
  let r := run (for_fold (mem_GetMany_step c) (∅, [], []) keys) w in
  getmany_inv c w keys r.1 r.2.
Proof.
  apply (for_fold_inv (getmany_inv c w)).
  - intros. by apply getmany_inv_step.
  - split; simpl; try done.
    + intros k Hk. by apply not_elem_of_nil in Hk.
    + intros k. rewrite lookup_empty, elem_of_nil. split; [done|]. by intros [??].
Qed.

(** The hooks of GetMany fire after the lock is released: the hits in order,
    then the misses in order. *)
Lemma run_mem_GetMany c ctx keys w :
  run (mem_GetMany c ctx keys) w =
  let r := run (for_fold (mem_GetMany_step c) (∅, [], []) keys) w in
  (Ok r.1.1.1,
   add_events ((if OnHit (m_hooks c) then EvHit <$> r.1.1.2 else [])
               ++ (if OnMiss (m_hooks c) then EvMiss <$> r.1.2 else [])) r.2).
Proof.
  unfold mem_GetMany. step.
  destruct (run (for_fold _ _ _) w) as [[[out hits] misses] w1]. cbn [fst snd].
  rewrite run_bind, run_each_hit, run_bind, run_each_miss, run_ret. cbn [fst snd].
  by rewrite add_events_app.
Qed.

Lemma mem_spec_GetMany c ctx keys w :
  let w' := (run (mem_GetMany c ctx keys) w).2 in
  ∃ out, (run (mem_GetMany c ctx keys) w).1 = Ok out
  ∧ w_time w <= w_time w'
  ∧ (∀ k, k ∉ keys → out !! k = None)
  ∧ (∀ k, k ∈ keys → ∃ t, w_time w <= t <= w_time w'
       ∧ out !! k = mem_view c (w_store w) k t)
  ∧ ∀ k' t', w_time w' <= t' →
      mem_view c (w_store w') k' t' = mem_view c (w_store w) k' t'.
Proof.
  cbn zeta. rewrite run_mem_GetMany. cbn zeta.
  destruct (getmany_inv_loop c keys w) as [Ht Htr Hfr Hs Hn Hp _].
  destruct (run (for_fold _ _ _) w) as [[[out hits] misses] w1]. cbn [fst snd] in *.
  exists out. cbn [w_time w_store add_events]. split_and!; [done|done| | |done].
  - intros k Hk. destruct (out !! k) eqn:E; [|done]. by destruct (Hs _ _ E).
  - intros k Hk. destruct (out !! k) as [v|] eqn:E.
    + destruct (Hs _ _ E) as (_ & t & ? & ?). by exists t.
    + destruct (Hn _ Hk E) as (t & ? & ?). by exists t.
Qed.

(** The item a write leaves, made at the instant [t]. *)
Definition new_item_at c v ttl t it : Prop :=
  ∃ e, mem_lifetime c v ttl e
    ∧ it = mkItem v (if 0 <? e then t + e else zero_time).

Lemma new_item_written c k v ttl (w w' : World items) t it :
  0 <= w_time w → w_time w <= t <= w_time w' →
  new_item_at c v ttl t it → w_store w' !! mem_key c k = Some it →
  written (mem_view c) (mem_lifetime c) k v ttl w w'.
Proof.
  intros Hw Ht (e & He & ->) Hs. exists e. unfold mem_view. rewrite Hs. simpl.
  split_and!; [done| |].
  - intros Hle t' _. rewrite item_at_new by lia.
    by rewrite (proj2 (Z.ltb_ge _ _)) by lia.
  - intros Hlt. exists (t + e). split; [lia|]. intros t' _.
    rewrite item_at_new, (proj2 (Z.ltb_lt 0 e)) by lia. by destruct (t' <? _).
Qed.

(** The loop invariant of SetMany, started in [w0], after the pairs [seen]. *)
Record setmany_inv c (ttl : Duration) (w0 : World items)
    (seen : list (string * bytes)) (w : World items) : Prop := {
  si_time : w_time w0 <= w_time w;
  si_other k : k ∉ seen.*1 → w_store w !! mem_key c k = w_store w0 !! mem_key c k;
  si_seen k v : (k, v) ∈ seen → ∃ t it, w_time w0 <= t <= w_time w
    ∧ new_item_at c v ttl t it ∧ w_store w !! mem_key c k = Some it
}.

Lemma setmany_inv_step c ttl w0 seen kv w :
  kv.1 ∉ seen.*1 →
  setmany_inv c ttl w0 seen w →
  setmany_inv c ttl w0 (seen ++ [kv])
    (run (it ← newItem c kv.2 ttl; modify_store <[mem_key c kv.1 := it]>) w).2.
Proof.
  destruct kv as [k v]. cbn [fst snd]. intros Hk [Ht Ho Hs]. step.
  destruct (newItem_spec c v ttl w) as (Ht1 & Hs1 & _ & e & He & Hit).
  destruct (run (newItem c v ttl) w) as [it w1]. cbn [fst snd] in *.
  split; cbn [w_time w_store set_store]; rewrite ?Hs1.
  - lia.
  - intros k' Hk'. rewrite fmap_app in Hk'. apply not_elem_of_app in Hk' as [? Hne].
    rewrite lookup_insert_ne; [by apply Ho|].
    intros ->%mem_key_inj. apply Hne, list_elem_of_here.
  - intros k' v' [Hin | [= -> ->]]%elem_of_snoc.
    + destruct (Hs _ _ Hin) as (t & it' & ? & ? & ?). exists t, it'.
      split_and!; [lia..|done|]. rewrite lookup_insert_ne; [done|].
      intros ->%mem_key_inj. apply Hk. by apply (list_elem_of_fmap_2 fst _ _ Hin).
    + exists (w_time w1), it. rewrite lookup_insert_eq.
      split_and!; [lia..| |done]. by exists e.
Qed.

Lemma mem_spec_SetMany c ctx m ttl w :
  0 <= w_time w →
  let w' := (run (mem_SetMany c ctx m ttl) w).2 in
  (run (mem_SetMany c ctx m ttl) w).1 = None
  ∧ w_time w <= w_time w'
  ∧ (∀ k t', m !! k = None → w_time w' <= t' →
       mem_view c (w_store w') k t' = mem_view c (w_store w) k t')
  ∧ ∀ k v, m !! k = Some v →
      written (mem_view c) (mem_lifetime c) k v ttl w w'.
Proof.
  intros Hw. cbn zeta. unfold mem_SetMany. step.
  destruct (range_map_spec m w) as [Hp Hnd].
  assert (setmany_inv c ttl w [] (range_map m w).2) as H0.
  { split; simpl; [lia|done|]. intros k v Hk. by apply not_elem_of_nil in Hk. }
  destruct (range_map m w) as [l w1]. cbn [fst snd] in *.
  destruct (for_each_inv (setmany_inv c ttl w)
    (λ kv : string * bytes, it ← newItem c kv.2 ttl;
       modify_store <[mem_key c kv.1:=it]>) l w1) as [Ht Ho Hs]; [|done|].
  { intros seen kv rest w2 -> Hinv. apply setmany_inv_step; [|done].
    rewrite fmap_app, fmap_cons in Hnd. apply NoDup_app in Hnd as (_ & Hd & _).
    intros Hin. apply (Hd _ Hin), list_elem_of_here. }
  split_and!; [done|done| |].
  - intros k t' Hk _. unfold mem_view. rewrite Ho; [done|].
    rewrite Hp. intros ([k' v] & -> & Hin)%list_elem_of_fmap.
    apply elem_of_map_to_list in Hin. cbn in Hk. congruence.
  - intros k v Hk. destruct (Hs k v) as (t & it & ? & ? & ?).
    { rewrite Hp. by apply elem_of_map_to_list. }
    by eapply new_item_written.
Qed.

#[export] Instance MemoryCache_batch_spec c :
  BatchSpec (mkBatchOps (mem_GetMany c) (mem_SetMany c)) (mem_view c) (mem_lifetime c).
Proof.
  split.
  - apply mem_spec_GetMany.
  - apply mem_spec_SetMany.
Qed.
#[export] Instance MemoryCache_full_spec c :
  BatchCacheSpec (MemoryCache_Cache c) (mem_view c) (mem_lifetime c).
Proof. split; [apply _|]. intros bc [= <-]. apply _. Qed.
End memory.
