(* ===== verification/Group.v ===== *)
(** * Single-flight calls (group.go) and the programs of callers

    A flight's function is [act] code; what a caller of GetOrSet runs is a
    [prog]: atomic steps, plus the two uses the package makes of the
    single-flight group, [do] (start or join a flight and wait) and [doAsync]
    (start or join, do not wait).  [solo] runs a caller that finds no flight
    in progress; Flights.v gives the meaning of the same programs when many
    callers run at once. *)
From S2P Require Import Prelude Int64 Errors Runtime.
From Stdlib Require Import ZArith Lia Ascii.

(** ** Definitions *)

(** The function of a flight: it may return bytes, fail, or panic. *)
Abbreviation flight_fn S := (act S (outcome (result bytes))).

(** [start]: the function handed to DoChan turns a panic into an error (the
    deferred Forget is a step of the single-flight group, see Flights.v). *)
Definition start {S} (fn : flight_fn S) : act S (result bytes) :=
  o ← fn;
  mret (match o with
        | Returned r => r
        | Panicked v => Err (Errorf "cachekit: loader panic: %v" [AStr v] None)
        end).

Inductive prog (S A : Type) :=
| PRet (a : A)
| PStep (f : World S → prog S A * World S)
| PDo (ctx : Context) (key : string) (fn : flight_fn S) (k : result bytes → prog S A)
| PAsync (key : string) (fn : flight_fn S) (k : prog S A).
Arguments PRet {S A} a.
Arguments PStep {S A} f.
Arguments PDo {S A} ctx key fn k.
Arguments PAsync {S A} key fn k.

Fixpoint prog_bind_def {S A B} (k : A → prog S B) (p : prog S A) : prog S B :=
  match p with
  | PRet a => k a
  | PStep f => PStep (λ w, let '(p', w') := f w in (prog_bind_def k p', w'))
  | PDo ctx key fn h => PDo ctx key fn (λ r, prog_bind_def k (h r))
  | PAsync key fn h => PAsync key fn (prog_bind_def k h)
  end.

#[export] Instance prog_ret S : MRet (prog S) := λ A a, PRet a.
#[export] Instance prog_mbind S : MBind (prog S) := λ A B k p, prog_bind_def k p.

(** A caller running straight-line code. *)
Fixpoint lift {S A} (m : act S A) : prog S A :=
  match m with
  | Ret a => PRet a
  | Step f => PStep (λ w, let '(m', w') := f w in (lift m', w'))
  end.

(** group.go: [do] and [doAsync] on the package's [loadGroup]. *)
Definition do {S} (ctx : Context) (key : string) (fn : flight_fn S)
    : prog S (result bytes) := PDo ctx key fn PRet.

Definition doAsync {S} (key : string) (fn : flight_fn S) : prog S () :=
  PAsync key fn (PRet ()).

(** What the [select] of [do] yields once the flight has finished with [r]: a
    waiter whose context is done may see either case. *)
Definition select_result {S} (ctx : Context) (r : result bytes) (w : World S)
    : result bytes * World S :=
  match ctx_Err ctx w with
  | None => (r, w)
  | Some e => let '(b, w') := read_select w in
              (if b then Err e else r, w')
  end.

(** A background flight that was started and not yet run. *)
Abbreviation spawned S := (list (string * act S (result bytes))).

(** Run a caller alone: its own flight runs before it goes on; background
    flights are handed back, to be run at any later time. *)
Fixpoint solo {S A} (p : prog S A) (w : World S) : A * spawned S * World S :=
  match p with
  | PRet a => (a, [], w)
  | PStep f => let '(p', w') := f w in solo p' w'
  | PDo ctx key fn k =>
      let '(r, w1) := run (start fn) w in
      let '(r', w2) := select_result ctx r w1 in
      solo (k r') w2
  | PAsync key fn k =>
      let '(a, sp, w') := solo k w in
      (a, (key, start fn) :: sp, w')
  end.

(** ** flightKey (cache.go)

    fmt's [%p] of a pointer is 0x and the lower-case hexadecimal digits of
    the address. *)
Definition hex_char (d : N) : Ascii.ascii :=
  match d with
  | 0 => "0" | 1 => "1" | 2 => "2" | 3 => "3" | 4 => "4" | 5 => "5"
  | 6 => "6" | 7 => "7" | 8 => "8" | 9 => "9" | 10 => "a" | 11 => "b"
  | 12 => "c" | 13 => "d" | 14 => "e" | _ => "f"
  end%N%char.

Fixpoint hex_aux (fuel : nat) (n : N) (acc : string) : string :=
  match fuel with
  | O => acc
  | Datatypes.S fuel =>
      let acc := String (hex_char (n mod 16)) acc in
      if (n / 16 =? 0)%N then acc else hex_aux fuel (n / 16) acc
  end.

(** Sixteen digits cover a 64-bit address. *)
Definition fmt_p (addr : N) : string := "0x" +:+ hex_aux 16 addr "".

Definition NUL : Ascii.ascii := Ascii.zero.

Definition flightKey (addr : N) (key : string) : string :=
  fmt_p addr +:+ String NUL key.

(** ** Lemmas: running callers *)

Section solo.
Context {S : Type}.

Fixpoint prog_rect' {A} (P : prog S A → Prop) (HR : ∀ a, P (PRet a))
    (HS : ∀ f, (∀ w, P (f w).1) → P (PStep f))
    (HD : ∀ ctx key fn k, (∀ r, P (k r)) → P (PDo ctx key fn k))
    (HA : ∀ key fn k, P k → P (PAsync key fn k)) (p : prog S A) : P p :=
  match p with
  | PRet a => HR a
  | PStep f => HS f (λ w, prog_rect' P HR HS HD HA (f w).1)
  | PDo ctx key fn k => HD ctx key fn k (λ r, prog_rect' P HR HS HD HA (k r))
  | PAsync key fn k => HA key fn k (prog_rect' P HR HS HD HA k)
  end.

Lemma solo_ret {A} (a : A) (w : World S) : solo (mret a) w = (a, [], w).
Proof. done. Qed.

Lemma solo_bind {A B} (p : prog S A) (k : A → prog S B) w :
  solo (p ≫= k) w
  = let '(a, sp, w1) := solo p w in
    let '(b, sp', w2) := solo (k a) w1 in
    (b, sp ++ sp', w2).
Proof.
  revert w. induction p as [a|f IH|ctx key fn h IH|key fn h IH] using prog_rect';
    intros w; simpl.
  - by destruct (solo (k a) w) as [[b sp'] w2].
  - specialize (IH w). destruct (f w) as [p' w']. apply IH.
  - destruct (run (start fn) w) as [r w1]. destruct (select_result ctx r w1).
    apply IH.
  - rewrite IH. destruct (solo h w) as [[a sp] w1].
    by destruct (solo (k a) w1) as [[b sp'] w2].
Qed.

Lemma solo_lift {A} (m : act S A) w :
  solo (lift m) w = ((run m w).1, [], (run m w).2).
Proof.
  revert w. induction m as [a|f IH] using act_rect'; intros w; [done|].
  simpl. specialize (IH w). destruct (f w) as [m' w']. apply IH.
Qed.

Lemma solo_do ctx key (fn : flight_fn S) w :
  solo (do ctx key fn) w
  = let '(r, w1) := run (start fn) w in
    let '(r', w2) := select_result ctx r w1 in (r', [], w2).
Proof.
  unfold do. simpl. destruct (run (start fn) w) as [r w1].
  by destruct (select_result ctx r w1).
Qed.

Lemma solo_doAsync key (fn : flight_fn S) w :
  solo (doAsync key fn) w = ((), [(key, start fn)], w).
Proof. done. Qed.

Lemma run_start (fn : flight_fn S) w :
  run (start fn) w =
  (match (run fn w).1 with
   | Returned r => r
   | Panicked v => Err (Errorf "cachekit: loader panic: %v" [AStr v] None)
   end, (run fn w).2).
Proof. unfold start. by step. Qed.

Lemma select_result_live ctx r (w : World S) :
  ctx_Err ctx w = None → select_result ctx r w = (r, w).
Proof. unfold select_result. by intros ->. Qed.

(** Either way, the store and the clock are those the flight left. *)
Lemma select_result_spec ctx r (w : World S) :
  let r' := select_result ctx r w in
  (r'.1 = r ∨ ctx_Err ctx w = Some DeadlineExceeded ∧ r'.1 = Err DeadlineExceeded
   ∨ ctx_Err ctx w = Some Canceled ∧ r'.1 = Err Canceled)
  ∧ w_store r'.2 = w_store w ∧ w_time r'.2 = w_time w ∧ w_trace r'.2 = w_trace w.
Proof.
  unfold select_result, ctx_Err. cbn zeta.
  destruct (existsb _ _); simpl; [destruct (select _ _); simpl; eauto 10|].
  destruct (cx_deadline ctx) as [d|]; [|simpl; eauto 10].
  destruct (d <=? w_time w)%Z; [|simpl; eauto 10].
  simpl. destruct (select _ _); simpl; eauto 10.
Qed.
End solo.

#[export] Hint Rewrite @solo_bind @solo_ret @solo_lift @solo_do @solo_doAsync : ckrun.

(** ** Lemmas: flight keys *)

Fixpoint no_nul (s : string) : Prop :=
  match s with
  | EmptyString => True
  | String a s => a ≠ NUL ∧ no_nul s
  end.

Lemma no_nul_split a b k k' :
  no_nul a → no_nul b → a +:+ String NUL k = b +:+ String NUL k' → a = b ∧ k = k'.
Proof.
  revert b. induction a as [|x a IH]; intros [|y b]; simpl.
  - by intros _ _ [= ->].
  - by intros _ [Hy _] [= ? _].
  - by intros [Hx _] _ [= ? _].
  - intros [_ Ha] [_ Hb] [= -> H]. destruct (IH _ Ha Hb H) as [-> ->]. done.
Qed.

(** The value of a hexadecimal digit, and of a text after the digits [acc]. *)
Definition hex_digit (a : ascii) : N :=
  let n := N_of_ascii a in if (n <? 97)%N then n - 48 else n - 87.

Fixpoint hex_val (s : string) (acc : N) : N :=
  match s with
  | EmptyString => acc
  | String a s => hex_val s (acc * 16 + hex_digit a)
  end.

Lemma hex_char_spec d : (d < 16)%N → hex_char d ≠ NUL ∧ hex_digit (hex_char d) = d.
Proof.
  intros Hd. assert (d ∈ (N.of_nat <$> seq 0 16)) as Hin.
  { apply list_elem_of_fmap. exists (N.to_nat d).
    rewrite N2Nat.id. split; [done|]. apply elem_of_seq. lia. }
  revert d Hd Hin. assert (Forall (λ d, hex_char d ≠ NUL ∧ hex_digit (hex_char d) = d)
    (N.of_nat <$> seq 0 16)) as H.
  { apply (bool_decide_unpack _). vm_compute. done. }
  rewrite Forall_forall in H. intros d _. apply H.
Qed.

Lemma hex_aux_no_nul fuel n acc : no_nul acc → no_nul (hex_aux fuel n acc).
Proof.
  revert n acc. induction fuel as [|fuel IH]; intros n acc Hacc; simpl; [done|].
  assert (no_nul (String (hex_char (n mod 16)) acc)).
  { split; [|done]. apply hex_char_spec, N.mod_lt. done. }
  destruct (_ =? _)%N; eauto.
Qed.

Lemma hex_val_aux fuel n acc :
  (n < 16 ^ N.of_nat fuel)%N → hex_val (hex_aux fuel n acc) 0 = hex_val acc n.
Proof.
  revert n acc. induction fuel as [|fuel IH]; intros n acc Hn; cbn [hex_aux].
  { assert (n = 0)%N as -> by (simpl in Hn; lia). done. }
  pose proof (N.div_mod n 16 ltac:(done)) as Hdm.
  pose proof (N.mod_lt n 16 ltac:(done)) as Hm.
  destruct (hex_char_spec _ Hm) as [_ Hd].
  destruct (N.eqb_spec (n / 16) 0) as [Hz|Hz].
  - cbn [hex_val]. rewrite Hd. f_equal. lia.
  - rewrite IH.
    + cbn [hex_val]. rewrite Hd. f_equal. lia.
    + apply N.Div0.div_lt_upper_bound. rewrite Nat2N.inj_succ, N.pow_succ_r' in Hn. done.
Qed.

Lemma fmt_p_no_nul addr : no_nul (fmt_p addr).
Proof. split; [done|]. split; [done|]. by apply hex_aux_no_nul. Qed.

Lemma fmt_p_inj a b :
  (a < 2 ^ 64)%N → (b < 2 ^ 64)%N → fmt_p a = fmt_p b → a = b.
Proof.
  intros Ha Hb. unfold fmt_p. intros H%(inj (String.append "0x")).
  apply (f_equal (λ s, hex_val s 0)) in H.
  by rewrite !hex_val_aux in H.
Qed.
