(* ===== verification/GetOrSet.v ===== *)
(** * The cache-aside helper GetOrSet (cache.go)

    The synchronous path, the single-flight function shared by misses and
    background refreshes, and the packing of what is stored.  The definitions
    follow cache.go line by line, over any backend ([Cache S]), any codec and
    any loader; the loader is arbitrary code that may fail or panic. *)
From S2P Require Import Prelude Int64 Float64 Errors Runtime Envelope Hooks Codec.
From S2P Require Import Options Cache Group.
From Stdlib Require Import ZArith Lia.
Local Open Scope Z_scope.

(** ** Definitions *)

(** How a flight derives its context and when a re-checked entry satisfies it. *)
Record flightOpts := mkFlightOpts {
  preserveDeadline : bool;
  timeout : Duration;
  refreshOf : Time
}.

Section getorset.
Context {S T : Type} `{!JSON T}.
Implicit Types (c : Cache S) (cfg : cacheConfig) (codec : Codec T).
Implicit Types (loader : Context → act S (outcome (result T))).

(** What bytes and TTL hit the backend. *)
Definition packForStore (payload : bytes) (ttl loadDur : Duration) cfg
    : act S (bytes * Duration) :=
  if negb (envelopeEnabled cfg) then mret (payload, ttl)
  else
    let fresh := if ttl <=? 0 then cfg_defaultTTL cfg else ttl in
    fresh ← applyJitter fresh (cfg_ttlJitter cfg);
    if 0 <? fresh then
      t ← now;
      mret (wrapEnvelope payload (time_Add t fresh) loadDur,
            dur_add fresh (cfg_staleTTL cfg))
    else
      mret (wrapEnvelope payload zero_time loadDur, 0).

(** The context of a flight: detached from cancellation, with the deadline the
    options ask for. *)
Definition flightContext (base : Context) (opts : flightOpts) : act S Context :=
  let fctx := WithoutCancel base in
  let fctx := if preserveDeadline opts then
                match cx_deadline base with
                | Some d => WithDeadline fctx d
                | None => fctx
                end
              else fctx in
  if 0 <? timeout opts then WithTimeout fctx (timeout opts) else mret fctx.

(** The re-check at the start of a flight: the bytes that satisfy it, if any. *)
Definition recheck c (key : string) codec cfg (opts : flightOpts) (fctx : Context)
    : act S (option bytes) :=
  r ← c_Get c fctx key;
  match r with
  | Err _ => mret None
  | Ok data =>
      if isNegativeEntry data then mret (Some data)
      else
        let '(env, payload) := parseStored cfg data in
        let refreshed := IsZero (refreshOf opts) || After (freshUntil env) (refreshOf opts) in
        t ← now;
        if negb (stale env t) && refreshed then
          match Unmarshal codec payload with
          | Ok _ => mret (Some data)
          | Err uerr =>
              hooks_error (cfg_hooks cfg) OpDecode key uerr;;
              c_Delete c fctx key;;
              mret None
          end
        else mret None
  end.

(** Storing what the loader returned, and the bytes the flight yields. *)
Definition storeLoaded c (key : string) (ttl : Duration) codec cfg (fctx : Context)
    (loadDur : Duration) (lr : result T) : act S (result bytes) :=
  match lr with
  | Err err =>
      if (0 <? cfg_negativeTTL cfg) && errors_Is err ErrNotFound then
        c_Set c fctx key negativeMarker (cfg_negativeTTL cfg);;
        mret (Ok negativeMarker)
      else mret (Err err)
  | Ok v =>
      match Marshal codec v with
      | Err merr =>
          hooks_error (cfg_hooks cfg) OpEncode key merr;;
          mret (Err (Errorf "cachekit: encode %q: %w" [AStr key] (Some merr)))
      | Ok payload =>
          '(data, storeTTL) ← packForStore payload ttl loadDur cfg;
          c_Set c fctx key data storeTTL;;
          mret (Ok data)
      end
  end.

(** The error component a hook is given. *)
Definition result_error {A} (r : result A) : option error :=
  match r with Ok _ => None | Err e => Some e end.

(** The part of a flight that loads and stores. *)
Definition loadPhase c (key : string) (ttl : Duration) codec loader cfg
    (fctx : Context) : flight_fn S :=
  t0 ← now;
  o ← loader fctx;
  match o with
  | Panicked v => mret (Panicked v)
  | Returned lr =>
      t1 ← now;
      let loadDur := time_Sub t1 t0 in
      hooks_load (cfg_hooks cfg) key loadDur (result_error lr);;
      r ← storeLoaded c key ttl codec cfg fctx loadDur lr;
      mret (Returned r)
  end.

(** The single-flight function: re-check, load, store. *)
Definition loadAndStore (base : Context) c (key : string) (ttl : Duration) codec
    loader cfg (opts : flightOpts) : flight_fn S :=
  fctx ← flightContext base opts;
  hit ← recheck c key codec cfg opts fctx;
  match hit with
  | Some data => mret (Returned (Ok data))
  | None => loadPhase c key ttl codec loader cfg fctx
  end.

(** The bound on a background refresh. *)
Definition refreshTimeout (ttl : Duration) cfg : Duration :=
  let fresh := if ttl <=? 0 then cfg_defaultTTL cfg else ttl in
  let t := dur_add fresh (cfg_staleTTL cfg) in
  if t <=? 0 then Minute else t.

(** The function of a refresh flight: failures of any kind, panics included,
    are reported through the OpRefresh hook. *)
Definition refreshFlight (ctx : Context) c (key : string) (ttl : Duration) codec
    loader cfg (env : envelope) : flight_fn S :=
  o ← loadAndStore ctx c key ttl codec loader cfg
        (mkFlightOpts false (refreshTimeout ttl cfg) (freshUntil env));
  let r := match o with
           | Returned r => r
           | Panicked v => Err (Errorf "cachekit: loader panic: %v" [AStr v] None)
           end in
  match r with
  | Err err => hooks_error (cfg_hooks cfg) OpRefresh key err
  | Ok _ => mret ()
  end;;
  mret (Returned r).

Definition refreshAsync (ctx : Context) c (key : string) (ttl : Duration) codec
    loader cfg (env : envelope) : prog S () :=
  doAsync (flightKey (c_addr c) key) (refreshFlight ctx c key ttl codec loader cfg env).

(** [fmt.Errorf("%w: %s", ErrNotFound, key)]. *)
Definition notFound (key : string) : error :=
  Errorf "%w: %s" [AStr key] (Some ErrNotFound).

(** The cache hit of GetOrSetWithCodec: [Some] result ends the call, [None]
    falls through to the miss path. *)
Definition serveHit (ctx : Context) c (key : string) (ttl : Duration) codec
    loader cfg (data : bytes) : prog S (option (result T)) :=
  if isNegativeEntry data then mret (Some (Err (notFound key)))
  else
    let '(env, payload) := parseStored cfg data in
    match Unmarshal codec payload with
    | Ok v =>
        t ← lift now;
        (if stale env t then refreshAsync ctx c key ttl codec loader cfg env
         else
           early ← lift (shouldEarlyRefresh env t (cfg_earlyRefreshBeta cfg));
           if (early : bool) then refreshAsync ctx c key ttl codec loader cfg env
           else mret ());;
        mret (Some (Ok v))
    | Err uerr =>
        lift (hooks_error (cfg_hooks cfg) OpDecode key uerr);;
        lift (c_Delete c ctx key);;
        mret None
    end.

(** What the caller makes of the bytes its flight yielded. *)
Definition decodeFlight codec cfg (key : string) (d : result bytes) : result T :=
  match d with
  | Err err => Err err
  | Ok data =>
      if isNegativeEntry data then Err (notFound key)
      else
        let '(_, payload) := parseStored cfg data in
        match Unmarshal codec payload with
        | Ok v => Ok v
        | Err uerr => Err (Errorf "cachekit: decode %q: %w" [AStr key] (Some uerr))
        end
  end.

Definition GetOrSetWithCodec (ctx : Context) c (key : string) (ttl : Duration)
    (codec : option (Codec T)) loader : prog S (result T) :=
  let codec := codec_or_default codec in
  let cfg := configOf (c_config c) in
  r ← lift (c_Get c ctx key);
  hit ← match r with
        | Ok data => serveHit ctx c key ttl codec loader cfg data
        | Err _ => mret None
        end;
  match hit with
  | Some res => mret res
  | None =>
      d ← do ctx (flightKey (c_addr c) key)
            (loadAndStore ctx c key ttl codec loader cfg
               (mkFlightOpts true 0 zero_time));
      mret (decodeFlight codec cfg key d)
  end.

Definition GetOrSet (ctx : Context) c (key : string) (ttl : Duration) loader
    : prog S (result T) :=
  GetOrSetWithCodec ctx c key ttl (Some defaultCodec) loader.
End getorset.
