(* ===== verification/GetOrSetFacts.v ===== *)
(** * GetOrSet: what each piece does

    The component lemmas behind GetOrSetSpec.v and GetOrSetThms.v: flight
    contexts, packing, the re-check, storing, and the footprint of each piece
    on a backend that keeps the contract of the interface. *)
From S2P Require Import Prelude Int64 Float64 Errors Runtime Envelope Hooks Codec.
From S2P Require Import Options Cache Group GetOrSet.
From Stdlib Require Import ZArith Lia.
Local Open Scope Z_scope.

(** ** Packing *)

(** What packing yields: the bytes parse back to the payload, and with the
    envelope on, the TTL is the freshness window plus the stale window. *)
Record packed (cfg : cacheConfig) (payload : bytes) (ttl loadDur : Duration)
    (data : bytes) (storeTTL : Duration) (t : Time) : Prop := {
  pk_payload : (parseStored cfg data).2 = payload;
  pk_negative : isNegativeEntry data
    = if envelopeEnabled cfg then false else isNegativeEntry payload;
  pk_bare : envelopeEnabled cfg = false → data = payload ∧ storeTTL = ttl;
  pk_envelope : envelopeEnabled cfg = true →
    hasEnvelope data = true ∧ ∃ fresh,
      (fresh <= 0 ∧ data = wrapEnvelope payload zero_time loadDur ∧ storeTTL = 0
       ∨ 0 < fresh ∧ data = wrapEnvelope payload (t + fresh) loadDur
         ∧ storeTTL = dur_add fresh (cfg_staleTTL cfg))
      ∧ (fle (cfg_ttlJitter cfg) fzero = true ∨ base_ttl cfg ttl <= 0 →
         fresh = base_ttl cfg ttl)
      ∧ (fresh = base_ttl cfg ttl ∨ ∃ oob k,
           fresh = jittered oob (base_ttl cfg ttl) (cfg_ttlJitter cfg) (of_draw k))
}.

Section facts.
Context {S T : Type}.

Lemma run_applyJitter ttl frac (w : World S) :
  ∃ fresh w', run (applyJitter ttl frac) w = (fresh, w')
  ∧ w_time w' = w_time w ∧ w_store w' = w_store w ∧ w_trace w' = w_trace w
  ∧ w_canceled w' = w_canceled w
  ∧ (fle frac fzero = true ∨ ttl <= 0 → fresh = ttl)
  ∧ (fresh = ttl ∨ ∃ oob k, fresh = jittered oob ttl frac (of_draw k)).
Proof.
  destruct (Z.le_gt_cases ttl 0) as [Hle|Hlt].
  { rewrite applyJitter_off by eauto. eauto 12. }
  destruct (fle frac fzero) eqn:Hf.
  { rewrite applyJitter_off by eauto. eauto 12. }
  rewrite run_applyJitter_on by done. eexists _, _. split; [done|].
  split_and!; try done; [|by eauto]. intros [?|?]; [done|lia].
Qed.

Lemma parse_stored_wrap cfg payload fu d :
  envelopeEnabled cfg = true → (parseStored cfg (wrapEnvelope payload fu d)).2 = payload.
Proof. intros He. rewrite parseStored_on by done. apply parse_payload_wrap. Qed.

Lemma packForStore_spec payload ttl d cfg (w : World S) :
  ∃ data sttl w' t, run (packForStore payload ttl d cfg) w = ((data, sttl), w')
  ∧ w_time w <= t <= w_time w' ∧ w_store w' = w_store w ∧ w_trace w' = w_trace w
  ∧ w_canceled w' = w_canceled w
  ∧ packed cfg payload ttl d data sttl t.
Proof.
  unfold packForStore. destruct (envelopeEnabled cfg) eqn:He; cbn [negb].
  2:{ eexists _, _, _, (w_time w). split; [done|]. split_and!; try done; try lia.
      split; rewrite ?He; try done. by rewrite parseStored_off. }
  destruct (run_applyJitter (if ttl <=? 0 then cfg_defaultTTL cfg else ttl)
    (cfg_ttlJitter cfg) w) as (fresh & w1 & Hj & Ht & Hs & Htr & Hc & H1 & H2).
  fold (base_ttl cfg ttl) in Hj, H1, H2.
  step. unfold base_ttl in Hj. rewrite Hj. cbn [fst snd].
  fold (base_ttl cfg ttl) in Hj.
  destruct (Z.ltb_spec 0 fresh) as [Hpos|Hneg]; step.
  - cbn [read_clock fst snd].
    eexists _, _, _, (w_time w1 + Z.of_N (tick (w_orc w1) (w_reads w1))).
    split; [done|]. cbn [w_time w_store w_trace w_canceled].
    split_and!; try done; try lia. split; rewrite ?He.
    + by apply parse_stored_wrap.
    + apply hasEnvelope_not_negative, wrapEnvelope_hasEnvelope.
    + done.
    + intros _. split; [apply wrapEnvelope_hasEnvelope|]. exists fresh.
      split_and!; [by right|tauto|done].
  - eexists _, _, _, (w_time w). split; [done|]. rewrite Ht.
    split_and!; try done; try lia. split; rewrite ?He.
    + by apply parse_stored_wrap.
    + apply hasEnvelope_not_negative, wrapEnvelope_hasEnvelope.
    + done.
    + intros _. split; [apply wrapEnvelope_hasEnvelope|]. exists fresh.
      split_and!; [by left|tauto|done].
Qed.

(** ** Flight contexts *)

Lemma run_flightContext base opts (w : World S) :
  timeout opts <= 0 →
  run (flightContext base opts) w
  = (if preserveDeadline opts then
       mkContext (cx_values base) [] (cx_deadline base)
     else WithoutCancel base, w).
Proof.
  intros Ht. unfold flightContext. rewrite (proj2 (Z.ltb_ge _ _)) by lia.
  destruct (preserveDeadline opts); [|done].
  by destruct (cx_deadline base) as [d|].
Qed.

Lemma run_flightContext_timeout base opts (w : World S) :
  0 < timeout opts → preserveDeadline opts = false →
  run (flightContext base opts) w
  = (mkContext (cx_values base) [] (Some ((read_clock w).1 + timeout opts)),
     (read_clock w).2).
Proof.
  intros Ht Hp. unfold flightContext, WithTimeout. rewrite Hp, (proj2 (Z.ltb_lt _ _)) by lia.
  by step.
Qed.

Lemma flightContext_quiet base opts (w : World S) :
  let r := run (flightContext base opts) w in
  w_time w <= w_time r.2 ∧ w_store r.2 = w_store w ∧ w_trace r.2 = w_trace w
  ∧ w_canceled r.2 = w_canceled w.
Proof.
  cbn zeta. unfold flightContext, WithTimeout. destruct (0 <? timeout opts); step;
    simpl; split_and!; done || lia.
Qed.
End facts.

(** ** Footprints on a backend that keeps its contract

    [touches k m]: code [m], started after the zero Time, lets no reader of
    another key see a difference.  [quiet m]: no reader of any key does. *)
Section footprint.
Context {S T : Type} `{!JSON T}.
Context (c : Cache S) (view : S → string → Time → option bytes)
  (lifetime : bytes → Duration → Duration → Prop) `{!CacheSpec c view lifetime}.

Definition touches {A} (key : string) (m : act S A) : Prop :=
  ∀ w, 0 <= w_time w →
    w_time w <= w_time (run m w).2
    ∧ ∀ k t, k ≠ key → w_time (run m w).2 <= t →
        view (w_store (run m w).2) k t = view (w_store w) k t.

Definition quiet {A} (m : act S A) : Prop :=
  ∀ w, 0 <= w_time w →
    w_time w <= w_time (run m w).2
    ∧ ∀ k t, w_time (run m w).2 <= t →
        view (w_store (run m w).2) k t = view (w_store w) k t.

Lemma quiet_touches {A} key (m : act S A) : quiet m → touches key m.
Proof. intros H w Hw. destruct (H w Hw) as [? Hv]. split; [done|]. eauto. Qed.

Lemma quiet_pure {A} (m : act S A) : monotone m → pure_store m → quiet m.
Proof. intros Hm Hp w _. split; [apply Hm|]. intros. by rewrite Hp. Qed.

Lemma touches_bind {A B} key (m : act S A) (k : A → act S B) :
  touches key m → (∀ a, touches key (k a)) → touches key (m ≫= k).
Proof.
  intros Hm Hk w Hw. rewrite run_bind. destruct (Hm w Hw) as [Ht Hv].
  destruct (Hk (run m w).1 (run m w).2 ltac:(lia)) as [Ht' Hv'].
  split; [lia|]. intros. rewrite Hv', Hv by (done || lia). done.
Qed.

Lemma quiet_bind {A B} (m : act S A) (k : A → act S B) :
  quiet m → (∀ a, quiet (k a)) → quiet (m ≫= k).
Proof.
  intros Hm Hk w Hw. rewrite run_bind. destruct (Hm w Hw) as [Ht Hv].
  destruct (Hk (run m w).1 (run m w).2 ltac:(lia)) as [Ht' Hv'].
  split; [lia|]. intros. rewrite Hv', Hv by (done || lia). done.
Qed.

Lemma quiet_ret {A} (a : A) : quiet (mret a).
Proof. apply quiet_pure; auto with ck. Qed.

Lemma quiet_Get ctx k : quiet (c_Get c ctx k).
Proof.
  intros w _. split; [by eapply spec_Get_time|]. intros. by eapply spec_Get_frame.
Qed.

Lemma touches_Set ctx k v ttl : touches k (c_Set c ctx k v ttl).
Proof.
  intros w Hw. destruct (spec_Set ctx k v ttl w Hw) as (_ & Ht & Hv & _).
  split; [done|]. intros. by apply Hv.
Qed.

Lemma touches_Delete ctx k : touches k (c_Delete c ctx k).
Proof.
  intros w Hw. destruct (spec_Delete ctx k w) as (_ & Ht & Hv).
  split; [done|]. intros. rewrite Hv by done. by rewrite decide_False.
Qed.

Lemma quiet_hooks_error h op k e : quiet (hooks_error h op k e).
Proof. apply quiet_pure; auto with ck. Qed.

Lemma quiet_hooks_load h k d e : quiet (hooks_load h k d e).
Proof. apply quiet_pure; auto with ck. Qed.

Lemma quiet_now : quiet now.
Proof. apply quiet_pure; auto with ck. Qed.

Lemma quiet_flightContext base opts : quiet (flightContext base opts).
Proof.
  intros w _. destruct (flightContext_quiet base opts w) as (Ht & Hs & _).
  split; [done|]. intros. by rewrite Hs.
Qed.

Lemma quiet_packForStore payload ttl d cfg : quiet (packForStore payload ttl d cfg).
Proof.
  intros w _. destruct (packForStore_spec payload ttl d cfg w)
    as (data & sttl & w' & t & -> & Ht & Hs & _).
  simpl. split; [lia|]. intros. by rewrite Hs.
Qed.

Hint Resolve quiet_touches quiet_ret quiet_Get touches_Set touches_Delete
  quiet_hooks_error quiet_hooks_load quiet_now quiet_flightContext
  quiet_packForStore : ck.

Lemma touches_recheck k codec cfg opts fctx :
  touches k (recheck (T := T) c k codec cfg opts fctx).
Proof.
  unfold recheck. apply touches_bind; [auto with ck|]. intros [data|e]; [|auto with ck].
  destruct (isNegativeEntry data); [auto with ck|].
  destruct (parseStored cfg data) as [env payload].
  apply touches_bind; [auto with ck|]. intros t.
  destruct (_ && _); [|auto with ck]. destruct (Unmarshal codec payload); [auto with ck|].
  repeat (apply touches_bind; [auto with ck|intros ?]). auto with ck.
Qed.

Lemma touches_storeLoaded k ttl codec cfg fctx d lr :
  touches k (storeLoaded (T := T) c k ttl codec cfg fctx d lr).
Proof.
  unfold storeLoaded. destruct lr as [v|err].
  - destruct (Marshal codec v) as [payload|merr].
    + apply touches_bind; [auto with ck|]. intros [data sttl].
      apply touches_bind; auto with ck.
    + apply touches_bind; auto with ck.
  - destruct (_ && _); [|auto with ck]. apply touches_bind; auto with ck.
Qed.

Lemma touches_loadPhase k ttl codec loader cfg fctx :
  (∀ ctx, touches k (loader ctx)) →
  touches k (loadPhase (T := T) c k ttl codec loader cfg fctx).
Proof.
  intros Hl. unfold loadPhase.
  apply touches_bind; [auto with ck|]. intros t0.
  apply touches_bind; [done|]. intros [lr|v]; [|auto with ck].
  apply touches_bind; [auto with ck|]. intros t1.
  apply touches_bind; [auto with ck|]. intros _.
  apply touches_bind; [apply touches_storeLoaded|]. auto with ck.
Qed.

(** A flight for a key lets no reader of another key see a difference, as long
    as its loader does not. *)
Lemma touches_loadAndStore base k ttl codec loader cfg opts :
  (∀ ctx, touches k (loader ctx)) →
  touches k (loadAndStore (T := T) base c k ttl codec loader cfg opts).
Proof.
  intros Hl. unfold loadAndStore.
  apply touches_bind; [auto with ck|]. intros fctx.
  apply touches_bind; [apply touches_recheck|]. intros [data|]; [auto with ck|].
  by apply touches_loadPhase.
Qed.

Lemma touches_start k (fn : flight_fn S) : touches k fn → touches k (start fn).
Proof. intros H. unfold start. apply touches_bind; auto with ck. Qed.

Lemma touches_refreshFlight ctx k ttl codec loader cfg env :
  (∀ ctx, touches k (loader ctx)) →
  touches k (refreshFlight (T := T) ctx c k ttl codec loader cfg env).
Proof.
  intros Hl. unfold refreshFlight.
  apply touches_bind; [by apply touches_loadAndStore|]. intros o.
  apply touches_bind; [|auto with ck].
  destruct (match o with Returned r => r | Panicked v => _ end); auto with ck.
Qed.
End footprint.

(** ** The pieces, run on a backend that keeps its contract *)

(** A loader that always ends with the outcome [o] and leaves the cache alone. *)
Definition loader_yields {S T} (view : S → string → Time → option bytes)
    (loader : Context → act S (outcome (result T))) (o : outcome (result T)) : Prop :=
  ∀ ctx w, 0 <= w_time w → (run (loader ctx) w).1 = o
    ∧ w_time w <= w_time (run (loader ctx) w).2
    ∧ ∀ k t, w_time (run (loader ctx) w).2 <= t →
        view (w_store (run (loader ctx) w).2) k t = view (w_store w) k t.

(** The key is absent, now and (nothing being written) later. *)
Definition absent {S} (view : S → string → Time → option bytes) (key : string)
    (w : World S) : Prop :=
  ∀ t, w_time w <= t → view (w_store w) key t = None.

(** [loadPhase], run: the loader runs once, between two clock readings. *)
Lemma run_loadPhase {S T} (c : Cache S) key ttl (codec : Codec T) loader cfg fctx w :
  run (loadPhase c key ttl codec loader cfg fctx) w
  = let t0 := (read_clock w).1 in
    let r := run (loader fctx) (read_clock w).2 in
    match r.1 with
    | Panicked v => (Panicked v, r.2)
    | Returned lr =>
        let d := time_Sub (read_clock r.2).1 t0 in
        let w' := add_events (ev_if (OnLoad (cfg_hooks cfg))
                    (EvLoad key d (result_error lr))) (read_clock r.2).2 in
        let r' := run (storeLoaded c key ttl codec cfg fctx d lr) w' in
        (Returned r'.1, r'.2)
    end.
Proof.
  unfold loadPhase. rewrite run_bind, run_now, run_bind. cbn zeta.
  destruct (run (loader fctx) (read_clock w).2) as [o w3]. cbn [fst snd].
  destruct o as [lr|v]; [|done].
  by rewrite run_bind, run_now, run_bind, run_hooks_load, run_bind, run_ret.
Qed.

(** Exactly which bytes satisfy the re-check. *)
Lemma run_recheck {S T} (c : Cache S) key (codec : Codec T) cfg opts fctx w :
  (run (recheck c key codec cfg opts fctx) w).1
  = match (run (c_Get c fctx key) w).1 with
    | Err _ => None
    | Ok data =>
        let '(env, payload) := parseStored cfg data in
        if isNegativeEntry data
           || negb (stale env (read_clock (run (c_Get c fctx key) w).2).1)
              && (IsZero (refreshOf opts) || After (freshUntil env) (refreshOf opts))
              && is_Ok (Unmarshal codec payload)
        then Some data else None
    end.
Proof.
  unfold recheck. rewrite run_bind.
  destruct (run (c_Get c fctx key) w) as [[data|e] w1]; cbn [fst snd]; [|done].
  destruct (parseStored cfg data) as [env payload].
  destruct (isNegativeEntry data); [done|]. cbn [orb].
  rewrite run_bind, run_now. cbn [fst snd].
  destruct (negb _ && _); cbn [andb]; [|done].
  destruct (Unmarshal codec payload); [done|]. by rewrite !run_bind.
Qed.

(** From [w] to [w'] time went on and no reader can see a difference. *)
Definition same_view_by {S} (view : S → string → Time → option bytes)
    (w w' : World S) : Prop :=
  w_time w <= w_time w'
  ∧ ∀ k t, w_time w' <= t → view (w_store w') k t = view (w_store w) k t.

Section pieces.
Context {S T : Type} `{!JSON T}.
Context (c : Cache S) (view : S → string → Time → option bytes)
  (lifetime : bytes → Duration → Duration → Prop) `{!CacheSpec c view lifetime}.
Implicit Types (w : World S) (codec : Codec T).
Abbreviation same_view := (same_view_by view).

Lemma same_view_refl w : same_view w w.
Proof. split; [lia|done]. Qed.

Lemma same_view_trans w1 w2 w3 : same_view w1 w2 → same_view w2 w3 → same_view w1 w3.
Proof.
  intros [H1 V1] [H2 V2]. split; [lia|]. intros. rewrite V2, V1 by lia. done.
Qed.

Lemma same_view_store w w' :
  w_time w <= w_time w' → w_store w' = w_store w → same_view w w'.
Proof. intros Ht Hs. split; [done|]. by rewrite Hs. Qed.

Lemma same_view_absent key w w' :
  same_view w w' → absent view key w → absent view key w'.
Proof. intros [Ht Hv] Ha t Hle. rewrite Hv by done. apply Ha. lia. Qed.

Lemma absent_later {A} key (m : act S A) w :
  0 <= w_time w → quiet view m → absent view key w →
  absent view key (run m w).2 ∧ w_time w <= w_time (run m w).2.
Proof.
  intros Hw Hq Ha. destruct (Hq w Hw) as [Ht Hv]. split; [|done].
  intros t Hle. rewrite Hv by done. apply Ha. lia.
Qed.

(** Nothing satisfies the re-check of an absent key; it only reads. *)
Lemma recheck_absent key codec cfg opts fctx w :
  absent view key w →
  run (recheck c key codec cfg opts fctx) w = (None, (run (c_Get c fctx key) w).2).
Proof.
  intros Ha. unfold recheck. step.
  destruct (spec_Get_miss c view lifetime fctx key w) as (e & He & _).
  { intros t Ht. apply Ha. lia. }
  rewrite He. by step.
Qed.

(** A flight on an absent key goes to its loading phase, and nothing that a
    reader could see has changed by then. *)
Lemma loadAndStore_absent base key ttl codec loader cfg opts w :
  0 <= w_time w → absent view key w →
  ∃ fctx w', same_view w w' ∧ absent view key w'
    ∧ run (loadAndStore (T := T) base c key ttl codec loader cfg opts) w
      = run (loadPhase c key ttl codec loader cfg fctx) w'.
Proof.
  intros Hw Ha. unfold loadAndStore. rewrite run_bind.
  destruct (absent_later key _ w Hw (quiet_flightContext view base opts) Ha) as [Ha1 Ht1].
  pose proof (quiet_flightContext view base opts w Hw) as Hq1.
  destruct (run (flightContext base opts) w) as [fctx w1]. cbn [fst snd] in *.
  rewrite run_bind, recheck_absent by done. cbn [fst snd].
  pose proof (quiet_Get c view lifetime fctx key w1 ltac:(lia)) as Hq2.
  destruct (absent_later key _ w1 ltac:(lia) (quiet_Get c view lifetime fctx key) Ha1)
    as [Ha2 _].
  exists fctx, (run (c_Get c fctx key) w1).2. split_and!; [|done|done].
  by eapply same_view_trans.
Qed.

(** Storing a loaded value: the flight yields packed bytes, and the backend
    holds them from then on. *)
Lemma storeLoaded_ok key ttl codec cfg fctx d v payload w :
  0 <= w_time w → Marshal codec v = Ok payload →
  let r := run (storeLoaded c key ttl codec cfg fctx d (Ok v)) w in
  ∃ data sttl t wa, r.1 = Ok data ∧ packed cfg payload ttl d data sttl t
    ∧ w_time w <= t <= w_time wa ∧ w_time wa <= w_time r.2
    ∧ written view lifetime key data sttl wa r.2.
Proof.
  intros Hw Hm. cbn zeta. unfold storeLoaded. rewrite Hm.
  destruct (packForStore_spec payload ttl d cfg w)
    as (data & sttl & wa & t & Hrun & Ht & Hs & _ & _ & Hp).
  rewrite run_bind, Hrun. cbn [fst snd]. step.
  destruct (spec_Set fctx key data sttl wa ltac:(lia)) as (_ & Hta & _ & Hwr).
  exists data, sttl, t, wa. split_and!; done || lia.
Qed.

(** Caching an absence. *)
Lemma storeLoaded_not_found key ttl codec cfg fctx d e w :
  0 <= w_time w → 0 < cfg_negativeTTL cfg → errors_Is e ErrNotFound = true →
  let r := run (storeLoaded c key ttl codec cfg fctx d (Err e)) w in
  r.1 = Ok negativeMarker ∧ w_time w <= w_time r.2
  ∧ written view lifetime key negativeMarker (cfg_negativeTTL cfg) w r.2.
Proof.
  intros Hw Hn He. cbn zeta. unfold storeLoaded.
  rewrite (proj2 (Z.ltb_lt _ _)), He by done. cbn [andb]. step.
  by destruct (spec_Set fctx key negativeMarker (cfg_negativeTTL cfg) w Hw)
    as (_ & Hta & _ & Hwr).
Qed.

(** Any other loader error propagates and stores nothing. *)
Lemma storeLoaded_err key ttl codec cfg fctx d e w :
  cfg_negativeTTL cfg <= 0 ∨ errors_Is e ErrNotFound = false →
  run (storeLoaded c key ttl codec cfg fctx d (Err e)) w = (Err e, w).
Proof.
  intros H. unfold storeLoaded.
  assert ((0 <? cfg_negativeTTL cfg) && errors_Is e ErrNotFound = false) as ->; [|done].
  destruct H as [H| ->]; [|apply andb_false_r].
  by rewrite (proj2 (Z.ltb_ge _ _)).
Qed.

(** Packed bytes of an encoding decode to the encoded value. *)
Lemma packed_decodes codec cfg key v payload ttl d data sttl t :
  Marshal codec v = Ok payload → Unmarshal codec payload = Ok v →
  envelopeEnabled cfg = true ∨ head payload ≠ Some x00 →
  packed cfg payload ttl d data sttl t →
  isNegativeEntry data = false
  ∧ Unmarshal codec (parseStored cfg data).2 = Ok v
  ∧ decodeFlight codec cfg key (Ok data) = Ok v.
Proof.
  intros Hm Hu Hmark [Hpay Hneg _ _].
  assert (isNegativeEntry data = false) as Hn.
  { rewrite Hneg. destruct (envelopeEnabled cfg); [done|].
    destruct Hmark as [?|Hh]; [done|].
    apply bool_decide_eq_false. intros ->. by apply Hh. }
  unfold decodeFlight. rewrite Hn. rewrite <-Hpay in Hu.
  destruct (parseStored cfg data) as [env p]. simpl in *. by rewrite Hu.
Qed.

(** With jitter off, what a flight stored stays visible for the base TTL. *)
Lemma packed_visible cfg key payload ttl d data sttl t wa w' :
  configOf (c_config c) = cfg →
  fle (cfg_ttlJitter cfg) fzero = true →
  0 <= cfg_staleTTL cfg → base_ttl cfg ttl + cfg_staleTTL cfg <= max_int64 →
  packed cfg payload ttl d data sttl t →
  written view lifetime key data sttl wa w' →
  ∀ t', w_time w' <= t' →
    base_ttl cfg ttl <= 0 ∨ t' < w_time wa + floor_ms (base_ttl cfg ttl) →
    view (w_store w') key t' = Some data.
Proof.
  intros Hcfg Hj Hst Hov [_ _ Hbare Henv] (e & He & Hforever & Huntil) t' Ht' Hwin.
  pose proof (spec_lifetime _ _ _ He) as Hl. rewrite Hcfg in Hl.
  specialize (Hl (or_intror Hj)). cbn zeta in Hl.
  assert ((base_ttl cfg ttl <= 0 → e <= 0)
          ∧ (0 < base_ttl cfg ttl → floor_ms (base_ttl cfg ttl) <= e)) as [Hl1 Hl2].
  { destruct (envelopeEnabled cfg) eqn:Een.
    2:{ destruct (Hbare eq_refl) as [_ ->]. tauto. }
    destruct (Henv eq_refl) as [_ (fresh & Hf & Hbase & _)].
    rewrite (Hbase (or_introl Hj)) in Hf. clear Hbase Hbare Henv.
    destruct Hf as [(Hle & _ & ->) | (Hlt & _ & Hs)].
    - split; [|lia]. intros _. apply Hl. by eapply base_ttl_neg.
    - split; [lia|]. intros _.
      assert (sttl = base_ttl cfg ttl + cfg_staleTTL cfg) as ->.
      { rewrite Hs. apply dur_add_id. unfold is_int64, min_int64. lia. }
      rewrite base_ttl_pos in Hl by lia.
      pose proof (floor_ms_mono (base_ttl cfg ttl) (base_ttl cfg ttl + cfg_staleTTL cfg)). lia. }
  destruct (Z.le_gt_cases e 0) as [Hle|Hlt]; [by apply Hforever|].
  destruct (Huntil Hlt) as (dl & Hd & Hv). rewrite Hv by done.
  by rewrite (proj2 (Z.ltb_lt _ _)) by lia.
Qed.

(** With jitter off, a cached absence stays visible for the negative TTL. *)
Lemma negative_visible cfg key wa w' :
  configOf (c_config c) = cfg →
  0 < cfg_negativeTTL cfg → fle (cfg_ttlJitter cfg) fzero = true →
  written view lifetime key negativeMarker (cfg_negativeTTL cfg) wa w' →
  ∀ t, w_time w' <= t < w_time wa + floor_ms (cfg_negativeTTL cfg) →
    view (w_store w') key t = Some negativeMarker.
Proof.
  intros Hcfg Hn Hj (e & He & _ & Huntil) t Ht.
  pose proof (spec_lifetime _ _ _ He) as Hl. rewrite Hcfg in Hl.
  specialize (Hl (or_intror Hj)). cbn zeta in Hl. rewrite base_ttl_pos in Hl by lia.
  destruct Huntil as (dl & Hd & Hvis); [lia|]. rewrite Hvis by lia.
  by rewrite (proj2 (Z.ltb_lt _ _)) by lia.
Qed.

(** The loading phase, by outcome of the loader. *)
Lemma loadPhase_ok key ttl codec loader cfg fctx v payload w :
  0 <= w_time w → loader_yields view loader (Returned (Ok v)) →
  Marshal codec v = Ok payload →
  let r := run (loadPhase c key ttl codec loader cfg fctx) w in
  ∃ data sttl t d wa, r.1 = Returned (Ok data)
    ∧ packed cfg payload ttl d data sttl t
    ∧ w_time w <= t <= w_time wa ∧ w_time wa <= w_time r.2
    ∧ written view lifetime key data sttl wa r.2.
Proof.
  intros Hw Hl Hm. cbn zeta. rewrite run_loadPhase. cbn zeta.
  destruct (Hl fctx (read_clock w).2 ltac:(simpl; lia)) as (Ho & Ht & _).
  rewrite Ho. set (w3 := (run (loader fctx) (read_clock w).2).2) in *.
  cbn [read_clock w_time snd] in Ht.
  edestruct (storeLoaded_ok key ttl codec cfg fctx) with
    (d := time_Sub (read_clock w3).1 (read_clock w).1) (v := v) (payload := payload)
    (w := add_events (ev_if (OnLoad (cfg_hooks cfg)) (EvLoad key
       (time_Sub (read_clock w3).1 (read_clock w).1) None)) (read_clock w3).2)
    as (data & sttl & t & wa & Hr & Hp & Ht1 & Ht2 & Hwr); [simpl; lia|done|].
  cbn [result_error] in *. cbn zeta in Hr, Ht2, Hwr.
  cbn [w_time add_events read_clock snd] in Ht1.
  exists data, sttl, t. eexists _, wa. cbn [fst snd].
  split_and!; [by f_equal|done|lia|lia|done|done].
Qed.

Lemma loadPhase_not_found key ttl codec loader cfg fctx e w :
  0 <= w_time w → loader_yields view loader (Returned (Err e)) →
  0 < cfg_negativeTTL cfg → errors_Is e ErrNotFound = true →
  let r := run (loadPhase (T := T) c key ttl codec loader cfg fctx) w in
  ∃ wa, r.1 = Returned (Ok negativeMarker)
    ∧ w_time w <= w_time wa <= w_time r.2
    ∧ written view lifetime key negativeMarker (cfg_negativeTTL cfg) wa r.2.
Proof.
  intros Hw Hl Hn He. cbn zeta. rewrite run_loadPhase. cbn zeta.
  destruct (Hl fctx (read_clock w).2 ltac:(simpl; lia)) as (Ho & Ht & _).
  rewrite Ho. set (w3 := (run (loader fctx) (read_clock w).2).2) in *.
  cbn [read_clock w_time snd] in Ht.
  set (w4 := add_events _ _).
  assert (w_time w <= w_time w4) as H4 by (subst w4; simpl; lia).
  destruct (storeLoaded_not_found key ttl codec cfg fctx
    (time_Sub (read_clock w3).1 (read_clock w).1) e w4 ltac:(lia) Hn He)
    as (Hr & Ht1 & Hwr).
  exists w4. cbn [fst snd]. split_and!; [by f_equal|done|done|done].
Qed.

Lemma loadPhase_err key ttl codec loader cfg fctx e w :
  0 <= w_time w → loader_yields view loader (Returned (Err e)) →
  cfg_negativeTTL cfg <= 0 ∨ errors_Is e ErrNotFound = false →
  let r := run (loadPhase (T := T) c key ttl codec loader cfg fctx) w in
  r.1 = Returned (Err e) ∧ same_view w r.2.
Proof.
  intros Hw Hl Hn. cbn zeta. rewrite run_loadPhase. cbn zeta.
  destruct (Hl fctx (read_clock w).2 ltac:(simpl; lia)) as (Ho & Ht & Hv).
  rewrite Ho, storeLoaded_err by done.
  set (w3 := (run (loader fctx) (read_clock w).2).2) in *.
  cbn [read_clock w_time snd fst w_store add_events] in *.
  split; [done|].
  split; cbn [read_clock w_time snd fst w_store add_events]; [lia|].
  intros. apply Hv. lia.
Qed.

Lemma loadPhase_panic key ttl codec loader cfg fctx v w :
  0 <= w_time w → loader_yields view loader (Panicked v) →
  let r := run (loadPhase (T := T) c key ttl codec loader cfg fctx) w in
  r.1 = Panicked v ∧ same_view w r.2.
Proof.
  intros Hw Hl. cbn zeta. rewrite run_loadPhase. cbn zeta.
  destruct (Hl fctx (read_clock w).2 ltac:(simpl; lia)) as (Ho & Ht & Hv).
  rewrite Ho. set (w3 := (run (loader fctx) (read_clock w).2).2) in *.
  cbn [read_clock w_time snd fst w_store] in *. split; [done|].
  split; cbn [read_clock w_time snd fst w_store]; [lia|]. intros. by apply Hv.
Qed.

(** The key holds the entry [old], until it expires. *)
Definition holds key (old : bytes) w : Prop :=
  ∀ t, w_time w <= t →
    view (w_store w) key t = Some old ∨ view (w_store w) key t = None.

(** A refresh never takes the entry that triggered it for an answer. *)
Lemma recheck_own_entry key codec cfg opts fctx old w :
  0 <= w_time w → holds key old w → isNegativeEntry old = false →
  refreshOf opts = freshUntil (parseStored cfg old).1 → refreshOf opts ≠ 0 →
  (run (recheck (T := T) c key codec cfg opts fctx) w).1 = None
  ∧ same_view w (run (recheck (T := T) c key codec cfg opts fctx) w).2.
Proof.
  intros Hw Hold Hn Href Hz.
  destruct (spec_Get fctx key w) as (t & Ht & Hr & _).
  destruct (quiet_Get c view lifetime fctx key w Hw) as [Htg Hvg].
  unfold recheck. rewrite run_bind.
  destruct (run (c_Get c fctx key) w) as [[data|e] w1]; cbn [fst snd] in *; [|done].
  destruct (Hold t ltac:(lia)) as [Ho|Ho]; [|congruence].
  assert (data = old) as -> by congruence. rewrite Hn.
  destruct (parseStored cfg old) as [env payload]. cbn [fst] in Href.
  rewrite run_bind, run_now. cbn [fst snd].
  unfold IsZero, After. rewrite (proj2 (Z.eqb_neq _ _)) by done.
  rewrite Href, Z.ltb_irrefl, andb_false_r. rewrite run_ret.
  split; [done|]. split; cbn [read_clock snd w_time w_store]; [lia|].
  intros. apply Hvg. lia.
Qed.

(** A refresh of the entry [old] goes to its loading phase. *)
Lemma loadAndStore_refresh base key ttl codec loader cfg opts old w :
  0 <= w_time w → holds key old w → isNegativeEntry old = false →
  refreshOf opts = freshUntil (parseStored cfg old).1 → refreshOf opts ≠ 0 →
  ∃ fctx w', same_view w w'
    ∧ run (loadAndStore (T := T) base c key ttl codec loader cfg opts) w
      = run (loadPhase c key ttl codec loader cfg fctx) w'.
Proof.
  intros Hw Hold Hn Href Hz. unfold loadAndStore. rewrite run_bind.
  pose proof (quiet_flightContext view base opts w Hw) as Hq1.
  destruct (run (flightContext base opts) w) as [fctx w1]. cbn [fst snd] in *.
  assert (holds key old w1) as Hold1.
  { intros t Ht. destruct Hq1 as [Ht1 Hv1]. rewrite Hv1 by done. apply Hold. lia. }
  destruct (recheck_own_entry key codec cfg opts fctx old w1) as [Hr Hsv];
    [destruct Hq1; lia|done..|].
  rewrite run_bind. destruct (run (recheck _ _ _ _ _ _) w1) as [r w2].
  cbn [fst snd] in *. subst r. exists fctx, w2. split; [|done].
  by eapply same_view_trans.
Qed.
End pieces.
