(* ===== verification/Instances.v ===== *)
(** * Concrete inputs

    A machine, a world and caches on which the theorems of the library are
    applied: the witnesses evaluate the model on them. *)
From S2P Require Import Prelude Int64 Float64 Errors Runtime Envelope Hooks Codec.
From S2P Require Import Options Cache Memory Group GetOrSet GetOrSetFacts.
From Stdlib Require Import ZArith Lia.
Local Open Scope Z_scope.

(** A machine: 5 ns before each clock reading, the same draw each time, maps
    iterated in order, a flight's result preferred over a done context. *)
Definition demo_oracle : Oracle := {|
  tick := λ _, 5%N;
  draw := λ n, Z.of_nat n * 3141592653589793;
  order := λ _, 0%nat;
  select := λ _, false;
  libm_log := λ _, Fin (- one_units);
  float_oob := λ _, min_int64
|}.

(** November 2023. *)
Definition demo_time : Time := unix_epoch + 1700000000 * Second.

Definition demo_world {S} (s : S) : World S :=
  mkWorld demo_oracle 0 0 0 0 demo_time [] s [].

Definition demo_empty : World items := demo_world ∅.

(** NewMemory(WithPrefix("a:"), WithHooks(...), WithNegativeTTL(1s),
    WithStaleTTL(10s)). *)
Definition demo_memory : MemoryCache bool :=
  NewMemory 0xc000010000
    [WithPrefix "a:"; WithHooks all_hooks; WithNegativeTTL Second;
     WithStaleTTL (10 * Second)].

(** The same without the metadata envelope. *)
Definition demo_plain : MemoryCache bool :=
  NewMemory 0xc000010000 [WithPrefix "a:"; WithHooks all_hooks; WithNegativeTTL Second].

Definition demo_cache : Cache items := MemoryCache_Cache demo_memory.
Definition demo_plain_cache : Cache items := MemoryCache_Cache demo_plain.

(** A loader that takes 20 ms and ends with [o]. *)
Definition demo_loader {S} (o : outcome (result bool)) (_ : Context)
    : act S (outcome (result bool)) :=
  atom (λ w, (o, elapse 20000000 w)).

(** A backend that is down: every operation fails. *)
Definition demo_down : Cache items :=
  mkCache 0xc000020000
    (λ _ _, mret (Err (ErrOther "connection refused")))
    (λ _ _ _ _, mret (Some (ErrOther "connection refused")))
    (λ _ _, mret (Some (ErrOther "connection refused")))
    (Some (mem_config demo_plain)) None.

Lemma run_demo_loader {S} o ctx (w : World S) :
  run (demo_loader o ctx) w = (o, elapse 20000000 w).
Proof. done. Qed.

#[export] Hint Rewrite @run_demo_loader : ckrun.

(** Entries of the key "k", one second past its deadline, one minute before. *)
Definition demo_fresh_entry : bytes :=
  wrapEnvelope json_true (demo_time + Minute) Millisecond.
Definition demo_stale_entry : bytes :=
  wrapEnvelope json_true (demo_time - Second) Millisecond.
Definition demo_with (data : bytes) : World items :=
  demo_world {[ "a:k" := mkItem data (demo_time + Minute) ]}.

Lemma demo_absent : absent (mem_view demo_memory) "k" demo_empty.
Proof. intros t _. reflexivity. Qed.

Lemma demo_loader_yields (c : MemoryCache bool) o :
  loader_yields (T := bool) (mem_view c) (demo_loader o) o.
Proof. intros ctx w Hw. rewrite run_demo_loader. simpl. split_and!; [done|lia|done]. Qed.
