(* ===== verification/GetOrSetSpec.v ===== *)
(** * GetOrSet: running a caller

    What [solo] makes of GetOrSet on each of its paths, as equations and
    consequences shared by the theorems of GetOrSetThms.v and RefreshThms.v:
    serving a hit, the miss path and its flight, and a later call that finds
    the entry visible. *)
From S2P Require Import Prelude Int64 Float64 Errors Runtime Envelope Hooks Codec.
From S2P Require Import Options Cache Memory Group GetOrSet GetOrSetFacts Instances.
From Stdlib Require Import ZArith Lia.
Local Open Scope Z_scope.

(** ** Shared lemmas *)

(** What a waiter of a flight is handed: a panic has become an error. *)
Definition flight_result (o : outcome (result bytes)) : result bytes :=
  match o with
  | Returned r => r
  | Panicked v => Err (Errorf "cachekit: loader panic: %v" [AStr v] None)
  end.

Section getorset_spec.
Context {S T : Type} `{!JSON T}.
Context (c : Cache S) (ctx : Context) (key : string) (ttl : Duration)
  (codec : option (Codec T)) (loader : Context → act S (outcome (result T))).

Abbreviation cfg := (configOf (c_config c)).
Abbreviation cdc := (codec_or_default codec).
Abbreviation missFlight :=
  (loadAndStore ctx c key ttl cdc loader cfg (mkFlightOpts true 0 zero_time)).

(** Serving decodable bytes: at most a background refresh is started. *)
Lemma solo_serveHit_ok data env payload v (w : World S) :
  isNegativeEntry data = false → parseStored cfg data = (env, payload) →
  Unmarshal cdc payload = Ok v →
  let refresh := (flightKey (c_addr c) key,
                  start (refreshFlight ctx c key ttl cdc loader cfg env)) in
  let t := (read_clock w).1 in
  ∃ sp w', solo (serveHit ctx c key ttl cdc loader cfg data) w = (Some (Ok v), sp, w')
  ∧ w_store w' = w_store w ∧ w_trace w' = w_trace w ∧ w_time w' = t
  ∧ (sp = [] ∨ sp = [refresh])
  ∧ (stale env t = true → sp = [refresh])
  ∧ (stale env t = false → fle (cfg_earlyRefreshBeta cfg) fzero = true → sp = []).
Proof.
  intros Hn Hp Hu. cbn zeta. unfold serveHit. rewrite Hn, Hp, Hu.
  rewrite solo_bind, solo_lift, run_now. cbn [fst snd]. rewrite solo_bind.
  destruct (stale env (read_clock w).1) eqn:Es.
  - unfold refreshAsync. rewrite solo_doAsync, solo_ret. simpl.
    eexists _, _. split; [done|]. split_and!; try done. by right.
  - rewrite solo_bind, solo_lift.
    set (w1 := (read_clock w).2).
    assert (w_store (run (shouldEarlyRefresh env (read_clock w).1
              (cfg_earlyRefreshBeta cfg)) w1).2 = w_store w
      ∧ w_trace (run (shouldEarlyRefresh env (read_clock w).1
              (cfg_earlyRefreshBeta cfg)) w1).2 = w_trace w
      ∧ w_time (run (shouldEarlyRefresh env (read_clock w).1
              (cfg_earlyRefreshBeta cfg)) w1).2 = (read_clock w).1
      ∧ (fle (cfg_earlyRefreshBeta cfg) fzero = true →
         (run (shouldEarlyRefresh env (read_clock w).1
              (cfg_earlyRefreshBeta cfg)) w1).1 = false)) as (Hs & Htr & Ht & Hb).
    { unfold shouldEarlyRefresh. destruct (fle _ fzero); [done|].
      destruct (IsZero _); [done|]. cbn [orb]. step. simpl. done. }
    destruct (run (shouldEarlyRefresh _ _ _) w1) as [b w2]. cbn [fst snd] in *.
    destruct b.
    + unfold refreshAsync. rewrite solo_doAsync, solo_ret. simpl.
      eexists _, _. split; [done|]. split_and!; try done; [by right|].
      intros _ Hbeta. by specialize (Hb Hbeta).
    + rewrite !solo_ret. simpl. eexists _, _. split; [done|].
      split_and!; try done. by left.
Qed.

(** The miss path: one flight, and its bytes decoded. *)
Lemma solo_miss_path (w : World S) :
  solo (d ← do ctx (flightKey (c_addr c) key) missFlight;
        mret (decodeFlight cdc cfg key d)) w
  = let '(r, w1) := run (start missFlight) w in
    let '(r', w2) := select_result ctx r w1 in
    (decodeFlight cdc cfg key r', [], w2).
Proof.
  rewrite solo_bind, solo_do. destruct (run (start missFlight) w) as [r w1].
  by destruct (select_result ctx r w1) as [r' w2].
Qed.

Lemma solo_GetOrSet_miss e (w w1 : World S) :
  run (c_Get c ctx key) w = (Err e, w1) →
  solo (GetOrSetWithCodec ctx c key ttl codec loader) w
  = let '(r, w2) := run (start missFlight) w1 in
    let '(r', w3) := select_result ctx r w2 in
    (decodeFlight cdc cfg key r', [], w3).
Proof.
  intros Hg. unfold GetOrSetWithCodec. cbn zeta.
  rewrite solo_bind, solo_lift, Hg. cbn [fst snd]. rewrite solo_bind, solo_ret.
  rewrite solo_miss_path. destruct (run (start missFlight) w1) as [r w2].
  by destruct (select_result ctx r w2) as [r' w3].
Qed.

(** An undecodable entry: the hook, the deletion, then the miss path. *)
Lemma solo_GetOrSet_undecodable data uerr (w w1 : World S) :
  run (c_Get c ctx key) w = (Ok data, w1) →
  isNegativeEntry data = false → Unmarshal cdc (parseStored cfg data).2 = Err uerr →
  solo (GetOrSetWithCodec ctx c key ttl codec loader) w
  = let w2 := (run (hooks_error (cfg_hooks cfg) OpDecode key uerr) w1).2 in
    let w3 := (run (c_Delete c ctx key) w2).2 in
    let '(r, w4) := run (start missFlight) w3 in
    let '(r', w5) := select_result ctx r w4 in
    (decodeFlight cdc cfg key r', [], w5).
Proof.
  intros Hg Hn Hu. unfold GetOrSetWithCodec. cbn zeta.
  rewrite solo_bind, solo_lift, Hg. cbn [fst snd]. rewrite solo_bind.
  unfold serveHit. rewrite Hn. destruct (parseStored cfg data) as [env payload].
  cbn [snd] in Hu. rewrite Hu.
  rewrite solo_bind, solo_lift, solo_bind, solo_lift, solo_ret. cbn [fst snd].
  rewrite solo_miss_path.
  destruct (run (start missFlight) _) as [r w2].
  by destruct (select_result ctx r w2) as [r' w3].
Qed.
End getorset_spec.

(** ** The same on a backend that keeps its contract *)

Section healthy.
Context {S T : Type} `{!JSON T}.
Context (c : Cache S) (view : S → string → Time → option bytes)
  (lifetime : bytes → Duration → Duration → Prop) `{!CacheSpec c view lifetime}.
Context (ctx : Context) (key : string) (ttl : Duration)
  (codec : option (Codec T)) (loader : Context → act S (outcome (result T))).

Abbreviation cfg := (configOf (c_config c)).
Abbreviation cdc := (codec_or_default codec).
Abbreviation same_view := (same_view_by view).

(** The miss flight on an absent key is its loading phase. *)
Lemma solo_flight_absent (w : World S) :
  0 <= w_time w → absent view key w → endless ctx →
  ∃ fctx w', same_view w w' ∧ absent view key w'
  ∧ (let '(r, w1) := run (start (loadAndStore ctx c key ttl cdc loader cfg
                                   (mkFlightOpts true 0 zero_time))) w in
     let '(r', w2) := select_result ctx r w1 in
     (decodeFlight cdc cfg key r', [], w2))
    = (decodeFlight cdc cfg key
         (flight_result (run (loadPhase c key ttl cdc loader cfg fctx) w').1),
       [] : spawned S, (run (loadPhase c key ttl cdc loader cfg fctx) w').2).
Proof.
  intros Hw Ha Hctx.
  destruct (loadAndStore_absent c view lifetime ctx key ttl cdc loader cfg
    (mkFlightOpts true 0 zero_time) w Hw Ha) as (fctx & w' & Hsv & Ha' & Hrun).
  exists fctx, w'. split_and!; [done|done|].
  rewrite run_start, Hrun. by rewrite select_result_live by by apply ctx_Err_endless.
Qed.

Lemma solo_GetOrSet_absent (w : World S) :
  0 <= w_time w → absent view key w → endless ctx →
  ∃ fctx w', same_view w w' ∧ absent view key w'
  ∧ solo (GetOrSetWithCodec ctx c key ttl codec loader) w
    = (decodeFlight cdc cfg key
         (flight_result (run (loadPhase c key ttl cdc loader cfg fctx) w').1),
       [], (run (loadPhase c key ttl cdc loader cfg fctx) w').2).
Proof.
  intros Hw Ha Hctx.
  destruct (spec_Get_miss c view lifetime ctx key w) as (e & He & _).
  { intros t Ht. apply Ha. lia. }
  destruct (quiet_Get c view lifetime ctx key w Hw) as [Ht Hv].
  destruct (absent_later view key _ w Hw (quiet_Get c view lifetime ctx key) Ha) as [Ha1 _].
  destruct (run (c_Get c ctx key) w) as [r w1] eqn:Hg. cbn [fst snd] in *. subst r.
  destruct (solo_flight_absent w1 ltac:(lia) Ha1 Hctx) as (fctx & w' & Hsv & Ha' & Hs).
  exists fctx, w'. split_and!; [|done|].
  - eapply same_view_trans; [|done]. by split.
  - erewrite solo_GetOrSet_miss by done. done.
Qed.

(** Visible decodable bytes are served without loading. *)
Lemma solo_GetOrSet_visible data v (w : World S) :
  0 <= w_time w →
  (∀ t, w_time w <= t <= w_time (run (c_Get c ctx key) w).2 →
     view (w_store w) key t = Some data) →
  isNegativeEntry data = false → Unmarshal cdc (parseStored cfg data).2 = Ok v →
  ∃ sp w', solo (GetOrSetWithCodec ctx c key ttl codec loader) w = (Ok v, sp, w')
  ∧ same_view w w' ∧ w_trace w' = w_trace (run (c_Get c ctx key) w).2.
Proof.
  intros Hw Hvis Hn Hu.
  pose proof (spec_Get_hit c view lifetime ctx key w data Hvis) as Hr.
  destruct (quiet_Get c view lifetime ctx key w Hw) as [Ht Hv].
  unfold GetOrSetWithCodec. cbn zeta. rewrite solo_bind, solo_lift, Hr, solo_bind.
  destruct (parseStored cfg data) as [env payload] eqn:Hp. cbn [snd] in Hu.
  destruct (solo_serveHit_ok c ctx key ttl codec loader data env payload v
    (run (c_Get c ctx key) w).2 Hn Hp Hu)
    as (sp & w' & -> & Hs & Htr & Ht' & _). rewrite solo_ret.
  exists (sp ++ []), w'. split_and!; [done| |done].
  split; rewrite Ht'; cbn [read_clock fst]; [lia|]. intros k t Hle.
  rewrite Hs, Hv by lia. done.
Qed.

(** A visible negative entry is served as ErrNotFound without loading. *)
Lemma solo_GetOrSet_visible_negative (w : World S) :
  (∀ t, w_time w <= t <= w_time (run (c_Get c ctx key) w).2 →
     view (w_store w) key t = Some negativeMarker) →
  solo (GetOrSetWithCodec ctx c key ttl codec loader) w
  = (Err (notFound key), [], (run (c_Get c ctx key) w).2).
Proof.
  intros Hvis. pose proof (spec_Get_hit c view lifetime ctx key w _ Hvis) as Hr.
  unfold GetOrSetWithCodec. cbn zeta. rewrite solo_bind, solo_lift, Hr, solo_bind.
  done.
Qed.
End healthy.

(** ** Footprints of callers *)

Section caller_footprint.
Context {S T : Type} `{!JSON T}.
Context (c : Cache S) (view : S → string → Time → option bytes)
  (lifetime : bytes → Duration → Duration → Prop) `{!CacheSpec c view lifetime}.

Definition caller_touches {A} (key : string) (p : prog S A) : Prop :=
  ∀ w, 0 <= w_time w →
    w_time w <= w_time (solo p w).2
    ∧ ∀ k t, k ≠ key → w_time (solo p w).2 <= t →
        view (w_store (solo p w).2) k t = view (w_store w) k t.

Lemma caller_touches_ret {A} key (a : A) : caller_touches key (mret a).
Proof. intros w Hw. rewrite solo_ret. simpl. split; [lia|done]. Qed.

Lemma caller_touches_bind {A B} key (p : prog S A) (k : A → prog S B) :
  caller_touches key p → (∀ a, caller_touches key (k a)) → caller_touches key (p ≫= k).
Proof.
  intros Hp Hk w Hw. rewrite solo_bind. specialize (Hp w Hw).
  destruct (solo p w) as [[a sp] w1]. cbn [snd] in Hp. destruct Hp as [Ht Hv].
  specialize (Hk a w1 ltac:(lia)).
  destruct (solo (k a) w1) as [[b sp'] w2]. cbn [snd] in *. destruct Hk as [Ht' Hv'].
  split; [lia|]. intros. rewrite Hv', Hv by (done || lia). done.
Qed.

Lemma caller_touches_lift {A} key (m : act S A) :
  touches view key m → caller_touches key (lift m).
Proof. intros H w Hw. rewrite solo_lift. cbn [snd]. by apply H. Qed.

Lemma caller_touches_doAsync key k (fn : flight_fn S) : caller_touches key (doAsync k fn).
Proof. intros w Hw. rewrite solo_doAsync. simpl. split; [lia|done]. Qed.

Lemma caller_touches_do key ctx k (fn : flight_fn S) :
  touches view key fn → caller_touches key (do ctx k fn).
Proof.
  intros Hfn w Hw. rewrite solo_do. destruct (touches_start view key fn Hfn w Hw) as [Ht Hv].
  destruct (run (start fn) w) as [r w1]. cbn [snd] in *.
  destruct (select_result_spec ctx r w1) as (_ & Hs & Ht' & _).
  destruct (select_result ctx r w1) as [r' w2]. cbn [snd] in *.
  rewrite Ht', Hs. done.
Qed.

Lemma caller_touches_shouldEarlyRefresh key env t beta :
  caller_touches key (lift (shouldEarlyRefresh env t beta)).
Proof.
  apply caller_touches_lift, quiet_touches, quiet_pure; auto with ck.
Qed.

Hint Resolve caller_touches_ret caller_touches_doAsync caller_touches_lift
  caller_touches_shouldEarlyRefresh quiet_touches quiet_Get touches_Delete quiet_now
  quiet_hooks_error : ck.

(** What GetOrSet does once Get has answered [r]. *)
Lemma caller_touches_after_Get ctx key ttl (codec : Codec T) loader cfg r :
  (∀ ctx, touches view key (loader ctx)) →
  caller_touches key
    (hit ← match r with
           | Ok data => serveHit ctx c key ttl codec loader cfg data
           | Err _ => mret None
           end;
     match hit with
     | Some res => mret res
     | None =>
         d ← do ctx (flightKey (c_addr c) key)
               (loadAndStore ctx c key ttl codec loader cfg
                  (mkFlightOpts true 0 zero_time));
         mret (decodeFlight codec cfg key d)
     end).
Proof.
  intros Hl. apply caller_touches_bind.
  - destruct r as [data|]; [|auto with ck]. unfold serveHit.
    destruct (isNegativeEntry data); [auto with ck|].
    destruct (parseStored _ data) as [env payload].
    destruct (Unmarshal _ payload).
    + apply caller_touches_bind; [auto with ck|]. intros t.
      apply caller_touches_bind; [|auto with ck].
      unfold refreshAsync. destruct (stale env t); [auto with ck|].
      apply caller_touches_bind; [auto with ck|]. intros []; auto with ck.
    + apply caller_touches_bind; [auto with ck|]. intros _.
      apply caller_touches_bind; [eauto with ck|auto with ck].
  - intros [res|]; [auto with ck|].
    apply caller_touches_bind; [|auto with ck].
    apply caller_touches_do. by eapply touches_loadAndStore.
Qed.

Lemma caller_touches_GetOrSet ctx key ttl (codec : option (Codec T)) loader :
  (∀ ctx, touches view key (loader ctx)) →
  caller_touches key (GetOrSetWithCodec ctx c key ttl codec loader).
Proof.
  intros Hl. unfold GetOrSetWithCodec. cbn zeta.
  apply caller_touches_bind; [eauto with ck|]. intros r.
  by apply caller_touches_after_Get.
Qed.

(** A call ends no earlier than its Get. *)
Lemma GetOrSet_after_Get ctx key ttl (codec : option (Codec T)) loader w :
  0 <= w_time w → (∀ ctx, touches view key (loader ctx)) →
  w_time (run (c_Get c ctx key) w).2
    <= w_time (solo (GetOrSetWithCodec ctx c key ttl codec loader) w).2.
Proof.
  intros Hw Hl. pose proof (spec_Get_time c view lifetime ctx key w).
  unfold GetOrSetWithCodec. cbn zeta. rewrite solo_bind, solo_lift.
  destruct (run (c_Get c ctx key) w) as [r w1]. cbn [fst snd] in *.
  destruct (caller_touches_after_Get ctx key ttl (codec_or_default codec) loader
    (configOf (c_config c)) r Hl w1 ltac:(lia)) as [Ht _].
  destruct (solo _ w1) as [[a sp] w2]. exact Ht.
Qed.
End caller_footprint.
