(* ===== verification/GetOrSetThms.v ===== *)
(** * GetOrSet: the theorems

    The documented behaviour of the cache-aside helper, for any backend (the
    hit, degraded and panic paths) or for any backend that keeps the contract
    [CacheSpec] (the paths that rely on what the backend stored), with
    witnesses on MemoryCache. *)
From S2P Require Import Prelude Int64 Float64 Errors Runtime Envelope Hooks Codec.
From S2P Require Import Options Cache Memory Group GetOrSet GetOrSetFacts GetOrSetSpec.
From S2P Require Import Instances.
From Stdlib Require Import ZArith Lia.
Local Open Scope Z_scope.

(** C5: On a hit with decodable, non-negative bytes, GetOrSet returns the cached
    value without running the loader on the request path: the store and the
    hook trace are those left by Get. The only thing it may start is one
    background refresh of that entry, which it does start when the entry is
    stale, and does not when the entry is fresh and early refresh is off. *)
Theorem GetOrSet_hit {S T} `{!JSON T} (c : Cache S) ctx key ttl
    (codec : option (Codec T)) loader data v (w w1 : World S) :
  let cfg := configOf (c_config c) in
  let cdc := codec_or_default codec in
  let env := (parseStored cfg data).1 in
  let refresh := (flightKey (c_addr c) key,
                  start (refreshFlight ctx c key ttl cdc loader cfg env)) in
  run (c_Get c ctx key) w = (Ok data, w1) →
  isNegativeEntry data = false →
  Unmarshal cdc (parseStored cfg data).2 = Ok v →
  ∃ sp w2, solo (GetOrSetWithCodec ctx c key ttl codec loader) w = (Ok v, sp, w2)
  ∧ w_store w2 = w_store w1 ∧ w_trace w2 = w_trace w1
  ∧ (sp = [] ∨ sp = [refresh])
  ∧ (stale env (read_clock w1).1 = true → sp = [refresh])
  ∧ (stale env (read_clock w1).1 = false →
     fle (cfg_earlyRefreshBeta cfg) fzero = true → sp = []).
Proof.
  cbn zeta. intros Hg Hn Hu.
  destruct (parseStored (configOf (c_config c)) data) as [env payload] eqn:Hp.
  cbn [fst snd] in *.
  destruct (solo_serveHit_ok c ctx key ttl codec loader data env payload v w1 Hn Hp Hu)
    as (sp & w' & Hrun & Hs & Htr & _ & H).
  unfold GetOrSetWithCodec. cbn zeta.
  rewrite solo_bind, solo_lift, Hg. cbn [fst snd]. rewrite solo_bind, Hrun, solo_ret.
  exists (sp ++ []), w'. rewrite app_nil_r. done.
Qed.

Lemma GetOrSet_hit_witness :
  ∃ sp w2,
    solo (GetOrSetWithCodec (T := bool) Background demo_cache "k" Minute None
            (demo_loader (Panicked "never run"))) (demo_with demo_stale_entry)
    = (Ok true, sp, w2) ∧ length sp = 1%nat.
Proof.
  destruct (GetOrSet_hit (T := bool) demo_cache Background "k" Minute None
    (demo_loader (Panicked "never run")) demo_stale_entry true
    (demo_with demo_stale_entry)
    (run (c_Get demo_cache Background "k") (demo_with demo_stale_entry)).2)
    as (sp & w2 & Hrun & _ & _ & _ & Hst & _).
  - vm_compute. reflexivity.
  - vm_compute. reflexivity.
  - vm_compute. reflexivity.
  - exists sp, w2. split; [exact Hrun|]. rewrite Hst by (vm_compute; reflexivity).
    reflexivity.
Defined.

(** A cached negative entry is served as an error wrapping ErrNotFound: the
    call ends right after Get, without decoding, loading or refreshing. *)
Theorem GetOrSet_negative_hit {S T} `{!JSON T} (c : Cache S) ctx key ttl
    (codec : option (Codec T)) loader (w w1 : World S) :
  run (c_Get c ctx key) w = (Ok negativeMarker, w1) →
  solo (GetOrSetWithCodec ctx c key ttl codec loader) w = (Err (notFound key), [], w1)
  ∧ errors_Is (notFound key) ErrNotFound = true
  ∧ errors_Is (notFound key) ErrCacheMiss = false.
Proof.
  intros Hg. unfold GetOrSetWithCodec. cbn zeta.
  rewrite solo_bind, solo_lift, Hg. cbn [fst snd]. by rewrite solo_bind.
Qed.

Lemma GetOrSet_negative_hit_witness :
  ∃ w1, solo (GetOrSetWithCodec (T := bool) Background demo_cache "k" Minute None
          (demo_loader (Panicked "never run"))) (demo_with negativeMarker)
    = (Err (notFound "k"), [], w1).
Proof.
  eexists. apply (GetOrSet_negative_hit (T := bool) demo_cache). vm_compute. reflexivity.
Defined.

(** C7: A broken cache degrades to the loader: whatever error Get fails with and
    whatever Set and Delete do, GetOrSet returns what the loader returns (an
    absence that would be negative-cached comes back as ErrNotFound). *)
Theorem GetOrSet_degraded {S T} `{!JSON T} (c : Cache S) ctx key ttl
    (codec : option (Codec T)) loader (lr : result T) (w : World S) :
  let cfg := configOf (c_config c) in
  let cdc := codec_or_default codec in
  (∀ ctx' w', is_Ok (run (c_Get c ctx' key) w').1 = false) →
  (∀ ctx' w', (run (loader ctx') w').1 = Returned lr) →
  (∀ v, lr = Ok v → ∃ payload, Marshal cdc v = Ok payload
     ∧ Unmarshal cdc payload = Ok v
     ∧ (envelopeEnabled cfg = true ∨ head payload ≠ Some x00)) →
  endless ctx →
  let r := solo (GetOrSetWithCodec ctx c key ttl codec loader) w in
  r.1.2 = []
  ∧ r.1.1 = match lr with
            | Ok v => Ok v
            | Err e => if (0 <? cfg_negativeTTL cfg) && errors_Is e ErrNotFound
                       then Err (notFound key) else Err e
            end.
Proof.
  cbn zeta. intros Hget Hload Henc Hctx.
  destruct (run (c_Get c ctx key) w) as [rg w1] eqn:Hg.
  destruct rg as [data|e].
  { pose proof (Hget ctx w) as H. by rewrite Hg in H. }
  erewrite solo_GetOrSet_miss by done.
  rewrite run_start. unfold loadAndStore. rewrite run_bind.
  destruct (run (flightContext _ _) w1) as [fctx w2]. cbn [fst snd].
  rewrite run_bind. unfold recheck. rewrite run_bind.
  pose proof (Hget fctx w2) as Hr.
  destruct (run (c_Get c fctx key) w2) as [[data|e2] w3]; [done|]. cbn [fst snd].
  rewrite run_ret. cbn [fst snd]. rewrite run_loadPhase. cbn zeta.
  rewrite Hload. cbn [fst snd].
  set (w4 := add_events _ _). generalize (time_Sub (read_clock
    (run (loader fctx) (read_clock w3).2).2).1 (read_clock w3).1). intros d.
  rewrite select_result_live by by apply ctx_Err_endless. cbn [fst snd].
  split; [done|]. unfold storeLoaded.
  destruct lr as [v|err].
  - destruct (Henc v eq_refl) as (payload & Hm & Hu & Hh). rewrite Hm.
    destruct (packForStore_spec payload ttl d (configOf (c_config c)) w4)
      as (data & sttl & w5 & t & Hp & _ & _ & _ & _ & Hpk).
    rewrite run_bind, Hp. cbn [fst snd]. step.
    by apply (packed_decodes _ _ key v payload ttl d data sttl t).
  - destruct (_ && _); step; done.
Qed.

Lemma GetOrSet_degraded_witness :
  (solo (GetOrSetWithCodec (T := bool) Background demo_down "k" Minute None
     (demo_loader (Returned (Ok true)))) demo_empty).1.1 = Ok true.
Proof.
  apply (GetOrSet_degraded (T := bool) demo_down Background "k" Minute None
    (demo_loader (Returned (Ok true))) (Ok true) demo_empty).
  - intros ctx' w'. reflexivity.
  - intros ctx' w'. reflexivity.
  - intros v [= <-]. exists json_true. split; [reflexivity|].
    split; [reflexivity|]. right. discriminate.
  - split; reflexivity.
Defined.

(** C1: Cache-aside works end to end on any backend that keeps its contract, with
    jitter off: a call on an absent key runs the loader and returns its value,
    and every later call - with any loader, TTL and context, from any later
    world with that store - is answered from the cache with the same value,
    firing no load event, as long as it reads within the TTL (for ever when
    there is none). *)
Theorem GetOrSet_cached_after_load {S T} `{!JSON T} (c : Cache S) view lifetime
    `{!CacheSpec c view lifetime} ctx key ttl (codec : option (Codec T)) loader
    v payload (w : World S) :
  let cfg := configOf (c_config c) in
  let cdc := codec_or_default codec in
  0 <= w_time w → absent view key w → endless ctx →
  loader_yields view loader (Returned (Ok v)) →
  Marshal cdc v = Ok payload → Unmarshal cdc payload = Ok v →
  envelopeEnabled cfg = true ∨ head payload ≠ Some x00 →
  fle (cfg_ttlJitter cfg) fzero = true →
  0 <= cfg_staleTTL cfg → base_ttl cfg ttl + cfg_staleTTL cfg <= max_int64 →
  ∃ w1, solo (GetOrSetWithCodec ctx c key ttl codec loader) w = (Ok v, [], w1)
  ∧ ∀ ctx2 ttl2 loader2 w2, w_store w2 = w_store w1 → w_time w1 <= w_time w2 →
      base_ttl cfg ttl <= 0
        ∨ w_time (run (c_Get c ctx2 key) w2).2 < w_time w + floor_ms (base_ttl cfg ttl) →
      ∃ sp w3,
        solo (GetOrSetWithCodec ctx2 c key ttl2 codec loader2) w2 = (Ok v, sp, w3)
        ∧ same_view_by view w2 w3
        ∧ w_trace w3 = w_trace (run (c_Get c ctx2 key) w2).2.
Proof.
  cbn zeta. intros Hw Ha Hctx Hl Hm Hu Hh Hj Hst Hov.
  destruct (solo_GetOrSet_absent c view lifetime ctx key ttl codec loader w Hw Ha Hctx)
    as (fctx & w' & [Ht Hv] & _ & ->).
  destruct (loadPhase_ok c view lifetime key ttl (codec_or_default codec) loader
    (configOf (c_config c)) fctx v payload w' ltac:(lia) Hl Hm)
    as (data & sttl & t & d & wa & -> & Hp & Ht1 & Ht2 & Hwr).
  destruct (packed_decodes _ _ key v payload ttl d data sttl t Hm Hu Hh Hp)
    as (Hn & Hu' & Hdec). cbn [flight_result]. rewrite Hdec.
  eexists. split; [done|]. intros ctx2 ttl2 loader2 w2 Hs2 Ht3 Hwin.
  apply (solo_GetOrSet_visible c view lifetime) with (data := data); [lia| |done|done].
  intros t' Ht'. rewrite Hs2.
  eapply (packed_visible c view lifetime); try done; [lia|].
  destruct Hwin as [Hwin|Hwin]; [by left|right; lia].
Qed.

Lemma GetOrSet_cached_after_load_witness :
  ∃ w1, solo (GetOrSetWithCodec (T := bool) Background demo_cache "k" Minute None
                (demo_loader (Returned (Ok true)))) demo_empty = (Ok true, [], w1)
  ∧ ∃ sp w3, solo (GetOrSetWithCodec (T := bool) Background demo_cache "k" Minute None
                (demo_loader (Panicked "never run"))) w1 = (Ok true, sp, w3).
Proof.
  destruct (GetOrSet_cached_after_load (T := bool) demo_cache (mem_view demo_memory)
    (mem_lifetime demo_memory) Background "k" Minute None
    (demo_loader (Returned (Ok true))) true json_true demo_empty) as (w1 & H1 & H2);
    [done|apply demo_absent|split; reflexivity|apply demo_loader_yields
    |reflexivity|reflexivity|left; reflexivity|reflexivity
    |vm_compute; discriminate|vm_compute; discriminate|].
  exists w1. split; [done|].
  destruct (H2 Background Minute (demo_loader (Panicked "never run")) w1)
    as (sp & w3 & H3 & _); [done|lia| |by exists sp, w3].
  right. replace w1 with (solo (GetOrSetWithCodec (T := bool) Background demo_cache "k"
    Minute None (demo_loader (Returned (Ok true)))) demo_empty).2 by (by rewrite H1).
  vm_compute. reflexivity.
Defined.

(** C9: Self-healing: when the cached bytes do not decode, GetOrSet reports
    OpDecode, deletes the entry, loads, and returns the loaded value; what the
    backend holds afterwards decodes to that value. *)
Theorem GetOrSet_self_heals {S T} `{!JSON T} (c : Cache S) view lifetime
    `{!CacheSpec c view lifetime} ctx key ttl (codec : option (Codec T)) loader
    garbage uerr v payload (w w1 : World S) :
  let cfg := configOf (c_config c) in
  let cdc := codec_or_default codec in
  0 <= w_time w → endless ctx →
  run (c_Get c ctx key) w = (Ok garbage, w1) →
  isNegativeEntry garbage = false →
  Unmarshal cdc (parseStored cfg garbage).2 = Err uerr →
  loader_yields view loader (Returned (Ok v)) →
  Marshal cdc v = Ok payload → Unmarshal cdc payload = Ok v →
  envelopeEnabled cfg = true ∨ head payload ≠ Some x00 →
  ∃ w2, solo (GetOrSetWithCodec ctx c key ttl codec loader) w = (Ok v, [], w2)
  ∧ ∃ data sttl wa, Unmarshal cdc (parseStored cfg data).2 = Ok v
      ∧ isNegativeEntry data = false
      ∧ w_time w <= w_time wa ∧ written view lifetime key data sttl wa w2.
Proof.
  cbn zeta. intros Hw Hctx Hg Hng Hug Hl Hm Hu Hh.
  erewrite (solo_GetOrSet_undecodable c ctx key ttl codec loader) by done.
  rewrite run_hooks_error. cbn zeta. cbn [snd].
  destruct (quiet_Get c view lifetime ctx key w Hw) as [Ht1 _].
  rewrite Hg in Ht1. cbn [snd] in Ht1.
  set (w2 := add_events _ w1).
  assert (w_time w2 = w_time w1) as Ht2 by done.
  destruct (spec_Delete ctx key w2) as (_ & Ht3 & Hdel).
  set (w3 := (run (c_Delete c ctx key) w2).2) in *.
  assert (absent view key w3) as Ha.
  { intros t Ht. rewrite Hdel by done. by rewrite decide_True. }
  destruct (solo_flight_absent c view lifetime ctx key ttl codec loader w3 ltac:(lia) Ha Hctx)
    as (fctx & w' & [Ht Hv] & _ & ->).
  destruct (loadPhase_ok c view lifetime key ttl (codec_or_default codec) loader
    (configOf (c_config c)) fctx v payload w' ltac:(lia) Hl Hm)
    as (data & sttl & t & d & wa & -> & Hp & Hta & Htb & Hwr).
  destruct (packed_decodes _ _ key v payload ttl d data sttl t Hm Hu Hh Hp)
    as (Hn & Hu' & Hdec). cbn [flight_result]. rewrite Hdec.
  eexists. split; [done|]. exists data, sttl, wa. split_and!; done || lia.
Qed.

Lemma GetOrSet_self_heals_witness :
  ∃ w2, solo (GetOrSetWithCodec (T := bool) Background demo_plain_cache "k" Minute None
    (demo_loader (Returned (Ok true)))) (demo_with (bytes_of_string "{not json"))
  = (Ok true, [], w2).
Proof.
  destruct (GetOrSet_self_heals (T := bool) demo_plain_cache (mem_view demo_plain)
    (mem_lifetime demo_plain) Background "k" Minute None
    (demo_loader (Returned (Ok true))) (bytes_of_string "{not json")
    (ErrOther "json: invalid value") true json_true
    (demo_with (bytes_of_string "{not json"))
    (run (c_Get demo_plain_cache Background "k")
       (demo_with (bytes_of_string "{not json"))).2) as (w2 & H & _);
    [done|split; reflexivity|vm_compute; reflexivity|reflexivity|reflexivity
    |apply demo_loader_yields|reflexivity|reflexivity|right; discriminate|].
  by exists w2.
Defined.

(** C8: Negative caching, with jitter off: when the loader reports an error
    wrapping ErrNotFound and a negative TTL is configured, the call returns
    ErrNotFound, and until that TTL has passed every later call returns
    ErrNotFound too, straight after its Get: no loader, no refresh. *)
Theorem GetOrSet_negative_cached {S T} `{!JSON T} (c : Cache S) view lifetime
    `{!CacheSpec c view lifetime} ctx key ttl (codec : option (Codec T)) loader
    e (w : World S) :
  let cfg := configOf (c_config c) in
  0 <= w_time w → absent view key w → endless ctx →
  loader_yields view loader (Returned (Err e)) →
  errors_Is e ErrNotFound = true →
  0 < cfg_negativeTTL cfg → fle (cfg_ttlJitter cfg) fzero = true →
  ∃ w1, solo (GetOrSetWithCodec ctx c key ttl codec loader) w = (Err (notFound key), [], w1)
  ∧ ∀ ctx2 ttl2 loader2 w2, w_store w2 = w_store w1 → w_time w1 <= w_time w2 →
      w_time (run (c_Get c ctx2 key) w2).2 < w_time w + floor_ms (cfg_negativeTTL cfg) →
      solo (GetOrSetWithCodec ctx2 c key ttl2 codec loader2) w2
      = (Err (notFound key), [], (run (c_Get c ctx2 key) w2).2).
Proof.
  cbn zeta. intros Hw Ha Hctx Hl He Hneg Hj.
  destruct (solo_GetOrSet_absent c view lifetime ctx key ttl codec loader w Hw Ha Hctx)
    as (fctx & w' & [Ht Hv] & _ & ->).
  destruct (loadPhase_not_found c view lifetime key ttl (codec_or_default codec) loader
    (configOf (c_config c)) fctx e w' ltac:(lia) Hl Hneg He)
    as (wa & -> & Hta & Hwr).
  eexists. split; [done|]. intros ctx2 ttl2 loader2 w2 Hs2 Ht3 Hwin.
  apply (solo_GetOrSet_visible_negative c view lifetime). intros t Ht'. rewrite Hs2.
  eapply (negative_visible c view lifetime); try done. lia.
Qed.

Lemma GetOrSet_negative_cached_witness :
  ∃ w1, solo (GetOrSetWithCodec (T := bool) Background demo_cache "k" Minute None
                (demo_loader (Returned (Err (Errorf "user 42: %w" [] (Some ErrNotFound))))))
          demo_empty = (Err (notFound "k"), [], w1)
  ∧ (solo (GetOrSetWithCodec (T := bool) Background demo_cache "k" Minute None
                (demo_loader (Panicked "never run"))) w1).1 = (Err (notFound "k"), []).
Proof.
  destruct (GetOrSet_negative_cached (T := bool) demo_cache (mem_view demo_memory)
    (mem_lifetime demo_memory) Background "k" Minute None
    (demo_loader (Returned (Err (Errorf "user 42: %w" [] (Some ErrNotFound)))))
    (Errorf "user 42: %w" [] (Some ErrNotFound)) demo_empty) as (w1 & H1 & H2);
    [done|apply demo_absent|split; reflexivity|apply demo_loader_yields
    |reflexivity|reflexivity|reflexivity|].
  exists w1. split; [done|]. rewrite H2; [reflexivity|done|lia|].
  replace w1 with (solo (GetOrSetWithCodec (T := bool) Background demo_cache "k"
    Minute None (demo_loader (Returned (Err (Errorf "user 42: %w" []
       (Some ErrNotFound)))))) demo_empty).2 by (by rewrite H1).
  vm_compute. reflexivity.
Defined.

(** C10: Loader failures are never cached: on an absent key, an error that is not
    negative-cached propagates unchanged, a panic becomes an error, and in
    both cases no reader of the cache can see a difference afterwards - the
    key is still absent, so the next call loads again. *)
Theorem GetOrSet_failure_not_cached {S T} `{!JSON T} (c : Cache S) view lifetime
    `{!CacheSpec c view lifetime} ctx key ttl (codec : option (Codec T)) loader
    (o : outcome (result T)) (w : World S) :
  let cfg := configOf (c_config c) in
  0 <= w_time w → absent view key w → endless ctx →
  loader_yields view loader o →
  match o with
  | Panicked _ => True
  | Returned (Err e) => cfg_negativeTTL cfg <= 0 ∨ errors_Is e ErrNotFound = false
  | Returned (Ok _) => False
  end →
  ∃ w1, solo (GetOrSetWithCodec ctx c key ttl codec loader) w
        = (Err match o with
               | Panicked v => Errorf "cachekit: loader panic: %v" [AStr v] None
               | Returned (Err e) => e
               | Returned (Ok _) => ErrNotFound
               end, [], w1)
  ∧ same_view_by view w w1 ∧ absent view key w1.
Proof.
  cbn zeta. intros Hw Ha Hctx Hl Ho.
  destruct (solo_GetOrSet_absent c view lifetime ctx key ttl codec loader w Hw Ha Hctx)
    as (fctx & w' & Hsv & Ha' & ->).
  destruct Hsv as [Ht Hv].
  destruct o as [[v|e]|v]; [done| |].
  - destruct (loadPhase_err c view key ttl (codec_or_default codec) loader
      (configOf (c_config c)) fctx e w' ltac:(lia) Hl Ho) as [-> Hsv'].
    eexists. split; [done|]. split.
    + eapply same_view_trans; [|done]. by split.
    + by eapply same_view_absent.
  - destruct (loadPhase_panic c view key ttl (codec_or_default codec) loader
      (configOf (c_config c)) fctx v w' ltac:(lia) Hl) as [-> Hsv'].
    eexists. split; [done|]. split.
    + eapply same_view_trans; [|done]. by split.
    + by eapply same_view_absent.
Qed.

Lemma GetOrSet_failure_not_cached_witness :
  ∃ w1, solo (GetOrSetWithCodec (T := bool) Background demo_cache "k" Minute None
                (demo_loader (Panicked "loader exploded"))) demo_empty
  = (Err (Errorf "cachekit: loader panic: %v" [AStr "loader exploded"] None), [], w1)
  ∧ absent (mem_view demo_memory) "k" w1.
Proof.
  destruct (GetOrSet_failure_not_cached (T := bool) demo_cache (mem_view demo_memory)
    (mem_lifetime demo_memory) Background "k" Minute None
    (demo_loader (Panicked "loader exploded")) (Panicked "loader exploded")
    demo_empty) as (w1 & H1 & _ & H2);
    [done|apply demo_absent|split; reflexivity|apply demo_loader_yields|done|].
  by exists w1.
Defined.

(** C38: Single-flight flights are detached from the caller that started them: the
    context a flight's loader runs in keeps the caller's values, ignores every
    cancellation, and has the caller's deadline on the miss path, while a
    background refresh gets a deadline of its own, within its timeout of now. *)
Theorem flight_context_detached {S} (base : Context) (opts : flightOpts) (w : World S) :
  let fctx := (run (flightContext base opts) w).1 in
  cx_values fctx = cx_values base
  ∧ (∀ w' : World S, ctx_Err fctx w' ≠ Some Canceled)
  ∧ (opts = mkFlightOpts true 0 zero_time → cx_deadline fctx = cx_deadline base)
  ∧ (∀ ttl cfg env, opts = mkFlightOpts false (refreshTimeout ttl cfg) env →
     ∃ d, cx_deadline fctx = Some d ∧ d = (read_clock w).1 + refreshTimeout ttl cfg
          ∧ (read_clock w).1 < d).
Proof.
  cbn zeta. assert (cx_tokens (run (flightContext base opts) w).1 = []
    ∧ cx_values (run (flightContext base opts) w).1 = cx_values base) as [Htok Hval].
  { unfold flightContext, WithTimeout. destruct (0 <? timeout opts); step;
      destruct (preserveDeadline opts); try done; by destruct (cx_deadline base). }
  split_and!; [done| | |].
  - intros w'. unfold ctx_Err. rewrite Htok. cbn [existsb].
    destruct (cx_deadline _); [|done]. by destruct (_ <=? _).
  - intros ->. rewrite run_flightContext by done. done.
  - intros ttl cfg env ->.
    assert (0 < refreshTimeout ttl cfg).
    { unfold refreshTimeout. destruct (Z.leb_spec (dur_add (if ttl <=? 0 then
        cfg_defaultTTL cfg else ttl) (cfg_staleTTL cfg)) 0); [done|lia]. }
    rewrite run_flightContext_timeout by done. cbn [fst cx_deadline timeout].
    eexists. split_and!; [done|done|lia].
Qed.

(** C39: Frame: GetOrSet on one key - hit, miss, failure or self-heal - and any
    background refresh it starts let no reader of another key of the cache see
    a difference, provided the loader itself does not. *)
Theorem GetOrSet_frame {S T} `{!JSON T} (c : Cache S) view lifetime
    `{!CacheSpec c view lifetime} ctx key ttl (codec : option (Codec T)) loader
    env (w : World S) :
  let cfg := configOf (c_config c) in
  let cdc := codec_or_default codec in
  (∀ ctx, touches view key (loader ctx)) → 0 <= w_time w →
  let w1 := (solo (GetOrSetWithCodec ctx c key ttl codec loader) w).2 in
  let w2 := (run (start (refreshFlight ctx c key ttl cdc loader cfg env)) w1).2 in
  w_time w <= w_time w1 <= w_time w2
  ∧ (∀ k t, k ≠ key → w_time w1 <= t →
       view (w_store w1) k t = view (w_store w) k t)
  ∧ ∀ k t, k ≠ key → w_time w2 <= t →
       view (w_store w2) k t = view (w_store w) k t.
Proof.
  cbn zeta. intros Hl Hw.
  destruct (caller_touches_GetOrSet c view lifetime ctx key ttl codec loader Hl w Hw)
    as [Ht1 Hv1].
  set (w1 := (solo _ w).2) in *.
  destruct (touches_start view key _ (touches_refreshFlight c view lifetime ctx key ttl
    (codec_or_default codec) loader (configOf (c_config c)) env Hl) w1 ltac:(lia))
    as [Ht2 Hv2].
  set (w2 := (run _ w1).2) in *.
  split_and!; [lia|lia|done|]. intros. rewrite Hv2, Hv1 by (done || lia). done.
Qed.

Lemma GetOrSet_frame_witness :
  mem_view demo_memory
    (w_store (solo (GetOrSetWithCodec (T := bool) Background demo_cache "other" Minute None
       (demo_loader (Returned (Ok false)))) (demo_with demo_fresh_entry)).2) "k"
    (demo_time + Second)
  = Some demo_fresh_entry.
Proof.
  destruct (GetOrSet_frame (T := bool) demo_cache (mem_view demo_memory)
    (mem_lifetime demo_memory) Background "other" Minute None
    (demo_loader (Returned (Ok false))) no_envelope (demo_with demo_fresh_entry))
    as (_ & H & _).
  - intros ctx w Hw. rewrite run_demo_loader. simpl. split; [lia|done].
  - vm_compute. discriminate.
  - rewrite H; [reflexivity|discriminate|vm_compute; discriminate].
Defined.
