(* ===== verification/Batch.v ===== *)
(** * The batched helper GetOrSetMany (batch.go)

    One read phase over the deduplicated keys, one loader call for the keys
    that are missing, one write phase.  Batch loads use no flights, so the
    whole helper is straight-line [act] code; a panic of the loader leaves it
    as a panic. *)
From S2P Require Import Prelude Int64 Float64 Errors Runtime Envelope Hooks Codec.
From S2P Require Import Options Cache Group GetOrSet.
From Stdlib Require Import ZArith Lia.
Local Open Scope Z_scope.

(** ** Definitions *)

(** One pass of the loop that removes duplicates: [uniq] and [seen]. *)
Definition uniq_step (acc : list string * gset string) (k : string)
    : list string * gset string :=
  let '(uniq, seen) := acc in
  if decide (k ∈ seen) then (uniq, seen) else (uniq ++ [k], {[k]} ∪ seen).

Definition uniqKeys (keys : list string) : list string :=
  (foldl uniq_step ([], ∅) keys).1.

(** What the packing loop builds. *)
Record packState (T : Type) := mkPack {
  pk_result : gmap string T;
  pk_vals : gmap string bytes;
  pk_negs : gmap string bytes;
  pk_storeTTL : Duration
}.
Arguments mkPack {T}. Arguments pk_result {T}. Arguments pk_vals {T}.
Arguments pk_negs {T}. Arguments pk_storeTTL {T}.

(** A loader of many keys: code that may fail or panic. *)
Abbreviation batch_loader S T :=
  (Context → list string → act S (outcome (result (gmap string T)))).

Section batch.
Context {S T : Type} `{!JSON T}.
Implicit Types (c : Cache S) (cfg : cacheConfig) (codec : Codec T).
Implicit Types (loader : batch_loader S T).

(** The read phase: the raw bytes found; on an infrastructure failure the keys
    concerned degrade to the loader. *)
Definition readRaw (ctx : Context) c (uniq : list string) : act S (gmap string bytes) :=
  match c_batch c with
  | Some bc =>
      r ← b_GetMany bc ctx uniq;
      mret (match r with Ok raw => raw | Err _ => ∅ end)
  | None =>
      for_fold (λ raw k,
        r ← c_Get c ctx k;
        mret (match r with Ok data => <[k := data]> raw | Err _ => raw end)) ∅ uniq
  end.

(** One pass of the loop over [uniq]: the result so far and the missing keys. *)
Definition decode_step (ctx : Context) c codec cfg (raw : gmap string bytes)
    (acc : gmap string T * list string) (k : string)
    : act S (gmap string T * list string) :=
  let '(res, missing) := acc in
  match raw !! k with
  | None => mret (res, missing ++ [k])
  | Some data =>
      if isNegativeEntry data then mret (res, missing)
      else
        let '(_, payload) := parseStored cfg data in
        match Unmarshal codec payload with
        | Err uerr =>
            hooks_error (cfg_hooks cfg) OpDecode k uerr;;
            c_Delete c ctx k;;
            mret (res, missing ++ [k])
        | Ok v => mret (<[k := v]> res, missing)
        end
  end.

(** One pass of the loop over [missing] after a successful load. *)
Definition pack_step codec cfg (ttl loadDur : Duration) (loaded : gmap string T)
    (st : packState T) (k : string) : act S (packState T) :=
  match loaded !! k with
  | None =>
      mret (if 0 <? cfg_negativeTTL cfg
            then mkPack (pk_result st) (pk_vals st) (<[k := negativeMarker]> (pk_negs st))
                   (pk_storeTTL st)
            else st)
  | Some v =>
      let res := <[k := v]> (pk_result st) in
      match Marshal codec v with
      | Err merr =>
          hooks_error (cfg_hooks cfg) OpEncode k merr;;
          mret (mkPack res (pk_vals st) (pk_negs st) (pk_storeTTL st))
      | Ok payload =>
          '(data, packedTTL) ← packForStore payload ttl loadDur cfg;
          mret (mkPack res (<[k := data]> (pk_vals st)) (pk_negs st) packedTTL)
      end
  end.

(** The fallback's loop [for k, data := range m]. *)
Definition setEach (ctx : Context) c (m : gmap string bytes) (ttl : Duration)
    : act S () :=
  l ← range m;
  for_each (λ kv : string * bytes, c_Set c ctx kv.1 kv.2 ttl;; mret ()) l.

(** The write phase, detached from the caller's cancellation. *)
Definition writeBack (ctx : Context) c cfg (vals negs : gmap string bytes)
    (storeTTL : Duration) : act S () :=
  let wctx := WithoutCancel ctx in
  match c_batch c with
  | Some bc =>
      b_SetMany bc wctx vals storeTTL;;
      b_SetMany bc wctx negs (cfg_negativeTTL cfg);;
      mret ()
  | None =>
      setEach wctx c vals storeTTL;;
      setEach wctx c negs (cfg_negativeTTL cfg)
  end.

(** The load of the missing keys, with [res] the values found so far. *)
Definition loadMissing (ctx : Context) c (ttl : Duration) codec loader cfg
    (res : gmap string T) (missing : list string)
    : act S (outcome (result (gmap string T))) :=
  t0 ← now;
  o ← loader ctx missing;
  match o with
  | Panicked v => mret (Panicked v)
  | Returned lr =>
      t1 ← now;
      let loadDur := time_Sub t1 t0 in
      for_each (λ k, hooks_load (cfg_hooks cfg) k loadDur (result_error lr)) missing;;
      match lr with
      | Err err => mret (Returned (Err err))
      | Ok loaded =>
          st ← for_fold (pack_step codec cfg ttl loadDur loaded)
                 (mkPack res ∅ ∅ ttl) missing;
          writeBack ctx c cfg (pk_vals st) (pk_negs st) (pk_storeTTL st);;
          mret (Returned (Ok (pk_result st)))
      end
  end.

Definition GetOrSetManyWithCodec (ctx : Context) c (keys : list string)
    (ttl : Duration) (codec : option (Codec T)) loader
    : act S (outcome (result (gmap string T))) :=
  let codec := codec_or_default codec in
  let cfg := configOf (c_config c) in
  let uniq := uniqKeys keys in
  raw ← readRaw ctx c uniq;
  '(res, missing) ← for_fold (decode_step ctx c codec cfg raw) (∅, []) uniq;
  if decide (missing = []) then mret (Returned (Ok res))
  else loadMissing ctx c ttl codec loader cfg res missing.

Definition GetOrSetMany (ctx : Context) c (keys : list string) (ttl : Duration)
    loader : act S (outcome (result (gmap string T))) :=
  GetOrSetManyWithCodec ctx c keys ttl (Some defaultCodec) loader.
End batch.
