(* ===== verification/BatchFacts.v ===== *)
(** * GetOrSetMany: what each phase does

    The loops of batch.go, first as functions of what the backend returned,
    then, on a backend that keeps its contract, as changes of what readers
    see. *)
From S2P Require Import Prelude Int64 Float64 Errors Runtime Envelope Hooks Codec.
From S2P Require Import Options Cache Group GetOrSet GetOrSetFacts Batch.
From Stdlib Require Import ZArith Lia.
Local Open Scope Z_scope.

(** ** Removing duplicates *)

Lemma uniq_fold_spec keys u (seen : gset string) :
  NoDup u → (∀ k, k ∈ seen ↔ k ∈ u) →
  let r := foldl uniq_step (u, seen) keys in
  NoDup r.1 ∧ (∀ k, k ∈ r.1 ↔ k ∈ u ∨ k ∈ keys)
  ∧ ∃ l, r.1 = u ++ l ∧ l `sublist_of` keys.
Proof.
  revert u seen. induction keys as [|k keys IH]; intros u seen Hnd Hs; cbn [foldl].
  { split_and!; [done| |exists []; by rewrite app_nil_r].
    intros k. split; [by left|]. by intros [?|?%not_elem_of_nil]. }
  unfold uniq_step at 2 4 6. case_decide as Hk.
  - destruct (IH u seen Hnd Hs) as (H1 & H2 & l & H3 & H4). apply Hs in Hk.
    split_and!; [done| |exists l; by split; [|apply sublist_cons]].
    intros k'. rewrite H2, elem_of_cons. set_solver.
  - destruct (IH (u ++ [k]) ({[k]} ∪ seen)) as (H1 & H2 & l & H3 & H4).
    + apply NoDup_app. split_and!; [done| |apply NoDup_singleton].
      intros x Hx ->%list_elem_of_singleton. by apply Hk, Hs.
    + intros k'. rewrite elem_of_union, elem_of_singleton, elem_of_snoc, Hs. tauto.
    + split_and!; [done| |].
      * intros k'. rewrite H2, elem_of_snoc, elem_of_cons. tauto.
      * exists (k :: l). rewrite H3, <-(assoc_L (++)). by split; [|apply sublist_skip].
Qed.

(** Every key once, in the order of first occurrence. *)
Lemma uniqKeys_spec keys :
  NoDup (uniqKeys keys) ∧ (∀ k, k ∈ uniqKeys keys ↔ k ∈ keys)
  ∧ uniqKeys keys `sublist_of` keys.
Proof.
  destruct (uniq_fold_spec keys [] ∅) as (H1 & H2 & l & H3 & H4);
    [apply NoDup_nil_2|set_solver|].
  unfold uniqKeys. split_and!; [done| |by rewrite H3].
  intros k. rewrite H2. set_solver.
Qed.

(** ** The decoding loop *)

Section loops.
Context {S T : Type} `{!JSON T}.
Implicit Types (c : Cache S) (cfg : cacheConfig) (codec : Codec T) (w : World S).
Implicit Types (raw : gmap string bytes).

(** What the bytes read for a key amount to: a value, ... *)
Definition cached_value codec cfg raw (k : string) : option T :=
  data ← raw !! k;
  if isNegativeEntry data then None
  else match Unmarshal codec (parseStored cfg data).2 with
       | Ok v => Some v
       | Err _ => None
       end.

(** ... bytes that do not decode, ... *)
Definition undecodable codec cfg raw (k : string) : bool :=
  match raw !! k with
  | None => false
  | Some data => negb (isNegativeEntry data)
                 && negb (is_Ok (Unmarshal codec (parseStored cfg data).2))
  end.

(** ... and in that case, or when there are none, the key must be loaded. *)
Definition needs_load codec cfg raw (k : string) : bool :=
  bool_decide (raw !! k = None) || undecodable codec cfg raw k.

(** One pass of the loop. *)
Lemma run_decode_step ctx c codec cfg raw res missing k w :
  run (decode_step ctx c codec cfg raw (res, missing) k) w
  = ((match cached_value codec cfg raw k with Some v => <[k := v]> res | None => res end,
      if needs_load codec cfg raw k then missing ++ [k] else missing),
     match raw !! k with
     | Some data =>
         match Unmarshal codec (parseStored cfg data).2 with
         | Err uerr =>
             if isNegativeEntry data then w
             else (run (c_Delete c ctx k)
                    (add_events (ev_if (OnError (cfg_hooks cfg)) (EvError OpDecode k uerr)) w)).2
         | Ok _ => w
         end
     | None => w
     end).
Proof.
  unfold decode_step, needs_load, undecodable, cached_value.
  destruct (raw !! k) as [data|]; cbn [mbind option_bind]; [|done].
  destruct (isNegativeEntry data), (parseStored cfg data) as [env payload]; cbn [fst snd].
  { by destruct (Unmarshal codec payload). }
  destruct (Unmarshal codec payload) as [v|uerr];
    cbn [negb is_Ok andb orb fst snd]; [by rewrite bool_decide_eq_false_2|].
  by rewrite run_bind, run_hooks_error, run_bind, run_ret, orb_true_r.
Qed.

(** The whole loop: the values found, and the keys to load in input order,
    whatever the backend does. *)
Lemma decode_loop ctx c codec cfg raw l res missing w :
  NoDup l →
  let r := run (for_fold (decode_step ctx c codec cfg raw) (res, missing) l) w in
  r.1.2 = missing ++ filter (λ k, needs_load codec cfg raw k = true) l
  ∧ ∀ k, r.1.1 !! k = match cached_value codec cfg raw k with
                      | Some v => if decide (k ∈ l) then Some v else res !! k
                      | None => res !! k
                      end.
Proof.
  revert res missing w. induction l as [|x l IH]; intros res missing w Hnd; cbn zeta.
  { cbn. rewrite app_nil_r. split; [done|]. intros k. by destruct (cached_value _ _ _ _). }
  apply NoDup_cons in Hnd as [Hx Hnd]. rewrite run_for_fold_cons, run_decode_step.
  cbn [fst snd]. edestruct IH as [H1 H2]; [done|]. split.
  - rewrite H1, filter_cons. destruct (needs_load codec cfg raw x); [|done].
    by rewrite decide_True, <-(assoc_L (++)).
  - intros k. rewrite H2. destruct (decide (k = x)) as [->|Hne].
    + destruct (cached_value codec cfg raw x); [|done].
      rewrite decide_False, lookup_insert_eq by done.
      by rewrite decide_True by apply list_elem_of_here.
    + assert (res !! k = match cached_value codec cfg raw x with
                         | Some v => <[x:=v]> res | None => res end !! k) as <-.
      { destruct (cached_value codec cfg raw x); by rewrite ?lookup_insert_ne. }
      destruct (cached_value codec cfg raw k); [|done].
      apply decide_ext. rewrite elem_of_cons. tauto.
Qed.

(** ** The packing loop *)

(** The backend TTL of every packed value, when nothing is drawn at random. *)
Definition uniform_ttl cfg (ttl : Duration) : Duration :=
  if envelopeEnabled cfg then
    if 0 <? base_ttl cfg ttl then dur_add (base_ttl cfg ttl) (cfg_staleTTL cfg) else 0
  else ttl.

Lemma packed_uniform cfg payload ttl d data sttl t :
  envelopeEnabled cfg = false ∨ fle (cfg_ttlJitter cfg) fzero = true →
  packed cfg payload ttl d data sttl t → sttl = uniform_ttl cfg ttl.
Proof.
  unfold uniform_ttl. intros Hu [_ _ Hbare Henv].
  destruct (envelopeEnabled cfg); [|by destruct (Hbare eq_refl)].
  destruct Hu as [?|Hj]; [done|]. destruct (Henv eq_refl) as (_ & fresh & Hf & Hb & _).
  rewrite (Hb (or_introl Hj)) in Hf. destruct Hf as [(Hle & _ & ->)|(Hlt & _ & ->)].
  - by rewrite (proj2 (Z.ltb_ge _ _)).
  - by rewrite (proj2 (Z.ltb_lt _ _)).
Qed.

(** The invariant of the loop, started in the world [w0] with the result
    [res], after the keys [seen]. *)
Record pack_inv codec cfg ttl d (loaded res : gmap string T) (w0 : World S)
    (seen : list string) (st : packState T) (w : World S) : Prop := {
  pi_time : w_time w0 <= w_time w;
  pi_store : w_store w = w_store w0;
  pi_result k : pk_result st !! k
    = if decide (k ∈ seen)
      then match loaded !! k with Some v => Some v | None => res !! k end
      else res !! k;
  pi_vals k data : pk_vals st !! k = Some data →
    k ∈ seen ∧ ∃ v payload sttl t, loaded !! k = Some v ∧ Marshal codec v = Ok payload
      ∧ w_time w0 <= t <= w_time w ∧ packed cfg payload ttl d data sttl t;
  pi_vals_some k v payload : k ∈ seen → loaded !! k = Some v →
    Marshal codec v = Ok payload → is_Some (pk_vals st !! k);
  pi_negs k : pk_negs st !! k
    = if decide (k ∈ seen) then
        match loaded !! k with
        | Some _ => None
        | None => if 0 <? cfg_negativeTTL cfg then Some negativeMarker else None
        end
      else None;
  pi_ttl : envelopeEnabled cfg = false ∨ fle (cfg_ttlJitter cfg) fzero = true →
    pk_vals st = ∅ ∨ pk_storeTTL st = uniform_ttl cfg ttl
}.

Lemma pack_inv_nil codec cfg ttl d loaded res w :
  pack_inv codec cfg ttl d loaded res w [] (mkPack res ∅ ∅ ttl) w.
Proof.
  split; simpl; try done; try lia; try by left.
  intros k v payload Hk. by apply not_elem_of_nil in Hk.
Qed.

(** One pass, by what the loader said of the key. *)
Lemma decide_snoc {A} (x k : string) seen (a b : A) :
  (if decide (k ∈ seen ++ [x]) then a else b)
  = if decide (k = x) then a else if decide (k ∈ seen) then a else b.
Proof.
  destruct (decide (k = x)) as [->|Hne].
  - rewrite decide_True; [done|]. apply elem_of_snoc. by right.
  - apply decide_ext. rewrite elem_of_snoc. tauto.
Qed.

Lemma pack_inv_omitted codec cfg ttl d loaded res w0 seen k st w :
  loaded !! k = None →
  pack_inv codec cfg ttl d loaded res w0 seen st w →
  pack_inv codec cfg ttl d loaded res w0 (seen ++ [k])
    (run (pack_step codec cfg ttl d loaded st k) w).1
    (run (pack_step codec cfg ttl d loaded st k) w).2.
Proof.
  intros Hk [Ht Hs Hr Hv Hv' Hn Httl]. unfold pack_step. rewrite Hk, run_ret.
  cbn [fst snd]. set (st' := if 0 <? _ then _ else st).
  assert (pk_result st' = pk_result st ∧ pk_vals st' = pk_vals st
    ∧ pk_storeTTL st' = pk_storeTTL st) as (E1 & E2 & E3)
    by (subst st'; by destruct (0 <? _)).
  assert (∀ k', pk_negs st' !! k'
    = if decide (k' = k) then
        if 0 <? cfg_negativeTTL cfg then Some negativeMarker else None
      else pk_negs st !! k') as E4.
  { intros k'. subst st'. destruct (0 <? _) eqn:En; cbn [pk_negs]; case_decide; subst.
    - by rewrite lookup_insert_eq.
    - by rewrite lookup_insert_ne.
    - rewrite Hn, Hk. by case_decide.
    - done. }
  clearbody st'. split; rewrite ?E1, ?E2, ?E3; [done|done| | | | |done].
  - intros k'. rewrite decide_snoc, Hr. destruct (decide (k' = k)) as [->|]; [|done].
    rewrite Hk. by case_decide.
  - intros k' data H. destruct (Hv _ _ H) as [? ?]. split; [|done].
    apply elem_of_snoc. by left.
  - intros k' v payload [Hin| ->]%elem_of_snoc Hl Hm; [by eapply Hv'|congruence].
  - intros k'. rewrite decide_snoc, E4. destruct (decide (k' = k)) as [->|]; [|done].
    by rewrite Hk.
Qed.

Lemma pack_inv_loaded codec cfg ttl d loaded res w0 seen k v st w :
  loaded !! k = Some v →
  pack_inv codec cfg ttl d loaded res w0 seen st w →
  pack_inv codec cfg ttl d loaded res w0 (seen ++ [k])
    (run (pack_step codec cfg ttl d loaded st k) w).1
    (run (pack_step codec cfg ttl d loaded st k) w).2.
Proof.
  intros Hk [Ht Hs Hr Hv Hv' Hn Httl]. unfold pack_step. rewrite Hk.
  assert (∀ k', <[k:=v]> (pk_result st) !! k'
    = if decide (k' ∈ seen ++ [k])
      then match loaded !! k' with Some v => Some v | None => res !! k' end
      else res !! k') as Hr'.
  { intros k'. rewrite decide_snoc. destruct (decide (k' = k)) as [->|Hne].
    - by rewrite lookup_insert_eq, Hk.
    - by rewrite lookup_insert_ne, Hr. }
  assert (∀ k', pk_negs st !! k'
    = if decide (k' ∈ seen ++ [k]) then
        match loaded !! k' with
        | Some _ => None
        | None => if 0 <? cfg_negativeTTL cfg then Some negativeMarker else None
        end
      else None) as Hn'.
  { intros k'. rewrite decide_snoc, Hn. destruct (decide (k' = k)) as [->|]; [|done].
    rewrite Hk. by case_decide. }
  destruct (Marshal codec v) as [payload|merr] eqn:Em.
  - destruct (packForStore_spec payload ttl d cfg w)
      as (data & sttl & w' & t & Hrun & Ht' & Hs' & _ & _ & Hp).
    rewrite run_bind, Hrun. cbn [fst snd]. rewrite run_ret.
    split; cbn [fst snd pk_result pk_vals pk_negs pk_storeTTL]; [lia|congruence|done| | |done|].
    + intros k' data' [[<- <-]|[Hne H]]%lookup_insert_Some.
      * split; [apply elem_of_snoc; by right|]. exists v, payload, sttl, t.
        split_and!; done || lia.
      * destruct (Hv _ _ H) as (Hin & v' & p' & s' & t' & ? & ? & ? & ?).
        split; [apply elem_of_snoc; by left|]. exists v', p', s', t'. split_and!; done || lia.
    + intros k' v' payload' Hin Hl Hm. destruct (decide (k' = k)) as [->|Hne].
      * by rewrite lookup_insert_eq.
      * rewrite lookup_insert_ne by done. apply elem_of_snoc in Hin as [Hin|?]; [|done].
        by eapply Hv'.
    + intros Hu. right. by eapply packed_uniform.
  - step.
    split; cbn [fst snd pk_result pk_vals pk_negs pk_storeTTL w_time w_store add_events];
      [done|done|done| | |done|done].
    + intros k' data H. destruct (Hv _ _ H) as [? ?]. split; [|done].
      apply elem_of_snoc; by left.
    + intros k' v' payload' [Hin| ->]%elem_of_snoc Hl Hm; [by eapply Hv'|congruence].
Qed.

Lemma pack_loop codec cfg ttl d loaded res missing w :
  let r := run (for_fold (pack_step codec cfg ttl d loaded) (mkPack res ∅ ∅ ttl) missing) w in
  pack_inv codec cfg ttl d loaded res w missing r.1 r.2.
Proof.
  apply (for_fold_inv (pack_inv codec cfg ttl d loaded res w)); [|apply pack_inv_nil].
  intros seen k rest st w' _ H. destruct (loaded !! k) eqn:E.
  - by eapply pack_inv_loaded.
  - by eapply pack_inv_omitted.
Qed.
End loops.

(** ** The phases on a backend that keeps its contract *)

Section phases.
Context {S T : Type} `{!JSON T}.
Context (c : Cache S) (view : S → string → Time → option bytes)
  (lifetime : bytes → Duration → Duration → Prop) `{!BatchCacheSpec c view lifetime}.
Implicit Types (w : World S) (codec : Codec T).
Abbreviation same_view := (same_view_by view).

(** What storing the map [m] with the TTL [ttl] does. *)
Definition stores (m : gmap string bytes) (ttl : Duration) w w' : Prop :=
  w_time w <= w_time w'
  ∧ (∀ k t, m !! k = None → w_time w' <= t →
       view (w_store w') k t = view (w_store w) k t)
  ∧ ∀ k v, m !! k = Some v → written view lifetime k v ttl w w'.

(** The loop invariant of the fallback: the pairs [seen] are stored. *)
Record seteach_inv (ttl : Duration) (w0 : World S) (seen : list (string * bytes)) w
    : Prop := {
  se_time : w_time w0 <= w_time w;
  se_other k t : k ∉ seen.*1 → w_time w <= t →
    view (w_store w) k t = view (w_store w0) k t;
  se_seen k v : (k, v) ∈ seen → written view lifetime k v ttl w0 w
}.

Lemma seteach_inv_step ctx ttl w0 seen kv w :
  0 <= w_time w0 → kv.1 ∉ seen.*1 → seteach_inv ttl w0 seen w →
  seteach_inv ttl w0 (seen ++ [kv])
    (run (c_Set c ctx kv.1 kv.2 ttl;; (mret () : act S ())) w).2.
Proof.
  destruct kv as [k v]. cbn [fst snd]. intros Hw Hk [Ht Ho Hs].
  rewrite run_bind, run_ret. cbn [snd].
  destruct (spec_Set ctx k v ttl w ltac:(lia)) as (_ & Ht1 & Hf & Hwr).
  set (w1 := (run (c_Set c ctx k v ttl) w).2) in *.
  split; [lia| |].
  - intros k' t Hk' Hle. rewrite fmap_app in Hk'. apply not_elem_of_app in Hk' as [H1 H2].
    rewrite Hf by (done || (intros ->; apply H2, list_elem_of_here)).
    apply Ho; [done|lia].
  - intros k' v' [Hin|[= -> ->]]%elem_of_snoc.
    + eapply written_later; [| | |by apply Hs]; [lia|done|].
      intros t Hle. apply Hf; [|done]. intros ->. apply Hk.
      by apply (list_elem_of_fmap_2 fst _ _ Hin).
    + eapply written_later; [| | |exact Hwr]; [done|lia|done].
Qed.

Lemma setEach_stores ctx m ttl w :
  0 <= w_time w → stores m ttl w (run (setEach ctx c m ttl) w).2.
Proof.
  intros Hw. unfold setEach. step.
  pose proof (range_map_spec m w) as [Hp Hnd].
  assert (seteach_inv ttl w [] (range_map m w).2) as H0.
  { split; simpl; [lia|done|]. intros k v Hk. by apply not_elem_of_nil in Hk. }
  destruct (range_map m w) as [l w1]. cbn [fst snd] in *.
  destruct (for_each_inv (seteach_inv ttl w)
    (λ kv : string * bytes, c_Set c ctx kv.1 kv.2 ttl;; mret ()) l w1) as [Ht Ho Hs];
    [|done|].
  { intros seen kv rest w2 -> Hinv. apply seteach_inv_step; [done| |done].
    rewrite fmap_app, fmap_cons in Hnd. apply NoDup_app in Hnd as (_ & Hd & _).
    intros Hin. apply (Hd _ Hin), list_elem_of_here. }
  split_and!; [done| |].
  - intros k t Hk Hle. apply Ho; [|done].
    rewrite Hp. intros ([k' v] & -> & Hin)%list_elem_of_fmap.
    apply elem_of_map_to_list in Hin. cbn in Hk. congruence.
  - intros k v Hk. apply Hs. rewrite Hp. by apply elem_of_map_to_list.
Qed.

Lemma SetMany_stores bc ctx m ttl w :
  c_batch c = Some bc → 0 <= w_time w →
  stores m ttl w (run (b_SetMany bc ctx m ttl) w).2.
Proof.
  intros Hbc Hw. pose proof (bcs_batch bc Hbc) as Hspec.
  by destruct (spec_SetMany ctx m ttl w Hw) as (_ & ? & ? & ?).
Qed.

(** Two maps with no common key, stored one after the other. *)
Lemma stores_both vals negs ttl ttl' w w1 w2 :
  (∀ k, vals !! k = None ∨ negs !! k = None) →
  stores vals ttl w w1 → stores negs ttl' w1 w2 →
  w_time w <= w_time w2
  ∧ (∀ k t, vals !! k = None → negs !! k = None → w_time w2 <= t →
       view (w_store w2) k t = view (w_store w) k t)
  ∧ (∀ k v, vals !! k = Some v → written view lifetime k v ttl w w2)
  ∧ (∀ k v, negs !! k = Some v → written view lifetime k v ttl' w w2).
Proof.
  intros Hdisj (Ht1 & Hf1 & Hw1) (Ht2 & Hf2 & Hw2). split_and!; [lia| | |].
  - intros k t H1 H2 Hle. rewrite Hf2, Hf1 by (done || lia). done.
  - intros k v H. eapply written_later; [| | |by apply Hw1]; [lia|done|].
    intros t Hle. apply Hf2; [|done]. destruct (Hdisj k); congruence.
  - intros k v H. eapply written_later; [| | |by apply Hw2]; [done|lia|done].
Qed.

(** The write phase, batched or not. *)
Lemma writeBack_stores ctx cfg vals negs ttl w :
  0 <= w_time w → (∀ k, vals !! k = None ∨ negs !! k = None) →
  ∃ w1, stores vals ttl w w1
    ∧ stores negs (cfg_negativeTTL cfg) w1 (run (writeBack ctx c cfg vals negs ttl) w).2.
Proof.
  intros Hw Hdisj. unfold writeBack. destruct (c_batch c) as [bc|] eqn:Hbc; step.
  - pose proof (SetMany_stores bc (WithoutCancel ctx) vals ttl w Hbc Hw) as H1.
    eexists. split; [exact H1|]. apply SetMany_stores; [done|]. destruct H1. lia.
  - pose proof (setEach_stores (WithoutCancel ctx) vals ttl w Hw) as H1.
    eexists. split; [exact H1|]. apply setEach_stores. destruct H1. lia.
Qed.

(** The loop invariant of the fallback's reads, after the keys [seen]. *)
Record readraw_inv (w0 : World S) (seen : list string) (raw : gmap string bytes) w
    : Prop := {
  rr_same : same_view w0 w;
  rr_other k : k ∉ seen → raw !! k = None;
  rr_seen k : k ∈ seen → ∃ t, w_time w0 <= t <= w_time w
    ∧ raw !! k = view (w_store w0) k t
}.

Lemma readraw_inv_step ctx w0 seen raw k w :
  0 <= w_time w0 → k ∉ seen → readraw_inv w0 seen raw w →
  let m := (r ← c_Get c ctx k;
            mret (match r with Ok data => <[k := data]> raw | Err _ => raw end)) in
  readraw_inv w0 (seen ++ [k]) (run m w).1 (run m w).2.
Proof.
  intros Hw Hk [[Ht Hv] Ho Hs]. cbn zeta. step.
  destruct (spec_Get ctx k w) as (t & Ht1 & Hr & Hf).
  destruct (run (c_Get c ctx k) w) as [r w1]. cbn [fst snd] in *.
  assert ((match r with Ok data => <[k:=data]> raw | Err _ => raw end) !! k
    = view (w_store w0) k t) as Hkt.
  { rewrite <-Hv by lia. destruct r.
    - by rewrite lookup_insert_eq.
    - destruct Hr as [_ ->]. by apply Ho. }
  assert (∀ k', k' ≠ k → (match r with Ok data => <[k:=data]> raw | Err _ => raw end) !! k'
    = raw !! k') as Hne by (intros; destruct r; by rewrite ?lookup_insert_ne).
  split.
  - split; [lia|]. intros. rewrite Hf, Hv by lia. done.
  - intros k' [H1 H2]%not_elem_of_app. rewrite Hne; [by apply Ho|].
    intros ->. apply H2, list_elem_of_here.
  - intros k' [Hin| ->]%elem_of_snoc; [|exists t; split; [lia|done]].
    destruct (Hs k' Hin) as (t' & ? & ?). exists t'. split; [lia|].
    rewrite Hne; [done|]. by intros ->.
Qed.

(** The read phase, batched or not: what each key shows at some instant of
    it; nothing a reader could see has changed. *)
Lemma readRaw_spec ctx uniq w :
  0 <= w_time w → NoDup uniq →
  let r := run (readRaw ctx c uniq) w in readraw_inv w uniq r.1 r.2.
Proof.
  intros Hw Hnd. cbn zeta. unfold readRaw. destruct (c_batch c) as [bc|] eqn:Hbc.
  - pose proof (bcs_batch bc Hbc) as Hspec. step.
    destruct (spec_GetMany ctx uniq w) as (out & -> & Ht & Ho & Hs & Hf).
    by split; [split|..].
  - apply (for_fold_inv (readraw_inv w)).
    + intros seen k rest raw w1 -> H. apply readraw_inv_step; [done| |done].
      apply NoDup_app in Hnd as (_ & Hd & _). intros Hin.
      apply (Hd _ Hin), list_elem_of_here.
    + split; [split; [lia|done]|done|]. intros k Hk. by apply not_elem_of_nil in Hk.
Qed.

(** The decoding loop deletes the undecodable entries and nothing else. *)
Record decode_view_inv codec cfg (raw : gmap string bytes) (w0 : World S)
    (seen : list string) w : Prop := {
  dv_time : w_time w0 <= w_time w;
  dv_same k t : k ∉ seen ∨ undecodable codec cfg raw k = false → w_time w <= t →
    view (w_store w) k t = view (w_store w0) k t;
  dv_gone k t : k ∈ seen → undecodable codec cfg raw k = true → w_time w <= t →
    view (w_store w) k t = None
}.

(** The world after one pass. *)
Lemma decode_step_view ctx codec cfg raw acc k w :
  let w' := (run (decode_step ctx c codec cfg raw acc k) w).2 in
  if undecodable codec cfg raw k
  then w_time w <= w_time w' ∧ ∀ k' t, w_time w' <= t →
         view (w_store w') k' t = if decide (k' = k) then None else view (w_store w) k' t
  else w' = w.
Proof.
  destruct acc as [res missing]. cbn zeta. rewrite run_decode_step. cbn [snd].
  unfold undecodable. destruct (raw !! k) as [data|]; [|done].
  destruct (isNegativeEntry data); cbn [negb andb].
  { by destruct (Unmarshal _ _). }
  destruct (Unmarshal _ _) as [v|uerr]; cbn [is_Ok negb]; [done|].
  by destruct (spec_Delete ctx k (add_events
    (ev_if (OnError (cfg_hooks cfg)) (EvError OpDecode k uerr)) w)) as (_ & ? & ?).
Qed.

Lemma decode_loop_view ctx codec cfg raw acc l w :
  decode_view_inv codec cfg raw w l
    (run (for_fold (decode_step ctx c codec cfg raw) acc l) w).2.
Proof.
  apply (for_fold_inv (λ seen _, decode_view_inv codec cfg raw w seen)).
  2:{ split; [lia|done|]. intros k t Hk. by apply not_elem_of_nil in Hk. }
  intros seen k rest acc' w1 _ [Ht Hs Hg].
  pose proof (decode_step_view ctx codec cfg raw acc' k w1) as H. cbn zeta in H.
  destruct (undecodable codec cfg raw k) eqn:Eu.
  2:{ rewrite H. split; [done| |].
      - intros k' t' Hk'. apply Hs. rewrite elem_of_snoc in Hk'. tauto.
      - intros k' t' [Hin| ->]%elem_of_snoc; [by apply Hg|congruence]. }
  destruct H as [Ht1 Hv]. split; [lia| |].
  - intros k' t' Hk' Hle. rewrite Hv by done. case_decide as E.
    + subst k'. rewrite elem_of_snoc, Eu in Hk'. naive_solver.
    + apply Hs; [|lia]. rewrite elem_of_snoc in Hk'. tauto.
  - intros k' t' Hin Hu Hle. rewrite Hv by done. case_decide as E; [done|].
    apply elem_of_snoc in Hin as [Hin|?]; [|done]. apply Hg; [done|done|lia].
Qed.
End phases.

(** ** The whole call *)

Section call.
Context {S T : Type} `{!JSON T}.
Implicit Types (c : Cache S) (codec : Codec T) (w : World S).

(** The keys to load after the read phase found [raw]. *)
Definition missingKeys codec cfg raw (keys : list string) : list string :=
  filter (λ k, needs_load codec cfg raw k = true) (uniqKeys keys).

Lemma missingKeys_spec codec cfg raw keys :
  NoDup (missingKeys codec cfg raw keys)
  ∧ missingKeys codec cfg raw keys `sublist_of` keys
  ∧ ∀ k, k ∈ missingKeys codec cfg raw keys
         ↔ k ∈ keys ∧ needs_load codec cfg raw k = true.
Proof.
  destruct (uniqKeys_spec keys) as (Hnd & Hin & Hsub). unfold missingKeys.
  split_and!; [by apply NoDup_filter| |].
  - etrans; [apply sublist_filter|done].
  - intros k. rewrite list_elem_of_filter, Hin. tauto.
Qed.

(** What the result says of a key, [loaded] being what the loader said. *)
Definition batch_value codec cfg raw (loaded : gmap string T) (k : string) : option T :=
  if needs_load codec cfg raw k then loaded !! k else cached_value codec cfg raw k.

Lemma needs_load_no_value codec cfg raw k :
  needs_load codec cfg raw k = true → cached_value codec cfg raw k = None.
Proof.
  unfold needs_load, undecodable, cached_value.
  destruct (raw !! k) as [data|]; cbn [mbind option_bind]; [|done].
  rewrite bool_decide_eq_false_2 by done. cbn [orb].
  destruct (isNegativeEntry data); [done|]. by destruct (Unmarshal _ _).
Qed.

(** [decode_loop] for the whole list of keys. *)
Lemma decode_keys ctx c codec cfg raw keys w :
  let r := run (for_fold (decode_step ctx c codec cfg raw) (∅, []) (uniqKeys keys)) w in
  r.1.2 = missingKeys codec cfg raw keys
  ∧ ∀ k, r.1.1 !! k = if decide (k ∈ keys) then cached_value codec cfg raw k else None.
Proof.
  destruct (uniqKeys_spec keys) as (Hnd & Hin & _).
  destruct (decode_loop ctx c codec cfg raw (uniqKeys keys) ∅ [] w Hnd) as [H1 H2].
  split; [done|]. intros k. rewrite H2, lookup_empty.
  destruct (cached_value codec cfg raw k); [|by case_decide].
  by apply decide_ext.
Qed.

(** The load of the missing keys, by outcome of the loader. *)
Lemma run_loadMissing ctx c ttl codec loader cfg res missing w :
  let w0 := (read_clock w).2 in
  let w1 := (run (loader ctx missing) w0).2 in
  let d := time_Sub (read_clock w1).1 (read_clock w).1 in
  let loaded_events e := if OnLoad (cfg_hooks cfg)
                         then (λ k, EvLoad k d e) <$> missing else [] in
  run (loadMissing ctx c ttl codec loader cfg res missing) w =
  match (run (loader ctx missing) w0).1 with
  | Panicked v => (Panicked v, w1)
  | Returned (Err e) =>
      (Returned (Err e), add_events (loaded_events (Some e)) (read_clock w1).2)
  | Returned (Ok loaded) =>
      let r := run (for_fold (pack_step codec cfg ttl d loaded) (mkPack res ∅ ∅ ttl) missing)
                 (add_events (loaded_events None) (read_clock w1).2) in
      (Returned (Ok (pk_result r.1)),
       (run (writeBack ctx c cfg (pk_vals r.1) (pk_negs r.1) (pk_storeTTL r.1)) r.2).2)
  end.
Proof.
  cbn zeta. unfold loadMissing. step.
  destruct (run (loader ctx missing) (read_clock w).2) as [[lr|v] w1]; cbn [fst snd]; [|done].
  step. rewrite run_each_load. cbn [snd].
  destruct lr as [loaded|e]; cbn [result_error]; step; done.
Qed.

(** GetOrSetMany is the read phase, the decoding loop, and the load; the first
    two are the same for every loader. *)
Lemma read_phase ctx c keys ttl (codec : option (Codec T)) w :
  let cfg := configOf (c_config c) in
  let cdc := codec_or_default codec in
  let rd := run (readRaw ctx c (uniqKeys keys)) w in
  let missing := missingKeys cdc cfg rd.1 keys in
  let w2 := (run (for_fold (decode_step ctx c cdc cfg rd.1) (∅, []) (uniqKeys keys)) rd.2).2 in
  ∃ res, (∀ k, res !! k = if decide (k ∈ keys) then cached_value cdc cfg rd.1 k else None)
    ∧ ∀ loader, run (GetOrSetManyWithCodec ctx c keys ttl codec loader) w
      = if decide (missing = []) then (Returned (Ok res), w2)
        else run (loadMissing ctx c ttl cdc loader cfg res missing) w2.
Proof.
  cbn zeta. unfold GetOrSetManyWithCodec.
  set (rd := run (readRaw ctx c (uniqKeys keys)) w).
  destruct (decode_keys ctx c (codec_or_default codec) (configOf (c_config c)) rd.1 keys rd.2)
    as [Hm Hr].
  destruct (run (for_fold _ _ _) rd.2) as [[res missing] w2] eqn:E. cbn [fst snd] in *.
  subst missing. exists res. split; [done|]. intros loader.
  rewrite run_bind. fold rd. rewrite run_bind, E. cbn [fst snd]. by case_decide.
Qed.

Lemma run_GetOrSetMany ctx c keys ttl (codec : option (Codec T)) loader w :
  let cfg := configOf (c_config c) in
  let cdc := codec_or_default codec in
  let rd := run (readRaw ctx c (uniqKeys keys)) w in
  let missing := missingKeys cdc cfg rd.1 keys in
  ∃ res w2,
    w2 = (run (for_fold (decode_step ctx c cdc cfg rd.1) (∅, []) (uniqKeys keys)) rd.2).2
    ∧ (∀ k, res !! k = if decide (k ∈ keys) then cached_value cdc cfg rd.1 k else None)
    ∧ run (GetOrSetManyWithCodec ctx c keys ttl codec loader) w
      = if decide (missing = []) then (Returned (Ok res), w2)
        else run (loadMissing ctx c ttl cdc loader cfg res missing) w2.
Proof.
  cbn zeta. destruct (read_phase ctx c keys ttl codec w) as (res & Hres & Hrun).
  by exists res; eexists.
Qed.

(** What a call does with loaded values: pack, write back, return. *)
Definition finish_load ctx c ttl codec cfg (res : gmap string T) (missing : list string)
    (w1 : World S) (loaded : gmap string T) (w2 : World S) : gmap string T * World S :=
  let d := time_Sub (read_clock w2).1 (read_clock w1).1 in
  let r := run (for_fold (pack_step codec cfg ttl d loaded) (mkPack res ∅ ∅ ttl) missing)
             (add_events (if OnLoad (cfg_hooks cfg) then (λ k, EvLoad k d None) <$> missing
                          else []) (read_clock w2).2) in
  (pk_result r.1, (run (writeBack ctx c cfg (pk_vals r.1) (pk_negs r.1) (pk_storeTTL r.1)) r.2).2).

(** The result of a successful load: what was cached, and what was loaded. *)
Lemma packed_result codec cfg raw keys res ttl d (loaded : gmap string T) w :
  (∀ k, res !! k = if decide (k ∈ keys) then cached_value codec cfg raw k else None) →
  let missing := missingKeys codec cfg raw keys in
  ∀ k, pk_result (run (for_fold (pack_step codec cfg ttl d loaded)
         (mkPack res ∅ ∅ ttl) missing) w).1 !! k
       = if decide (k ∈ keys) then batch_value codec cfg raw loaded k else None.
Proof.
  intros Hres missing k.
  destruct (pack_loop codec cfg ttl d loaded res missing w) as [_ _ Hr _ _ _ _].
  destruct (missingKeys_spec codec cfg raw keys) as (_ & _ & Hin).
  rewrite Hr, Hres. unfold batch_value. destruct (decide (k ∈ missing)) as [Hk|Hk].
  - apply Hin in Hk as [Hk Hl].
    rewrite !(decide_True (P := k ∈ keys)), Hl, needs_load_no_value by done.
    by destruct (loaded !! k).
  - case_decide as Hk'; [|done].
    destruct (needs_load codec cfg raw k) eqn:E; [|done]. by destruct Hk; apply Hin.
Qed.
End call.

(** ** The whole call on a backend that keeps its contract *)

(** A batch loader that answers with [o missing] and leaves the cache alone. *)
Definition batch_yields {S T} (view : S → string → Time → option bytes)
    (loader : batch_loader S T) (o : list string → outcome (result (gmap string T)))
    : Prop :=
  ∀ ctx missing w, 0 <= w_time w →
    (run (loader ctx missing) w).1 = o missing
    ∧ same_view_by view w (run (loader ctx missing) w).2.

Section call_spec.
Context {S T : Type} `{!JSON T}.
Context (c : Cache S) (view : S → string → Time → option bytes)
  (lifetime : bytes → Duration → Duration → Prop) `{!BatchCacheSpec c view lifetime}.
Implicit Types (w : World S) (codec : Codec T).
Abbreviation cfg := (configOf (c_config c)).

(** What a successful load leaves in the cache for the missing key [k]. *)
Definition stored_key codec ttl (loaded : gmap string T) k w w' : Prop :=
  match loaded !! k with
  | Some v => ∀ payload, Marshal codec v = Ok payload →
      ∃ data sttl t d storeTTL, packed cfg payload ttl d data sttl t
        ∧ w_time w <= t <= w_time w'
        ∧ written view lifetime k data storeTTL w w'
        ∧ (envelopeEnabled cfg = false ∨ fle (cfg_ttlJitter cfg) fzero = true →
           storeTTL = sttl)
  | None => 0 < cfg_negativeTTL cfg →
      written view lifetime k negativeMarker (cfg_negativeTTL cfg) w w'
  end.

Lemma loadMissing_stores ctx ttl codec loader o res missing loaded w :
  0 <= w_time w → batch_yields view loader o → o missing = Returned (Ok loaded) →
  let r := run (loadMissing ctx c ttl codec loader cfg res missing) w in
  (∃ res', r.1 = Returned (Ok res') ∧ ∀ k, res' !! k
     = if decide (k ∈ missing)
       then match loaded !! k with Some v => Some v | None => res !! k end
       else res !! k)
  ∧ w_time w <= w_time r.2
  ∧ (∀ k, k ∈ missing → stored_key codec ttl loaded k w r.2)
  ∧ ∀ k t, k ∉ missing → w_time r.2 <= t →
      view (w_store r.2) k t = view (w_store w) k t.
Proof.
  intros Hw Hl Ho. cbn zeta. rewrite run_loadMissing. cbn zeta.
  destruct (Hl ctx missing (read_clock w).2 ltac:(simpl; lia)) as [-> [Hlt Hlv]].
  rewrite Ho. cbn [fst snd]. set (w1 := (run (loader ctx missing) (read_clock w).2).2) in *.
  cbn [read_clock snd w_time w_store] in Hlt, Hlv.
  match goal with |- context [run (for_fold (pack_step _ _ _ ?d0 _) _ _) ?w0] =>
    set (w2 := w0); set (d := d0) end.
  assert (w_time w1 <= w_time w2) as Ht2 by (subst w2; simpl; lia).
  assert (w_store w2 = w_store w1) as Hs2 by done. clearbody w2 d.
  destruct (pack_loop codec cfg ttl d loaded res missing w2) as [Ht3 Hs3 Hr Hv Hv' Hn Httl].
  destruct (run (for_fold _ _ _) w2) as [st w3]. cbn [fst snd] in *.
  assert (∀ k, pk_vals st !! k = None ∨ pk_negs st !! k = None) as Hdisj.
  { intros k. destruct (pk_vals st !! k) as [data|] eqn:E; [right|by left].
    destruct (Hv _ _ E) as (Hin & v & _ & _ & _ & Hlo & _). by rewrite Hn, decide_True, Hlo. }
  destruct (writeBack_stores c view lifetime ctx cfg (pk_vals st) (pk_negs st)
    (pk_storeTTL st) w3 ltac:(lia) Hdisj) as (w4 & Hst1 & Hst2).
  destruct (stores_both view lifetime _ _ _ _ _ _ _ Hdisj Hst1 Hst2)
    as (Ht5 & Hf5 & Hw5 & Hn5).
  set (w5 := (run (writeBack _ _ _ _ _ _) w3).2) in *.
  split_and!; [by eexists|lia| |].
  - intros k Hk. unfold stored_key. destruct (loaded !! k) as [v|] eqn:Elo.
    + intros payload Hm. destruct (Hv' k v payload Hk Elo Hm) as [data Hd].
      destruct (Hv _ _ Hd) as (_ & v' & p' & sttl & t & Hlo' & Hm' & Ht & Hp).
      assert (p' = payload) as -> by congruence.
      exists data, sttl, t, d, (pk_storeTTL st). split_and!; [done|lia|lia| |].
      * eapply written_later; [| | |by apply Hw5]; [lia|done|done].
      * intros Hu. destruct (Httl Hu) as [He|He]; [by rewrite He in Hd|].
        rewrite He. symmetry. by eapply packed_uniform.
    + intros Hneg. eapply written_later; [| | |apply Hn5]; [lia|done|done|].
      by rewrite Hn, decide_True, Elo, (proj2 (Z.ltb_lt _ _)).
  - intros k t Hk Hle. rewrite Hf5, Hs3, Hs2, Hlv; [done|lia| | |done].
    + destruct (pk_vals st !! k) as [data|] eqn:E; [|done]. by destruct (Hv _ _ E).
    + by rewrite Hn, decide_False.
Qed.

(** The phases of a call, with what each of them did. *)
Lemma call_phases ctx keys ttl (codec : option (Codec T)) loader w :
  0 <= w_time w →
  let cdc := codec_or_default codec in
  let rd := run (readRaw ctx c (uniqKeys keys)) w in
  let missing := missingKeys cdc cfg rd.1 keys in
  ∃ res w2, readraw_inv view w (uniqKeys keys) rd.1 rd.2
    ∧ decode_view_inv view cdc cfg rd.1 rd.2 (uniqKeys keys) w2
    ∧ (∀ k, res !! k = if decide (k ∈ keys) then cached_value cdc cfg rd.1 k else None)
    ∧ run (GetOrSetManyWithCodec ctx c keys ttl codec loader) w
      = if decide (missing = []) then (Returned (Ok res), w2)
        else run (loadMissing ctx c ttl cdc loader cfg res missing) w2.
Proof.
  intros Hw. cbn zeta. destruct (uniqKeys_spec keys) as [Hnd _].
  destruct (run_GetOrSetMany ctx c keys ttl codec loader w) as (res & w2 & -> & Hr & ->).
  pose proof (readRaw_spec c view lifetime ctx (uniqKeys keys) w Hw Hnd) as Hrd.
  cbn zeta in Hrd. eexists res, _. split_and!; [done| |done|done].
  by eapply decode_loop_view.
Qed.

(** When no key is visible, every key is to be loaded and nothing changed. *)
Lemma call_absent ctx keys ttl (codec : option (Codec T)) loader w :
  0 <= w_time w → (∀ k, k ∈ keys → absent view k w) →
  ∃ res w2, same_view_by view w w2 ∧ (∀ k, res !! k = None)
    ∧ run (GetOrSetManyWithCodec ctx c keys ttl codec loader) w
      = if decide (uniqKeys keys = []) then (Returned (Ok res), w2)
        else run (loadMissing ctx c ttl (codec_or_default codec) loader cfg res
               (uniqKeys keys)) w2.
Proof.
  intros Hw Ha. destruct (uniqKeys_spec keys) as (_ & Hin & _).
  destruct (call_phases ctx keys ttl codec loader w Hw) as (res & w2 & Hrd & Hdv & Hr & Hrun).
  cbn zeta in *. destruct (run (readRaw _ _ _) w) as [raw w1]. cbn [fst snd] in *.
  destruct Hrd as [[Ht1 Hv1] Ho Hs]. destruct Hdv as [Ht2 Hd _].
  assert (∀ k, raw !! k = None) as Hraw.
  { intros k. destruct (decide (k ∈ uniqKeys keys)) as [Hk|Hk]; [|by apply Ho].
    destruct (Hs k Hk) as (t & Ht & ->). apply Ha; [by apply Hin|lia]. }
  assert (∀ k, undecodable (codec_or_default codec) cfg raw k = false) as Hu.
  { intros k. unfold undecodable. by rewrite Hraw. }
  assert (missingKeys (codec_or_default codec) cfg raw keys = uniqKeys keys) as Hm.
  { unfold missingKeys. clear -Hraw. induction (uniqKeys keys) as [|x l IH]; [done|].
    rewrite filter_cons_True; [by f_equal|].
    unfold needs_load. by rewrite bool_decide_eq_true_2. }
  rewrite Hm in Hrun. exists res, w2. split_and!; [|intros k|done].
  - split; [lia|]. intros k t Hle. rewrite Hd, Hv1 by (lia || (right; apply Hu)). done.
  - rewrite Hr. unfold cached_value. rewrite Hraw. by destruct (decide (k ∈ keys)).
Qed.

(** With nothing undecodable the decoding loop changes nothing. *)
Lemma decode_loop_idle ctx codec raw acc l w :
  (∀ k, k ∈ l → undecodable codec cfg raw k = false) →
  (run (for_fold (decode_step ctx c codec cfg raw) acc l) w).2 = w.
Proof.
  revert acc. induction l as [|k l IH]; intros acc Hu; [done|].
  rewrite run_for_fold_cons.
  pose proof (decode_step_view c view lifetime ctx codec cfg raw acc k w) as Hst.
  cbn zeta in Hst. rewrite Hu in Hst by apply list_elem_of_here. rewrite Hst.
  apply IH. intros k' Hk'. apply Hu. by apply list_elem_of_further.
Qed.

(** When every key shows decodable bytes or a negative marker throughout the
    read phase, the call ends there. *)
Lemma call_all_cached ctx keys ttl (codec : option (Codec T)) loader val w :
  let w1 := (run (readRaw ctx c (uniqKeys keys)) w).2 in
  0 <= w_time w →
  (∀ k t, k ∈ keys → w_time w <= t <= w_time w1 →
     ∃ data, view (w_store w) k t = Some data
       ∧ match val k with
         | Some v => isNegativeEntry data = false
             ∧ Unmarshal (codec_or_default codec) (parseStored cfg data).2 = Ok v
         | None => data = negativeMarker
         end) →
  ∃ res, run (GetOrSetManyWithCodec ctx c keys ttl codec loader) w = (Returned (Ok res), w1)
    ∧ ∀ k, res !! k = if decide (k ∈ keys) then val k else None.
Proof.
  cbn zeta. intros Hw Hval. destruct (uniqKeys_spec keys) as (Hnd & Hin & _).
  pose proof (readRaw_spec c view lifetime ctx (uniqKeys keys) w Hw Hnd) as Hrd.
  destruct (run_GetOrSetMany ctx c keys ttl codec loader w) as (res & w2 & Hw2 & Hr & Hrun).
  cbn zeta in *. destruct (run (readRaw _ _ _) w) as [raw w1]. cbn [fst snd] in *.
  set (cdc := codec_or_default codec) in *.
  assert (∀ k, k ∈ keys → needs_load cdc cfg raw k = false
    ∧ undecodable cdc cfg raw k = false ∧ cached_value cdc cfg raw k = val k) as Hk.
  { intros k Hk. destruct (rr_seen _ _ _ _ _ Hrd k) as (t & Ht & Hraw); [by apply Hin|].
    destruct (Hval k t Hk Ht) as (data & Hd & Hcase). rewrite Hd in Hraw.
    unfold needs_load, undecodable, cached_value. rewrite Hraw.
    rewrite bool_decide_eq_false_2 by done. cbn [mbind option_bind orb].
    destruct (val k) as [v|].
    - destruct Hcase as [-> ->]. done.
    - subst data. done. }
  assert (missingKeys cdc cfg raw keys = []) as Hm.
  { apply elem_of_nil_inv. intros k (Hkin & Hl)%missingKeys_spec.
    destruct (Hk k Hkin). congruence. }
  rewrite decide_True in Hrun by done. exists res. split.
  - rewrite Hrun, Hw2. f_equal. apply decode_loop_idle. intros k Hkin%Hin. by apply Hk.
  - intros k. rewrite Hr. case_decide as Hkin; [|done]. by apply Hk.
Qed.
End call_spec.
