(* ===== verification/BatchThms.v ===== *)
(** * GetOrSetMany: the theorems

    What the batched helper returns for any backend, and, on a backend that
    keeps its contract, what it caches and what it leaves alone. *)
From S2P Require Import Prelude Int64 Float64 Errors Runtime Envelope Hooks Codec.
From S2P Require Import Options Cache Memory Group GetOrSet GetOrSetFacts Batch.
From S2P Require Import BatchFacts Instances.
From Stdlib Require Import ZArith Lia.
Local Open Scope Z_scope.

(** C20: The result of GetOrSetMany, whatever the backend does.  With [raw] what
    the read phase found, the keys to load are those with no entry or an
    undecodable one, each once, in input order.  The world [w1] in which the
    read phase ends, the values [res] it found and what is made of the loaded
    ones, [finish], are the same for every loader.  When there is nothing to
    load the call ends there, and the loader is not run.  Otherwise it is run
    exactly once, in [w1] but for a reading of the clock, on exactly the keys to
    load, and the rest of the call depends on what it returned and on the world
    it left, in no other way on the loader: a panic leaves the call at once; an
    error is returned, after a reading of the clock and one load event per
    missing key; on success the result holds the cached values and the loaded
    ones, and no key that was not asked for. *)
Theorem GetOrSetMany_result {S T} `{!JSON T} (c : Cache S) ctx keys ttl
    (codec : option (Codec T)) (w : World S) :
  let cfg := configOf (c_config c) in
  let cdc := codec_or_default codec in
  let read := run (readRaw ctx c (uniqKeys keys)) w in
  let raw := read.1 in
  let missing := missingKeys cdc cfg raw keys in
  let w1 := (run (for_fold (decode_step ctx c cdc cfg raw) (∅, []) (uniqKeys keys)) read.2).2 in
  NoDup missing ∧ missing `sublist_of` keys
  ∧ (∀ k, k ∈ missing ↔ k ∈ keys ∧ needs_load cdc cfg raw k = true)
  ∧ ∃ (res : gmap string T) (finish : gmap string T → World S → gmap string T * World S),
    (∀ k, res !! k = if decide (k ∈ keys) then cached_value cdc cfg raw k else None)
    ∧ (∀ loaded w2 k, (finish loaded w2).1 !! k
         = if decide (k ∈ keys) then batch_value cdc cfg raw loaded k else None)
    ∧ ∀ loader,
        run (GetOrSetManyWithCodec ctx c keys ttl codec loader) w
        = if decide (missing = []) then (Returned (Ok res), w1)
          else
            let '(o, w2) := run (loader ctx missing) (read_clock w1).2 in
            match o with
            | Panicked v => (Panicked v, w2)
            | Returned (Err e) =>
                let d := time_Sub (read_clock w2).1 (read_clock w1).1 in
                (Returned (Err e),
                 add_events (if OnLoad (cfg_hooks cfg)
                             then (λ k, EvLoad k d (Some e)) <$> missing else [])
                   (read_clock w2).2)
            | Returned (Ok loaded) =>
                let '(values, w3) := finish loaded w2 in (Returned (Ok values), w3)
            end.
Proof.
  cbn zeta. destruct (read_phase ctx c keys ttl codec w) as (res & Hres & Hrun).
  set (cdc := codec_or_default codec) in *. set (cfg := configOf (c_config c)) in *.
  set (raw := (run (readRaw ctx c (uniqKeys keys)) w).1) in *.
  set (w1 := (run (for_fold _ _ _) _).2) in *.
  destruct (missingKeys_spec cdc cfg raw keys) as (Hnd & Hsub & Hin).
  split_and!; [done|done|done|].
  exists res, (finish_load ctx c ttl cdc cfg res (missingKeys cdc cfg raw keys) w1).
  split_and!; [done| |].
  - intros loaded w2. by apply packed_result.
  - intros loader. rewrite Hrun. case_decide; [done|].
    rewrite run_loadMissing. cbn zeta.
    by destruct (run (loader ctx _) (read_clock w1).2) as [[[loaded|e]|v] w2].
Qed.

(** C22: Batched cache-aside works end to end on any backend that keeps its
    contract, batched or not, with jitter off: a call on absent keys runs the
    loader and returns what it loaded, and every later call on some of those
    keys - with any loader, TTL and context - is answered by its read phase
    alone, with the same values and the same absences, as long as it reads
    within the TTL (and the negative TTL, if some of its keys were omitted). *)
Theorem GetOrSetMany_cached_after_load {S T} `{!JSON T} (c : Cache S) view lifetime
    `{!BatchCacheSpec c view lifetime} ctx keys ttl (codec : option (Codec T)) loader
    (loaded : gmap string T) (w : World S) :
  let cfg := configOf (c_config c) in
  let cdc := codec_or_default codec in
  0 <= w_time w → (∀ k, k ∈ keys → absent view k w) →
  batch_yields view loader (λ _, Returned (Ok loaded)) →
  (∀ k v, loaded !! k = Some v → ∃ payload, Marshal cdc v = Ok payload
     ∧ Unmarshal cdc payload = Ok v
     ∧ (envelopeEnabled cfg = true ∨ head payload ≠ Some x00)) →
  fle (cfg_ttlJitter cfg) fzero = true →
  0 <= cfg_staleTTL cfg → base_ttl cfg ttl + cfg_staleTTL cfg <= max_int64 →
  ∃ res w1, run (GetOrSetManyWithCodec ctx c keys ttl codec loader) w
            = (Returned (Ok res), w1)
  ∧ (∀ k, res !! k = if decide (k ∈ keys) then loaded !! k else None)
  ∧ ∀ ctx2 keys2 ttl2 loader2 w2, w_store w2 = w_store w1 → w_time w1 <= w_time w2 →
      keys2 ⊆ keys →
      let w3 := (run (readRaw ctx2 c (uniqKeys keys2)) w2).2 in
      base_ttl cfg ttl <= 0 ∨ w_time w3 < w_time w + floor_ms (base_ttl cfg ttl) →
      (∀ k, k ∈ keys2 → is_Some (loaded !! k))
        ∨ 0 < cfg_negativeTTL cfg ∧ w_time w3 < w_time w + floor_ms (cfg_negativeTTL cfg) →
      ∃ res2, run (GetOrSetManyWithCodec ctx2 c keys2 ttl2 codec loader2) w2
              = (Returned (Ok res2), w3)
      ∧ ∀ k, res2 !! k = if decide (k ∈ keys2) then loaded !! k else None.
Proof.
  cbn zeta. intros Hw Ha Hl Henc Hj Hst Hov.
  destruct (uniqKeys_spec keys) as (_ & Hin & _).
  destruct (call_absent c view lifetime ctx keys ttl codec loader w Hw Ha)
    as (res & w0 & [Ht0 Hv0] & Hres & ->).
  case_decide as Hnil.
  { exists res, w0. split_and!; [done| |].
    - intros k. rewrite Hres, decide_False; [done|]. rewrite <-Hin, Hnil. apply not_elem_of_nil.
    - intros ctx2 keys2 ttl2 loader2 w2 _ Ht2 Hsub _ _.
      apply (call_all_cached c view lifetime); [lia|]. intros k t Hk%Hsub%Hin.
      rewrite Hnil in Hk. by apply not_elem_of_nil in Hk. }
  destruct (loadMissing_stores c view lifetime ctx ttl (codec_or_default codec) loader _ res
    (uniqKeys keys) loaded w0 ltac:(lia) Hl eq_refl) as ((res' & Hres' & Hval) & Ht1 & Hsto & _).
  destruct (run (loadMissing _ _ _ _ _ _ _ _) w0) as [o w1]. cbn [fst snd] in *. subst o.
  exists res', w1. split_and!; [done| |].
  { intros k. rewrite Hval, Hres. rewrite (decide_ext (k ∈ uniqKeys keys) (k ∈ keys)) by done.
    case_decide; [|done]. by destruct (loaded !! k). }
  intros ctx2 keys2 ttl2 loader2 w2 Hs2 Ht2 Hsub Hwin Hneg.
  apply (call_all_cached c view lifetime); [lia|]. intros k t Hk Ht. rewrite Hs2.
  specialize (Hsto k ltac:(apply Hin, Hsub, Hk)). unfold stored_key in Hsto.
  destruct (loaded !! k) as [v|] eqn:Elo.
  - destruct (Henc k v Elo) as (payload & Hm & Hu & Hh).
    destruct (Hsto payload Hm) as (data & sttl & t0 & d & storeTTL & Hp & _ & Hwr & Heq).
    rewrite (Heq (or_intror Hj)) in Hwr.
    destruct (packed_decodes _ _ k v payload ttl d data sttl t0 Hm Hu Hh Hp) as (Hn & Hu' & _).
    exists data. split; [|done].
    eapply (packed_visible c view lifetime); try done; [lia|].
    destruct Hwin as [Hwin|Hwin]; [by left|right; lia].
  - exists negativeMarker. split; [|done].
    destruct Hneg as [Hall|[Hn Hwn]]; [destruct (Hall k Hk); congruence|].
    eapply (negative_visible c view lifetime); try done; [by apply Hsto|lia].
Qed.

Definition demo_batch_loader (m : gmap string bool) : batch_loader items bool :=
  λ _ _, atom (λ w, (Returned (Ok m), elapse 20000000 w)).

Lemma demo_batch_yields (c : MemoryCache bool) m :
  batch_yields (mem_view c) (demo_batch_loader m) (λ _, Returned (Ok m)).
Proof. intros ctx missing w Hw. split; [done|]. by split; [simpl; lia|]. Qed.

Lemma GetOrSetMany_cached_after_load_witness :
  ∃ res w1, run (GetOrSetManyWithCodec Background demo_cache ["a"; "b"; "a"] Minute None
                   (demo_batch_loader {[ "a" := true; "z" := false ]})) demo_empty
            = (Returned (Ok res), w1)
  ∧ res !! "a" = Some true ∧ res !! "z" = None
  ∧ ∃ res2 w3, run (GetOrSetManyWithCodec Background demo_cache ["b"; "a"] Minute None
                      (λ _ _, mret (Panicked "never run"))) w1 = (Returned (Ok res2), w3)
     ∧ res2 !! "a" = Some true ∧ res2 !! "b" = None.
Proof.
  destruct (GetOrSetMany_cached_after_load (T := bool) demo_cache (mem_view demo_memory)
    (mem_lifetime demo_memory) Background ["a"; "b"; "a"] Minute None
    (demo_batch_loader {[ "a" := true; "z" := false ]})
    {[ "a" := true; "z" := false ]} demo_empty) as (res & w1 & H1 & Hr & H2).
  - done.
  - intros k _ t _. unfold mem_view. simpl. by rewrite lookup_empty.
  - apply demo_batch_yields.
  - intros k v _. exists (if v then json_true else json_false).
    by destruct v; (split; [reflexivity|split; [reflexivity|left; reflexivity]]).
  - reflexivity.
  - vm_compute. discriminate.
  - vm_compute. discriminate.
  - exists res, w1. split; [done|]. rewrite !Hr. split; [reflexivity|split; [reflexivity|]].
    assert (w1 = (run (GetOrSetManyWithCodec Background demo_cache ["a"; "b"; "a"] Minute None
      (demo_batch_loader {[ "a" := true; "z" := false ]})) demo_empty).2) as Hw1
      by (by rewrite H1).
    destruct (H2 Background ["b"; "a"] Minute (λ _ _, mret (Panicked "never run")) w1
      eq_refl (Z.le_refl _)) as (res2 & H3 & Hr2).
    + intros k. rewrite !elem_of_cons. tauto.
    + right. rewrite Hw1. vm_compute. reflexivity.
    + right. rewrite Hw1. split; vm_compute; reflexivity.
    + eexists res2, _. split; [exact H3|]. rewrite !Hr2. by split.
Defined.

(** C40: Frame: a batch call lets no reader of a key it was not given see a
    difference, whatever the loader answers, provided the loader itself does
    not touch the cache; a failing loader leaves every entry that was
    readable as it was. *)
Theorem GetOrSetMany_frame {S T} `{!JSON T} (c : Cache S) view lifetime
    `{!BatchCacheSpec c view lifetime} ctx keys ttl (codec : option (Codec T)) loader
    o (w : World S) :
  let cfg := configOf (c_config c) in
  let raw := (run (readRaw ctx c (uniqKeys keys)) w).1 in
  let w' := (run (GetOrSetManyWithCodec ctx c keys ttl codec loader) w).2 in
  0 <= w_time w → batch_yields view loader o →
  w_time w <= w_time w'
  ∧ ∀ k t, w_time w' <= t →
      k ∉ keys
        ∨ undecodable (codec_or_default codec) cfg raw k = false
          ∧ (∀ l m, o l ≠ Returned (Ok m)) →
      view (w_store w') k t = view (w_store w) k t.
Proof.
  cbn zeta. intros Hw Hl. destruct (uniqKeys_spec keys) as (_ & Hin & _).
  destruct (call_phases c view lifetime ctx keys ttl codec loader w Hw)
    as (res & w2 & [[Ht1 Hv1] _ _] & [Ht2 Hd _] & _ & ->). cbn zeta in *.
  destruct (run (readRaw _ _ _) w) as [raw w1]. cbn [fst snd] in *.
  assert (∀ k t, w_time w2 <= t → k ∉ keys
    ∨ undecodable (codec_or_default codec) (configOf (c_config c)) raw k = false →
    view (w_store w2) k t = view (w_store w) k t) as H2.
  { intros k t Hle Hk. rewrite Hd, Hv1; [done|lia| |done].
    destruct Hk as [Hk|?]; [left; by rewrite Hin|by right]. }
  set (cdc := codec_or_default codec) in *. set (cfg := configOf (c_config c)) in *.
  destruct (missingKeys_spec cdc cfg raw keys) as (_ & _ & Hmin).
  case_decide as Hm; cbn [snd]; [split; [lia|]; intros; apply H2; [done|tauto]|].
  destruct (Hl ctx (missingKeys cdc cfg raw keys) (read_clock w2).2 ltac:(simpl; lia))
    as [Ho [Hlt Hlv]]. cbn [read_clock snd w_time w_store] in Hlt, Hlv.
  destruct (o (missingKeys cdc cfg raw keys)) as [[m|e]|v] eqn:Eo.
  2,3: rewrite run_loadMissing; cbn zeta; rewrite Ho;
    cbn [snd w_time w_store add_events read_clock]; split; [lia|];
    intros k t Hle Hk; rewrite Hlv by lia; apply H2; [lia|tauto].
  destruct (loadMissing_stores c view lifetime ctx ttl cdc loader o res _ m w2
    ltac:(lia) Hl Eo) as (_ & Ht3 & _ & Hf). fold cfg in Ht3, Hf. split; [lia|].
  intros k t Hle Hk.
  assert (k ∉ keys) as Hk' by (destruct Hk as [?|[_ Hno]]; [done|by destruct (Hno _ _ Eo)]).
  rewrite Hf, H2; [done|lia|by left| |done]. intros [? _]%Hmin. done.
Qed.

Lemma GetOrSetMany_frame_witness :
  mem_view demo_memory
    (w_store (run (GetOrSetManyWithCodec Background demo_cache ["a"; "b"] Minute None
       (demo_batch_loader {[ "a" := true; "k" := false ]}))
       (demo_world {[ "a:k" := mkItem json_true zero_time ]})).2) "k" (demo_time + Minute)
  = Some json_true.
Proof.
  destruct (GetOrSetMany_frame (T := bool) demo_cache (mem_view demo_memory)
    (mem_lifetime demo_memory) Background ["a"; "b"] Minute None
    (demo_batch_loader {[ "a" := true; "k" := false ]})
    (λ _, Returned (Ok {[ "a" := true; "k" := false ]}))
    (demo_world {[ "a:k" := mkItem json_true zero_time ]})) as [_ H].
  - vm_compute. discriminate.
  - apply demo_batch_yields.
  - rewrite H; [reflexivity|vm_compute; discriminate|].
    left. by apply (bool_decide_unpack _).
Defined.

(** ** A store TTL for all keys

    The packing loop gives each key a freshness window of its own, and the
    write phase stores all of them with the TTL of the key packed last. *)

(** A machine whose first draw is the largest and whose second is the least. *)
Definition skewed_oracle : Oracle := {|
  tick := tick demo_oracle;
  draw := λ n, if (n =? 0)%nat then 2 ^ 53 - 1 else 0;
  order := order demo_oracle;
  select := select demo_oracle;
  libm_log := libm_log demo_oracle;
  float_oob := float_oob demo_oracle
|}.

(** NewMemory(WithTTLJitter(0.5), WithStaleTTL(time.Second)). *)
Definition skewed_memory : MemoryCache bool :=
  NewMemory 0xc000030000 [WithTTLJitter (Fin (2 ^ 1073)); WithStaleTTL Second].

(** With jitter and stale-while-revalidate on, GetOrSetMany can store an
    entry with a backend expiry before its own freshness deadline: the TTL of
    the last key is used for all, so the entry disappears while still fresh
    and its stale window is lost. *)
Theorem GetOrSetMany_expiry_before_freshness :
  let w := mkWorld skewed_oracle 0 0 0 0 demo_time [] (∅ : items) [] in
  let call := run (GetOrSetMany Background (MemoryCache_Cache skewed_memory) ["a"; "b"] Minute
                     (demo_batch_loader {[ "a" := true; "b" := true ]})) w in
  ∃ it, w_store call.2 !! mem_key skewed_memory "a" = Some it
    ∧ let fu := freshUntil (parseStored (mem_config skewed_memory) (mi_val it)).1 in
      stale (parseStored (mem_config skewed_memory) (mi_val it)).1 (mi_deadline it) = false
      ∧ mi_deadline it + 58 * Second < fu
      ∧ ∀ t, mi_deadline it <= t → mem_view skewed_memory (w_store call.2) "a" t = None.
Proof.
  cbn zeta.
  set (s := w_store (run _ _).2).
  assert (∃ it, s !! "a" = Some it ∧ mi_deadline it ≠ 0
    ∧ stale (parseStored (mem_config skewed_memory) (mi_val it)).1 (mi_deadline it) = false
    ∧ mi_deadline it + 58 * Second
      < freshUntil (parseStored (mem_config skewed_memory) (mi_val it)).1)
    as (it & Hs & Hz & Hst & Hlt).
  { eexists. split; [vm_compute; reflexivity|].
    split_and!; [vm_compute; discriminate|vm_compute; reflexivity|vm_compute; reflexivity]. }
  exists it. split_and!; [done|done|done|]. intros t Ht.
  unfold mem_view. change (mem_key skewed_memory "a") with "a". rewrite Hs. simpl.
  unfold item_at, IsZero, Before. rewrite (proj2 (Z.eqb_neq _ _)) by done.
  by rewrite (proj2 (Z.ltb_ge _ _)).
Qed.
