(* ===== verification/Server.v ===== *)
(** * A Redis or Valkey server, as the two network backends see it

    Shared by Redis.v and Valkey.v: the expiry a server gives a SET, the TTLs
    a write through either backend may end up with, and the collection of a
    multi-key reply.  The content of the server is abstract: [db s k t] is
    what a reader finds at the (prefixed) key [k] at the time [t]. *)
From S2P Require Import Prelude Int64 Float64 Errors Runtime Envelope Hooks Options Cache.
From Stdlib Require Import ZArith Lia.
Local Open Scope Z_scope.

(** ** Definitions *)

(** The expiry of a SET with the time to live [d]: none for [d <= 0], else
    whole milliseconds, at least one. *)
Definition px (d : Duration) : Duration :=
  if d <=? 0 then 0 else Z.max Millisecond (floor_ms d).

(** The TTLs of a write: resolved by the package, cut by the server. *)
Definition server_lifetime (cfg : cacheConfig) (v : bytes) (ttl e : Duration) : Prop :=
  ∃ d, resolved_ttl cfg v ttl d ∧ e = px d.

(** What a SET with the time to live [d] leaves. *)
Definition server_set {S} (db : S → string → Time → option bytes) (k : string)
    (v : bytes) (d : Duration) (w w' : World S) : Prop :=
  written db (λ _ d e, e = px d) k v d w w'.

(** A SET whose reply was an error may have been executed. *)
Definition maybe_set {S} (db : S → string → Time → option bytes) (k : string)
    (v : bytes) (d : Duration) (w w' : World S) : Prop :=
  server_set db k v d w w' ∨ kept db k w w'.

(** The reply to a multi-key read, collected into a map; its hits and misses. *)
Definition collect (out : gmap string bytes) (l : list (string * option bytes))
    : gmap string bytes :=
  foldl (λ out kv, match kv.2 with Some s => <[kv.1 := s]> out | None => out end) out l.

Definition reply_event (h : Hooks) (kv : string * option bytes) : list event :=
  match kv.2 with
  | Some _ => ev_if (OnHit h) (EvHit kv.1)
  | None => ev_if (OnMiss h) (EvMiss kv.1)
  end.

(** ** Lemmas *)

Lemma px_pos d : 0 < d → 0 < px d.
Proof. intros H. unfold px. rewrite (proj2 (Z.leb_gt _ _)) by lia. unfold Millisecond. lia. Qed.

Lemma server_lifetime_bounds cfg v ttl e :
  server_lifetime cfg v ttl e →
  hasEnvelope v = true ∨ fle (cfg_ttlJitter cfg) fzero = true →
  let base := base_ttl cfg ttl in
  (base <= 0 → e <= 0)
  ∧ (0 < base → 0 < e ∧ floor_ms base <= e <= Z.max base Millisecond).
Proof.
  intros (d & Hd & ->) Hoff. apply resolved_ttl_base in Hd as ->; [|done]. cbn zeta.
  pose proof (floor_ms_le (base_ttl cfg ttl)). unfold px.
  destruct (Z.leb_spec (base_ttl cfg ttl) 0); unfold Millisecond in *; lia.
Qed.

(** A SET of a resolved TTL is a write of the package. *)
Lemma server_set_written {S} (db : S → string → Time → option bytes) prefix cfg
    k v ttl d (w w' : World S) :
  resolved_ttl cfg v ttl d →
  server_set db (prefix +:+ k) v d w w' →
  written (λ s k, db s (prefix +:+ k)) (server_lifetime cfg) k v ttl w w'.
Proof.
  intros Hd (e & -> & H1 & H2). exists (px d). split; [by exists d|done].
Qed.

Lemma maybe_set_written {S} (db : S → string → Time → option bytes) prefix cfg
    k v ttl d (w w' : World S) :
  resolved_ttl cfg v ttl d →
  maybe_set db (prefix +:+ k) v d w w' →
  written (λ s k, db s (prefix +:+ k)) (server_lifetime cfg) k v ttl w w'
  ∨ kept (λ s k, db s (prefix +:+ k)) k w w'.
Proof. intros Hd [H|H]; [left; by eapply server_set_written|by right]. Qed.

Section collect.
Implicit Types (out : gmap string bytes) (l : list (string * option bytes)).

Lemma collect_cons out kv l :
  collect out (kv :: l)
  = collect (match kv.2 with Some s => <[kv.1 := s]> out | None => out end) l.
Proof. done. Qed.

(** Each entry comes from the reply or was there before. *)
Lemma collect_Some out l k v :
  collect out l !! k = Some v → out !! k = Some v ∨ (k, Some v) ∈ l.
Proof.
  revert out. induction l as [|[k' o] l IH]; intros out; [by left|].
  rewrite collect_cons. cbn [fst snd]. intros [H|H]%IH.
  - destruct o as [s|]; [|by left].
    apply lookup_insert_Some in H as [[<- <-]|[_ H]]; [|by left].
    right. apply list_elem_of_here.
  - right. by apply list_elem_of_further.
Qed.

Lemma collect_None out l k :
  collect out l !! k = None → out !! k = None ∧ ∀ o, (k, o) ∈ l → o = None.
Proof.
  revert out. induction l as [|[k' o] l IH]; intros out; rewrite ?collect_cons; cbn [fst snd].
  { intros H. split; [done|]. by intros o ?%not_elem_of_nil. }
  intros [H Hl]%IH. destruct o as [s|].
  - apply lookup_insert_None in H as [H Hne]. split; [done|].
    intros o [[= -> ->]|?]%elem_of_cons; [done|by apply Hl].
  - split; [done|]. intros o [[= -> ->]|?]%elem_of_cons; [done|by apply Hl].
Qed.

(** Every key of the reply has exactly one event. *)
Lemma reply_events_length h l :
  OnHit h = true → OnMiss h = true → length (l ≫= reply_event h) = length l.
Proof.
  intros Hh Hm. induction l as [|[k o] l IH]; [done|].
  cbn [mbind list_bind]. rewrite length_app, IH.
  unfold reply_event, ev_if. cbn [snd fst]. rewrite Hh, Hm. by destruct o.
Qed.
End collect.

(** The caller's context, bounded: its values and its signals are kept, its
    deadline is moved to [start + d] if that is earlier. *)
Definition bounded_context (ctx : Context) (d : Duration) (start : Time) : Context :=
  mkContext (cx_values ctx) (cx_tokens ctx)
    (if d <=? 0 then cx_deadline ctx
     else Some (match cx_deadline ctx with
                | Some d' => Z.min d' (start + d)
                | None => start + d
                end)).

(** Without a timeout the clock is not read. *)
Lemma run_opContext_bounded {S} ctx d (w : World S) :
  run (opContext ctx d) w
  = (bounded_context ctx d (read_clock w).1, if d <=? 0 then w else (read_clock w).2).
Proof.
  unfold opContext, WithTimeout, bounded_context, WithDeadline, time_Add.
  destruct (d <=? 0); step; [by destruct ctx|done].
Qed.

(** The context of the commands of an operation that starts in [w]: when it is
    done, so is the operation. *)
Definition op_context {S} (d : Duration) (ctx : Context) (w : World S) (ctx' : Context) : Prop :=
  ∀ w', is_Some (ctx_Err ctx' w') → op_done d ctx w w'.

Lemma bounded_op_context {S} ctx d start (w : World S) :
  w_time w <= start → op_context d ctx w (bounded_context ctx d start).
Proof.
  intros Hs w'. unfold op_done, bounded_context, ctx_Err. cbn [cx_tokens cx_deadline].
  destruct (existsb _ _); [by left|]. destruct (Z.leb_spec d 0); [by left|].
  destruct (cx_deadline ctx) as [d'|].
  - destruct (Z.leb_spec d' (w_time w')); [by left; eexists|].
    destruct (Z.leb_spec (Z.min d' (start + d)) (w_time w')); [right; lia|by intros [? ?]].
  - destruct (Z.leb_spec (start + d) (w_time w')); [right; lia|by intros [? ?]].
Qed.

(** Bounding an operation reads the clock at most. *)
Lemma run_opContext {S} ctx d (w : World S) :
  ∃ ctx' w', run (opContext ctx d) w = (ctx', w')
    ∧ w_time w <= w_time w' ∧ w_store w' = w_store w ∧ w_trace w' = w_trace w
    ∧ op_context d ctx w ctx'.
Proof.
  rewrite run_opContext_bounded. eexists _, _. split; [done|].
  assert (w_time w <= (read_clock w).1) as Ht by (cbn; lia).
  split_and!; [case_match; [lia|exact Ht]|by case_match..|by apply bounded_op_context].
Qed.

(** The hooks it calls do not change that. *)
Lemma op_context_done {S} d ctx ctx' (w w' : World S) es :
  op_context d ctx w ctx' → is_Some (ctx_Err ctx' w') → op_done d ctx w (add_events es w').
Proof. intros H Hd. by apply H in Hd. Qed.

(** The pairs of a reply, by position. *)
Lemma elem_of_zip_lookup {A B} (l : list A) (r : list B) x y :
  (x, y) ∈ zip l r → ∃ i, l !! i = Some x ∧ r !! i = Some y.
Proof.
  intros [i Hi]%list_elem_of_lookup. apply lookup_zip_with_Some in Hi
    as (x' & y' & [= -> ->] & ? & ?). by exists i.
Qed.

Lemma zip_lookup_elem {A B} (l : list A) (r : list B) i x y :
  l !! i = Some x → r !! i = Some y → (x, y) ∈ zip l r.
Proof.
  intros Hl Hr. apply list_elem_of_lookup. exists i.
  apply lookup_zip_with_Some. by exists x, y.
Qed.

(** Only the rounded time to live matters. *)
Lemma server_set_px {S} (db : S → string → Time → option bytes) k v d d' (w w' : World S) :
  px d = px d' → server_set db k v d w w' → server_set db k v d' w w'.
Proof.
  intros Hpx (e & -> & H). exists (px d). by split.
Qed.

(** The millisecond floor changes nothing the server would not do. *)
Lemma px_floor d :
  px (if (0 <? d) && (d <? Millisecond) then Millisecond else d) = px d.
Proof.
  destruct (Z.ltb_spec 0 d), (Z.ltb_spec d Millisecond); simpl; try done.
  unfold px. rewrite (proj2 (Z.leb_gt d 0)) by lia. change (Millisecond <=? 0) with false. cbv iota.
  pose proof (floor_ms_le d). change (floor_ms Millisecond) with Millisecond. lia.
Qed.
