(* ===== verification/Redis.v ===== *)
(** * RedisCache (redis.go)

    The backend on go-redis.  The client is code outside the repository: its
    commands are the record [RedisClient], an argument of the model, with the
    error [redis.Nil] it reports absent keys with.  What theorems rely on is
    the class [RedisServer], stated of a store whose content a reader sees
    through [db].  A command's typed reply has the shape go-redis documents:
    MGET replies one value per key. *)
From stdpp Require Import vector.
From S2P Require Import Prelude Int64 Float64 Errors Runtime Envelope Hooks Codec.
From S2P Require Import Options Cache Server.
From Stdlib Require Import ZArith Lia.
Local Open Scope Z_scope.

(** ** Definitions *)

(** The methods of redis.UniversalClient that the package calls.  [rc_MGet]
    yields [None] where the reply's element is not a string (nil), [rc_Exec]
    runs the queued SETs of a pipeline, whose time to live is a Duration. *)
Record RedisClient (S : Type) := mkRedisClient {
  rc_Nil : error;
  rc_Get : Context → string → act S (result bytes);
  rc_Set : Context → string → bytes → Duration → act S (option error);
  rc_Del : Context → string → act S (option error);
  rc_Ping : Context → act S (option error);
  rc_MGet : ∀ (ctx : Context) (keys : list string),
    act S (result (vec (option bytes) (length keys)));
  rc_Exec : Context → list (string * bytes * Duration) → act S (option error);
  rc_Close : act S (option error)
}.
Arguments mkRedisClient {S}.
Arguments rc_Nil {S}. Arguments rc_Get {S}. Arguments rc_Set {S}. Arguments rc_Del {S}.
Arguments rc_Ping {S}. Arguments rc_MGet {S}. Arguments rc_Exec {S}. Arguments rc_Close {S}.

Record RedisCache (S T : Type) := mkRedis {
  r_addr : N;          (* the pointer *)
  r_client : RedisClient S;
  r_prefix : string;
  r_defaultTTL : Duration;
  r_codec : option (Codec T);
  r_hooks : Hooks;
  r_ttlJitter : float64;
  r_negativeTTL : Duration;
  r_opTimeout : Duration;
  r_staleTTL : Duration;
  r_earlyBeta : float64;
  r_ownsClient : bool
}.
Arguments mkRedis {S T}.
Arguments r_addr {S T}. Arguments r_client {S T}. Arguments r_prefix {S T}.
Arguments r_defaultTTL {S T}. Arguments r_codec {S T}. Arguments r_hooks {S T}.
Arguments r_ttlJitter {S T}. Arguments r_negativeTTL {S T}. Arguments r_opTimeout {S T}.
Arguments r_staleTTL {S T}. Arguments r_earlyBeta {S T}. Arguments r_ownsClient {S T}.

(** The argument of [redis.NewClient]. *)
Record redisOptions := mkRedisOptions {
  ro_Addr : string;
  ro_Username : string;
  ro_Password : string;
  ro_DB : Z
}.

Section redis.
Context {S T : Type}.
Implicit Types (c : RedisCache S T) (w : World S).

(** [newFromClient], for the address the allocation returns. *)
Definition newFromClient (addr : N) (client : RedisClient S) (o : Options T)
    : RedisCache S T :=
  mkRedis addr client (Prefix o) (DefaultTTL o) (OptCodec o) (OptHooks o) (TTLJitter o)
    (NegativeTTL o) (OpTimeout o) (StaleTTL o) (EarlyRefreshBeta o) false.

(** [New]; [NewClient] is redis.NewClient. *)
Definition redis_New `{JSON T} (NewClient : redisOptions → RedisClient S) (addr : N)
    (opts : list (Option T)) : RedisCache S T :=
  let o := buildOptions opts in
  let client := NewClient (mkRedisOptions (Addr o) (Username o) (Password o) (DB o)) in
  let c := newFromClient addr client o in
  mkRedis (r_addr c) (r_client c) (r_prefix c) (r_defaultTTL c) (r_codec c) (r_hooks c)
    (r_ttlJitter c) (r_negativeTTL c) (r_opTimeout c) (r_staleTTL c) (r_earlyBeta c) true.

Definition NewWithClient `{JSON T} (addr : N) (client : RedisClient S)
    (opts : list (Option T)) : RedisCache S T :=
  newFromClient addr client (buildOptions opts).

Definition redis_config c : cacheConfig :=
  mkConfig (r_hooks c) (r_negativeTTL c) (r_defaultTTL c) (r_staleTTL c)
    (r_earlyBeta c) (r_ttlJitter c).

Definition redis_ttlFor c (ttl : Duration) (val : bytes) : act S Duration :=
  let ttl := if ttl <=? 0 then r_defaultTTL c else ttl in
  if hasEnvelope val then mret ttl else applyJitter ttl (r_ttlJitter c).

Definition redis_key c (k : string) : string := r_prefix c +:+ k.

Definition redis_Get c (ctx : Context) (key : string) : act S (result bytes) :=
  ctx ← opContext ctx (r_opTimeout c);
  r ← rc_Get (r_client c) ctx (redis_key c key);
  match r with
  | Err err =>
      if errors_Is err (rc_Nil (r_client c)) then
        hooks_miss (r_hooks c) key;;
        mret (Err (Errorf "%w: %s" [AStr key] (Some ErrCacheMiss)))
      else
        hooks_error (r_hooks c) OpGet key err;;
        mret (Err (Errorf "cachekit: get %q: %w" [AStr key] (Some err)))
  | Ok data =>
      hooks_hit (r_hooks c) key;;
      mret (Ok data)
  end.

Definition redis_Set c (ctx : Context) (key : string) (val : bytes) (ttl : Duration)
    : act S (option error) :=
  ctx ← opContext ctx (r_opTimeout c);
  ttl ← redis_ttlFor c ttl val;
  e ← rc_Set (r_client c) ctx (redis_key c key) val ttl;
  match e with
  | Some err =>
      hooks_error (r_hooks c) OpSet key err;;
      mret (Some (Errorf "cachekit: set %q: %w" [AStr key] (Some err)))
  | None => mret None
  end.

Definition redis_Delete c (ctx : Context) (key : string) : act S (option error) :=
  ctx ← opContext ctx (r_opTimeout c);
  e ← rc_Del (r_client c) ctx (redis_key c key);
  match e with
  | Some err =>
      hooks_error (r_hooks c) OpDelete key err;;
      mret (Some (Errorf "cachekit: delete %q: %w" [AStr key] (Some err)))
  | None => mret None
  end.

Definition redis_Codec c : option (Codec T) := r_codec c.

Definition redis_Ping c (ctx : Context) : act S (option error) :=
  ctx ← opContext ctx (r_opTimeout c);
  e ← rc_Ping (r_client c) ctx;
  match e with
  | Some err => mret (Some (Errorf "cachekit: ping: %w" [] (Some err)))
  | None => mret None
  end.

(** One pass of the loop over the values of MGET. *)
Definition redis_GetMany_step c (out : gmap string bytes) (kv : string * option bytes)
    : act S (gmap string bytes) :=
  match kv.2 with
  | None => hooks_miss (r_hooks c) kv.1;; mret out
  | Some s => hooks_hit (r_hooks c) kv.1;; mret (<[kv.1 := s]> out)
  end.

Definition redis_GetMany c (ctx : Context) (keys : list string)
    : act S (result (gmap string bytes)) :=
  if decide (keys = []) then mret (Ok ∅)
  else
    ctx ← opContext ctx (r_opTimeout c);
    r ← rc_MGet (r_client c) ctx (redis_key c <$> keys);
    match r with
    | Err err =>
        for_each (λ k, hooks_error (r_hooks c) OpGet k err) keys;;
        mret (Err (Errorf "cachekit: mget (%d keys): %w" [AInt (Z.of_nat (length keys))] (Some err)))
    | Ok vals =>
        out ← for_fold (redis_GetMany_step c) ∅ (zip keys (vec_to_list vals));
        mret (Ok out)
    end.

(** One pass of the loop that queues the SETs of a pipeline. *)
Definition redis_SetMany_step c (ttl : Duration) (pipe : list (string * bytes * Duration))
    (kv : string * bytes) : act S (list (string * bytes * Duration)) :=
  t ← redis_ttlFor c ttl kv.2;
  mret (pipe ++ [(redis_key c kv.1, kv.2, t)]).

Definition redis_SetMany c (ctx : Context) (m : gmap string bytes) (ttl : Duration)
    : act S (option error) :=
  if decide (m = ∅) then mret None
  else
    ctx ← opContext ctx (r_opTimeout c);
    l ← range m;
    pipe ← for_fold (redis_SetMany_step c ttl) [] l;
    e ← rc_Exec (r_client c) ctx pipe;
    match e with
    | Some err =>
        l ← range m;
        for_each (λ kv : string * bytes, hooks_error (r_hooks c) OpSet kv.1 err) l;;
        mret (Some (Errorf "cachekit: mset (%d keys): %w" [AInt (Z.of_nat (size m))] (Some err)))
    | None => mret None
    end.

Definition redis_Close c : act S (option error) :=
  if negb (r_ownsClient c) then mret None else rc_Close (r_client c).

(** The cache as an interface value. *)
Definition RedisCache_Cache c : Cache S :=
  mkCache (r_addr c) (redis_Get c) (redis_Set c) (redis_Delete c)
    (Some (redis_config c))
    (Some (mkBatchOps (redis_GetMany c) (redis_SetMany c))).
End redis.

(** ** A responsive server

    Every command is answered, with the content [db] shows at some instant of
    the command, unless its context is done, canceled or past its deadline, by
    the time the command returns.  The error is then none of the package's, and
    a write has been executed or not.  The Duration -1
    is go-redis's KeepTTL and is no time to live. *)
Class RedisServer {S} (cl : RedisClient S) (db : S → string → Time → option bytes)
    : Prop := {
  rs_Get ctx k w :
    let r := run (rc_Get cl ctx k) w in
    ∃ t, w_time w <= t <= w_time r.2
    ∧ match r.1 with
      | Ok data => db (w_store w) k t = Some data
      | Err e =>
          if errors_Is e (rc_Nil cl) then db (w_store w) k t = None
          else is_Some (ctx_Err ctx r.2) ∧ IsMiss e = false
      end
    ∧ ∀ k' t', t <= t' → db (w_store r.2) k' t' = db (w_store w) k' t';
  rs_Set ctx k v d w : d ≠ -1 →
    let r := run (rc_Set cl ctx k v d) w in
    w_time w <= w_time r.2
    ∧ (∀ k', k' ≠ k → kept db k' w r.2)
    ∧ match r.1 with
      | None => server_set db k v d w r.2
      | Some _ => is_Some (ctx_Err ctx r.2) ∧ maybe_set db k v d w r.2
      end;
  rs_Del ctx k w :
    let r := run (rc_Del cl ctx k) w in
    let gone := ∀ t', w_time r.2 <= t' → db (w_store r.2) k t' = None in
    w_time w <= w_time r.2
    ∧ (∀ k', k' ≠ k → kept db k' w r.2)
    ∧ match r.1 with
      | None => gone
      | Some _ => is_Some (ctx_Err ctx r.2) ∧ (gone ∨ kept db k w r.2)
      end;
  rs_MGet ctx keys w :
    let r := run (rc_MGet cl ctx keys) w in
    w_time w <= w_time r.2
    ∧ (∀ k', kept db k' w r.2)
    ∧ match r.1 with
      | Ok vals => ∀ i k, keys !! i = Some k → ∃ t, w_time w <= t <= w_time r.2
          ∧ vec_to_list vals !! i = Some (db (w_store w) k t)
      | Err _ => is_Some (ctx_Err ctx r.2)
      end;
  rs_Exec ctx pipe w :
    NoDup (pipe.*1.*1) → Forall (λ cmd, cmd.2 ≠ -1) pipe →
    let r := run (rc_Exec cl ctx pipe) w in
    w_time w <= w_time r.2
    ∧ (∀ k', k' ∉ pipe.*1.*1 → kept db k' w r.2)
    ∧ match r.1 with
      | None => ∀ k v d, (k, v, d) ∈ pipe → server_set db k v d w r.2
      | Some _ => is_Some (ctx_Err ctx r.2)
          ∧ ∀ k v d, (k, v, d) ∈ pipe → maybe_set db k v d w r.2
      end
}.

(** ** Lemmas *)

Section facts.
Context {S T : Type}.
Implicit Types (c : RedisCache S T) (w : World S).

Lemma redis_key_inj c k k' : redis_key c k = redis_key c k' → k = k'.
Proof. apply (inj (String.append (r_prefix c))). Qed.

Lemma run_redis_ttlFor c ttl val w :
  ∃ e w', run (redis_ttlFor c ttl val) w = (e, w')
    ∧ w_time w' = w_time w ∧ w_store w' = w_store w ∧ w_trace w' = w_trace w
    ∧ resolved_ttl (redis_config c) val ttl e.
Proof. apply (run_resolve (redis_config c)). Qed.

(** Each operation, after its context is derived. *)
Lemma run_redis_Get c ctx key w :
  ∃ ctx' w0, w_time w <= w_time w0 ∧ w_store w0 = w_store w ∧ w_trace w0 = w_trace w
  ∧ op_context (r_opTimeout c) ctx w ctx'
  ∧ let r := run (rc_Get (r_client c) ctx' (redis_key c key)) w0 in
    run (redis_Get c ctx key) w =
    match r.1 with
    | Ok data => (Ok data, add_events (ev_if (OnHit (r_hooks c)) (EvHit key)) r.2)
    | Err e =>
        if errors_Is e (rc_Nil (r_client c))
        then (Err (Errorf "%w: %s" [AStr key] (Some ErrCacheMiss)),
              add_events (ev_if (OnMiss (r_hooks c)) (EvMiss key)) r.2)
        else (Err (Errorf "cachekit: get %q: %w" [AStr key] (Some e)),
              add_events (ev_if (OnError (r_hooks c)) (EvError OpGet key e)) r.2)
    end.
Proof.
  destruct (run_opContext ctx (r_opTimeout c) w) as (ctx' & w0 & Hop & Ht & Hs & Htr & Hoc).
  exists ctx', w0. split_and!; [done..|]. cbn zeta. unfold redis_Get. step. rewrite Hop.
  cbn [fst snd]. destruct (run (rc_Get _ _ _) w0) as [[data|e] w1]; cbn [fst snd]; step;
    [done|]. destruct (errors_Is _ _); by step.
Qed.

Lemma run_redis_Set c ctx key val ttl w :
  ∃ ctx' d w0, w_time w <= w_time w0 ∧ w_store w0 = w_store w ∧ w_trace w0 = w_trace w
  ∧ op_context (r_opTimeout c) ctx w ctx'
  ∧ resolved_ttl (redis_config c) val ttl d
  ∧ let r := run (rc_Set (r_client c) ctx' (redis_key c key) val d) w0 in
    run (redis_Set c ctx key val ttl) w =
    match r.1 with
    | None => (None, r.2)
    | Some e => (Some (Errorf "cachekit: set %q: %w" [AStr key] (Some e)),
                 add_events (ev_if (OnError (r_hooks c)) (EvError OpSet key e)) r.2)
    end.
Proof.
  destruct (run_opContext ctx (r_opTimeout c) w) as (ctx' & w1 & Hop & Ht1 & Hs1 & Htr1 & Hoc).
  destruct (run_redis_ttlFor c ttl val w1) as (d & w0 & Hd & Ht0 & Hs0 & Htr0 & Hr).
  exists ctx', d, w0. split_and!; [lia|congruence|congruence|done|done|]. cbn zeta.
  unfold redis_Set. step. rewrite Hop. cbn [fst snd]. step. rewrite Hd. cbn [fst snd]. step.
  destruct (run (rc_Set _ _ _ _ _) w0) as [[e|] w2]; cbn [fst snd]; by step.
Qed.

Lemma run_redis_Delete c ctx key w :
  ∃ ctx' w0, w_time w <= w_time w0 ∧ w_store w0 = w_store w ∧ w_trace w0 = w_trace w
  ∧ op_context (r_opTimeout c) ctx w ctx'
  ∧ let r := run (rc_Del (r_client c) ctx' (redis_key c key)) w0 in
    run (redis_Delete c ctx key) w =
    match r.1 with
    | None => (None, r.2)
    | Some e => (Some (Errorf "cachekit: delete %q: %w" [AStr key] (Some e)),
                 add_events (ev_if (OnError (r_hooks c)) (EvError OpDelete key e)) r.2)
    end.
Proof.
  destruct (run_opContext ctx (r_opTimeout c) w) as (ctx' & w0 & Hop & Ht & Hs & Htr & Hoc).
  exists ctx', w0. split_and!; [done..|]. cbn zeta. unfold redis_Delete. step. rewrite Hop.
  cbn [fst snd]. step. destruct (run (rc_Del _ _ _) w0) as [[e|] w2]; cbn [fst snd]; by step.
Qed.

(** The loop of GetMany collects the reply. *)
Lemma run_redis_collect c out l w :
  run (for_fold (redis_GetMany_step c) out l) w
  = (collect out l, add_events (l ≫= reply_event (r_hooks c)) w).
Proof.
  revert out w. induction l as [|[k o] l IH]; intros out w.
  { simpl. by rewrite add_events_nil. }
  rewrite run_for_fold_cons, collect_cons. unfold redis_GetMany_step. cbn [fst snd].
  destruct o as [s|]; step; rewrite IH, add_events_app; done.
Qed.

Lemma run_redis_GetMany c ctx keys w :
  keys ≠ [] →
  ∃ ctx' w0, w_time w <= w_time w0 ∧ w_store w0 = w_store w ∧ w_trace w0 = w_trace w
  ∧ op_context (r_opTimeout c) ctx w ctx'
  ∧ let r := run (rc_MGet (r_client c) ctx' (redis_key c <$> keys)) w0 in
    run (redis_GetMany c ctx keys) w =
    match r.1 with
    | Ok vals =>
        (Ok (collect ∅ (zip keys (vec_to_list vals))),
         add_events (zip keys (vec_to_list vals) ≫= reply_event (r_hooks c)) r.2)
    | Err e =>
        (Err (Errorf "cachekit: mget (%d keys): %w" [AInt (Z.of_nat (length keys))] (Some e)),
         add_events (if OnError (r_hooks c) then (λ k, EvError OpGet k e) <$> keys else []) r.2)
    end.
Proof.
  intros Hk.
  destruct (run_opContext ctx (r_opTimeout c) w) as (ctx' & w0 & Hop & Ht & Hs & Htr & Hoc).
  exists ctx', w0. split_and!; [done..|]. cbn zeta. unfold redis_GetMany.
  rewrite decide_False by done. step. rewrite Hop. cbn [fst snd]. step.
  destruct (run (rc_MGet _ _ _) w0) as [[vals|e] w2]; cbn [fst snd]; step.
  - by rewrite run_redis_collect.
  - by rewrite run_each_error.
Qed.

(** The queueing loop of SetMany: one SET per pair, with its resolved TTL. *)
Definition queued c (ttl : Duration) (kv : string * bytes) (cmd : string * bytes * Duration)
    : Prop :=
  cmd.1 = (redis_key c kv.1, kv.2) ∧ resolved_ttl (redis_config c) kv.2 ttl cmd.2.

Lemma run_redis_queue c ttl pipe l w :
  ∃ cmds w', run (for_fold (redis_SetMany_step c ttl) pipe l) w = (pipe ++ cmds, w')
    ∧ w_time w' = w_time w ∧ w_store w' = w_store w ∧ w_trace w' = w_trace w
    ∧ Forall2 (queued c ttl) l cmds.
Proof.
  revert pipe w. induction l as [|kv l IH]; intros pipe w.
  { exists [], w. by rewrite app_nil_r. }
  rewrite run_for_fold_cons. cbn [app].
  destruct (run_redis_ttlFor c ttl kv.2 w) as (d & w1 & Hd & Ht & Hs & Htr & Hr).
  assert (run (redis_SetMany_step c ttl pipe kv) w
    = (pipe ++ [(redis_key c kv.1, kv.2, d)], w1)) as ->
    by (unfold redis_SetMany_step; by rewrite run_bind, Hd).
  cbn [fst snd].
  destruct (IH (pipe ++ [(redis_key c kv.1, kv.2, d)]) w1)
    as (cmds & w2 & -> & Ht2 & Hs2 & Htr2 & Hf).
  exists ((redis_key c kv.1, kv.2, d) :: cmds), w2. rewrite <-(assoc_L (++)).
  split_and!; [done|congruence..|]. by constructor.
Qed.

Lemma run_redis_SetMany c ctx m ttl w :
  m ≠ ∅ →
  ∃ ctx' l cmds w0, w_time w <= w_time w0 ∧ w_store w0 = w_store w
  ∧ w_trace w0 = w_trace w ∧ op_context (r_opTimeout c) ctx w ctx'
  ∧ l ≡ₚ map_to_list m ∧ Forall2 (queued c ttl) l cmds
  ∧ let r := run (rc_Exec (r_client c) ctx' cmds) w0 in
    match r.1 with
    | None => run (redis_SetMany c ctx m ttl) w = (None, r.2)
    | Some e => ∃ w', run (redis_SetMany c ctx m ttl) w
        = (Some (Errorf "cachekit: mset (%d keys): %w" [AInt (Z.of_nat (size m))] (Some e)), w')
        ∧ w_store w' = w_store r.2 ∧ w_time w' = w_time r.2 ∧ w_canceled w' = w_canceled r.2
        ∧ ∃ ks, ks ≡ₚ (map_to_list m).*1 ∧ w_trace w' = w_trace r.2
            ++ (if OnError (r_hooks c) then (λ k, EvError OpSet k e) <$> ks else [])
    end.
Proof.
  intros Hm.
  destruct (run_opContext ctx (r_opTimeout c) w) as (ctx' & w1 & Hop & Ht1 & Hs1 & Htr1 & Hoc).
  destruct (range_map_spec m w1) as [Hp _].
  destruct (run_redis_queue c ttl [] (range_map m w1).1 (range_map m w1).2)
    as (cmds & w2 & Hq & Ht2 & Hs2 & Htr2 & Hf).
  exists ctx', (range_map m w1).1, cmds, w2.
  split_and!; [by rewrite Ht2|by rewrite Hs2|by rewrite Htr2|done|done|done|].
  cbn zeta. unfold redis_SetMany. rewrite decide_False by done. step. rewrite Hop.
  cbn [fst snd]. step. rewrite Hq. cbn [fst snd app]. step.
  destruct (run (rc_Exec _ _ _) w2) as [[e|] w3]; cbn [fst snd]; [|done].
  step. destruct (range_map_spec m w3) as [Hp3 _].
  destruct (range_map m w3) as [l3 w4] eqn:E3. cbn [fst snd] in *.
  assert (w_store w4 = w_store w3 ∧ w_trace w4 = w_trace w3 ∧ w_time w4 = w_time w3
    ∧ w_canceled w4 = w_canceled w3) as (Hs4 & Htr4 & Ht4 & Hc4)
    by (unfold range_map in E3; injection E3 as _ <-; done).
  assert (for_each (λ kv : string * bytes, hooks_error (r_hooks c) OpSet kv.1 e) l3
    = for_each (λ k, hooks_error (S := S) (r_hooks c) OpSet k e) l3.*1) as ->
    by (clear; induction l3 as [|kv l IH]; [done|]; cbn; by rewrite IH).
  rewrite run_each_error. eexists. split; [done|]. split_and!; [done..|].
  exists l3.*1. split; [by rewrite Hp3|]. cbn. by rewrite Htr4.
Qed.
End facts.

(** ** RedisCache keeps the contract of the interface *)

(** What a reader of the cache sees of the server. *)
Definition redis_view {S T} (c : RedisCache S T) (db : S → string → Time → option bytes)
    (s : S) (k : string) : Time → option bytes := db s (redis_key c k).

(** No write is resolved to KeepTTL. *)
Class NoKeepTTL {S T} (c : RedisCache S T) : Prop :=
  no_keep_ttl v ttl d : resolved_ttl (redis_config c) v ttl d → d ≠ -1.

Lemma no_keep_ttl_plain {S T} (c : RedisCache S T) :
  0 <= r_defaultTTL c → fle (r_ttlJitter c) fzero = true → NoKeepTTL c.
Proof.
  intros Hd Hj v ttl d Hr. apply resolved_ttl_base in Hr as ->; [|by right].
  unfold base_ttl. cbn. destruct (Z.leb_spec ttl 0); lia.
Qed.

Section refinement.
Context {S T : Type} (c : RedisCache S T) (db : S → string → Time → option bytes).
Context `{!RedisServer (r_client c) db} `{!NoKeepTTL c}.
Implicit Types w : World S.
Abbreviation view := (redis_view c db).
Abbreviation lifetime := (server_lifetime (redis_config c)).

Abbreviation d_op := (r_opTimeout c).

Lemma redis_spec_Get ctx k w :
  let w' := (run (redis_Get c ctx k) w).2 in
  ∃ t, w_time w <= t <= w_time w'
  ∧ match (run (redis_Get c ctx k) w).1 with
    | Ok data => view (w_store w) k t = Some data
    | Err e => if IsMiss e then view (w_store w) k t = None else op_done d_op ctx w w'
    end
  ∧ ∀ k' t', t <= t' → view (w_store w') k' t' = view (w_store w) k' t'.
Proof.
  cbn zeta. destruct (run_redis_Get c ctx k w) as (ctx' & w0 & Ht0 & Hs0 & _ & Hoc & ->).
  destruct (rs_Get ctx' (redis_key c k) w0) as (t & Ht & Hr & Hf). cbn zeta in *.
  unfold redis_view. rewrite Hs0 in *. exists t.
  destruct (run (rc_Get _ _ _) w0) as [[data|e] w1]; cbn [fst snd] in *;
    [|destruct (errors_Is e (rc_Nil _))]; cbn [fst snd add_events w_time w_store];
    (split; [lia|split; [|intros k' t'; apply Hf]]).
  - done.
  - done.
  - destruct Hr as [Hd Hm]. rewrite (IsMiss_wrap _ _ e), Hm by done.
    by apply (op_context_done _ _ ctx').
Qed.

Lemma redis_spec_Set ctx k v ttl w :
  let w' := (run (redis_Set c ctx k v ttl) w).2 in
  w_time w <= w_time w'
  ∧ (∀ k', k' ≠ k → kept view k' w w')
  ∧ match (run (redis_Set c ctx k v ttl) w).1 with
    | None => written view lifetime k v ttl w w'
    | Some _ => op_done d_op ctx w w' ∧ (written view lifetime k v ttl w w' ∨ kept view k w w')
    end.
Proof.
  cbn zeta.
  destruct (run_redis_Set c ctx k v ttl w) as (ctx' & d & w0 & Ht0 & Hs0 & _ & Hoc & Hd & ->).
  destruct (rs_Set ctx' (redis_key c k) v d w0 (no_keep_ttl _ _ _ Hd)) as (Ht & Hf & Hr).
  cbn zeta in *. unfold kept, redis_view in *. rewrite Hs0 in *.
  assert (∀ w', w_time w0 <= w_time w' → server_set db (redis_key c k) v d w0 w' →
    written view lifetime k v ttl w w') as Hwr.
  { intros w' Hle Hs. eapply written_later; [exact Ht0|reflexivity|done|].
    by eapply server_set_written. }
  destruct (run (rc_Set _ _ _ _ _) w0) as [[e|] w1]; cbn [fst snd] in *;
    (split; [cbn; lia|split; [intros k' Hk; apply Hf; by intros ?%redis_key_inj|]]).
  - destruct Hr as [Hdone Hm]. split; [by apply (op_context_done _ _ ctx')|].
    destruct Hm as [Hm|Hm]; [left; by apply (Hwr w1)|right]. unfold kept in Hm.
    by rewrite Hs0 in Hm.
  - by apply Hwr.
Qed.

Lemma redis_spec_Delete ctx k w :
  let w' := (run (redis_Delete c ctx k) w).2 in
  let gone := ∀ t', w_time w' <= t' → view (w_store w') k t' = None in
  w_time w <= w_time w'
  ∧ (∀ k', k' ≠ k → kept view k' w w')
  ∧ match (run (redis_Delete c ctx k) w).1 with
    | None => gone
    | Some _ => op_done d_op ctx w w' ∧ (gone ∨ kept view k w w')
    end.
Proof.
  cbn zeta. destruct (run_redis_Delete c ctx k w) as (ctx' & w0 & Ht0 & Hs0 & _ & Hoc & ->).
  destruct (rs_Del ctx' (redis_key c k) w0) as (Ht & Hf & Hr).
  cbn zeta in *. unfold kept, redis_view in *. rewrite Hs0 in *.
  destruct (run (rc_Del _ _ _) w0) as [[e|] w1]; cbn [fst snd] in *;
    (split; [cbn; lia|split; [intros k' Hk; apply Hf; by intros ?%redis_key_inj|]]).
  - destruct Hr as [Hdone Hr]. by split; [apply (op_context_done _ _ ctx')|].
  - done.
Qed.

Lemma redis_spec_GetMany ctx keys w :
  let w' := (run (redis_GetMany c ctx keys) w).2 in
  w_time w <= w_time w'
  ∧ (∀ k', kept view k' w w')
  ∧ match (run (redis_GetMany c ctx keys) w).1 with
    | Ok out =>
        (∀ k, k ∉ keys → out !! k = None)
        ∧ ∀ k, k ∈ keys → ∃ t, w_time w <= t <= w_time w' ∧ out !! k = view (w_store w) k t
    | Err _ => op_done d_op ctx w w'
    end.
Proof.
  cbn zeta. destruct (decide (keys = [])) as [->|Hk].
  { cbn. split; [done|split; [done|split; [done|]]]. intros k Hk. by apply not_elem_of_nil in Hk. }
  destruct (run_redis_GetMany c ctx keys w Hk) as (ctx' & w0 & Ht0 & Hs0 & _ & Hoc & ->).
  destruct (rs_MGet ctx' (redis_key c <$> keys) w0) as (Ht & Hf & Hr). cbn zeta in *.
  unfold kept, redis_view in *. rewrite Hs0 in *.
  destruct (run (rc_MGet _ _ _) w0) as [[vals|e] w1]; cbn [fst snd] in *;
    (split; [cbn; lia|split; [intros k'; apply Hf|]]); [|by apply (op_context_done _ _ ctx')].
  set (l := zip keys (vec_to_list vals)).
  assert (∀ i k, keys !! i = Some k → ∃ t, w_time w <= t <= w_time w1
    ∧ vec_to_list vals !! i = Some (db (w_store w) (redis_key c k) t)) as Hv.
  { intros i k Hi. destruct (Hr i (redis_key c k)) as (t & ? & ?);
      [by rewrite list_lookup_fmap, Hi|]. exists t. split; [lia|done]. }
  cbn [w_time add_events]. clear Hr Hf. split.
  - intros k Hnin. destruct (collect ∅ l !! k) as [v|] eqn:E; [|done].
    apply collect_Some in E as [E|E]; [done|].
    apply elem_of_zip_lookup in E as (i & Hi & _). by apply list_elem_of_lookup_2 in Hi.
  - intros k [i Hi]%list_elem_of_lookup.
    destruct (collect ∅ l !! k) as [v|] eqn:E.
    + apply collect_Some in E as [E|(j & Hj & Ho)%elem_of_zip_lookup]; [done|].
      destruct (Hv j k Hj) as (t & ? & ?). exists t. split; [done|congruence].
    + apply collect_None in E as [_ E]. destruct (Hv i k Hi) as (t & Htt & Hi').
      pose proof (zip_lookup_elem _ _ _ _ _ Hi Hi') as Hin. fold l in Hin.
      exists t. split; [done|]. by rewrite (E _ Hin).
Qed.

Lemma queued_keys ttl l cmds :
  Forall2 (queued c ttl) l cmds → cmds.*1.*1 = redis_key c <$> l.*1.
Proof. induction 1 as [|kv cmd l cmds [H _] _ IH]; [done|]. cbn. by rewrite H, IH. Qed.

Lemma queued_NoDup m ttl l cmds :
  l ≡ₚ map_to_list m → Forall2 (queued c ttl) l cmds → NoDup (cmds.*1.*1).
Proof.
  intros Hp Hq. rewrite (queued_keys _ _ _ Hq), Hp.
  apply NoDup_fmap_2; [|apply NoDup_fst_map_to_list]. intros ?? ?%redis_key_inj. done.
Qed.

Lemma queued_no_keep ttl l cmds :
  Forall2 (queued c ttl) l cmds → Forall (λ cmd, cmd.2 ≠ -1) cmds.
Proof.
  intros Hq. apply Forall_forall. intros cmd [i Hi]%list_elem_of_lookup.
  destruct (Forall2_lookup_r _ _ _ _ _ Hq Hi) as (kv & _ & _ & Hd). by eapply no_keep_ttl.
Qed.

Lemma queued_other m ttl l cmds k :
  l ≡ₚ map_to_list m → Forall2 (queued c ttl) l cmds → m !! k = None →
  redis_key c k ∉ cmds.*1.*1.
Proof.
  intros Hp Hq Hk. rewrite (queued_keys _ _ _ Hq).
  intros (k' & ?%redis_key_inj & Hin)%list_elem_of_fmap. subst k'.
  rewrite Hp in Hin. apply list_elem_of_fmap in Hin as ([k' v] & -> & Hin).
  apply elem_of_map_to_list in Hin. cbn in Hk. congruence.
Qed.

Lemma queued_cmd m ttl l cmds k v :
  l ≡ₚ map_to_list m → Forall2 (queued c ttl) l cmds → m !! k = Some v →
  ∃ d, (redis_key c k, v, d) ∈ cmds ∧ resolved_ttl (redis_config c) v ttl d.
Proof.
  intros Hp Hq Hk. apply elem_of_map_to_list in Hk. rewrite <-Hp in Hk.
  apply list_elem_of_lookup in Hk as [i Hi].
  destruct (Forall2_lookup_l _ _ _ _ _ Hq Hi) as ([kv d] & Hi' & H1 & Hd).
  cbn [fst snd] in *. subst kv. exists d. by apply list_elem_of_lookup_2 in Hi'.
Qed.

Lemma redis_spec_SetMany ctx m ttl w :
  let w' := (run (redis_SetMany c ctx m ttl) w).2 in
  let all (P : string → bytes → Prop) := ∀ k v, m !! k = Some v → P k v in
  w_time w <= w_time w'
  ∧ (∀ k, m !! k = None → kept view k w w')
  ∧ match (run (redis_SetMany c ctx m ttl) w).1 with
    | None => all (λ k v, written view lifetime k v ttl w w')
    | Some _ => op_done d_op ctx w w'
        ∧ all (λ k v, written view lifetime k v ttl w w' ∨ kept view k w w')
    end.
Proof.
  cbn zeta. destruct (decide (m = ∅)) as [->|Hm].
  { unfold redis_SetMany. rewrite decide_True by done. rewrite run_ret. cbn [fst snd].
    split; [done|split; [done|]]. intros k v Hk. by rewrite lookup_empty in Hk. }
  destruct (run_redis_SetMany c ctx m ttl w Hm)
    as (ctx' & l & cmds & w0 & Ht0 & Hs0 & _ & Hoc & Hp & Hq & H).
  destruct (rs_Exec ctx' cmds w0) as (Ht & Hf & Hr).
  { by eapply queued_NoDup. }
  { by eapply queued_no_keep. }
  cbn zeta in *. set (r := run (rc_Exec _ _ _) w0) in *.
  assert (∀ k, m !! k = None → kept view k w r.2) as Hother.
  { intros k Hk t' Ht'. unfold redis_view. rewrite <-Hs0. apply Hf; [|done].
    by eapply queued_other. }
  assert (∀ k v, m !! k = Some v → ∃ d, (redis_key c k, v, d) ∈ cmds
    ∧ resolved_ttl (redis_config c) v ttl d) as Hcmd by (intros k v; by eapply queued_cmd).
  destruct r as [[e|] w1]; cbn [fst snd] in *.
  - destruct H as (w2 & -> & Hs2 & Ht2 & Hc2 & _). cbn [fst snd]. destruct Hr as [Hdone Hr].
    unfold kept in *. rewrite Hs2, Ht2. split; [lia|split; [done|split]].
    + apply Hoc. by rewrite (ctx_Err_same _ w1).
    + intros k v Hk. destruct (Hcmd k v Hk) as (d & Hin & Hd).
      destruct (Hr _ _ _ Hin) as [Hs|Hs]; [left|right].
      * eapply written_later; [exact Ht0| | |by eapply server_set_written];
          [by rewrite Ht2|by rewrite Hs2].
      * intros t' Ht'. unfold redis_view. rewrite <-Hs0. by apply Hs.
  - rewrite H. cbn [fst snd]. split; [lia|split; [done|]]. intros k v Hk.
    destruct (Hcmd k v Hk) as (d & Hin & Hd).
    eapply written_later; [exact Ht0|reflexivity|done|].
    eapply server_set_written; [done|]. by apply Hr.
Qed.

#[export] Instance RedisCache_spec :
  BoundedBackendSpec (RedisCache_Cache c) view lifetime (r_opTimeout c).
Proof.
  split; [split|].
  - apply redis_spec_Get.
  - apply redis_spec_Set.
  - apply redis_spec_Delete.
  - apply server_lifetime_bounds.
  - intros bc [= <-]. split; [apply redis_spec_GetMany|apply redis_spec_SetMany].
Qed.
End refinement.
