(* ===== verification/Valkey.v ===== *)
(** * ValkeyCache (valkey.go)

    The backend on valkey-go.  The client is code outside the repository: the
    commands the package builds are the data type [Command], what it observes
    of a reply is [ValkeyResult], and the client's methods are the record
    [ValkeyClient], an argument of the model.  DoMulti and DoMultiCache reply
    one result per command, as valkey-go documents.  What theorems rely on is
    the class [ValkeyServer]. *)
From stdpp Require Import vector.
From S2P Require Import Prelude Int64 Float64 Errors Runtime Envelope Hooks Codec.
From S2P Require Import Options Cache Server.
From Stdlib Require Import ZArith Lia.
Local Open Scope Z_scope.

(** ** Definitions *)

(** What the package builds with [client.B()]; the Duration of a SET is that
    of Px. *)
Inductive Command :=
| CmdGet (key : string)
| CmdSet (key : string) (val : bytes) (px : option Duration)
| CmdDel (key : string)
| CmdPing.

(** The two methods of valkey.ValkeyResult that the package calls. *)
Record ValkeyResult := mkResult {
  AsBytes : result bytes;
  Error : option error
}.

(** The methods of valkey.Client, and valkey.IsValkeyNil. *)
Record ValkeyClient (S : Type) := mkValkeyClient {
  IsValkeyNil : error → bool;
  vc_Do : Context → Command → act S ValkeyResult;
  vc_DoCache : Context → Command → Duration → act S ValkeyResult;
  vc_DoMulti : ∀ (ctx : Context) (cmds : list Command),
    act S (vec ValkeyResult (length cmds));
  vc_DoMultiCache : ∀ (ctx : Context) (cmds : list (Command * Duration)),
    act S (vec ValkeyResult (length cmds));
  vc_Close : act S ()
}.
Arguments mkValkeyClient {S}. Arguments IsValkeyNil {S}. Arguments vc_Do {S}.
Arguments vc_DoCache {S}. Arguments vc_DoMulti {S}. Arguments vc_DoMultiCache {S}.
Arguments vc_Close {S}.

Record ValkeyCache (S T : Type) := mkValkey {
  v_addr : N;          (* the pointer *)
  v_client : ValkeyClient S;
  v_prefix : string;
  v_defaultTTL : Duration;
  v_codec : option (Codec T);
  v_clientCacheTTL : Duration;
  v_hooks : Hooks;
  v_ttlJitter : float64;
  v_negativeTTL : Duration;
  v_opTimeout : Duration;
  v_staleTTL : Duration;
  v_earlyBeta : float64;
  v_ownsClient : bool
}.
Arguments mkValkey {S T}.
Arguments v_addr {S T}. Arguments v_client {S T}. Arguments v_prefix {S T}.
Arguments v_defaultTTL {S T}. Arguments v_codec {S T}. Arguments v_clientCacheTTL {S T}.
Arguments v_hooks {S T}. Arguments v_ttlJitter {S T}. Arguments v_negativeTTL {S T}.
Arguments v_opTimeout {S T}. Arguments v_staleTTL {S T}. Arguments v_earlyBeta {S T}.
Arguments v_ownsClient {S T}.

(** The argument of [valkey.NewClient]. *)
Record ClientOption := mkClientOption {
  InitAddress : list string;
  co_Username : string;
  co_Password : string;
  SelectDB : Z;
  DisableCache : bool
}.

Section valkey.
Context {S T : Type}.
Implicit Types (c : ValkeyCache S T) (w : World S).

(** [newValkeyFromClient], for the address the allocation returns. *)
Definition newValkeyFromClient (addr : N) (client : ValkeyClient S) (o : Options T)
    : ValkeyCache S T :=
  mkValkey addr client (Prefix o) (DefaultTTL o) (OptCodec o) (ClientSideCacheTTL o)
    (OptHooks o) (TTLJitter o) (NegativeTTL o) (OpTimeout o) (StaleTTL o)
    (EarlyRefreshBeta o) false.

(** [NewValkey]; [NewClient] is valkey.NewClient. *)
Definition NewValkey `{JSON T} (NewClient : ClientOption → result (ValkeyClient S))
    (addr : N) (opts : list (Option T)) : result (ValkeyCache S T) :=
  let o := buildOptions opts in
  match NewClient (mkClientOption [Addr o] (Username o) (Password o) (DB o)
                     (ClientSideCacheTTL o <=? 0)) with
  | Err err => Err (Errorf "cachekit: connect %q: %w" [AStr (Addr o)] (Some err))
  | Ok client =>
      let c := newValkeyFromClient addr client o in
      Ok (mkValkey (v_addr c) (v_client c) (v_prefix c) (v_defaultTTL c) (v_codec c)
            (v_clientCacheTTL c) (v_hooks c) (v_ttlJitter c) (v_negativeTTL c)
            (v_opTimeout c) (v_staleTTL c) (v_earlyBeta c) true)
  end.

Definition NewValkeyWithClient `{JSON T} (addr : N) (client : ValkeyClient S)
    (opts : list (Option T)) : ValkeyCache S T :=
  newValkeyFromClient addr client (buildOptions opts).

Definition valkey_config c : cacheConfig :=
  mkConfig (v_hooks c) (v_negativeTTL c) (v_defaultTTL c) (v_staleTTL c)
    (v_earlyBeta c) (v_ttlJitter c).

Definition valkey_ttlFor c (ttl : Duration) (val : bytes) : act S Duration :=
  let ttl := if ttl <=? 0 then v_defaultTTL c else ttl in
  ttl ← (if negb (hasEnvelope val) then applyJitter ttl (v_ttlJitter c) else mret ttl);
  mret (if (0 <? ttl) && (ttl <? Millisecond) then Millisecond else ttl).

Definition valkey_key c (k : string) : string := v_prefix c +:+ k.

Definition setCmd c (key : string) (val : bytes) (ttl : Duration) : act S Command :=
  ttl ← valkey_ttlFor c ttl val;
  mret (CmdSet (valkey_key c key) val (if 0 <? ttl then Some ttl else None)).

Definition valkey_Get c (ctx : Context) (key : string) : act S (result bytes) :=
  ctx ← opContext ctx (v_opTimeout c);
  res ← (if 0 <? v_clientCacheTTL c
         then vc_DoCache (v_client c) ctx (CmdGet (valkey_key c key)) (v_clientCacheTTL c)
         else vc_Do (v_client c) ctx (CmdGet (valkey_key c key)));
  match AsBytes res with
  | Err err =>
      if IsValkeyNil (v_client c) err then
        hooks_miss (v_hooks c) key;;
        mret (Err (Errorf "%w: %s" [AStr key] (Some ErrCacheMiss)))
      else
        hooks_error (v_hooks c) OpGet key err;;
        mret (Err (Errorf "cachekit: get %q: %w" [AStr key] (Some err)))
  | Ok data =>
      hooks_hit (v_hooks c) key;;
      mret (Ok data)
  end.

Definition valkey_Set c (ctx : Context) (key : string) (val : bytes) (ttl : Duration)
    : act S (option error) :=
  ctx ← opContext ctx (v_opTimeout c);
  cmd ← setCmd c key val ttl;
  res ← vc_Do (v_client c) ctx cmd;
  match Error res with
  | Some err =>
      hooks_error (v_hooks c) OpSet key err;;
      mret (Some (Errorf "cachekit: set %q: %w" [AStr key] (Some err)))
  | None => mret None
  end.

Definition valkey_Delete c (ctx : Context) (key : string) : act S (option error) :=
  ctx ← opContext ctx (v_opTimeout c);
  res ← vc_Do (v_client c) ctx (CmdDel (valkey_key c key));
  match Error res with
  | Some err =>
      hooks_error (v_hooks c) OpDelete key err;;
      mret (Some (Errorf "cachekit: delete %q: %w" [AStr key] (Some err)))
  | None => mret None
  end.

Definition valkey_Codec c : option (Codec T) := v_codec c.

Definition valkey_Ping c (ctx : Context) : act S (option error) :=
  ctx ← opContext ctx (v_opTimeout c);
  res ← vc_Do (v_client c) ctx CmdPing;
  match Error res with
  | Some err => mret (Some (Errorf "cachekit: ping: %w" [] (Some err)))
  | None => mret None
  end.

(** One pass of the loop over the results of GetMany: the map so far and the
    first error. *)
Definition valkey_GetMany_step c (acc : gmap string bytes * option error)
    (kr : string * ValkeyResult) : act S (gmap string bytes * option error) :=
  let '(out, firstErr) := acc in
  match AsBytes kr.2 with
  | Err err =>
      if IsValkeyNil (v_client c) err then
        hooks_miss (v_hooks c) kr.1;; mret (out, firstErr)
      else
        hooks_error (v_hooks c) OpGet kr.1 err;;
        mret (out, match firstErr with
                   | None => Some (Errorf "cachekit: get %q: %w" [AStr kr.1] (Some err))
                   | Some e => Some e
                   end)
  | Ok data => hooks_hit (v_hooks c) kr.1;; mret (<[kr.1 := data]> out, firstErr)
  end.

Definition valkey_GetMany c (ctx : Context) (keys : list string)
    : act S (result (gmap string bytes)) :=
  if decide (keys = []) then mret (Ok ∅)
  else
    ctx ← opContext ctx (v_opTimeout c);
    results ←
      (if 0 <? v_clientCacheTTL c then
         rs ← vc_DoMultiCache (v_client c) ctx
                ((λ k, (CmdGet (valkey_key c k), v_clientCacheTTL c)) <$> keys);
         mret (vec_to_list rs)
       else
         rs ← vc_DoMulti (v_client c) ctx ((λ k, CmdGet (valkey_key c k)) <$> keys);
         mret (vec_to_list rs));
    '(out, firstErr) ← for_fold (valkey_GetMany_step c) (∅, None) (zip keys results);
    match firstErr with
    | Some e => mret (Err e)
    | None => mret (Ok out)
    end.

(** One pass of the loop that builds the SETs: [ks] and [cmds]. *)
Definition valkey_build_step c (ttl : Duration) (acc : list string * list Command)
    (kv : string * bytes) : act S (list string * list Command) :=
  cmd ← setCmd c kv.1 kv.2 ttl;
  mret (acc.1 ++ [kv.1], acc.2 ++ [cmd]).

(** One pass of the loop over the results of SetMany: the first error. *)
Definition valkey_SetMany_step c (firstErr : option error) (kr : string * ValkeyResult)
    : act S (option error) :=
  match Error kr.2 with
  | Some err =>
      hooks_error (v_hooks c) OpSet kr.1 err;;
      mret (match firstErr with
            | None => Some (Errorf "cachekit: set %q: %w" [AStr kr.1] (Some err))
            | Some e => Some e
            end)
  | None => mret firstErr
  end.

Definition valkey_SetMany c (ctx : Context) (m : gmap string bytes) (ttl : Duration)
    : act S (option error) :=
  if decide (m = ∅) then mret None
  else
    ctx ← opContext ctx (v_opTimeout c);
    l ← range m;
    '(ks, cmds) ← for_fold (valkey_build_step c ttl) ([], []) l;
    results ← vc_DoMulti (v_client c) ctx cmds;
    for_fold (valkey_SetMany_step c) None (zip ks (vec_to_list results)).

Definition valkey_Close c : act S (option error) :=
  (if v_ownsClient c then vc_Close (v_client c) else mret ());;
  mret None.

(** The cache as an interface value. *)
Definition ValkeyCache_Cache c : Cache S :=
  mkCache (v_addr c) (valkey_Get c) (valkey_Set c) (valkey_Delete c)
    (Some (valkey_config c))
    (Some (mkBatchOps (valkey_GetMany c) (valkey_SetMany c))).
End valkey.

(** ** A responsive server, read without the client-side cache

    Every command is answered, with the content [db] shows at some instant of
    the command, unless its context is done, canceled or past its deadline, by
    the time the command returns.  The error is then none of the package's, and
    a write has been executed or not.  The server accepts PX arguments of at
    least one millisecond. *)
Definition px_ok (o : option Duration) : Prop := ∀ d, o = Some d → Millisecond <= d.

Definition get_reply {S} (cl : ValkeyClient S) (v : option bytes) (r : ValkeyResult) : Prop :=
  match v with
  | Some data => AsBytes r = Ok data
  | None => ∃ e, AsBytes r = Err e ∧ IsValkeyNil cl e = true
  end.

(** A reply that is neither a value nor nil. *)
Definition get_failed {S} (cl : ValkeyClient S) (r : ValkeyResult) : Prop :=
  ∃ e, AsBytes r = Err e ∧ IsValkeyNil cl e = false ∧ IsMiss e = false.

Class ValkeyServer {S} (cl : ValkeyClient S) (db : S → string → Time → option bytes)
    : Prop := {
  vs_Get ctx k w :
    let r := run (vc_Do cl ctx (CmdGet k)) w in
    ∃ t, w_time w <= t <= w_time r.2
    ∧ (get_reply cl (db (w_store w) k t) r.1
       ∨ is_Some (ctx_Err ctx r.2) ∧ get_failed cl r.1)
    ∧ ∀ k' t', t <= t' → db (w_store r.2) k' t' = db (w_store w) k' t';
  vs_Set ctx k v o w : px_ok o →
    let r := run (vc_Do cl ctx (CmdSet k v o)) w in
    w_time w <= w_time r.2
    ∧ (∀ k', k' ≠ k → kept db k' w r.2)
    ∧ match Error r.1 with
      | None => server_set db k v (default 0 o) w r.2
      | Some _ => is_Some (ctx_Err ctx r.2) ∧ maybe_set db k v (default 0 o) w r.2
      end;
  vs_Del ctx k w :
    let r := run (vc_Do cl ctx (CmdDel k)) w in
    let gone := ∀ t', w_time r.2 <= t' → db (w_store r.2) k t' = None in
    w_time w <= w_time r.2
    ∧ (∀ k', k' ≠ k → kept db k' w r.2)
    ∧ match Error r.1 with
      | None => gone
      | Some _ => is_Some (ctx_Err ctx r.2) ∧ (gone ∨ kept db k w r.2)
      end;
  vs_MultiGet ctx keys w :
    let r := run (vc_DoMulti cl ctx (CmdGet <$> keys)) w in
    w_time w <= w_time r.2
    ∧ (∀ k', kept db k' w r.2)
    ∧ ∀ i k, keys !! i = Some k → ∃ t res, w_time w <= t <= w_time r.2
        ∧ vec_to_list r.1 !! i = Some res
        ∧ (get_reply cl (db (w_store w) k t) res
           ∨ is_Some (ctx_Err ctx r.2) ∧ get_failed cl res);
  vs_MultiSet ctx (sets : list (string * bytes * option Duration)) w :
    NoDup (sets.*1.*1) → Forall (λ s, px_ok s.2) sets →
    let r := run (vc_DoMulti cl ctx ((λ s, CmdSet s.1.1 s.1.2 s.2) <$> sets)) w in
    w_time w <= w_time r.2
    ∧ (∀ k', k' ∉ sets.*1.*1 → kept db k' w r.2)
    ∧ ∀ i k v o, sets !! i = Some (k, v, o) →
        ∃ res, vec_to_list r.1 !! i = Some res
        ∧ match Error res with
          | None => server_set db k v (default 0 o) w r.2
          | Some _ => is_Some (ctx_Err ctx r.2) ∧ maybe_set db k v (default 0 o) w r.2
          end
}.

(** ** Lemmas *)

Section facts.
Context {S T : Type}.
Implicit Types (c : ValkeyCache S T) (w : World S).

Lemma valkey_key_inj c k k' : valkey_key c k = valkey_key c k' → k = k'.
Proof. apply (inj (String.append (v_prefix c))). Qed.

Lemma run_valkey_ttlFor c ttl val w :
  ∃ d w', run (valkey_ttlFor c ttl val) w
      = (if (0 <? d) && (d <? Millisecond) then Millisecond else d, w')
    ∧ w_time w' = w_time w ∧ w_store w' = w_store w ∧ w_trace w' = w_trace w
    ∧ resolved_ttl (valkey_config c) val ttl d.
Proof.
  destruct (run_resolve (valkey_config c) val ttl w) as (d & w' & Hrun & H).
  exists d, w'. split; [|done]. unfold valkey_ttlFor. step.
  assert (run (if negb (hasEnvelope val) then applyJitter (if ttl <=? 0 then v_defaultTTL c
    else ttl) (v_ttlJitter c) else mret (if ttl <=? 0 then v_defaultTTL c else ttl)) w
    = (d, w')) as -> by (by rewrite <-Hrun; destruct (hasEnvelope val)).
  done.
Qed.

(** The option of a SET that stands for the resolved TTL [d]. *)
Definition px_option (o : option Duration) (d : Duration) : Prop :=
  px_ok o ∧ px (default 0 o) = px d.

Lemma run_setCmd c key val ttl w :
  ∃ o d w', run (setCmd c key val ttl) w = (CmdSet (valkey_key c key) val o, w')
    ∧ w_time w' = w_time w ∧ w_store w' = w_store w ∧ w_trace w' = w_trace w
    ∧ resolved_ttl (valkey_config c) val ttl d ∧ px_option o d.
Proof.
  destruct (run_valkey_ttlFor c ttl val w) as (d & w' & Hrun & Ht & Hs & Htr & Hd).
  unfold setCmd. step. rewrite Hrun. cbn [fst snd].
  eexists _, d, w'. split_and!; [done..|]. unfold px_option. rewrite <-(px_floor d).
  set (d' := if _ && _ then _ else d).
  assert (d' <= 0 ∨ Millisecond <= d') as Hd'.
  { subst d'. unfold Millisecond. destruct (Z.ltb_spec 0 d), (Z.ltb_spec d 1000000);
      simpl; lia. }
  clearbody d'. destruct (Z.ltb_spec 0 d'); split; simpl; try done.
  - intros ? [= <-]. lia.
  - unfold px. by rewrite (proj2 (Z.leb_le d' 0)).
Qed.

(** Get, for any client: the reply decides the branch. *)
Definition get_of c (ctx : Context) (key : string) : act S ValkeyResult :=
  if 0 <? v_clientCacheTTL c
  then vc_DoCache (v_client c) ctx (CmdGet (valkey_key c key)) (v_clientCacheTTL c)
  else vc_Do (v_client c) ctx (CmdGet (valkey_key c key)).

Lemma run_valkey_Get c ctx key w :
  ∃ ctx' w0, w_time w <= w_time w0 ∧ w_store w0 = w_store w ∧ w_trace w0 = w_trace w
  ∧ op_context (v_opTimeout c) ctx w ctx'
  ∧ let r := run (get_of c ctx' key) w0 in
    run (valkey_Get c ctx key) w =
    match AsBytes r.1 with
    | Ok data => (Ok data, add_events (ev_if (OnHit (v_hooks c)) (EvHit key)) r.2)
    | Err e =>
        if IsValkeyNil (v_client c) e
        then (Err (Errorf "%w: %s" [AStr key] (Some ErrCacheMiss)),
              add_events (ev_if (OnMiss (v_hooks c)) (EvMiss key)) r.2)
        else (Err (Errorf "cachekit: get %q: %w" [AStr key] (Some e)),
              add_events (ev_if (OnError (v_hooks c)) (EvError OpGet key e)) r.2)
    end.
Proof.
  destruct (run_opContext ctx (v_opTimeout c) w) as (ctx' & w0 & Hop & Ht & Hs & Htr & Hoc).
  exists ctx', w0. split_and!; [done..|]. cbn zeta. unfold valkey_Get. step. rewrite Hop.
  cbn [fst snd]. step. fold (get_of c ctx' key).
  destruct (run (get_of c ctx' key) w0) as [res w1]. cbn [fst snd].
  destruct (AsBytes res) as [data|e]; step; [done|]. destruct (IsValkeyNil _ _); by step.
Qed.

Lemma run_valkey_Set c ctx key val ttl w :
  ∃ ctx' o d w0, w_time w <= w_time w0 ∧ w_store w0 = w_store w ∧ w_trace w0 = w_trace w
  ∧ op_context (v_opTimeout c) ctx w ctx'
  ∧ resolved_ttl (valkey_config c) val ttl d ∧ px_option o d
  ∧ let r := run (vc_Do (v_client c) ctx' (CmdSet (valkey_key c key) val o)) w0 in
    run (valkey_Set c ctx key val ttl) w =
    match Error r.1 with
    | None => (None, r.2)
    | Some e => (Some (Errorf "cachekit: set %q: %w" [AStr key] (Some e)),
                 add_events (ev_if (OnError (v_hooks c)) (EvError OpSet key e)) r.2)
    end.
Proof.
  destruct (run_opContext ctx (v_opTimeout c) w) as (ctx' & w1 & Hop & Ht1 & Hs1 & Htr1 & Hoc).
  destruct (run_setCmd c key val ttl w1) as (o & d & w0 & Hd & Ht0 & Hs0 & Htr0 & Hr & Hpx).
  exists ctx', o, d, w0. split_and!; [lia|congruence|congruence|done..|]. cbn zeta.
  unfold valkey_Set. step. rewrite Hop. cbn [fst snd]. step. rewrite Hd. cbn [fst snd]. step.
  destruct (run (vc_Do _ _ _) w0) as [res w2]. cbn [fst snd].
  destruct (Error res) as [e|]; by step.
Qed.

Lemma run_valkey_Delete c ctx key w :
  ∃ ctx' w0, w_time w <= w_time w0 ∧ w_store w0 = w_store w ∧ w_trace w0 = w_trace w
  ∧ op_context (v_opTimeout c) ctx w ctx'
  ∧ let r := run (vc_Do (v_client c) ctx' (CmdDel (valkey_key c key))) w0 in
    run (valkey_Delete c ctx key) w =
    match Error r.1 with
    | None => (None, r.2)
    | Some e => (Some (Errorf "cachekit: delete %q: %w" [AStr key] (Some e)),
                 add_events (ev_if (OnError (v_hooks c)) (EvError OpDelete key e)) r.2)
    end.
Proof.
  destruct (run_opContext ctx (v_opTimeout c) w) as (ctx' & w0 & Hop & Ht & Hs & Htr & Hoc).
  exists ctx', w0. split_and!; [done..|]. cbn zeta. unfold valkey_Delete. step. rewrite Hop.
  cbn [fst snd]. step. destruct (run (vc_Do _ _ _) w0) as [res w2]. cbn [fst snd].
  destruct (Error res) as [e|]; by step.
Qed.

(** The loop of GetMany, as functions of the replies: the value of a reply,
    the error it makes GetMany fail with, and the hook call it causes. *)
Definition reply_value (kr : string * ValkeyResult) : string * option bytes :=
  (kr.1, match AsBytes kr.2 with Ok data => Some data | Err _ => None end).

Definition reply_failure c (kr : string * ValkeyResult) : option error :=
  match AsBytes kr.2 with
  | Ok _ => None
  | Err e => if IsValkeyNil (v_client c) e then None
             else Some (Errorf "cachekit: get %q: %w" [AStr kr.1] (Some e))
  end.

Definition reply_hook c (kr : string * ValkeyResult) : list event :=
  match AsBytes kr.2 with
  | Ok _ => ev_if (OnHit (v_hooks c)) (EvHit kr.1)
  | Err e => if IsValkeyNil (v_client c) e
             then ev_if (OnMiss (v_hooks c)) (EvMiss kr.1)
             else ev_if (OnError (v_hooks c)) (EvError OpGet kr.1 e)
  end.

(** The first of a list of errors, an earlier one taking precedence. *)
Definition first_of (e : option error) (l : list error) : option error :=
  match e with Some e => Some e | None => head l end.

Lemma run_valkey_GetMany_loop c out e l w :
  run (for_fold (valkey_GetMany_step c) (out, e) l) w
  = ((collect out (reply_value <$> l), first_of e (omap (reply_failure c) l)),
     add_events (l ≫= reply_hook c) w).
Proof.
  revert out e w. induction l as [|[k res] l IH]; intros out e w.
  { simpl. rewrite add_events_nil. by destruct e. }
  rewrite run_for_fold_cons. cbn [fmap list_fmap]. rewrite collect_cons.
  cbn [omap list_omap mbind list_bind].
  assert (run (valkey_GetMany_step c (out, e) (k, res)) w
    = ((match (reply_value (k, res)).2 with Some s => <[k:=s]> out | None => out end,
        match reply_failure c (k, res) with
        | Some err => Some (match e with Some e => e | None => err end)
        | None => e
        end), add_events (reply_hook c (k, res)) w)) as ->.
  { unfold valkey_GetMany_step, reply_value, reply_failure, reply_hook. cbn [fst snd].
    destruct (AsBytes res) as [data|err]; [by step|].
    destruct (IsValkeyNil _ _); step; [done|]. by destruct e. }
  cbn [fst snd]. rewrite IH, add_events_app. f_equal. f_equal.
  destruct (reply_failure c (k, res)) as [err|]; [|done]. by destruct e.
Qed.

(** The replies of GetMany, through either cache. *)
Definition replies_of c (ctx : Context) (keys : list string) : act S (list ValkeyResult) :=
  if 0 <? v_clientCacheTTL c then
    rs ← vc_DoMultiCache (v_client c) ctx
           ((λ k, (CmdGet (valkey_key c k), v_clientCacheTTL c)) <$> keys);
    mret (vec_to_list rs)
  else
    rs ← vc_DoMulti (v_client c) ctx ((λ k, CmdGet (valkey_key c k)) <$> keys);
    mret (vec_to_list rs).

Lemma run_valkey_GetMany c ctx keys w :
  keys ≠ [] →
  ∃ ctx' w0, w_time w <= w_time w0 ∧ w_store w0 = w_store w ∧ w_trace w0 = w_trace w
  ∧ op_context (v_opTimeout c) ctx w ctx'
  ∧ let r := run (replies_of c ctx' keys) w0 in
    let l := zip keys r.1 in
    length r.1 = length keys
    ∧ run (valkey_GetMany c ctx keys) w
    = (match head (omap (reply_failure c) l) with
       | Some e => Err e
       | None => Ok (collect ∅ (reply_value <$> l))
       end, add_events (l ≫= reply_hook c) r.2).
Proof.
  intros Hk.
  destruct (run_opContext ctx (v_opTimeout c) w) as (ctx' & w0 & Hop & Ht & Hs & Htr & Hoc).
  exists ctx', w0. split_and!; [done..|]. cbn zeta. split.
  { unfold replies_of. destruct (0 <? _); step; by rewrite length_vec_to_list, length_fmap. }
  unfold valkey_GetMany. rewrite decide_False by done. step. rewrite Hop. cbn [fst snd].
  step. fold (replies_of c ctx' keys). destruct (run (replies_of c ctx' keys) w0) as [rs w1].
  cbn [fst snd]. rewrite run_valkey_GetMany_loop. cbn [fst snd first_of].
  by destruct (head _).
Qed.

(** The loop of SetMany over the replies. *)
Definition set_failure (kr : string * ValkeyResult) : option error :=
  e ← Error kr.2; Some (Errorf "cachekit: set %q: %w" [AStr kr.1] (Some e)).

Definition set_hook c (kr : string * ValkeyResult) : list event :=
  match Error kr.2 with
  | Some e => ev_if (OnError (v_hooks c)) (EvError OpSet kr.1 e)
  | None => []
  end.

Lemma run_valkey_SetMany_loop c e l w :
  run (for_fold (valkey_SetMany_step c) e l) w
  = (first_of e (omap set_failure l), add_events (l ≫= set_hook c) w).
Proof.
  revert e w. induction l as [|[k res] l IH]; intros e w.
  { simpl. rewrite add_events_nil. by destruct e. }
  rewrite run_for_fold_cons. cbn [omap list_omap mbind list_bind].
  assert (run (valkey_SetMany_step c e (k, res)) w
    = (match set_failure (k, res) with
       | Some err => Some (match e with Some e => e | None => err end)
       | None => e
       end, add_events (set_hook c (k, res)) w)) as ->.
  { unfold valkey_SetMany_step, set_failure, set_hook. cbn [fst snd].
    destruct (Error res) as [err|]; cbn [mbind option_bind].
    - step. by destruct e.
    - by rewrite add_events_nil. }
  cbn [fst snd]. rewrite IH, add_events_app. f_equal.
  destruct (set_failure (k, res)) as [err|]; [|done]. by destruct e.
Qed.

(** The SETs that SetMany builds: one per pair, in the order visited. *)
Definition built c (ttl : Duration) (kv : string * bytes)
    (s : string * bytes * option Duration) : Prop :=
  s.1 = (valkey_key c kv.1, kv.2)
  ∧ ∃ d, resolved_ttl (valkey_config c) kv.2 ttl d ∧ px_option s.2 d.

Abbreviation set_cmd := (λ s : string * bytes * option Duration, CmdSet s.1.1 s.1.2 s.2).

Lemma run_valkey_build c ttl ks cmds l w :
  ∃ sets w', run (for_fold (valkey_build_step c ttl) (ks, cmds) l) w
      = ((ks ++ l.*1, cmds ++ (set_cmd <$> sets)), w')
    ∧ w_time w' = w_time w ∧ w_store w' = w_store w ∧ w_trace w' = w_trace w
    ∧ Forall2 (built c ttl) l sets.
Proof.
  revert ks cmds w. induction l as [|kv l IH]; intros ks cmds w.
  { exists [], w. by rewrite !app_nil_r. }
  rewrite run_for_fold_cons.
  destruct (run_setCmd c kv.1 kv.2 ttl w) as (o & d & w1 & Hd & Ht & Hs & Htr & Hr & Hpx).
  assert (run (valkey_build_step c ttl (ks, cmds) kv) w
    = ((ks ++ [kv.1], cmds ++ [CmdSet (valkey_key c kv.1) kv.2 o]), w1)) as ->
    by (unfold valkey_build_step; by rewrite run_bind, Hd).
  cbn [fst snd].
  destruct (IH (ks ++ [kv.1]) (cmds ++ [CmdSet (valkey_key c kv.1) kv.2 o]) w1)
    as (sets & w2 & -> & Ht2 & Hs2 & Htr2 & Hf).
  exists ((valkey_key c kv.1, kv.2, o) :: sets), w2. rewrite <-!(assoc_L (++)).
  split_and!; [done|congruence..|]. constructor; [|done]. split; [done|]. by exists d.
Qed.

Lemma run_valkey_SetMany c ctx m ttl w :
  m ≠ ∅ →
  ∃ ctx' l sets w0, w_time w <= w_time w0 ∧ w_store w0 = w_store w
  ∧ w_trace w0 = w_trace w ∧ op_context (v_opTimeout c) ctx w ctx'
  ∧ l ≡ₚ map_to_list m ∧ Forall2 (built c ttl) l sets
  ∧ let r := run (vc_DoMulti (v_client c) ctx' (set_cmd <$> sets)) w0 in
    let rl := zip l.*1 (vec_to_list r.1) in
    run (valkey_SetMany c ctx m ttl) w
    = (head (omap set_failure rl), add_events (rl ≫= set_hook c) r.2).
Proof.
  intros Hm.
  destruct (run_opContext ctx (v_opTimeout c) w) as (ctx' & w1 & Hop & Ht1 & Hs1 & Htr1 & Hoc).
  destruct (range_map_spec m w1) as [Hp _].
  destruct (run_valkey_build c ttl [] [] (range_map m w1).1 (range_map m w1).2)
    as (sets & w2 & Hq & Ht2 & Hs2 & Htr2 & Hf).
  exists ctx', (range_map m w1).1, sets, w2.
  split_and!; [by rewrite Ht2|by rewrite Hs2|by rewrite Htr2|done|done|done|].
  cbn zeta. unfold valkey_SetMany. rewrite decide_False by done. step. rewrite Hop.
  cbn [fst snd]. step. rewrite Hq. cbn [fst snd app]. step.
  by rewrite run_valkey_SetMany_loop.
Qed.
End facts.

(** ** ValkeyCache keeps the contract of the interface

    With the client-side cache off: a local copy may outlive the entry until
    the server's invalidation arrives. *)
Definition valkey_view {S T} (c : ValkeyCache S T) (db : S → string → Time → option bytes)
    (s : S) (k : string) : Time → option bytes := db s (valkey_key c k).

Class NoClientCache {S T} (c : ValkeyCache S T) : Prop :=
  no_client_cache : v_clientCacheTTL c <= 0.

Section refinement.
Context {S T : Type} (c : ValkeyCache S T) (db : S → string → Time → option bytes).
Context `{!ValkeyServer (v_client c) db} `{!NoClientCache c}.
Implicit Types w : World S.
Abbreviation view := (valkey_view c db).
Abbreviation lifetime := (server_lifetime (valkey_config c)).

Abbreviation d_op := (v_opTimeout c).

Lemma valkey_spec_Get ctx k w :
  let w' := (run (valkey_Get c ctx k) w).2 in
  ∃ t, w_time w <= t <= w_time w'
  ∧ match (run (valkey_Get c ctx k) w).1 with
    | Ok data => view (w_store w) k t = Some data
    | Err e => if IsMiss e then view (w_store w) k t = None else op_done d_op ctx w w'
    end
  ∧ ∀ k' t', t <= t' → view (w_store w') k' t' = view (w_store w) k' t'.
Proof.
  cbn zeta. destruct (run_valkey_Get c ctx k w) as (ctx' & w0 & Ht0 & Hs0 & _ & Hoc & ->).
  unfold get_of. rewrite (proj2 (Z.ltb_ge _ _)) by apply no_client_cache.
  destruct (vs_Get ctx' (valkey_key c k) w0) as (t & Ht & Hr & Hf).
  destruct (run (vc_Do _ _ _) w0) as [res w1]. cbn [fst snd] in *.
  unfold valkey_view. rewrite Hs0 in *. exists t. unfold get_reply in Hr.
  destruct Hr as [Hr|[Hd (e & -> & -> & Hm)]];
    [destruct (db (w_store w) (valkey_key c k) t) as [data|];
     [rewrite Hr|destruct Hr as (e & -> & ->)]|];
    cbn [fst snd w_time w_store add_events];
    (split; [lia|split; [|intros k' t'; apply Hf]]); [done|done|].
  rewrite (IsMiss_wrap _ _ e), Hm. by apply (op_context_done _ _ ctx').
Qed.

(** A SET the package builds is a write of the package. *)
Lemma built_written k v ttl o d w0 w w' :
  w_time w0 <= w_time w →
  resolved_ttl (valkey_config c) v ttl d → px_option o d →
  server_set db (valkey_key c k) v (default 0 o) w w' →
  written view lifetime k v ttl w0 w'.
Proof.
  intros Ht Hd [_ Hpx] Hs. eapply written_later; [exact Ht|reflexivity|done|].
  eapply server_set_written; [done|]. by eapply server_set_px.
Qed.

Lemma built_maybe_written k v ttl o d w0 w w' :
  w_time w0 <= w_time w → w_store w = w_store w0 →
  resolved_ttl (valkey_config c) v ttl d → px_option o d →
  maybe_set db (valkey_key c k) v (default 0 o) w w' →
  written view lifetime k v ttl w0 w' ∨ kept view k w0 w'.
Proof.
  intros Ht Hs Hd Hpx [H|H]; [left; by eapply built_written|right].
  intros t' Ht'. unfold valkey_view. rewrite <-Hs. by apply H.
Qed.

Lemma valkey_spec_Set ctx k v ttl w :
  let w' := (run (valkey_Set c ctx k v ttl) w).2 in
  w_time w <= w_time w'
  ∧ (∀ k', k' ≠ k → kept view k' w w')
  ∧ match (run (valkey_Set c ctx k v ttl) w).1 with
    | None => written view lifetime k v ttl w w'
    | Some _ => op_done d_op ctx w w' ∧ (written view lifetime k v ttl w w' ∨ kept view k w w')
    end.
Proof.
  cbn zeta.
  destruct (run_valkey_Set c ctx k v ttl w)
    as (ctx' & o & d & w0 & Ht0 & Hs0 & _ & Hoc & Hd & Hpx & ->).
  destruct (vs_Set ctx' (valkey_key c k) v o w0 (proj1 Hpx)) as (Ht & Hf & Hr).
  destruct (run (vc_Do _ _ _) w0) as [res w1]. cbn [fst snd] in *.
  assert (∀ k', k' ≠ k → kept view k' w w1) as Hother.
  { intros k' Hk t' Ht'. unfold valkey_view. rewrite <-Hs0. apply Hf; [|done].
    by intros ?%valkey_key_inj. }
  destruct (Error res) as [e|]; cbn [fst snd]; (split; [cbn; lia|split; [apply Hother|]]).
  - destruct Hr as [Hdone Hr]. split; [by apply (op_context_done _ _ ctx')|].
    by apply (built_maybe_written k v ttl o d w w0 w1).
  - by eapply built_written.
Qed.

Lemma valkey_spec_Delete ctx k w :
  let w' := (run (valkey_Delete c ctx k) w).2 in
  let gone := ∀ t', w_time w' <= t' → view (w_store w') k t' = None in
  w_time w <= w_time w'
  ∧ (∀ k', k' ≠ k → kept view k' w w')
  ∧ match (run (valkey_Delete c ctx k) w).1 with
    | None => gone
    | Some _ => op_done d_op ctx w w' ∧ (gone ∨ kept view k w w')
    end.
Proof.
  cbn zeta. destruct (run_valkey_Delete c ctx k w) as (ctx' & w0 & Ht0 & Hs0 & _ & Hoc & ->).
  destruct (vs_Del ctx' (valkey_key c k) w0) as (Ht & Hf & Hr).
  unfold kept, valkey_view in *. rewrite Hs0 in *.
  destruct (run (vc_Do _ _ _) w0) as [res w1]. cbn [fst snd] in *.
  destruct (Error res) as [e|]; cbn [fst snd];
    (split; [cbn; lia|split; [intros k' Hk; apply Hf; by intros ?%valkey_key_inj|]]).
  - destruct Hr as [Hdone Hr]. by split; [apply (op_context_done _ _ ctx')|].
  - done.
Qed.

(** What the replies of a responsive server amount to. *)
Lemma replies_spec ctx keys w :
  let r := run (replies_of c ctx keys) w in
  w_time w <= w_time r.2
  ∧ (∀ k', kept view k' w r.2)
  ∧ ∀ i k, keys !! i = Some k → ∃ t res, w_time w <= t <= w_time r.2
      ∧ r.1 !! i = Some res
      ∧ (get_reply (v_client c) (view (w_store w) k t) res
         ∨ is_Some (ctx_Err ctx r.2) ∧ get_failed (v_client c) res).
Proof.
  cbn zeta. unfold replies_of. rewrite (proj2 (Z.ltb_ge _ _)) by apply no_client_cache.
  step. pose proof (vs_MultiGet ctx (valkey_key c <$> keys) w) as H. cbn zeta in H.
  assert ((λ k, CmdGet (valkey_key c k)) <$> keys = CmdGet <$> (valkey_key c <$> keys)) as E
    by by rewrite <-list_fmap_compose.
  destruct E. destruct H as (Ht & Hf & Hr). split; [done|split; [by intros k'; apply Hf|]].
  intros i k Hi. apply (Hr i). by rewrite list_lookup_fmap, Hi.
Qed.

Lemma get_reply_value v k res :
  get_reply (v_client c) v res →
  reply_value (k, res) = (k, v) ∧ reply_failure c (k, res) = None.
Proof.
  unfold get_reply, reply_value, reply_failure. cbn [fst snd].
  destruct v; [by intros ->|]. by intros (e & -> & ->).
Qed.

Lemma get_failed_failure k res :
  get_failed (v_client c) res → is_Some (reply_failure c (k, res)).
Proof. intros (e & He & Hn & _). unfold reply_failure. cbn [snd]. rewrite He, Hn. by eexists. Qed.

(** The first error of a loop: there is one iff some element has one. *)
Lemma head_omap_None {A} (f : A → option error) l x :
  head (omap f l) = None → x ∈ l → f x = None.
Proof.
  intros Hh Hx. destruct (f x) as [e|] eqn:E; [|done].
  assert (e ∈ omap f l) as H by (apply list_elem_of_omap; by exists x).
  destruct (omap f l); [by apply not_elem_of_nil in H|done].
Qed.

Lemma head_omap_Some {A} (f : A → option error) l e :
  head (omap f l) = Some e → ∃ x, x ∈ l ∧ f x = Some e.
Proof. intros H%head_Some_elem_of. by apply list_elem_of_omap in H as (x & ? & ?); exists x. Qed.

(** Replies without a failure, by position. *)
Lemma collect_replies (P : string → option bytes → Prop) keys rs :
  (∀ i k, keys !! i = Some k → ∃ res v, rs !! i = Some res ∧ P k v
     ∧ reply_value (k, res) = (k, v)) →
  let out := collect ∅ (reply_value <$> zip keys rs) in
  (∀ k, k ∉ keys → out !! k = None) ∧ ∀ k, k ∈ keys → P k (out !! k).
Proof.
  intros H. cbn zeta. split.
  - intros k Hnin. destruct (_ !! k) as [v|] eqn:E; [|done].
    apply collect_Some in E as [E|E]; [done|].
    apply list_elem_of_fmap in E as ([k' res] & E & (i & Hi & _)%elem_of_zip_lookup).
    unfold reply_value in E. injection E as -> _. by apply list_elem_of_lookup_2 in Hi.
  - intros k [i Hi]%list_elem_of_lookup.
    destruct (collect _ _ !! k) as [v|] eqn:E.
    + apply collect_Some in E as [E|E]; [done|].
      apply list_elem_of_fmap in E as ([k' res] & E & (j & Hj & Hr)%elem_of_zip_lookup).
      assert (k' = k) as -> by (unfold reply_value in E; by injection E).
      destruct (H j k Hj) as (res' & v' & Hr' & HP & Hv).
      assert (res' = res) as -> by congruence. by rewrite Hv in E; injection E as ->.
    + apply collect_None in E as [_ E]. destruct (H i k Hi) as (res & v & Hr & HP & Hv).
      rewrite <-(E v); [done|]. rewrite <-Hv.
      apply list_elem_of_fmap_2, (zip_lookup_elem _ _ _ _ _ Hi Hr).
Qed.

Lemma valkey_spec_GetMany ctx keys w :
  let w' := (run (valkey_GetMany c ctx keys) w).2 in
  w_time w <= w_time w'
  ∧ (∀ k', kept view k' w w')
  ∧ match (run (valkey_GetMany c ctx keys) w).1 with
    | Ok out =>
        (∀ k, k ∉ keys → out !! k = None)
        ∧ ∀ k, k ∈ keys → ∃ t, w_time w <= t <= w_time w' ∧ out !! k = view (w_store w) k t
    | Err _ => op_done d_op ctx w w'
    end.
Proof.
  cbn zeta. destruct (decide (keys = [])) as [->|Hk].
  { cbn. split; [done|split; [done|split; [done|]]]. intros k Hk. by apply not_elem_of_nil in Hk. }
  destruct (run_valkey_GetMany c ctx keys w Hk) as (ctx' & w0 & Ht0 & Hs0 & _ & Hoc & _ & ->).
  destruct (replies_spec ctx' keys w0) as (Ht & Hf & Hr). unfold kept in *. rewrite Hs0 in *.
  destruct (run (replies_of c ctx' keys) w0) as [rs w1]. cbn [fst snd] in *.
  destruct (head (omap (reply_failure c) (zip keys rs))) as [e|] eqn:E;
    (split; [cbn; lia|split; [intros k'; apply Hf|]]).
  - apply (op_context_done _ _ ctx'); [done|].
    apply head_omap_Some in E as ([k res] & (i & Hi & Hri)%elem_of_zip_lookup & E).
    destruct (Hr i k Hi) as (t & res' & _ & Hri' & [Hrep|[Hd _]]); [|done].
    assert (res' = res) as -> by congruence.
    by destruct (get_reply_value _ k res Hrep) as [_ ?]; simplify_eq.
  - cbn [w_time add_events].
    apply (collect_replies (λ k v, ∃ t, w_time w <= t <= w_time w1 ∧ v = view (w_store w) k t)).
    intros i k Hi. destruct (Hr i k Hi) as (t & res & Htt & Hri & Hrep).
    pose proof (head_omap_None _ _ (k, res) E (zip_lookup_elem _ _ _ _ _ Hi Hri)) as Hno.
    destruct Hrep as [Hrep|[_ Hfail]].
    + exists res, (view (w_store w) k t). split; [done|split].
      * exists t. split; [lia|done].
      * by destruct (get_reply_value _ k res Hrep).
    + destruct (get_failed_failure k _ Hfail) as [? ?]. congruence.
Qed.

Lemma built_keys ttl l sets :
  Forall2 (built c ttl) l sets → sets.*1.*1 = valkey_key c <$> l.*1.
Proof. induction 1 as [|kv s l sets [H _] _ IH]; [done|]. cbn. by rewrite H, IH. Qed.

Lemma built_NoDup m ttl l sets :
  l ≡ₚ map_to_list m → Forall2 (built c ttl) l sets → NoDup (sets.*1.*1).
Proof.
  intros Hp Hq. rewrite (built_keys _ _ _ Hq), Hp.
  apply NoDup_fmap_2; [|apply NoDup_fst_map_to_list]. intros ?? ?%valkey_key_inj. done.
Qed.

Lemma built_px_ok ttl l sets : Forall2 (built c ttl) l sets → Forall (λ s, px_ok s.2) sets.
Proof.
  intros Hq. apply Forall_forall. intros s [i Hi]%list_elem_of_lookup.
  by destruct (Forall2_lookup_r _ _ _ _ _ Hq Hi) as (kv & _ & _ & d & _ & ? & _).
Qed.

Lemma built_other m ttl l sets k :
  l ≡ₚ map_to_list m → Forall2 (built c ttl) l sets → m !! k = None →
  valkey_key c k ∉ sets.*1.*1.
Proof.
  intros Hp Hq Hk. rewrite (built_keys _ _ _ Hq).
  intros (k' & ?%valkey_key_inj & Hin)%list_elem_of_fmap. subst k'.
  rewrite Hp in Hin. apply list_elem_of_fmap in Hin as ([k' v] & -> & Hin).
  apply elem_of_map_to_list in Hin. cbn in Hk. congruence.
Qed.

Lemma built_cmd m ttl l sets k v :
  l ≡ₚ map_to_list m → Forall2 (built c ttl) l sets → m !! k = Some v →
  ∃ i o d, l.*1 !! i = Some k ∧ sets !! i = Some (valkey_key c k, v, o)
  ∧ resolved_ttl (valkey_config c) v ttl d ∧ px_option o d.
Proof.
  intros Hp Hq Hk. apply elem_of_map_to_list in Hk. rewrite <-Hp in Hk.
  apply list_elem_of_lookup in Hk as [i Hi].
  destruct (Forall2_lookup_l _ _ _ _ _ Hq Hi) as ([kv o] & Hi' & H1 & d & Hd & Hpx).
  cbn [fst snd] in *. subst kv. exists i, o, d. by rewrite list_lookup_fmap, Hi.
Qed.

Lemma built_lookup ttl l sets i k :
  Forall2 (built c ttl) l sets → l.*1 !! i = Some k →
  ∃ v o, sets !! i = Some (valkey_key c k, v, o).
Proof.
  intros Hq Hi. rewrite list_lookup_fmap in Hi.
  destruct (l !! i) as [[k' v]|] eqn:E; [|done]. injection Hi as ->.
  destruct (Forall2_lookup_l _ _ _ _ _ Hq E) as ([kv o] & Hi' & H1 & _).
  cbn [fst snd] in *. subst kv. by exists v, o.
Qed.

Lemma valkey_spec_SetMany ctx m ttl w :
  let w' := (run (valkey_SetMany c ctx m ttl) w).2 in
  let all (P : string → bytes → Prop) := ∀ k v, m !! k = Some v → P k v in
  w_time w <= w_time w'
  ∧ (∀ k, m !! k = None → kept view k w w')
  ∧ match (run (valkey_SetMany c ctx m ttl) w).1 with
    | None => all (λ k v, written view lifetime k v ttl w w')
    | Some _ => op_done d_op ctx w w'
        ∧ all (λ k v, written view lifetime k v ttl w w' ∨ kept view k w w')
    end.
Proof.
  cbn zeta. destruct (decide (m = ∅)) as [->|Hm].
  { unfold valkey_SetMany. rewrite decide_True by done. rewrite run_ret. cbn [fst snd].
    split; [done|split; [done|]]. intros k v Hk. by rewrite lookup_empty in Hk. }
  destruct (run_valkey_SetMany c ctx m ttl w Hm)
    as (ctx' & l & sets & w0 & Ht0 & Hs0 & _ & Hoc & Hp & Hq & ->).
  destruct (vs_MultiSet ctx' sets w0) as (Ht & Hf & Hr);
    [by eapply built_NoDup|by eapply built_px_ok|].
  destruct (run (vc_DoMulti _ _ _) w0) as [rs w1]. cbn [fst snd] in *.
  set (rl := zip l.*1 (vec_to_list rs)) in *.
  assert (∀ k, m !! k = None → kept view k w w1) as Hother.
  { intros k Hk t' Ht'. unfold valkey_view. rewrite <-Hs0. apply Hf; [|done].
    by eapply built_other. }
  assert (∀ k v, m !! k = Some v → ∃ res, (k, res) ∈ rl ∧
    match Error res with
    | None => written view lifetime k v ttl w w1
    | Some _ => is_Some (ctx_Err ctx' w1)
        ∧ (written view lifetime k v ttl w w1 ∨ kept view k w w1)
    end) as Hcmd.
  { intros k v Hk. destruct (built_cmd _ _ _ _ k v Hp Hq Hk) as (i & o & d & Hi & His & Hd & Hpx).
    destruct (Hr _ _ _ _ His) as (res & Hres & Hset). exists res.
    split; [by apply (zip_lookup_elem _ _ i)|]. destruct (Error res) as [e|].
    - destruct Hset as [Hdone Hset]. split; [done|]. by eapply built_maybe_written.
    - by eapply built_written. }
  destruct (head (omap set_failure rl)) as [e|] eqn:E; cbn [fst snd];
    (split; [cbn; lia|split; [exact Hother|]]).
  - split.
    + apply (op_context_done _ _ ctx'); [done|].
      apply head_omap_Some in E as ([k res] & Hin & E).
      pose proof Hin as (i & Hi & Hri)%elem_of_zip_lookup.
      destruct (built_lookup _ _ _ i k Hq Hi) as (v & o & His).
      destruct (Hr _ _ _ _ His) as (res' & Hres & Hset).
      assert (res' = res) as -> by congruence. unfold set_failure in E. cbn [snd fst] in E.
      destruct (Error res); [by destruct Hset|done].
    + intros k v Hk. destruct (Hcmd k v Hk) as (res & _ & Hset).
      destruct (Error res); [by destruct Hset|by left].
  - intros k v Hk. destruct (Hcmd k v Hk) as (res & Hin & Hset).
    pose proof (head_omap_None _ _ _ E Hin) as Hno. unfold set_failure in Hno. cbn [snd fst] in Hno.
    by destruct (Error res).
Qed.

#[export] Instance ValkeyCache_spec :
  BoundedBackendSpec (ValkeyCache_Cache c) view lifetime (v_opTimeout c).
Proof.
  split; [split|].
  - apply valkey_spec_Get.
  - apply valkey_spec_Set.
  - apply valkey_spec_Delete.
  - apply server_lifetime_bounds.
  - intros bc [= <-]. split; [apply valkey_spec_GetMany|apply valkey_spec_SetMany].
Qed.
End refinement.
