(* ===== verification/FakeServer.v ===== *)
(** * A server in memory

    Concrete clients on which the theorems about RedisCache and ValkeyCache
    are applied: the server is a map from keys to values with an optional
    expiry.  [fake_redis] and [fake_valkey] answer every command at once;
    [network_redis] and [network_valkey] reach them over a network and give up
    when the context is done.  All four satisfy the laws [RedisServer] and
    [ValkeyServer]. *)
From stdpp Require Import vector.
From S2P Require Import Prelude Int64 Float64 Errors Runtime Envelope Hooks Codec.
From S2P Require Import Options Cache Server Redis Valkey.
From Stdlib Require Import ZArith Lia.
Local Open Scope Z_scope.

(** ** Definitions *)

Record entry := mkEntry {
  en_val : bytes;
  en_expiry : option Time
}.

Abbreviation entries := (gmap string entry).

Definition entry_at (en : entry) (t : Time) : option bytes :=
  match en_expiry en with
  | None => Some (en_val en)
  | Some d => if t <? d then Some (en_val en) else None
  end.

Definition fake_db (s : entries) (k : string) (t : Time) : option bytes :=
  en ← s !! k; entry_at en t.

Definition fake_get (k : string) : act entries (option bytes) :=
  t ← now;
  s ← get_store;
  mret (fake_db s k t).

Definition fake_set (k : string) (v : bytes) (d : Duration) : act entries () :=
  t ← now;
  modify_store <[k := mkEntry v (if d <=? 0 then None else Some (t + px d))]>.

Definition fake_del (k : string) : act entries () :=
  modify_store (delete k).

(** A Redis client whose server always answers. *)
Definition redis_nil : error := ErrOther "redis: nil".

Definition fake_redis : RedisClient entries := mkRedisClient redis_nil
  (λ _ k, r ← fake_get k; mret (match r with Some v => Ok v | None => Err redis_nil end))
  (λ _ k v d, fake_set k v d;; mret None)
  (λ _ k, fake_del k;; mret None)
  (λ _, mret None)
  (λ _ keys, t ← now; s ← get_store;
     mret (Ok (vmap (λ k, fake_db s k t) (list_to_vec keys))))
  (λ _ pipe, for_each (λ cmd : string * bytes * Duration,
     fake_set cmd.1.1 cmd.1.2 cmd.2) pipe;; mret None)
  (mret None).

(** A Valkey client whose server always answers. *)
Definition valkey_nil : error := ErrOther "valkey nil message".

Definition fake_exec (cmd : Command) : act entries ValkeyResult :=
  match cmd with
  | CmdGet k =>
      r ← fake_get k;
      mret (match r with
            | Some v => mkResult (Ok v) None
            | None => mkResult (Err valkey_nil) (Some valkey_nil)
            end)
  | CmdSet k v o => fake_set k v (default 0 o);; mret (mkResult (Ok []) None)
  | CmdDel k => fake_del k;; mret (mkResult (Ok []) None)
  | CmdPing => mret (mkResult (Ok []) None)
  end.

Fixpoint fake_multi (cmds : list Command) : act entries (vec ValkeyResult (length cmds)) :=
  match cmds with
  | [] => mret [#]
  | cmd :: cmds =>
      r ← fake_exec cmd;
      rs ← fake_multi cmds;
      mret (r ::: rs)
  end.

Fixpoint fake_multi_cache (cmds : list (Command * Duration))
    : act entries (vec ValkeyResult (length cmds)) :=
  match cmds with
  | [] => mret [#]
  | cmd :: cmds =>
      r ← fake_exec cmd.1;
      rs ← fake_multi_cache cmds;
      mret (r ::: rs)
  end.

Definition fake_valkey : ValkeyClient entries := mkValkeyClient
  (λ e, errors_Is e valkey_nil)
  (λ _, fake_exec)
  (λ _ cmd _, fake_exec cmd)
  (λ _, fake_multi)
  (λ _, fake_multi_cache)
  (mret ()).

(** ** The laws hold *)

Section laws.
Implicit Types w : World entries.

Lemma fake_db_insert k v d s t t0 k' :
  fake_db (<[k := mkEntry v (if d <=? 0 then None else Some (t0 + px d))]> s) k' t
  = if decide (k' = k) then
      if (0 <? d) && negb (t <? t0 + px d) then None else Some v
    else fake_db s k' t.
Proof.
  unfold fake_db. case_decide as Hk.
  - subst. rewrite lookup_insert_eq. cbn. unfold entry_at.
    destruct (Z.leb_spec d 0); cbn [en_expiry en_val].
    + by rewrite (proj2 (Z.ltb_ge 0 d)) by lia.
    + rewrite (proj2 (Z.ltb_lt 0 d)) by lia. by destruct (t <? _).
  - by rewrite lookup_insert_ne.
Qed.

Lemma run_fake_set k v d w :
  let w' := (run (fake_set k v d) w).2 in
  w_time w <= w_time w'
  ∧ (∀ k' t', k' ≠ k → fake_db (w_store w') k' t' = fake_db (w_store w) k' t')
  ∧ server_set fake_db k v d w w'.
Proof.
  cbn zeta. unfold fake_set. step. cbn [set_store w_time w_store read_clock snd].
  set (t := w_time w + Z.of_N (tick (w_orc w) (w_reads w))).
  split_and!; [lia| |].
  - intros k' t' Hk. by rewrite fake_db_insert, decide_False.
  - exists (px d). split_and!; [done| |]; cbn [w_time w_store set_store].
    + intros Hle t' _. rewrite fake_db_insert, decide_True by done.
      destruct (Z.ltb_spec 0 d) as [H|H]; [|done]. apply px_pos in H. lia.
    + intros Hlt. exists (t + px d). split; [lia|]. intros t' _.
      rewrite fake_db_insert, decide_True by done.
      destruct (Z.ltb_spec 0 d) as [H|H]; [by destruct (t' <? _)|].
      unfold px in Hlt. rewrite (proj2 (Z.leb_le d 0)) in Hlt by lia. lia.
Qed.

Lemma run_fake_del k w :
  let w' := (run (fake_del k) w).2 in
  w_time w' = w_time w
  ∧ ∀ k' t', fake_db (w_store w') k' t'
             = if decide (k' = k) then None else fake_db (w_store w) k' t'.
Proof.
  cbn zeta. unfold fake_del. step. cbn [set_store w_time w_store]. split; [done|].
  intros k' t'. unfold fake_db. case_decide as Hk.
  - subst. by rewrite lookup_delete_eq.
  - by rewrite lookup_delete_ne.
Qed.

(** A sequence of SETs of different keys. *)
Record sets_inv (w0 : World entries) (seen : list (string * bytes * Duration)) w : Prop := {
  fi_time : w_time w0 <= w_time w;
  fi_other k t : k ∉ seen.*1.*1 → fake_db (w_store w) k t = fake_db (w_store w0) k t;
  fi_seen k v d : (k, v, d) ∈ seen → server_set fake_db k v d w0 w
}.

Lemma sets_inv_nil w : sets_inv w [] w.
Proof. split; [lia|done|]. intros k v d Hk. by apply not_elem_of_nil in Hk. Qed.

Lemma sets_inv_snoc w0 seen cmd w w' :
  cmd.1.1 ∉ seen.*1.*1 → sets_inv w0 seen w →
  w_time w <= w_time w' →
  (∀ k t, k ≠ cmd.1.1 → fake_db (w_store w') k t = fake_db (w_store w) k t) →
  server_set fake_db cmd.1.1 cmd.1.2 cmd.2 w w' →
  sets_inv w0 (seen ++ [cmd]) w'.
Proof.
  destruct cmd as [[k v] d]. cbn [fst snd]. intros Hk [Ht Ho Hs] Ht' Hf Hw.
  split; [lia| |].
  - intros k' t Hk'. rewrite !fmap_app in Hk'. apply not_elem_of_app in Hk' as [H1 H2].
    rewrite Hf, Ho; [done|done|]. intros ->. apply H2, list_elem_of_here.
  - intros k' v' d' [Hin|[= -> -> ->]]%elem_of_snoc.
    + eapply written_later; [| | |by apply Hs]; [lia|done|].
      intros t _. apply Hf. intros ->. apply Hk.
      apply (list_elem_of_fmap_2 fst _ _ (list_elem_of_fmap_2 fst _ _ Hin)).
    + eapply written_later; [| | |exact Hw]; [done|lia|done].
Qed.

Lemma run_fake_sets pipe w :
  NoDup (pipe.*1.*1) →
  sets_inv w pipe (run (for_each (λ cmd : string * bytes * Duration,
    fake_set cmd.1.1 cmd.1.2 cmd.2) pipe) w).2.
Proof.
  intros Hnd. apply (for_each_inv (sets_inv w)); [|apply sets_inv_nil].
  intros seen cmd rest w1 -> Hinv.
  destruct (run_fake_set cmd.1.1 cmd.1.2 cmd.2 w1) as (Ht & Hf & Hw).
  eapply sets_inv_snoc; try done.
  rewrite !fmap_app in Hnd. apply NoDup_app in Hnd as (_ & Hd & _).
  intros Hin. apply (Hd _ Hin), list_elem_of_here.
Qed.

Lemma run_fake_get k w :
  run (fake_get k) w = (fake_db (w_store w) k (read_clock w).1, (read_clock w).2).
Proof. unfold fake_get. by step. Qed.

#[export] Instance fake_redis_server : RedisServer fake_redis fake_db.
Proof.
  split; cbn [rc_Get rc_Set rc_Del rc_MGet rc_Exec rc_Nil fake_redis].
  - intros ctx k w. cbn zeta. exists (read_clock w).1. step. rewrite run_fake_get. cbn [fst snd].
    split; [simpl; lia|]. split; [|done]. by destruct (fake_db _ _ _).
  - intros ctx k v d w _. cbn zeta. step.
    destruct (run_fake_set k v d w) as (Ht & Hf & Hw). split_and!; [done| |done].
    intros k' Hk t' _. by apply Hf.
  - intros ctx k w. cbn zeta. step. destruct (run_fake_del k w) as [Ht Hf].
    split_and!; [lia| |].
    + intros k' Hk t' _. by rewrite Hf, decide_False.
    + intros t' _. by rewrite Hf, decide_True.
  - intros ctx keys w. cbn zeta. step. split_and!; [simpl; lia|done|].
    intros i k Hi. exists (read_clock w).1. split; [simpl; lia|].
    rewrite vec_to_list_map, vec_to_list_to_vec, list_lookup_fmap, Hi. done.
  - intros ctx pipe w Hnd _. cbn zeta. step.
    destruct (run_fake_sets pipe w Hnd) as [Ht Ho Hs]. split_and!; [done| |done].
    intros k Hk t' _. by apply Ho.
Qed.

Lemma run_fake_multi_cons cmd cmds w :
  run (fake_multi (cmd :: cmds)) w
  = let '(r, w1) := run (fake_exec cmd) w in
    let '(rs, w2) := run (fake_multi cmds) w1 in (r ::: rs, w2).
Proof.
  cbn [fake_multi]. rewrite run_bind. destruct (run (fake_exec cmd) w) as [r w1]. cbn [fst snd].
  rewrite run_bind. by destruct (run (fake_multi cmds) w1).
Qed.

Definition fake_get_reply (o : option bytes) : ValkeyResult :=
  match o with
  | Some v => mkResult (Ok v) None
  | None => mkResult (Err valkey_nil) (Some valkey_nil)
  end.

Lemma fake_get_reply_ok o : get_reply fake_valkey o (fake_get_reply o).
Proof. destruct o; [done|]. by eexists. Qed.

Lemma run_fake_multi_get keys w :
  let r := run (fake_multi (CmdGet <$> keys)) w in
  w_time w <= w_time r.2 ∧ w_store r.2 = w_store w
  ∧ ∀ i k, keys !! i = Some k → ∃ t, w_time w <= t <= w_time r.2
      ∧ vec_to_list r.1 !! i = Some (fake_get_reply (fake_db (w_store w) k t)).
Proof.
  cbn zeta. revert w. induction keys as [|k keys IH]; intros w.
  { split_and!; [simpl; lia|done|done]. }
  cbn [fmap list_fmap]. rewrite run_fake_multi_cons. cbn [fake_exec].
  rewrite run_bind, run_fake_get. cbn [fst snd]. rewrite run_ret.
  destruct (IH (read_clock w).2) as (Ht & Hs & Hr).
  change (list_fmap _ _ CmdGet keys) with (CmdGet <$> keys) in *.
  destruct (run (fake_multi (CmdGet <$> keys)) (read_clock w).2) as [rs w2].
  cbn [fst snd] in *. cbn [read_clock snd fst w_time w_store] in *.
  split_and!; [lia|done|]. intros [|i] k' Hi.
  - injection Hi as ->. eexists. split; [|done]. lia.
  - destruct (Hr i k' Hi) as (t & ? & ?). exists t. split; [lia|done].
Qed.

Abbreviation set_cmd := (λ s : string * bytes * option Duration, CmdSet s.1.1 s.1.2 s.2).
Abbreviation plain_set := (λ s : string * bytes * option Duration, (s.1, default 0 s.2)).

Lemma run_fake_multi_set w0 seen sets w :
  NoDup ((seen ++ (plain_set <$> sets)).*1.*1) → sets_inv w0 seen w →
  let r := run (fake_multi (set_cmd <$> sets)) w in
  Forall (λ res, Error res = None) (vec_to_list r.1)
  ∧ sets_inv w0 (seen ++ (plain_set <$> sets)) r.2.
Proof.
  cbn zeta. revert seen w. induction sets as [|[[k v] o] sets IH]; intros seen w Hnd Hinv.
  { split; [constructor|]. cbn. by rewrite app_nil_r. }
  cbn [fmap list_fmap fst snd] in *. rewrite run_fake_multi_cons. cbn [fake_exec].
  rewrite run_bind. cbn [fst snd]. rewrite run_ret.
  destruct (run_fake_set k v (default 0 o) w) as (Ht & Hf & Hw).
  rewrite cons_middle, (assoc_L (++)) in Hnd |- *.
  destruct (IH (seen ++ [(k, v, default 0 o)]) (run (fake_set k v (default 0 o)) w).2)
    as [H1 H2]; [done| |].
  { eapply sets_inv_snoc; try done. cbn [fst].
    rewrite !fmap_app in Hnd. apply NoDup_app in Hnd as (Hnd & _).
    apply NoDup_app in Hnd as (_ & Hd & _).
    intros Hin. apply (Hd _ Hin), list_elem_of_here. }
  change (list_fmap _ _ set_cmd sets) with (set_cmd <$> sets).
  change (list_fmap _ _ plain_set sets) with (plain_set <$> sets).
  destruct (run (fake_multi (set_cmd <$> sets)) _) as [rs w2]. cbn [fst snd] in *.
  split; [by constructor|done].
Qed.

#[export] Instance fake_valkey_server : ValkeyServer fake_valkey fake_db.
Proof.
  split; cbn [vc_Do vc_DoMulti fake_valkey].
  - intros ctx k w. cbn zeta. exists (read_clock w).1. cbn [fake_exec].
    rewrite run_bind, run_fake_get. cbn [fst snd]. rewrite run_ret. cbn [fst snd].
    split; [simpl; lia|]. split; [left|done]. apply (fake_get_reply_ok (fake_db _ _ _)).
  - intros ctx k v o w _. cbn zeta. cbn [fake_exec]. step.
    destruct (run_fake_set k v (default 0 o) w) as (Ht & Hf & Hw). split_and!; [done| |done].
    intros k' Hk t' _. by apply Hf.
  - intros ctx k w. cbn zeta. cbn [fake_exec]. step. destruct (run_fake_del k w) as [Ht Hf].
    split_and!; [lia| |].
    + intros k' Hk t' _. by rewrite Hf, decide_False.
    + intros t' _. by rewrite Hf, decide_True.
  - intros ctx keys w. cbn zeta. destruct (run_fake_multi_get keys w) as (Ht & Hs & Hr).
    split_and!; [done|by intros k' t' _; rewrite Hs|].
    intros i k Hi. destruct (Hr i k Hi) as (t & Htt & Hri).
    exists t. eexists. split_and!; [lia|lia|done|]. left. apply fake_get_reply_ok.
  - intros ctx sets w Hnd _. cbn zeta.
    assert ((plain_set <$> sets).*1.*1 = sets.*1.*1) as Hk
      by (rewrite <-!list_fmap_compose; by apply list_fmap_ext).
    destruct (run_fake_multi_set w [] sets w) as [He [Ht Ho Hs]];
      [by rewrite app_nil_l, Hk|apply sets_inv_nil|].
    rewrite app_nil_l in *. split_and!; [done| |].
    + intros k' Hk' t' _. apply Ho. by rewrite Hk.
    + intros i k v o Hi.
      destruct (run (fake_multi _) w) as [rs w']. cbn [fst snd] in *.
      destruct (lookup_lt_is_Some_2 (vec_to_list rs) i) as [res Hres].
      { rewrite length_vec_to_list, length_fmap. by eapply lookup_lt_Some. }
      exists res. split; [done|]. rewrite (Forall_lookup_1 _ _ _ _ He Hres).
      apply Hs. apply (list_elem_of_fmap_2 plain_set _ (k, v, o)). by eapply list_elem_of_lookup_2.
Qed.
End laws.

(** ** Clients over a network

    A request takes time to reach the server and a reply to come back; the
    server executes a command at once.  Whoever finds the context done gives
    up: a request that has not been sent is not executed, a reply that comes
    too late is not waited for. *)
Definition check_ctx {S} (ctx : Context) : act S (option error) :=
  atom (λ w, (ctx_Err ctx (read_clock w).2, (read_clock w).2)).

Definition over_network {S A} (ctx : Context) (broken : error → A) (m : act S A) : act S A :=
  e ← check_ctx ctx;
  match e with
  | Some err => mret (broken err)
  | None =>
      a ← locked m;
      e ← check_ctx ctx;
      mret (match e with Some err => broken err | None => a end)
  end.

Definition redis_over_network {S} (cl : RedisClient S) : RedisClient S := mkRedisClient (rc_Nil cl)
  (λ ctx k, over_network ctx Err (rc_Get cl ctx k))
  (λ ctx k v d, over_network ctx Some (rc_Set cl ctx k v d))
  (λ ctx k, over_network ctx Some (rc_Del cl ctx k))
  (λ ctx, over_network ctx Some (rc_Ping cl ctx))
  (λ ctx ks, over_network ctx Err (rc_MGet cl ctx ks))
  (λ ctx pipe, over_network ctx Some (rc_Exec cl ctx pipe))
  (rc_Close cl).

Definition error_reply (err : error) : ValkeyResult := mkResult (Err err) (Some err).

Definition error_replies n (err : error) : vec ValkeyResult n := vreplicate n (error_reply err).

Definition valkey_over_network {S} (cl : ValkeyClient S) : ValkeyClient S := mkValkeyClient
  (IsValkeyNil cl)
  (λ ctx cmd, over_network ctx error_reply (vc_Do cl ctx cmd))
  (λ ctx cmd ttl, over_network ctx error_reply (vc_DoCache cl ctx cmd ttl))
  (λ ctx cmds, over_network ctx (error_replies _) (vc_DoMulti cl ctx cmds))
  (λ ctx cmds, over_network ctx (error_replies _) (vc_DoMultiCache cl ctx cmds))
  (vc_Close cl).

Definition network_redis : RedisClient entries := redis_over_network fake_redis.
Definition network_valkey : ValkeyClient entries := valkey_over_network fake_valkey.

(** The three ways a command over the network ends. *)
Inductive network_end {S A} (ctx : Context) (broken : error → A) (m : act S A) (w : World S)
    : A * World S → Prop :=
| net_unsent err w1 :
    w1 = (read_clock w).2 → ctx_Err ctx w1 = Some err →
    network_end ctx broken m w (broken err, w1)
| net_unanswered err w1 w3 :
    w1 = (read_clock w).2 → w3 = (read_clock (run m w1).2).2 → ctx_Err ctx w3 = Some err →
    network_end ctx broken m w (broken err, w3)
| net_answered w1 w3 :
    w1 = (read_clock w).2 → w3 = (read_clock (run m w1).2).2 → ctx_Err ctx w3 = None →
    network_end ctx broken m w ((run m w1).1, w3).

Lemma run_over_network {S A} ctx (broken : error → A) (m : act S A) w :
  network_end ctx broken m w (run (over_network ctx broken m) w).
Proof.
  unfold over_network, check_ctx. step.
  destruct (ctx_Err ctx (read_clock w).2) as [err|] eqn:E1; step; [by apply net_unsent|].
  destruct (ctx_Err ctx (read_clock (run m (read_clock w).2).2).2) as [err|] eqn:E2.
  - by eapply net_unanswered.
  - by apply net_answered.
Qed.

(** The errors of a context are the two of the package context. *)
Lemma ctx_Err_error {S} ctx (w : World S) err :
  ctx_Err ctx w = Some err → err = Canceled ∨ err = DeadlineExceeded.
Proof. unfold ctx_Err. repeat case_match; intros [= <-]; eauto. Qed.

Lemma ctx_Err_not_miss {S} ctx (w : World S) err : ctx_Err ctx w = Some err → IsMiss err = false.
Proof. by intros [->| ->]%ctx_Err_error. Qed.

(** What has become of a command's effect when the reply was waited for. *)
Lemma kept_network {S} (db : S → string → Time → option bytes) k w w2 :
  kept db k (read_clock w).2 w2 → kept db k w (read_clock w2).2.
Proof. intros H t Ht. apply H. cbn in Ht. lia. Qed.

Lemma set_network {S} (db : S → string → Time → option bytes) k v d w w2 :
  server_set db k v d (read_clock w).2 w2 → server_set db k v d w (read_clock w2).2.
Proof. apply written_later; [cbn; lia|cbn; lia|done]. Qed.

Lemma maybe_set_network {S} (db : S → string → Time → option bytes) k v d w w2 :
  maybe_set db k v d (read_clock w).2 w2 → maybe_set db k v d w (read_clock w2).2.
Proof. intros [H|H]; [left; by apply set_network|right; by apply kept_network]. Qed.

Definition lost_key {S} (db : S → string → Time → option bytes) k (w : World S) : Prop :=
  ∀ t', w_time w <= t' → db (w_store w) k t' = None.

Lemma lost_network {S} (db : S → string → Time → option bytes) k w :
  lost_key db k w → lost_key db k (read_clock w).2.
Proof. intros H t Ht. apply H. cbn in Ht. lia. Qed.

(** Once done, a context stays so. *)
Lemma ctx_Err_later {S} ctx (w : World S) :
  ctx_Err ctx (read_clock w).2 = None → ctx_Err ctx w = None.
Proof.
  unfold ctx_Err. cbn [read_clock snd w_canceled w_time]. destruct (existsb _ _); [done|].
  destruct (cx_deadline ctx) as [d|]; [|done].
  destruct (Z.leb_spec d (w_time w)); [|done]. by rewrite (proj2 (Z.leb_le _ _)) by lia.
Qed.

Lemma not_done_later {S} ctx (w : World S) (P : Prop) :
  ctx_Err ctx (read_clock w).2 = None → is_Some (ctx_Err ctx w) → P.
Proof. intros H%ctx_Err_later [e He]. congruence. Qed.

Lemma lookup_vreplicate {A} n (x : A) i : (i < n)%nat → vec_to_list (vreplicate n x) !! i = Some x.
Proof. revert i. induction n as [|n IH]; intros [|i] Hi; [lia..|done|]. apply IH. lia. Qed.

Section network.
Context {S : Type} (db : S → string → Time → option bytes).

(** Writes and removals: what holds after a reply without an error, [ok], or
    with one, [maybe]. *)
Lemma network_effect {A} (err : A → option error) (broken : error → A) ctx (m : act S A)
    (touched : string → Prop) (ok maybe : World S → World S → Prop) w :
  (∀ e, is_Some (err (broken e))) →
  (∀ w w2, ok (read_clock w).2 w2 → ok w (read_clock w2).2) →
  (∀ w w2, maybe (read_clock w).2 w2 → maybe w (read_clock w2).2) →
  (∀ w w2, ok w w2 → maybe w w2) → (∀ w, maybe w (read_clock w).2) →
  (∀ w, let r := run m w in w_time w <= w_time r.2
    ∧ (∀ k', ¬ touched k' → kept db k' w r.2)
    ∧ match err r.1 with
      | None => ok w r.2
      | Some _ => is_Some (ctx_Err ctx r.2) ∧ maybe w r.2
      end) →
  let r := run (over_network ctx broken m) w in
  w_time w <= w_time r.2
  ∧ (∀ k', ¬ touched k' → kept db k' w r.2)
  ∧ match err r.1 with
    | None => ok w r.2
    | Some _ => is_Some (ctx_Err ctx r.2) ∧ maybe w r.2
    end.
Proof.
  intros Hb Hok Hmaybe Hom Hnone Hm. destruct (Hm (read_clock w).2) as (Ht & Hf & Hr).
  cbn zeta in *. destruct (run_over_network ctx broken m w)
    as [e ? -> E|e ? ? -> -> E|? ? -> -> E]; cbn [fst snd];
    (split; [cbn in *; lia|split; [intros k' Hk; first [done|by apply kept_network, Hf]|]]).
  - destruct (Hb e) as [? ->]. split; [by eexists|apply Hnone].
  - destruct (Hb e) as [? ->]. split; [by eexists|]. apply Hmaybe.
    destruct (err (run _ _).1); [apply Hr|by apply Hom].
  - destruct (err (run _ _).1); [by destruct Hr as [Hr _]; eapply not_done_later|by apply Hok].
Qed.

Lemma network_set {A} (err : A → option error) (broken : error → A) ctx (m : act S A) k v d w :
  (∀ e, is_Some (err (broken e))) →
  (∀ w, let r := run m w in w_time w <= w_time r.2
    ∧ (∀ k', k' ≠ k → kept db k' w r.2)
    ∧ match err r.1 with
      | None => server_set db k v d w r.2
      | Some _ => is_Some (ctx_Err ctx r.2) ∧ maybe_set db k v d w r.2
      end) →
  let r := run (over_network ctx broken m) w in w_time w <= w_time r.2
    ∧ (∀ k', k' ≠ k → kept db k' w r.2)
    ∧ match err r.1 with
      | None => server_set db k v d w r.2
      | Some _ => is_Some (ctx_Err ctx r.2) ∧ maybe_set db k v d w r.2
      end.
Proof.
  intros Hb Hm. apply (network_effect err broken ctx m (λ k', k' = k) (server_set db k v d)
    (maybe_set db k v d)); [done|intros; by apply set_network|intros; by apply maybe_set_network
    |by left|by right|done].
Qed.

Lemma network_del {A} (err : A → option error) (broken : error → A) ctx (m : act S A) k w :
  (∀ e, is_Some (err (broken e))) →
  (∀ w, let r := run m w in w_time w <= w_time r.2
    ∧ (∀ k', k' ≠ k → kept db k' w r.2)
    ∧ match err r.1 with
      | None => lost_key db k r.2
      | Some _ => is_Some (ctx_Err ctx r.2) ∧ (lost_key db k r.2 ∨ kept db k w r.2)
      end) →
  let r := run (over_network ctx broken m) w in w_time w <= w_time r.2
    ∧ (∀ k', k' ≠ k → kept db k' w r.2)
    ∧ match err r.1 with
      | None => lost_key db k r.2
      | Some _ => is_Some (ctx_Err ctx r.2) ∧ (lost_key db k r.2 ∨ kept db k w r.2)
      end.
Proof.
  intros Hb Hm. apply (network_effect err broken ctx m (λ k', k' = k) (λ _ w', lost_key db k w')
    (λ w w', lost_key db k w' ∨ kept db k w w')); [done|intros; by apply lost_network| |by left
    |by right|done].
  intros w1 w2 [H|H]; [left; by apply lost_network|right; by apply kept_network].
Qed.

(** Giving up keeps the laws, if nil is not an error of a context. *)
Section redis.
Context (cl : RedisClient S) (Hserver : RedisServer cl db).
Context (Hcanceled : errors_Is Canceled (rc_Nil cl) = false).
Context (Hdeadline : errors_Is DeadlineExceeded (rc_Nil cl) = false).
Abbreviation net := (redis_over_network cl).

Lemma ctx_Err_not_nil ctx (w : World S) err :
  ctx_Err ctx w = Some err → errors_Is err (rc_Nil cl) = false.
Proof using Hcanceled Hdeadline. by intros [->| ->]%ctx_Err_error. Qed.

Lemma network_Get ctx k w :
  let r := run (rc_Get net ctx k) w in
  ∃ t, w_time w <= t <= w_time r.2
  ∧ match r.1 with
    | Ok data => db (w_store w) k t = Some data
    | Err e =>
        if errors_Is e (rc_Nil cl) then db (w_store w) k t = None
        else is_Some (ctx_Err ctx r.2) ∧ IsMiss e = false
    end
  ∧ ∀ k' t', t <= t' → db (w_store r.2) k' t' = db (w_store w) k' t'.
Proof using All.
  cbn zeta. destruct (rs_Get (cl := cl) ctx k (read_clock w).2) as (t & Ht & Hr & Hf).
  cbn [redis_over_network rc_Get].
  destruct (run_over_network ctx Err (rc_Get cl ctx k) w)
    as [err ? -> E|err ? ? -> -> E|? ? -> -> E]; cbn [fst snd].
  - exists (w_time (read_clock w).2). split; [cbn; lia|split; [|done]].
    rewrite (ctx_Err_not_nil _ _ _ E), (ctx_Err_not_miss _ _ _ E). by split; [eexists|].
  - exists t. split; [cbn in *; lia|split; [|done]].
    rewrite (ctx_Err_not_nil _ _ _ E), (ctx_Err_not_miss _ _ _ E). by split; [eexists|].
  - exists t. split; [cbn in *; lia|split; [|done]].
    destruct (run (rc_Get cl ctx k) _) as [[data|e] w2]; cbn [fst snd] in *; [done|].
    destruct (errors_Is e _); [done|]. destruct Hr as [Hr _]. by eapply not_done_later.
Qed.

Lemma network_MGet ctx keys w :
  let r := run (rc_MGet net ctx keys) w in
  w_time w <= w_time r.2
  ∧ (∀ k', kept db k' w r.2)
  ∧ match r.1 with
    | Ok vals => ∀ i k, keys !! i = Some k → ∃ t, w_time w <= t <= w_time r.2
        ∧ vec_to_list vals !! i = Some (db (w_store w) k t)
    | Err _ => is_Some (ctx_Err ctx r.2)
    end.
Proof using Hserver.
  cbn zeta. destruct (rs_MGet (cl := cl) ctx keys (read_clock w).2) as (Ht & Hf & Hr).
  cbn [redis_over_network rc_MGet]. cbn zeta in *.
  destruct (run_over_network ctx Err (rc_MGet cl ctx keys) w)
    as [err ? -> E|err ? ? -> -> E|? ? -> -> E]; cbn [fst snd];
    (split; [cbn in *; lia|split; [intros k'; first [done|by apply kept_network, Hf]|]]);
    [by eexists..|].
  destruct (run _ _) as [[vals|e] w2]; cbn [fst snd] in *; [|by eapply not_done_later].
  intros i k Hi. destruct (Hr i k Hi) as (t & ? & ?). exists t. split; [cbn in *; lia|done].
Qed.

Lemma redis_over_network_server : RedisServer net db.
Proof using All.
  split; [exact network_Get| | |exact network_MGet|].
  - intros ctx k v d w Hd. apply (network_set id); [by eexists|]. intros w1. by apply rs_Set.
  - intros ctx k w. apply (network_del id); [by eexists|]. intros w1. apply rs_Del.
  - intros ctx pipe w Hnd Hk.
    apply (network_effect id _ ctx _ (λ k', k' ∈ pipe.*1.*1)
      (λ w w', ∀ k v d, (k, v, d) ∈ pipe → server_set db k v d w w')
      (λ w w', ∀ k v d, (k, v, d) ∈ pipe → maybe_set db k v d w w')); [by eexists|..].
    + intros w1 w2 H k v d Hin. by apply set_network, H.
    + intros w1 w2 H k v d Hin. by apply maybe_set_network, H.
    + intros w1 w2 H k v d Hin. left. by apply H.
    + intros w1 k v d _. by right.
    + intros w1. by apply rs_Exec.
Qed.
End redis.

Section valkey.
Context (cl : ValkeyClient S) (Hserver : ValkeyServer cl db).
Context (Hcanceled : IsValkeyNil cl Canceled = false).
Context (Hdeadline : IsValkeyNil cl DeadlineExceeded = false).
Abbreviation net := (valkey_over_network cl).

Lemma error_reply_failed ctx (w : World S) err :
  ctx_Err ctx w = Some err → get_failed net (error_reply err).
Proof using Hcanceled Hdeadline.
  intros E. exists err. split; [done|split; [|by eapply ctx_Err_not_miss]].
  by apply ctx_Err_error in E as [->| ->].
Qed.

Lemma vnetwork_Get ctx k w :
  let r := run (vc_Do net ctx (CmdGet k)) w in
  ∃ t, w_time w <= t <= w_time r.2
  ∧ (get_reply net (db (w_store w) k t) r.1
     ∨ is_Some (ctx_Err ctx r.2) ∧ get_failed net r.1)
  ∧ ∀ k' t', t <= t' → db (w_store r.2) k' t' = db (w_store w) k' t'.
Proof using All.
  cbn zeta. destruct (vs_Get (cl := cl) ctx k (read_clock w).2) as (t & Ht & Hr & Hf).
  cbn [valkey_over_network vc_Do].
  destruct (run_over_network ctx error_reply (vc_Do cl ctx (CmdGet k)) w)
    as [err ? -> E|err ? ? -> -> E|? ? -> -> E]; cbn [fst snd].
  - exists (w_time (read_clock w).2). split; [cbn; lia|split; [|done]].
    right. split; [by eexists|by eapply error_reply_failed].
  - exists t. split; [cbn in *; lia|split; [|done]].
    right. split; [by eexists|by eapply error_reply_failed].
  - exists t. split; [cbn in *; lia|split; [|done]].
    destruct Hr as [Hr|[Hr _]]; [by left|by eapply not_done_later].
Qed.

Lemma vnetwork_MultiGet ctx keys w :
  let r := run (vc_DoMulti net ctx (CmdGet <$> keys)) w in
  w_time w <= w_time r.2
  ∧ (∀ k', kept db k' w r.2)
  ∧ ∀ i k, keys !! i = Some k → ∃ t res, w_time w <= t <= w_time r.2
      ∧ vec_to_list r.1 !! i = Some res
      ∧ (get_reply net (db (w_store w) k t) res
         ∨ is_Some (ctx_Err ctx r.2) ∧ get_failed net res).
Proof using All.
  cbn zeta. destruct (vs_MultiGet (cl := cl) ctx keys (read_clock w).2) as (Ht & Hf & Hr).
  cbn [valkey_over_network vc_DoMulti]. cbn zeta in *.
  destruct (run_over_network ctx (error_replies _) (vc_DoMulti cl ctx (CmdGet <$> keys)) w)
    as [err ? -> E|err ? ? -> -> E|? ? -> -> E]; cbn [fst snd];
    (split; [cbn in *; lia|split; [intros k'; first [done|by apply kept_network, Hf]|]]);
    intros i k Hi; destruct (Hr i k Hi) as (t & res & Htt & Hres & Hrep).
  1,2: exists (w_time (read_clock w).2), (error_reply err); split; [cbn in *; lia|];
    split; [|right; split; [by eexists|by eapply error_reply_failed]];
    apply lookup_vreplicate; rewrite length_fmap; by eapply lookup_lt_Some.
  exists t, res. split; [cbn in *; lia|]. split; [done|].
  destruct Hrep as [Hrep|[Hd _]]; [by left|by eapply not_done_later].
Qed.

Lemma vnetwork_MultiSet ctx (sets : list (string * bytes * option Duration)) w :
  NoDup (sets.*1.*1) → Forall (λ s, px_ok s.2) sets →
  let r := run (vc_DoMulti net ctx ((λ s, CmdSet s.1.1 s.1.2 s.2) <$> sets)) w in
  w_time w <= w_time r.2
  ∧ (∀ k', k' ∉ sets.*1.*1 → kept db k' w r.2)
  ∧ ∀ i k v o, sets !! i = Some (k, v, o) →
      ∃ res, vec_to_list r.1 !! i = Some res
      ∧ match Error res with
        | None => server_set db k v (default 0 o) w r.2
        | Some _ => is_Some (ctx_Err ctx r.2) ∧ maybe_set db k v (default 0 o) w r.2
        end.
Proof using Hserver.
  intros Hnd Hpx. destruct (vs_MultiSet (cl := cl) ctx sets (read_clock w).2 Hnd Hpx)
    as (Ht & Hf & Hr). cbn [valkey_over_network vc_DoMulti]. cbn zeta in *.
  destruct (run_over_network ctx (error_replies _)
    (vc_DoMulti cl ctx ((λ s, CmdSet s.1.1 s.1.2 s.2) <$> sets)) w)
    as [err ? -> E|err ? ? -> -> E|? ? -> -> E]; cbn [fst snd];
    (split; [cbn in *; lia|split; [intros k' Hk; first [done|by apply kept_network, Hf]|]]);
    intros i k v o Hi; destruct (Hr i k v o Hi) as (res & Hres & Hset).
  1,2: exists (error_reply err); split;
    [apply lookup_vreplicate; rewrite length_fmap; by eapply lookup_lt_Some|];
    split; [by eexists|].
  - by right.
  - apply maybe_set_network. destruct (Error res); [by destruct Hset|by left].
  - exists res. split; [done|]. destruct (Error res); [|by apply set_network].
    destruct Hset as [Hd _]. by eapply not_done_later.
Qed.

Lemma valkey_over_network_server : ValkeyServer net db.
Proof using All.
  split; [exact vnetwork_Get| | |exact vnetwork_MultiGet|exact vnetwork_MultiSet].
  - intros ctx k v o w Ho. apply (network_set Error); [by eexists|]. intros w1. by apply vs_Set.
  - intros ctx k w. apply (network_del Error); [by eexists|]. intros w1. apply vs_Del.
Qed.
End valkey.
End network.

#[export] Instance network_redis_server : RedisServer network_redis fake_db.
Proof. by apply redis_over_network_server; [apply fake_redis_server|..]. Qed.

(** ** A client with a cache of its own

    Reads through the client-side cache are answered from the copies it holds
    for at most their time to live; the server's invalidations never arrive,
    so the copies may be as old as that. *)
Record two_tier := mkTwoTier {
  tt_server : entries;
  tt_local : entries
}.

(** The world as the server's own code sees it, and back. *)
Definition server_world (w : World two_tier) : World entries :=
  mkWorld (w_orc w) (w_reads w) (w_draws w) (w_ranges w) (w_selects w) (w_time w)
    (w_canceled w) (tt_server (w_store w)) (w_trace w).

Definition client_world (local : entries) (w : World entries) : World two_tier :=
  mkWorld (w_orc w) (w_reads w) (w_draws w) (w_ranges w) (w_selects w) (w_time w)
    (w_canceled w) (mkTwoTier (w_store w) local) (w_trace w).

Definition on_server {A} (m : act entries A) : act two_tier A :=
  atom (λ w, let r := run m (server_world w) in
             (r.1, client_world (tt_local (w_store w)) r.2)).

Definition cached_get (k : string) (ttl : Duration) : act two_tier ValkeyResult :=
  t ← now;
  s ← get_store;
  match fake_db (tt_local s) k t with
  | Some v => mret (mkResult (Ok v) None)
  | None =>
      match fake_db (tt_server s) k t with
      | Some v =>
          modify_store (λ s, mkTwoTier (tt_server s)
            (<[k := mkEntry v (Some (t + ttl))]> (tt_local s)));;
          mret (mkResult (Ok v) None)
      | None => mret (mkResult (Err valkey_nil) (Some valkey_nil))
      end
  end.

Definition caching_valkey : ValkeyClient two_tier := mkValkeyClient
  (λ e, errors_Is e valkey_nil)
  (λ _ cmd, on_server (fake_exec cmd))
  (λ _ cmd ttl, match cmd with
                | CmdGet k => cached_get k ttl
                | _ => on_server (fake_exec cmd)
                end)
  (λ _ cmds, on_server (fake_multi cmds))
  (λ _ cmds, on_server (fake_multi_cache cmds))
  (mret ()).

#[export] Instance network_valkey_server : ValkeyServer network_valkey fake_db.
Proof. by apply valkey_over_network_server; [apply fake_valkey_server|..]. Qed.
