(* ===== verification/Reliable.v ===== *)
(** * Clients that answer until the context is done

    RedisServer and ValkeyServer (Redis.v, Valkey.v) speak of a command as a
    whole, which is what a single goroutine sees.  When several goroutines are
    at work, what counts is when a command takes effect: a command of a reliable
    client is a sequence of steps of which some - the server executing it, again
    if the client sends it again - do something a reader can see, while sending
    and receiving take time only.  It is answered truly, or with a failure once
    its context is done.  The promise is made of every step from every world,
    so nothing is assumed about what other goroutines do in between. *)
From stdpp Require Import vector.
From S2P Require Import Prelude Int64 Float64 Errors Runtime Envelope Hooks Codec.
From S2P Require Import Options Cache Server Redis Valkey FakeServer.
From Stdlib Require Import ZArith Lia.
Local Open Scope Z_scope.

(** ** Code that is served *)

Section served.
Context {S : Type} (db : S → string → Time → option bytes).
Implicit Types (w : World S).

(** A step that no reader of the server can tell. *)
Definition unseen w w' : Prop :=
  w_time w <= w_time w' ∧ w_trace w' = w_trace w
  ∧ ∀ k t, w_time w' <= t → db (w_store w') k t = db (w_store w) k t.

(** The failure of a command whose context is done. *)
Definition cut {A} (ctx : Context) (failed : A → Prop) (a : A) w' : Prop :=
  failed a ∧ is_Some (ctx_Err ctx w').

(** Code each step of which is unseen or has the effect [E], and whose answer
    is a [Q], one that [R] allows for an effect it had, or a failure since the
    context was done. *)
Fixpoint served {A} (ctx : Context) (failed : A → Prop) (E : World S → World S → Prop)
    (R : World S → A → World S → Prop) (Q : A → Prop) (m : act S A) : Prop :=
  match m with
  | Ret a => Q a
  | Step f => ∀ w,
      unseen w (f w).2
        ∧ served ctx failed E R (λ a, Q a ∨ cut ctx failed a (f w).2) (f w).1
      ∨ E w (f w).2
        ∧ served ctx failed E R (λ a, Q a ∨ R w a (f w).2 ∨ cut ctx failed a (f w).2) (f w).1
  end.

Definition serves {A} ctx (failed : A → Prop) E R (m : act S A) : Prop :=
  served ctx failed E R (λ _, False) m.

(** ** What the commands do *)

Definition answers {A} (k : string) (reply : option bytes → A → Prop)
    w (a : A) w' : Prop :=
  ∃ t, w_time w <= t <= w_time w' ∧ reply (db (w_store w) k t) a.

Definition writes (k : string) (v : bytes) (d : Duration) w w' : Prop :=
  w_time w <= w_time w' ∧ w_trace w' = w_trace w
  ∧ (∀ k' t, k' ≠ k → w_time w' <= t → db (w_store w') k' t = db (w_store w) k' t)
  ∧ server_set db k v d w w'.

Definition removes (k : string) w w' : Prop :=
  w_time w <= w_time w' ∧ w_trace w' = w_trace w
  ∧ ∀ k' t, w_time w' <= t →
      db (w_store w') k' t = if decide (k' = k) then None else db (w_store w) k' t.

Definition redis_reply (cl : RedisClient S) (o : option bytes) (r : result bytes) : Prop :=
  match o with
  | Some data => r = Ok data
  | None => ∃ e, r = Err e ∧ errors_Is e (rc_Nil cl) = true
  end.

(** An error that is not redis.Nil. *)
Definition redis_failed (cl : RedisClient S) (r : result bytes) : Prop :=
  ∃ e, r = Err e ∧ errors_Is e (rc_Nil cl) = false.

Definition said_yes {A} (err : A → option error) : World S → A → World S → Prop :=
  λ _ a _, err a = None.
Definition said_no {A} (err : A → option error) (a : A) : Prop := is_Some (err a).

Class ReliableRedis (cl : RedisClient S) : Prop := {
  lr_Get ctx k :
    serves ctx (redis_failed cl) unseen (answers k (redis_reply cl)) (rc_Get cl ctx k);
  lr_Set ctx k v d : d ≠ -1 →
    serves ctx (said_no id) (writes k v d) (said_yes id) (rc_Set cl ctx k v d);
  lr_Del ctx k : serves ctx (said_no id) (removes k) (said_yes id) (rc_Del cl ctx k)
}.

Class ReliableValkey (cl : ValkeyClient S) : Prop := {
  lv_Get ctx k :
    serves ctx (get_failed cl) unseen (answers k (get_reply cl)) (vc_Do cl ctx (CmdGet k));
  lv_Set ctx k v o : px_ok o →
    serves ctx (said_no Error) (writes k v (default 0 o)) (said_yes Error)
      (vc_Do cl ctx (CmdSet k v o));
  lv_Del ctx k :
    serves ctx (said_no Error) (removes k) (said_yes Error) (vc_Do cl ctx (CmdDel k))
}.

Lemma unseen_trans w1 w2 w3 : unseen w1 w2 → unseen w2 w3 → unseen w1 w3.
Proof.
  intros (H1 & H2 & H3) (H4 & H5 & H6). split_and!; [lia|congruence|].
  intros k t Ht. rewrite H6, H3 by lia. done.
Qed.

Lemma unseen_refl w : unseen w w.
Proof. split_and!; [lia|done|done]. Qed.

Lemma unseen_read_clock w : unseen w (read_clock w).2.
Proof. split_and!; [cbn; lia|done|done]. Qed.
End served.
Arguments ReliableRedis {S} db cl. Arguments ReliableValkey {S} db cl.

(** The PX argument of a ValkeyCache's SET for a resolved TTL. *)
Definition plain_px (d : Duration) : option Duration :=
  if 0 <? d then Some (Z.max d Millisecond) else None.

Lemma plain_px_ok d : px_ok (plain_px d).
Proof. unfold plain_px. case_match; [|done]. intros ? [= <-]. unfold Millisecond. lia. Qed.

Lemma plain_px_floor d :
  (let e := if (0 <? d) && (d <? Millisecond) then Millisecond else d in
   if 0 <? e then Some e else None) = plain_px d.
Proof.
  unfold plain_px, Millisecond.
  destruct (Z.ltb_spec 0 d), (Z.ltb_spec d 1000000); cbn [andb];
    rewrite ?(proj2 (Z.ltb_lt 0 1000000)), ?(proj2 (Z.ltb_lt 0 d)),
      ?(proj2 (Z.ltb_ge 0 d)) by lia; try done; f_equal; lia.
Qed.

(** ** The clients over a network

    FakeServer.v's [over_network]: the middle one of three steps executes the
    command. *)
Lemma served_over_network {S A} (db : S → string → Time → option bytes) ctx
    (failed : A → Prop) (E : World S → World S → Prop) R (broken : error → A) (m : act S A) :
  (∀ (w : World S) e, ctx_Err ctx w = Some e → failed (broken e)) →
  (∀ w, E w (run m w).2 ∧ R w (run m w).1 (run m w).2) →
  serves db ctx failed E R (over_network ctx broken m).
Proof.
  intros Hb Hm w. cbn [over_network check_ctx atom mbind act_mbind act_bind_def]. left.
  split; [apply unseen_read_clock|].
  destruct (ctx_Err ctx (read_clock w).2) as [e|] eqn:E1.
  { right. split; [by eapply Hb|by eexists]. }
  intros w1. right. unfold locked. cbn [atom]. destruct (Hm w1) as [H1 H2].
  destruct (run m w1) as [a w2]. cbn [fst snd] in *. split; [exact H1|].
  intros w3. left. split; [apply unseen_read_clock|]. cbn [fst act_bind_def].
  destruct (ctx_Err ctx (read_clock w3).2) as [e|] eqn:E3; cbn.
  - right. split; [by eapply Hb|by eexists].
  - left. right. by left.
Qed.

Lemma run_fake_get_reply {A} k (g : option bytes → A) (w : World entries) :
  run (r ← fake_get k; mret (g r)) w
  = (g (fake_db (w_store w) k (read_clock w).1), (read_clock w).2).
Proof. by rewrite run_bind, run_fake_get, run_ret. Qed.

Lemma fake_get_answers {A} k (reply : option bytes → A → Prop) (g : option bytes → A) w :
  (∀ o, reply o (g o)) →
  let r := run (r ← fake_get k; mret (g r)) w in
  unseen fake_db w r.2 ∧ answers fake_db k reply w r.1 r.2.
Proof.
  intros Hg. cbn zeta. rewrite run_fake_get_reply. split; [apply unseen_read_clock|].
  exists (read_clock w).1. split; [cbn; lia|apply Hg].
Qed.

Lemma fake_set_writes {A} k v d (a : A) w :
  let r := run (fake_set k v d;; mret a) w in r.1 = a ∧ writes fake_db k v d w r.2.
Proof.
  cbn zeta. rewrite run_bind, run_ret. cbn [fst snd]. split; [done|].
  destruct (run_fake_set k v d w) as (Ht & Hf & Hw).
  split_and!; [exact Ht|by unfold fake_set; step|by intros; apply Hf|exact Hw].
Qed.

Lemma fake_del_removes {A} k (a : A) w :
  let r := run (fake_del k;; mret a) w in r.1 = a ∧ removes fake_db k w r.2.
Proof.
  cbn zeta. rewrite run_bind, run_ret. cbn [fst snd]. split; [done|].
  destruct (run_fake_del k w) as [Ht Hf]. split_and!; [lia|done|by intros; apply Hf].
Qed.

#[export] Instance network_redis_reliable : ReliableRedis fake_db network_redis.
Proof.
  split; intros; apply served_over_network; cbn [fake_redis rc_Get rc_Set rc_Del].
  - intros w e He. exists e. split; [done|]. by apply ctx_Err_error in He as [->| ->].
  - intros w. apply fake_get_answers. intros [data|]; [done|]. by eexists.
  - by eexists.
  - intros w. by destruct (fake_set_writes k v d (None : option error) w).
  - by eexists.
  - intros w. by destruct (fake_del_removes k (None : option error) w).
Qed.

#[export] Instance network_valkey_reliable : ReliableValkey fake_db network_valkey.
Proof.
  split; intros; apply served_over_network; cbn [fake_valkey vc_Do fake_exec].
  - intros w e He. exists e. split; [done|].
    split; [|by eapply ctx_Err_not_miss]. by apply ctx_Err_error in He as [->| ->].
  - intros w. apply fake_get_answers. intros [data|]; [done|]. by eexists.
  - by eexists.
  - intros w. by destruct (fake_set_writes k v (default 0 o) (mkResult (Ok []) None) w) as [-> ?].
  - by eexists.
  - intros w. by destruct (fake_del_removes k (mkResult (Ok []) None) w) as [-> ?].
Qed.
