(* ===== verification/Lossy.v ===== *)
(** * Clients that fail, retry and keep copies

    The clients of Reliable.v answer until the context of a command is done.
    Real ones also lose connections and replies, fail at any time, and -
    valkey-go with client-side caching - answer reads from copies of their own.
    Here a command is a sequence of steps, any number of which have its effect,
    before a reply that may be an error whatever happened.  What is asked: nothing is
    read that the server, or a copy, did not hold at some instant meanwhile,
    and a command has no effect after its reply.

    [near s k u d]: [d] may still be answered at [u] from a copy made by then,
    one that is on its way included. *)
From stdpp Require Import vector.
From S2P Require Import Prelude Int64 Float64 Errors Runtime Envelope Hooks Codec.
From S2P Require Import Options Cache Server Redis Valkey FakeServer Reliable.
From Stdlib Require Import ZArith Lia.
Local Open Scope Z_scope.

(** ** Code that is tried again *)

Section tries.
Context {S : Type}.
Implicit Types (w : World S).

(** Code each step of which is an [E]; its answer is a [Q], or one that [F]
    allows for some step it took. *)
Fixpoint tries {A} (E : World S → World S → Prop) (F : World S → A → World S → Prop)
    (Q : A → Prop) (m : act S A) : Prop :=
  match m with
  | Ret a => Q a
  | Step f => ∀ w, E w (f w).2 ∧ tries E F (λ a, Q a ∨ F w a (f w).2) (f w).1
  end.

(** Where the answer tells nothing. *)
Definition untold {A} : World S → A → World S → Prop := λ _ _ _, True.
Definition any {A} (a : A) : Prop := True.

Lemma tries_mono {A} (E E' : World S → World S → Prop) (F F' : World S → A → World S → Prop)
    (Q Q' : A → Prop) m :
  (∀ w w', E w w' → E' w w') → (∀ w a w', F w a w' → F' w a w') → (∀ a, Q a → Q' a) →
  tries E F Q m → tries E' F' Q' m.
Proof.
  intros HE HF. revert Q Q'. induction m as [a|f IH] using act_rect'; intros Q Q' HQ Hm;
    [by apply HQ|].
  intros w. destruct (Hm w) as [H1 H2]. split; [by apply HE|].
  eapply IH; [|exact H2]. intros a [Ha|Ha]; [left|right]; auto.
Qed.

Lemma tries_bind {A A'} (E : World S → World S → Prop) F F' (Q : A → Prop) (Q' : A' → Prop) m k :
  tries E F Q m →
  (∀ a, Q a → tries E F' Q' (k a)) →
  (∀ w a w' Q2, F w a w' → (∀ a', Q' a' → Q2 a') → (∀ a', F' w a' w' → Q2 a') →
     tries E F' Q2 (k a)) →
  tries E F' Q' (m ≫= k).
Proof.
  intros Hm HQ HF. revert Q Q' Hm HQ HF.
  induction m as [a|f IH] using act_rect'; intros Q Q' Hm HQ HF; [by apply HQ|].
  intros w. destruct (Hm w) as [H1 H2]. specialize (IH w). simpl.
  destruct (f w) as [m' w'] eqn:Ef. cbn [fst snd] in *. split; [done|].
  eapply IH; [exact H2| |].
  - intros a [Ha|Ha]; [|by apply (HF w a w'); [|left|right]].
    eapply tries_mono; [done|done| |by apply HQ]. by left.
  - intros w1 a w1' Q2 Ha HQ2 HF2. apply (HF w1 a w1'); [done| |done]. intros a' Ha'.
    apply HQ2. by left.
Qed.

Lemma tries_atom {A} E F (Q : A → Prop) (f : World S → A * World S) :
  (∀ w, E w (f w).2 ∧ (Q (f w).1 ∨ F w (f w).1 (f w).2)) → tries E F Q (atom f).
Proof. intros H w. specialize (H w). simpl. by destruct (f w). Qed.

(** Code that is served is code that is tried. *)
Lemma served_tries {A} db ctx (failed : A → Prop) (E E' : World S → World S → Prop) R F
    (Q Q' : A → Prop) (m : act S A) :
  (∀ w w', unseen db w w' → E' w w') → (∀ w w', E w w' → E' w w') →
  (∀ w a w', R w a w' → F w a w') → (∀ a w', cut ctx failed a w' → Q' a) →
  (∀ a, Q a → Q' a) → served db ctx failed E R Q m → tries E' F Q' m.
Proof.
  intros HU HE HR Hcut. revert Q Q' Hcut.
  induction m as [a|f IH] using act_rect'; intros Q Q' Hcut HQ Hm; [by apply HQ|].
  intros w. destruct (Hm w) as [[H1 H2]|[H1 H2]]; (split; [auto|]); (eapply IH; [| |exact H2]);
    [by intros a w' Ha; left; eapply Hcut| |by intros a w' Ha; left; eapply Hcut|].
  - intros a [Ha|Ha]; left; [by apply HQ|by eapply Hcut].
  - intros a [Ha|[Ha|Ha]]; [left; by apply HQ|right; by apply HR|left; by eapply Hcut].
Qed.
End tries.

(** ** What the commands do *)

Section commands.
Context {S : Type} (db : S → string → Time → option bytes).
Context (near : S → string → Time → bytes → Prop).
Implicit Types (w : World S).

(** No copy is made. *)
Definition no_copies w w' : Prop :=
  ∀ k u d, w_time w' <= u → near (w_store w') k u d → near (w_store w) k u d.

Definition unnoticed w w' : Prop := unseen db w w' ∧ no_copies w w'.

(** The answer holds what the server held meanwhile. *)
Definition found {A} (k : string) (got : A → bytes → Prop) w (a : A) w' : Prop :=
  ∃ t, w_time w <= t <= w_time w' ∧ ∀ d, got a d → db (w_store w) k t = Some d.

(** The answer holds that, or what a copy held. *)
Definition recalled {A} (k : string) (got : A → bytes → Prop) w (a : A) w' : Prop :=
  ∃ t, w_time w <= t <= w_time w' ∧
    ∀ d, got a d → near (w_store w) k t d ∨ db (w_store w) k t = Some d.

(** A copy of what the server holds may be made, to last for [ttl]. *)
Definition copied (k : string) (ttl : Duration) w w' : Prop :=
  unseen db w w' ∧ ∃ t, w_time w <= t <= w_time w'
    ∧ ∀ k' u d, w_time w' <= u → near (w_store w') k' u d →
        near (w_store w) k' u d ∨ k' = k ∧ u < t + ttl ∧ db (w_store w) k t = Some d.

Definition stored (k : string) (v : bytes) (d : Duration) w w' : Prop :=
  unnoticed w w' ∨ writes db k v d w w' ∧ no_copies w w'.

Definition dropped (k : string) w w' : Prop :=
  unnoticed w w' ∨ removes db k w w' ∧ no_copies w w'.

Definition no_data {A} (got : A → bytes → Prop) (a : A) : Prop := ∀ d, ¬ got a d.

Abbreviation lossy_read k got := (tries unnoticed (found k got) (no_data got)).
Abbreviation lossy_write k v d := (tries (stored k v d) untold any).
Abbreviation lossy_remove k := (tries (dropped k) untold any).

Definition redis_got (r : result bytes) (d : bytes) : Prop := r = Ok d.
Definition valkey_got (r : ValkeyResult) (d : bytes) : Prop := AsBytes r = Ok d.

Class LossyRedis (cl : RedisClient S) : Prop := {
  yr_Get ctx k : lossy_read k redis_got (rc_Get cl ctx k);
  yr_Set ctx k v d : d ≠ -1 → lossy_write k v d (rc_Set cl ctx k v d);
  yr_Del ctx k : lossy_remove k (rc_Del cl ctx k)
}.

Class LossyValkey (cl : ValkeyClient S) : Prop := {
  yv_Get ctx k : lossy_read k valkey_got (vc_Do cl ctx (CmdGet k));
  yv_Set ctx k v o : px_ok o → lossy_write k v (default 0 o) (vc_Do cl ctx (CmdSet k v o));
  yv_Del ctx k : lossy_remove k (vc_Do cl ctx (CmdDel k))
}.

(** Reads through the client's copies, which last for the TTL asked for. *)
Class NearCache (cl : ValkeyClient S) : Prop :=
  near_Get ctx k ttl :
    tries (copied k ttl) (recalled k valkey_got) (no_data valkey_got)
      (vc_DoCache cl ctx (CmdGet k) ttl).

End commands.
Arguments LossyRedis {S} db near cl. Arguments LossyValkey {S} db near cl.
Arguments NearCache {S} db near cl.

(** A client without copies. *)
Definition nowhere {S} (s : S) (k : string) (u : Time) (d : bytes) : Prop := False.

Lemma unseen_nowhere {S} db (w w' : World S) : unseen db w w' → unnoticed db nowhere w w'.
Proof. intros Hu. split; [done|by intros k u d _ []]. Qed.

(** Reliable clients are a special case. *)
Lemma served_read {S A} db ctx k (failed : A → Prop) (reply : option bytes → A → Prop)
    (got : A → bytes → Prop) (m : act S A) :
  (∀ o a d, reply o a → got a d → o = Some d) → (∀ a, failed a → no_data got a) →
  serves db ctx failed (unseen db) (answers db k reply) m →
  tries (unnoticed db nowhere) (found db k got) (no_data got) m.
Proof.
  intros Hgot Hno Hm. eapply served_tries; [apply unseen_nowhere|apply unseen_nowhere| | |
    |exact Hm]; [|by intros a w' [Ha _]; apply Hno|done].
  intros w r w' (t & Ht & Hr). exists t. split; [done|]. intros d. by apply Hgot.
Qed.

Lemma served_write {S A} db ctx k v d (err : A → option error) (m : act S A) :
  serves db ctx (said_no err) (writes db k v d) (said_yes err) m →
  tries (stored db nowhere k v d) untold any m.
Proof.
  intros Hm. eapply served_tries; [| | | | |exact Hm]; [| |done..].
  - intros w w' Hu. left. by apply unseen_nowhere.
  - intros w w' Hw. right. split; [done|by intros ? ? ? _ []].
Qed.

Lemma served_remove {S A} db ctx k (err : A → option error) (m : act S A) :
  serves db ctx (said_no err) (removes db k) (said_yes err) m →
  tries (dropped db nowhere k) untold any m.
Proof.
  intros Hm. eapply served_tries; [| | | | |exact Hm]; [| |done..].
  - intros w w' Hu. left. by apply unseen_nowhere.
  - intros w w' Hw. right. split; [done|by intros ? ? ? _ []].
Qed.

#[export] Instance reliable_redis_lossy {S} db (cl : RedisClient S) :
  ReliableRedis db cl → LossyRedis db nowhere cl.
Proof.
  intros Hl. split; intros.
  - eapply served_read; [| |apply (lr_Get db)].
    + intros [data|] r d; [by intros -> [= <-]|by intros (e & -> & _)].
    + by intros r (e & -> & _) d.
  - by eapply served_write, (lr_Set db).
  - eapply served_remove, (lr_Del db).
Qed.

#[export] Instance reliable_valkey_lossy {S} db (cl : ValkeyClient S) :
  ReliableValkey db cl → LossyValkey db nowhere cl.
Proof.
  intros Hl. split; intros.
  - eapply served_read; [| |apply (lv_Get db)]; unfold valkey_got.
    + intros [data|] r d; cbn; [congruence|]. intros (e & He & _). congruence.
    + intros r (e & He & _) d. congruence.
  - by eapply served_write, (lv_Set db).
  - eapply served_remove, (lv_Del db).
Qed.

(** ** A network that loses requests and replies

    Each is lost with one chance in sixteen; the client tries [n] times. *)
Definition lost {S} : act S bool := u ← rand_Float64; mret (flt u (of_draw (2 ^ 49))).

Fixpoint attempts {S A} (n : nat) (broken : A) (m : act S A) : act S A :=
  match n with
  | O => mret broken
  | Datatypes.S n =>
      b ← lost;
      if b : bool then attempts n broken m
      else
        a ← locked m;
        b ← lost;
        if b : bool then attempts n broken m else mret a
  end.

Lemma tries_lost {S A} E F (Q : A → Prop) (k : bool → act S A) :
  (∀ w, E w (read_rand w).2) →
  (∀ b Q', (∀ a, Q a → Q' a) → tries E F Q' (k b)) → tries E F Q (b ← lost; k b).
Proof.
  intros HE Hk w. split; [apply HE|].
  apply (Hk (flt (read_rand w).1 (of_draw (2 ^ 49)))). by left.
Qed.

Lemma tries_attempts {S A} E F (Q : A → Prop) n broken (m : act S A) :
  (∀ w, E w (read_rand w).2) → (∀ w, E w (run m w).2 ∧ F w (run m w).1 (run m w).2) →
  Q broken → tries E F Q (attempts n broken m).
Proof.
  intros HE Hm. revert Q. induction n as [|n IH]; intros Q Hb; [done|].
  apply tries_lost; [done|]. intros [|] Q' HQ; [by apply IH, HQ|].
  eapply (tries_bind E F F Q').
  - apply tries_atom. intros w. destruct (Hm w). split; [done|by right].
  - intros a Ha. apply tries_lost; [done|]. intros [|] Q2 HQ2; [by apply IH, HQ2, HQ|by apply HQ2].
  - intros w a w' Q2 HF HQ2 HF2. apply tries_lost; [done|].
    intros [|] Q3 HQ3; [by apply IH, HQ3, HQ2, HQ|by apply HQ3, HF2].
Qed.

Definition no_route : error := ErrOther "no route to host".

Definition lossy_redis (n : nat) : RedisClient entries := mkRedisClient redis_nil
  (λ ctx k, attempts n (Err no_route) (rc_Get fake_redis ctx k))
  (λ ctx k v d, attempts n (Some no_route) (rc_Set fake_redis ctx k v d))
  (λ ctx k, attempts n (Some no_route) (rc_Del fake_redis ctx k))
  (λ ctx, attempts n (Some no_route) (rc_Ping fake_redis ctx))
  (λ ctx ks, attempts n (Err no_route) (rc_MGet fake_redis ctx ks))
  (λ ctx pipe, attempts n (Some no_route) (rc_Exec fake_redis ctx pipe))
  (mret None).

Definition no_reply : ValkeyResult := mkResult (Err no_route) (Some no_route).

Definition lossy_valkey (n : nat) : ValkeyClient two_tier := mkValkeyClient
  (λ e, errors_Is e valkey_nil)
  (λ _ cmd, attempts n no_reply (on_server (fake_exec cmd)))
  (λ _ cmd ttl, match cmd with
                | CmdGet k => attempts n no_reply (cached_get k ttl)
                | _ => attempts n no_reply (on_server (fake_exec cmd))
                end)
  (λ _ cmds, attempts n (vreplicate _ no_reply) (on_server (fake_multi cmds)))
  (λ _ cmds, attempts n (vreplicate _ no_reply) (on_server (fake_multi_cache cmds)))
  (mret ()).

Lemma unseen_read_rand {S} db (w : World S) : unseen db w (read_rand w).2.
Proof. split_and!; [cbn; lia|done|done]. Qed.

Lemma unnoticed_rand {S} db near (w : World S) : unnoticed db near w (read_rand w).2.
Proof. split; [apply unseen_read_rand|]. by intros k u d. Qed.

#[export] Instance lossy_redis_lossy n : LossyRedis fake_db nowhere (lossy_redis n).
Proof.
  split; intros; apply tries_attempts; try done; intros w;
    try apply unnoticed_rand; try (left; apply unnoticed_rand); cbn [fake_redis rc_Get rc_Set rc_Del].
  - destruct (fake_get_answers k (redis_reply fake_redis)
      (λ r, match r with Some v => Ok v | None => Err redis_nil end) w) as [Hu (t & Ht & Hr)].
    { intros [v|]; [done|]. by eexists. }
    split; [by apply unseen_nowhere|]. exists t. split; [done|]. intros d Hd.
    unfold redis_got in Hd. rewrite Hd in Hr. destruct (fake_db _ _ _); [by injection Hr as ->|].
    by destruct Hr as (? & ? & _).
  - split; [|done]. right. split; [|by intros ? ? ? _ []].
    by destruct (fake_set_writes k v d (None : option error) w) as (_ & Hw).
  - split; [|done]. right. split; [|by intros ? ? ? _ []].
    by destruct (fake_del_removes k (None : option error) w) as (_ & Hw).
Qed.

(** The server and the copies of [two_tier]. *)
Definition tt_db (s : two_tier) : string → Time → option bytes := fake_db (tt_server s).
Definition tt_near (s : two_tier) (k : string) (u : Time) (d : bytes) : Prop :=
  fake_db (tt_local s) k u = Some d.

Lemma run_on_server {A} (m : act entries A) w :
  run (on_server m) w
  = ((run m (server_world w)).1,
     client_world (tt_local (w_store w)) (run m (server_world w)).2).
Proof. unfold on_server. by rewrite run_atom. Qed.

Lemma cached_get_recalls k ttl w :
  let r := run (cached_get k ttl) w in
  copied tt_db tt_near k ttl w r.2 ∧ recalled tt_db tt_near k valkey_got w r.1 r.2.
Proof.
  cbn zeta. unfold cached_get. step. set (t := (read_clock w).1).
  change (w_store (read_clock w).2) with (w_store w).
  assert (w_time w <= t) as Ht by (cbn; lia).
  assert (∀ w', w_store w' = w_store w → w_trace w' = w_trace w → w_time w' = t →
    copied tt_db tt_near k ttl w w') as Hsame.
  { intros w' Hs Htr Htm. split; [split_and!; [lia|done|by rewrite Hs]|].
    exists t. split; [lia|]. intros k' u d _. rewrite Hs. by left. }
  destruct (fake_db (tt_local (w_store w)) k t) as [v|] eqn:E1.
  { step. split; [by apply Hsame|]. exists t. split; [cbn; lia|]. intros d [= <-]. by left. }
  destruct (fake_db (tt_server (w_store w)) k t) as [v|] eqn:E2; step.
  - split; [|exists t; split; [cbn; lia|]; intros d [= <-]; by right].
    split; [by split_and!|]. exists t. split; [cbn; lia|]. intros k' u d Hu.
    unfold tt_near. cbn [set_store w_store snd tt_local read_clock]. unfold fake_db at 1.
    destruct (decide (k' = k)) as [->|Hne]; [|rewrite lookup_insert_ne by done; by left].
    rewrite lookup_insert_eq. cbn [mbind option_bind]. unfold entry_at. cbn [en_expiry en_val].
    destruct (Z.ltb_spec u (t + ttl)); [|done]. intros [= <-]. right. by split_and!.
  - split; [by apply Hsame|]. exists t. split; [cbn; lia|]. by intros d [=].
Qed.

#[export] Instance lossy_valkey_lossy n : LossyValkey tt_db tt_near (lossy_valkey n).
Proof.
  split; intros; apply tries_attempts; try done; intros w;
    try apply unnoticed_rand; try (left; apply unnoticed_rand); rewrite run_on_server; cbn [fst snd].
  - destruct (fake_get_answers k (get_reply fake_valkey)
      (λ r, match r with Some v => mkResult (Ok v) None
            | None => mkResult (Err valkey_nil) (Some valkey_nil) end) (server_world w))
      as [Hu (t & Ht & Hr)].
    { intros [v|]; [done|]. by eexists. }
    split; [split; [exact Hu|by intros ? ? ?]|]. exists t. split; [done|]. unfold valkey_got. intros d Hd.
    cbn [fake_exec] in Hd. unfold tt_db. change (tt_server (w_store w)) with
      (w_store (server_world w)). unfold get_reply in Hr.
    destruct (fake_db _ _ _); [congruence|]. destruct Hr as (? & ? & _). congruence.
  - split; [|done]. right. split; [|by intros ? ? ?].
    by destruct (fake_set_writes k v (default 0 o) (mkResult (Ok []) None)
      (server_world w)) as (_ & Hw).
  - split; [|done]. right. split; [|by intros ? ? ?].
    by destruct (fake_del_removes k (mkResult (Ok []) None) (server_world w)) as (_ & Hw).
Qed.

#[export] Instance lossy_valkey_near n : NearCache tt_db tt_near (lossy_valkey n).
Proof.
  intros ctx k ttl. apply tries_attempts; [|apply cached_get_recalls|done].
  intros w. split; [apply unseen_read_rand|]. exists (w_time w). split; [cbn; lia|].
  intros k' u d _ Hn. by left.
Qed.
