(* ===== verification/BackendThms.v ===== *)
(** * The backends: the theorems

    Each backend keeps its contract of the Cache and BatchCache interfaces:
    MemoryCache under every context, the network backends until the context or
    OpTimeout is done; what RedisCache does with a sequence of operations; and,
    per backend, what every branch of an operation returns and reports. *)
From stdpp Require Import vector.
From S2P Require Import Prelude Int64 Float64 Errors Runtime Envelope Hooks Codec.
From S2P Require Import Options Cache Memory Server Redis Valkey FakeServer Group.
From S2P Require Import GetOrSet Instances.
From Stdlib Require Import ZArith Lia.
Local Open Scope Z_scope.

(** ** Any backend *)

(** Operations of a client on one cache. *)
Inductive cache_op :=
| CGet (ctx : Context) (key : string)
| CSet (ctx : Context) (key : string) (val : bytes) (ttl : Duration)
| CDelete (ctx : Context) (key : string).

Definition run_op {S} (c : Cache S) (op : cache_op) : act S () :=
  match op with
  | CGet ctx k => c_Get c ctx k;; mret ()
  | CSet ctx k v ttl => c_Set c ctx k v ttl;; mret ()
  | CDelete ctx k => c_Delete c ctx k;; mret ()
  end.

(** The operation does not write [k]. *)
Definition leaves (k : string) (op : cache_op) : Prop :=
  match op with
  | CGet _ _ => True
  | CSet _ k' _ _ | CDelete _ k' => k' ≠ k
  end.

Section any.
Context {S} (c : Cache S) view lifetime d `{!BoundedCacheSpec c view lifetime d}.
Implicit Types w : World S.

Lemma run_op_leaves k op w :
  leaves k op →
  let w' := (run (run_op c op) w).2 in w_time w <= w_time w' ∧ kept view k w w'.
Proof.
  intros Hk. cbn zeta. destruct op as [ctx k'|ctx k' v ttl|ctx k']; cbn [run_op]; step.
  - destruct (bspec_Get ctx k' w) as (t & Ht & _ & Hf). split; [lia|].
    intros t' Ht'. apply Hf. lia.
  - destruct (bspec_Set ctx k' v ttl w) as (Ht & Hf & _). split; [done|]. by apply Hf.
  - destruct (bspec_Delete ctx k' w) as (Ht & Hf & _). split; [done|]. by apply Hf.
Qed.

Lemma run_ops_leave k ops w :
  Forall (leaves k) ops →
  let w' := (run (for_each (run_op c) ops) w).2 in w_time w <= w_time w' ∧ kept view k w w'.
Proof.
  cbn zeta. intros Hops. revert w. induction Hops as [|op ops Hop _ IH]; intros w.
  { simpl. split; [lia|done]. }
  rewrite run_for_each_cons. destruct (run_op_leaves k op w Hop) as [Ht1 Hv1].
  destruct (IH (run (run_op c op) w).2) as [Ht2 Hv2].
  split; [lia|]. intros t Ht. rewrite Hv2, Hv1 by lia. done.
Qed.

(** A written value, while and after it lives, if nobody writes the key. *)
Lemma visible_window k v ttl base (w w1 w2 : World S) t :
  written view lifetime k v ttl w w1 → w_time w1 <= w_time w2 → kept view k w1 w2 →
  (∀ e, lifetime v ttl e →
     (base <= 0 → e <= 0) ∧ (0 < base → 0 < e ∧ floor_ms base <= e <= Z.max base Millisecond)) →
  w_time w2 <= t →
  ((base <= 0 ∨ t < w_time w + floor_ms base) → view (w_store w2) k t = Some v)
  ∧ (0 < base → w_time w1 + Z.max base Millisecond <= t → view (w_store w2) k t = None).
Proof.
  intros (e & He & Hforever & Huntil) Hle Hk Hl Ht. destruct (Hl e He) as [Hl1 Hl2].
  rewrite Hk by lia. split.
  - intros Hwin. destruct (Z.le_gt_cases e 0) as [Hneg|Hpos]; [apply Hforever; lia|].
    destruct (Huntil Hpos) as (d' & Hd & Hv). rewrite Hv by lia.
    rewrite (proj2 (Z.ltb_lt _ _)); [done|]. lia.
  - intros Hb Hlate. destruct (Hl2 Hb) as [Hpos Hmax].
    destruct (Huntil Hpos) as (d' & Hd & Hv). rewrite Hv by lia.
    by rewrite (proj2 (Z.ltb_ge _ _)) by lia.
Qed.

(** A Get of a key whose content does not change while it runs. *)
Lemma bounded_Get_of ctx k w o :
  let r := run (c_Get c ctx k) w in
  (∀ t, w_time w <= t <= w_time r.2 → view (w_store w) k t = o) →
  match r.1 with
  | Ok data => o = Some data
  | Err e => if IsMiss e then o = None else op_done d ctx w r.2
  end.
Proof.
  cbn zeta. intros Ho. destruct (bspec_Get ctx k w) as (t & Ht & Hr & _).
  rewrite Ho in Hr by done. by destruct (run _ w).1.
Qed.
End any.

(** ** MemoryCache *)

(** C24: MemoryCache implements the Cache and BatchCache interfaces: its
    operations on the mutex-guarded map refine the contract of the interface,
    with [mem_view] as the abstract state; the batch operations are the
    pointwise ones. *)
Theorem MemoryCache_refines {T} (c : MemoryCache T) :
  BatchCacheSpec (MemoryCache_Cache c) (mem_view c) (mem_lifetime c).
Proof. apply MemoryCache_full_spec. Qed.

(** MemoryCache.Get fires exactly one hook per call, OnHit when it returns
    bytes and OnMiss when it returns an error, which then wraps ErrCacheMiss;
    an entry past its deadline is a miss and is dropped from the map, an entry
    before it is left in place. *)
Theorem MemoryCache_Get_hooks {T} (c : MemoryCache T) ctx key (w : World items) :
  let r := run (mem_Get c ctx key) w in
  w_trace r.2 = w_trace w ++ match r.1 with
                             | Ok _ => ev_if (OnHit (m_hooks c)) (EvHit key)
                             | Err _ => ev_if (OnMiss (m_hooks c)) (EvMiss key)
                             end
  ∧ (∀ e, r.1 = Err e → IsMiss e = true)
  ∧ match w_store w !! mem_key c key with
    | None => is_Ok r.1 = false ∧ w_store r.2 = w_store w
    | Some it =>
        if IsZero (mi_deadline it) then r.1 = Ok (mi_val it) ∧ w_store r.2 = w_store w
        else if (read_clock w).1 <? mi_deadline it
        then r.1 = Ok (mi_val it) ∧ w_store r.2 = w_store w
        else is_Ok r.1 = false ∧ w_store r.2 = delete (mem_key c key) (w_store w)
    end.
Proof.
  cbn zeta. unfold mem_Get, mem_lookup. step.
  assert (∀ (b : bytes) e, Ok b = Err e → IsMiss e = true) as Hok by done.
  assert (∀ e, @Err bytes (Errorf "%w: %s" [AStr key] (Some ErrCacheMiss)) = Err e →
    IsMiss e = true) as Herr by (by intros e [= <-]).
  destruct (w_store w !! mem_key c key) as [it|]; do 2 step; [|split_and!; done || apply Herr].
  destruct (IsZero (mi_deadline it)); do 2 step;
    [split_and!; done || apply Hok|].
  unfold Before. destruct ((read_clock w).1 <? mi_deadline it);
    cbn [negb]; do 3 step; split_and!;
    done || apply Hok || apply Herr.
Qed.

(** MemoryCache.GetMany never fails, and accounts for every key: after the
    lookups it fires OnHit for the keys it found, in order, then OnMiss for
    the others; together they are the keys given, and exactly the keys with an
    OnHit are in the result. *)
Theorem MemoryCache_GetMany_hooks {T} (c : MemoryCache T) ctx keys (w : World items) :
  ∃ out hits misses w',
    run (mem_GetMany c ctx keys) w = (Ok out, w')
    ∧ w_trace w' = w_trace w ++ (if OnHit (m_hooks c) then EvHit <$> hits else [])
                   ++ (if OnMiss (m_hooks c) then EvMiss <$> misses else [])
    ∧ hits ++ misses ≡ₚ keys
    ∧ ∀ k, k ∈ hits ↔ is_Some (out !! k).
Proof.
  rewrite run_mem_GetMany. destruct (getmany_inv_loop c keys w) as [_ Htr _ _ _ Hp Hh].
  destruct (run (for_fold _ _ _) w) as [[[out hits] misses] w1]. cbn [fst snd] in *.
  eexists out, hits, misses, _. split; [done|]. cbn [w_trace add_events].
  by rewrite Htr, (assoc_L (++)).
Qed.

(** NewMemory(WithTTLJitter(0.5)), with a default TTL of one minute. *)
Definition jitter_memory : MemoryCache bool :=
  NewMemory 0xc000050000 [WithTTLJitter (Fin (2 ^ 1073)); WithDefaultTTL Minute].

(** A TTL of one nanosecond, with jitter on, can be truncated to zero, and
    then means "no expiry": the entry is stored without a deadline and every
    later Get returns it. *)
Theorem tiny_jittered_ttl_never_expires :
  let c := MemoryCache_Cache jitter_memory in
  let w' := (run (c_Set c Background "k" json_true 1) (demo_world ∅)).2 in
  w_store w' !! mem_key jitter_memory "k" = Some (mkItem json_true zero_time)
  ∧ ∀ t, mem_view jitter_memory (w_store w') "k" t = Some json_true.
Proof.
  cbn zeta. set (s := w_store (run _ _).2).
  assert (s !! "k" = Some (mkItem json_true zero_time)) as Hs by (vm_compute; reflexivity).
  split; [done|]. intros t. unfold mem_view.
  change (mem_key jitter_memory "k") with "k". by rewrite Hs.
Qed.

(** ** RedisCache *)

Definition demo_redis : RedisCache entries bool :=
  NewWithClient 0xc000040000 fake_redis [WithPrefix "svc:"; WithHooks all_hooks].

#[export] Instance demo_redis_no_keep : NoKeepTTL demo_redis.
Proof. apply no_keep_ttl_plain; [vm_compute; discriminate|reflexivity]. Qed.

Definition demo_server : World entries := demo_world ∅.

(** A cache on a client that gives up when its context is done, with the
    timeout [d] for an operation. *)
Definition timed_redis (d : Duration) : RedisCache entries bool :=
  NewWithClient 0xc000040000 network_redis [WithPrefix "svc:"; WithOpTimeout d].

#[export] Instance timed_redis_no_keep d : NoKeepTTL (timed_redis d).
Proof.
  assert (r_defaultTTL (timed_redis d) = 0) as Hd
    by (unfold timed_redis, NewWithClient, buildOptions; cbn; by repeat case_match).
  apply no_keep_ttl_plain; [by rewrite Hd|].
  unfold timed_redis, NewWithClient, buildOptions; cbn. by repeat case_match.
Qed.

(** C26: RedisCache on a server that answers, over a client that gives up when
    the context of a command is done, implements the Cache and BatchCache
    interfaces.  What readers see of its keys is what the server holds under
    the prefixed keys; a write gets the resolved TTL in whole milliseconds; the
    batch operations are the pointwise ones; no operation touches another key.
    An operation fails only if the caller's context is done when it returns or
    it took OpTimeout, and has then had its effect or none.  With OpTimeout off
    and behind contexts that never end, the contract holds in full. *)
Theorem RedisCache_refines {S T} (c : RedisCache S T) db
    `{!RedisServer (r_client c) db} `{!NoKeepTTL c} :
  let view := redis_view c db in
  let lifetime := server_lifetime (redis_config c) in
  BoundedBackendSpec (RedisCache_Cache c) view lifetime (r_opTimeout c)
  ∧ (r_opTimeout c <= 0 → BatchCacheSpec (detached (RedisCache_Cache c)) view lifetime).
Proof.
  cbn zeta. split; [by apply RedisCache_spec|].
  intros Hd. by eapply detached_spec, RedisCache_spec.
Qed.

(** A budget of a nanosecond makes Get, Set and Delete fail on a healthy
    server, without one they succeed. *)
Lemma RedisCache_refines_witness :
  let results c :=
    (is_Ok (run (redis_Get c Background "k") (demo_world {[ "svc:k" := mkEntry json_true None ]})).1,
     (run (redis_Set c Background "k" json_true Minute) demo_server).1,
     (run (redis_Delete c Background "k") demo_server).1) in
  BoundedBackendSpec (RedisCache_Cache (timed_redis 1)) (redis_view (timed_redis 1) fake_db)
    (server_lifetime (redis_config (timed_redis 1))) 1
  ∧ BatchCacheSpec (detached (RedisCache_Cache (timed_redis 0)))
      (redis_view (timed_redis 0) fake_db) (server_lifetime (redis_config (timed_redis 0)))
  ∧ results (timed_redis 1)
    = (false, Some (Errorf "cachekit: set %q: %w" [AStr "k"] (Some DeadlineExceeded)),
       Some (Errorf "cachekit: delete %q: %w" [AStr "k"] (Some DeadlineExceeded)))
  ∧ results (timed_redis 0) = (true, None, None).
Proof.
  cbn zeta. split; [|split; [|split; vm_compute; reflexivity]].
  - exact (proj1 (RedisCache_refines (timed_redis 1) fake_db)).
  - apply (RedisCache_refines (timed_redis 0) fake_db). vm_compute. discriminate.
Defined.

(** C28: Read your writes on RedisCache, on a server that answers: after a Set
    that returned nil, whatever operations run in between that do not write the
    key, failing ones too, a Get that ends within the TTL (the default one when
    the TTL is not positive, for ever when there is none) returns exactly the
    bytes stored, and a Get that starts after it reports a miss; either may
    instead fail, with an error that is no miss, if its context is done or it
    took OpTimeout. *)
Theorem redis_read_your_write {S T} (c : RedisCache S T) db
    `{!RedisServer (r_client c) db} `{!NoKeepTTL c}
    ctx ctx' key val ttl ops (w : World S) :
  let base := base_ttl (redis_config c) ttl in
  let s := run (redis_Set c ctx key val ttl) w in
  let w2 := (run (for_each (run_op (RedisCache_Cache c)) ops) s.2).2 in
  let r := run (redis_Get c ctx' key) w2 in
  let gave_up e := IsMiss e = false ∧ op_done (r_opTimeout c) ctx' w2 r.2 in
  s.1 = None → Forall (leaves key) ops →
  hasEnvelope val = true ∨ fle (r_ttlJitter c) fzero = true →
  (base <= 0 ∨ w_time r.2 < w_time w + floor_ms base →
   match r.1 with Ok data => data = val | Err e => gave_up e end)
  ∧ (0 < base → w_time s.2 + Z.max base Millisecond <= w_time w2 →
     match r.1 with Ok _ => False | Err e => IsMiss e = true ∨ gave_up e end).
Proof.
  cbn zeta. intros Hset Hops Hj.
  destruct (redis_spec_Set c db ctx key val ttl w) as (Ht1 & _ & Hw). rewrite Hset in Hw.
  set (w1 := (run (redis_Set c ctx key val ttl) w).2) in *.
  pose proof (RedisCache_spec c db) as [Hspec _].
  destruct (run_ops_leave _ _ _ _ key ops w1 Hops) as [Ht2 Hk].
  set (w2 := (run (for_each (run_op _) ops) w1).2) in *.
  set (base := base_ttl (redis_config c) ttl) in *.
  assert (∀ t, w_time w2 <= t →
    ((base <= 0 ∨ t < w_time w + floor_ms base) → redis_view c db (w_store w2) key t = Some val)
    ∧ (0 < base → w_time w1 + Z.max base Millisecond <= t →
       redis_view c db (w_store w2) key t = None)) as Hv.
  { intros t Ht. eapply visible_window; [exact Hw|done|done| |done].
    intros e He. by apply (server_lifetime_bounds (redis_config c) val ttl). }
  pose proof (bounded_Get_of (RedisCache_Cache c) (redis_view c db) _ _ ctx' key w2) as Hget.
  cbn [RedisCache_Cache c_Get] in Hget. cbn zeta in Hget.
  destruct (run (redis_Get c ctx' key) w2) as [[data|err] w3]; cbn [fst snd] in *; split.
  - intros Hwin. enough (Some val = Some data) by congruence. apply Hget.
    intros t Ht. apply Hv; [lia|]. destruct Hwin; [by left|right; lia].
  - intros Hb Hlate. enough (None = Some data) by done. apply Hget.
    intros t Ht. apply Hv; [lia|done|lia].
  - intros Hwin. specialize (Hget (Some val)). destruct (IsMiss err); [|split; [done|]]; 
      [discriminate Hget|apply Hget]; intros t Ht; (apply Hv; [lia|]);
      (destruct Hwin; [by left|right; lia]).
  - intros Hb Hlate. destruct (IsMiss err); [by left|right]. split; [done|].
    apply (Hget None). intros t Ht. apply Hv; [lia|done|lia].
Qed.

Lemma redis_read_your_write_witness :
  let c := timed_redis (50 * Millisecond) in
  let ops := [CDelete Background "other"; CGet Background "k"] in
  match (run (redis_Get c Background "k")
           (run (for_each (run_op (RedisCache_Cache c)) ops)
              (run (redis_Set c Background "k" json_true Minute) demo_server).2).2).1 with
  | Ok data => data = json_true
  | Err _ => False
  end.
Proof.
  cbn zeta. destruct (redis_read_your_write (timed_redis (50 * Millisecond)) fake_db Background
    Background "k" json_true Minute [CDelete Background "other"; CGet Background "k"] demo_server)
    as [H _].
  - vm_compute. reflexivity.
  - repeat constructor. discriminate.
  - right. vm_compute. reflexivity.
  - specialize (H ltac:(right; vm_compute; reflexivity)).
    destruct (run (redis_Get _ _ _) _) as [[data|e] w3] eqn:E; [exact H|].
    vm_compute in E. discriminate E.
Defined.

(** RedisCache.Get on any client, whatever it replies: bytes are a hit;
    redis.Nil becomes an error that is a cache miss and no longer redis.Nil,
    with OnMiss and no OnError; any other error is reported once through
    OnError(OpGet), stays visible to errors.Is, and is no cache miss. *)
Theorem RedisCache_Get_outcomes {S T} (c : RedisCache S T) ctx key (w : World S) :
  let nil := rc_Nil (r_client c) in
  (∀ f a e, nil ≠ Errorf f a e) → nil ≠ ErrCacheMiss →
  ∃ ctx' w0, w_store w0 = w_store w ∧ w_trace w0 = w_trace w ∧
  let reply := run (rc_Get (r_client c) ctx' (redis_key c key)) w0 in
  let r := run (redis_Get c ctx key) w in
  w_store r.2 = w_store reply.2 ∧
  match reply.1 with
  | Ok data => r.1 = Ok data
      ∧ w_trace r.2 = w_trace reply.2 ++ ev_if (OnHit (r_hooks c)) (EvHit key)
  | Err e => ∃ e', r.1 = Err e' ∧
      if errors_Is e nil
      then IsMiss e' = true ∧ errors_Is e' nil = false
           ∧ w_trace r.2 = w_trace reply.2 ++ ev_if (OnMiss (r_hooks c)) (EvMiss key)
      else IsMiss e' = IsMiss e ∧ (∀ t, errors_Is e t = true → errors_Is e' t = true)
           ∧ w_trace r.2 = w_trace reply.2
               ++ ev_if (OnError (r_hooks c)) (EvError OpGet key e)
  end.
Proof.
  cbn zeta. intros Hleaf Hnil.
  destruct (run_redis_Get c ctx key w) as (ctx' & w0 & _ & Hs & Htr & _ & ->).
  exists ctx', w0. split_and!; [done|done| |].
  { by destruct (run (rc_Get _ _ _) w0) as [[data|e] w1]; cbn [fst snd];
      [|destruct (errors_Is e _)]. }
  destruct (run (rc_Get _ _ _) w0) as [[data|e] w1]; cbn [fst snd]; [done|].
  destruct (errors_Is e (rc_Nil (r_client c))) eqn:E; cbn [fst snd]; eexists; (split; [done|]).
  - split_and!; [done| |done]. rewrite errors_Is_Errorf_leaf by apply Hleaf.
    cbn [errors_Is]. rewrite bool_decide_eq_false_2; [done|]. by intros E'; apply Hnil.
  - split_and!; [apply IsMiss_wrap| |done]. intros t. apply errors_Is_wrap.
Qed.

Lemma RedisCache_Get_outcomes_witness :
  ∃ e', (run (redis_Get demo_redis Background "absent") demo_server).1 = Err e'
  ∧ IsMiss e' = true ∧ errors_Is e' redis_nil = false.
Proof.
  destruct (RedisCache_Get_outcomes demo_redis Background "absent" demo_server)
    as (ctx' & w0 & Hs & _ & _ & H); [done|done|].
  cbn [demo_redis r_client NewWithClient newFromClient fake_redis rc_Get rc_Nil] in H.
  assert ((run (r ← fake_get (redis_key demo_redis "absent");
    mret (match r with Some v => Ok v | None => Err redis_nil end)) w0).1
    = Err redis_nil) as E.
  { rewrite run_bind, run_fake_get. cbn [fst snd]. rewrite run_ret. cbn [fst].
    unfold fake_db. by rewrite Hs. }
  rewrite E in H. destruct H as (e' & He' & Hm & Hn & _). by exists e'.
Defined.

(** RedisCache.GetMany on any client: one MGET for all keys; a failure is
    reported once per key and the call returns an error wrapping it; otherwise
    the call succeeds, fires one hook per key in order, and maps each key to
    the value replied for it, keys replied nil being absent. *)
Theorem RedisCache_GetMany_outcomes {S T} (c : RedisCache S T) ctx keys (w : World S) :
  keys ≠ [] →
  ∃ ctx' w0, w_store w0 = w_store w ∧ w_trace w0 = w_trace w ∧
  let reply := run (rc_MGet (r_client c) ctx' (redis_key c <$> keys)) w0 in
  let r := run (redis_GetMany c ctx keys) w in
  match reply.1 with
  | Ok vals => ∃ out, r.1 = Ok out
      ∧ w_trace r.2 = w_trace reply.2
          ++ (zip keys (vec_to_list vals) ≫= reply_event (r_hooks c))
      ∧ length (zip keys (vec_to_list vals)) = length keys
      ∧ (NoDup keys → ∀ i k o, keys !! i = Some k → vec_to_list vals !! i = Some o →
           out !! k = o)
  | Err e => ∃ e', r.1 = Err e' ∧ (∀ t, errors_Is e t = true → errors_Is e' t = true)
      ∧ w_trace r.2 = w_trace reply.2
          ++ (if OnError (r_hooks c) then (λ k, EvError OpGet k e) <$> keys else [])
  end.
Proof.
  intros Hk. destruct (run_redis_GetMany c ctx keys w Hk) as (ctx' & w0 & _ & Hs & Htr & _ & ->).
  exists ctx', w0. split_and!; [done..|]. cbn zeta.
  destruct (run (rc_MGet _ _ _) w0) as [[vals|e] w1]; cbn [fst snd].
  2:{ eexists. split_and!; [done| |done]. intros t. apply errors_Is_wrap. }
  assert (length (vec_to_list vals) = length keys) as Hlen
    by (by rewrite length_vec_to_list, length_fmap).
  eexists. split_and!; [done|done|rewrite length_zip_with; lia|].
  intros Hnd i k o Hi Ho. pose proof (zip_lookup_elem _ _ _ _ _ Hi Ho) as Hin.
  destruct (collect ∅ (zip keys (vec_to_list vals)) !! k) as [v|] eqn:E.
  - apply collect_Some in E as [E|E]; [done|].
    apply elem_of_zip_lookup in E as (j & Hj & Hv).
    rewrite (NoDup_lookup _ _ _ _ Hnd Hi Hj) in Ho. congruence.
  - apply collect_None in E as [_ E]. by rewrite (E o Hin).
Qed.

Lemma RedisCache_GetMany_outcomes_witness :
  ∃ ctx' (w0 : World entries), w_store w0 = ∅ ∧
  match (run (rc_MGet fake_redis ctx' ["svc:a"; "svc:b"]) w0).1 with
  | Ok _ => ∃ out, (run (redis_GetMany demo_redis Background ["a"; "b"]) demo_server).1 = Ok out
  | Err _ => False
  end.
Proof.
  destruct (RedisCache_GetMany_outcomes demo_redis Background ["a"; "b"] demo_server)
    as (ctx' & w0 & Hs & _ & H); [done|].
  exists ctx', w0. split; [exact Hs|].
  cbn in H |- *. destruct H as (out & Hout & _). by exists out.
Defined.

(** Ownership of the client: a cache made by New is closed by closing its
    client, one made by NewWithClient leaves the caller's client alone; both
    differ in nothing else. *)
Theorem redis_ownership {S T} `{!JSON T} (NewClient : redisOptions → RedisClient S)
    addr (opts : list (Option T)) (w : World S) :
  let o := buildOptions opts in
  let client := NewClient (mkRedisOptions (Addr o) (Username o) (Password o) (DB o)) in
  let own := redis_New NewClient addr opts in
  let borrowed := NewWithClient addr client opts in
  run (redis_Close own) w = run (rc_Close client) w
  ∧ run (redis_Close borrowed) w = (None, w)
  ∧ RedisCache_Cache own = RedisCache_Cache borrowed.
Proof. done. Qed.

(** ** ValkeyCache *)

Definition demo_valkey : ValkeyCache entries bool :=
  NewValkeyWithClient 0xc000060000 fake_valkey [WithPrefix "svc:"; WithHooks all_hooks].

#[export] Instance demo_valkey_plain : NoClientCache demo_valkey.
Proof. vm_compute. discriminate. Qed.

(** A cache on a client that gives up when its context is done. *)
Definition timed_valkey (d : Duration) : ValkeyCache entries bool :=
  NewValkeyWithClient 0xc000060000 network_valkey [WithPrefix "svc:"; WithOpTimeout d].

#[export] Instance timed_valkey_plain d : NoClientCache (timed_valkey d).
Proof.
  unfold NoClientCache, timed_valkey, NewValkeyWithClient, buildOptions. cbn. by repeat case_match.
Qed.

(** C27: ValkeyCache with its client-side cache off, on a server that answers,
    over a client that gives up when the context of a command is done,
    implements the Cache and BatchCache interfaces, in the sense and with the
    bounds that [RedisCache_refines] states for RedisCache. *)
Theorem ValkeyCache_refines {S T} (c : ValkeyCache S T) db
    `{!ValkeyServer (v_client c) db} `{!NoClientCache c} :
  let view := valkey_view c db in
  let lifetime := server_lifetime (valkey_config c) in
  BoundedBackendSpec (ValkeyCache_Cache c) view lifetime (v_opTimeout c)
  ∧ (v_opTimeout c <= 0 → BatchCacheSpec (detached (ValkeyCache_Cache c)) view lifetime).
Proof.
  cbn zeta. split; [by apply ValkeyCache_spec|].
  intros Hd. by eapply detached_spec, ValkeyCache_spec.
Qed.

Lemma ValkeyCache_refines_witness :
  let results c :=
    (is_Ok (run (valkey_Get c Background "k") (demo_world {[ "svc:k" := mkEntry json_true None ]})).1,
     (run (valkey_Set c Background "k" json_true Minute) demo_server).1,
     (run (valkey_Delete c Background "k") demo_server).1) in
  BoundedBackendSpec (ValkeyCache_Cache (timed_valkey 1)) (valkey_view (timed_valkey 1) fake_db)
    (server_lifetime (valkey_config (timed_valkey 1))) 1
  ∧ BatchCacheSpec (detached (ValkeyCache_Cache (timed_valkey 0)))
      (valkey_view (timed_valkey 0) fake_db) (server_lifetime (valkey_config (timed_valkey 0)))
  ∧ results (timed_valkey 1)
    = (false, Some (Errorf "cachekit: set %q: %w" [AStr "k"] (Some DeadlineExceeded)),
       Some (Errorf "cachekit: delete %q: %w" [AStr "k"] (Some DeadlineExceeded)))
  ∧ results (timed_valkey 0) = (true, None, None).
Proof.
  cbn zeta. split; [|split; [|split; vm_compute; reflexivity]].
  - exact (proj1 (ValkeyCache_refines (timed_valkey 1) fake_db)).
  - apply (ValkeyCache_refines (timed_valkey 0) fake_db). vm_compute. discriminate.
Defined.

(** A SET that ValkeyCache builds never carries a PX below one millisecond,
    which servers reject: it has no PX exactly when the resolved TTL is not
    positive, and an unjittered TTL is kept, or raised to one millisecond. *)
Theorem valkey_px_floor {S T} (c : ValkeyCache S T) key val ttl (w : World S) :
  let base := base_ttl (valkey_config c) ttl in
  ∃ o w', run (setCmd c key val ttl) w = (CmdSet (valkey_key c key) val o, w')
  ∧ (∀ d, o = Some d → Millisecond <= d)
  ∧ w_store w' = w_store w ∧ w_trace w' = w_trace w
  ∧ (hasEnvelope val = true ∨ fle (v_ttlJitter c) fzero = true →
     o = if 0 <? base then Some (Z.max base Millisecond) else None).
Proof.
  cbn zeta. destruct (run_valkey_ttlFor c ttl val w) as (d & w' & Hrun & _ & Hs & Htr & Hd).
  unfold setCmd. step. rewrite Hrun. cbn [fst snd]. eexists _, w'. split; [done|].
  split_and!; [|done|done|].
  - intros d' Hd'. destruct (Z.ltb_spec 0 d); simpl in Hd';
      [destruct (Z.ltb_spec d Millisecond); simpl in Hd'|]; revert Hd'.
    + intros [= <-]. lia.
    + rewrite (proj2 (Z.ltb_lt 0 d)) by lia. intros [= <-]. lia.
    + by rewrite (proj2 (Z.ltb_ge 0 d)) by lia.
  - intros Hj. apply resolved_ttl_base in Hd as ->; [|done].
    set (base := base_ttl (valkey_config c) ttl).
    destruct (Z.ltb_spec 0 base); simpl; [|by rewrite (proj2 (Z.ltb_ge 0 base)) by lia].
    destruct (Z.ltb_spec base Millisecond); simpl.
    + by rewrite Z.max_r by lia.
    + rewrite (proj2 (Z.ltb_lt 0 base)) by lia. by rewrite Z.max_l by lia.
Qed.

(** C31: ValkeyCache.GetMany on any client, whatever it replies: every reply is
    consumed, with exactly one hook per key, in order; a nil reply is a miss,
    any other failure is reported through OnError(OpGet) for its key, and the
    call then returns the first of those failures, wrapped, after all hooks;
    with none it returns the replied values. *)
Theorem ValkeyCache_GetMany_outcomes {S T} (c : ValkeyCache S T) ctx keys (w : World S) :
  keys ≠ [] →
  ∃ ctx' w0, w_store w0 = w_store w ∧ w_trace w0 = w_trace w ∧
  let reply := run (replies_of c ctx' keys) w0 in
  let l := zip keys reply.1 in
  let r := run (valkey_GetMany c ctx keys) w in
  l.*1 = keys
  ∧ w_trace r.2 = w_trace reply.2 ++ (l ≫= reply_hook c)
  ∧ (∀ k res before after, l = before ++ (k, res) :: after →
       omap (reply_failure c) before = [] →
       match AsBytes res with
       | Err e => IsValkeyNil (v_client c) e = false →
           r.1 = Err (Errorf "cachekit: get %q: %w" [AStr k] (Some e))
       | Ok _ => True
       end)
  ∧ (omap (reply_failure c) l = [] → ∃ out, r.1 = Ok out
       ∧ (NoDup keys → ∀ k res, (k, res) ∈ l → out !! k = (reply_value (k, res)).2)).
Proof.
  intros Hk. destruct (run_valkey_GetMany c ctx keys w Hk)
    as (ctx' & w0 & _ & Hs & Htr & _ & Hlen & ->).
  exists ctx', w0. split_and!; [done|done|]. cbn zeta.
  destruct (run (replies_of c ctx' keys) w0) as [rs w1]. cbn [fst snd] in *.
  split_and!; [by rewrite fst_zip by lia|done| |].
  - intros k res before after Hl Hb. destruct (AsBytes res) as [|e] eqn:Er; [done|].
    intros Hnil. rewrite Hl, omap_app, Hb. cbn [app omap list_omap].
    unfold reply_failure at 1. cbn [fst snd]. by rewrite Er, Hnil.
  - intros ->. cbn [head]. eexists. split; [done|]. intros Hnd k res Hin.
    destruct (collect ∅ (reply_value <$> zip keys rs) !! k) as [v|] eqn:E.
    + apply collect_Some in E as [E|E]; [done|].
      apply list_elem_of_fmap in E as ([k' res'] & E & Hin'). unfold reply_value in *.
      cbn [fst snd] in *. injection E as <- E.
      apply elem_of_zip_lookup in Hin as (i & Hi & Hri).
      apply elem_of_zip_lookup in Hin' as (j & Hj & Hrj).
      rewrite (NoDup_lookup _ _ _ _ Hnd Hi Hj) in Hri.
      by assert (res' = res) as -> by congruence.
    + apply collect_None in E as [_ E]. symmetry. apply E.
      change (k, (reply_value (k, res)).2) with (reply_value (k, res)).
      by apply list_elem_of_fmap_2.
Qed.

Lemma ValkeyCache_GetMany_outcomes_witness :
  ∃ ctx' w0, w_store w0 = ∅
  ∧ (zip ["a"; "b"] (run (replies_of demo_valkey ctx' ["a"; "b"]) w0).1).*1 = ["a"; "b"].
Proof.
  destruct (ValkeyCache_GetMany_outcomes demo_valkey Background ["a"; "b"] demo_server)
    as (ctx' & w0 & Hs & _ & Hk & _); [done|].
  by exists ctx', w0.
Defined.
