(* ===== verification/Detached.v ===== *)
(** * Backends that give up, under contexts that do not end

    What is proved of GetOrSet and GetOrSetMany on a backend that keeps the
    contract of the Cache interface in full (CacheSpec) says nothing yet about
    a backend that may fail once its context is done.  It carries over to
    callers whose contexts never end: all operations of such a call, those of
    its flight included, run under contexts that never end either, so the call
    cannot tell the backend from the same backend behind detached contexts,
    which keeps the contract in full (Cache.v, [detached_spec]). *)
From S2P Require Import Prelude Int64 Float64 Errors Runtime Envelope Hooks Codec.
From S2P Require Import Options Cache Group GetOrSet Instances Batch.
From S2P Require Import Server Redis Valkey FakeServer BackendThms.
From Stdlib Require Import ZArith Lia.
Local Open Scope Z_scope.

Section detached.
Context {S T : Type} `{!JSON T} (c : Cache S) (ctx : Context) (Hctx : endless ctx).
Abbreviation dc := (detached c).
Abbreviation miss := (mkFlightOpts true 0 zero_time).

Lemma detached_config : configOf (c_config dc) = configOf (c_config c).
Proof. done. Qed.

(** The flight of an endless caller runs under the caller's own context. *)
Lemma flightContext_endless : flightContext (S := S) ctx miss = mret ctx.
Proof using Hctx.
  unfold flightContext. cbn [preserveDeadline timeout]. change (0 <? 0) with false.
  rewrite (proj2 Hctx). by rewrite WithoutCancel_endless.
Qed.

Lemma loadAndStore_detached key ttl (codec : Codec T) loader cfg :
  loadAndStore ctx dc key ttl codec loader cfg miss
  = loadAndStore ctx c key ttl codec loader cfg miss.
Proof using Hctx.
  unfold loadAndStore. rewrite flightContext_endless.
  cbn [mbind act_mbind mret act_ret act_bind_def].
  unfold recheck, loadPhase, storeLoaded. cbn [detached c_Get c_Set c_Delete].
  by rewrite WithoutCancel_endless.
Qed.

(** A hit: the refresh it may start is another piece of code, under the same
    key. *)
Lemma serveHit_detached key ttl (codec : Codec T) loader cfg data w :
  let p c := solo (serveHit ctx c key ttl codec loader cfg data) w in
  (p dc).1.1 = (p c).1.1 ∧ (p dc).2 = (p c).2 ∧ (p dc).1.2.*1 = (p c).1.2.*1.
Proof using Hctx.
  cbn zeta. unfold serveHit. destruct (isNegativeEntry data); [done|].
  destruct (parseStored cfg data) as [env payload], (Unmarshal codec payload) as [v|e].
  - rewrite !solo_bind, !solo_lift, !solo_bind. destruct (stale env _); [done|].
    rewrite !solo_bind, !solo_lift. by destruct (run (shouldEarlyRefresh _ _ _) _) as [[|] w'].
  - cbn [detached c_Delete]. by rewrite WithoutCancel_endless.
Qed.

Lemma GetOrSet_on_detached key ttl (codec : option (Codec T)) loader w :
  let p c := solo (GetOrSetWithCodec ctx c key ttl codec loader) w in
  (p dc).1.1 = (p c).1.1 ∧ (p dc).2 = (p c).2 ∧ (p dc).1.2.*1 = (p c).1.2.*1.
Proof using Hctx.
  cbn zeta. unfold GetOrSetWithCodec. rewrite detached_config, loadAndStore_detached.
  set (cdc := codec_or_default codec). set (cfg := configOf (c_config c)).
  change (flightKey (c_addr dc) key) with (flightKey (c_addr c) key).
  set (tail := λ hit : option (result T), _). cbn [detached c_Get].
  rewrite WithoutCancel_endless by done. rewrite !solo_bind, !solo_lift.
  destruct (run (c_Get c ctx key) w) as [[data|e] w1]; cbn [fst snd]; [|done].
  rewrite !solo_bind. destruct (serveHit_detached key ttl cdc loader cfg data w1) as (H1 & H2 & H3).
  destruct (solo (serveHit _ dc _ _ _ _ _ _) w1) as [[hit sp] w2],
    (solo (serveHit _ c _ _ _ _ _ _) w1) as [[hit' sp'] w2']. cbn [fst snd] in *. subst.
  destruct (solo (tail hit') w2') as [[r sp2] w3]. cbn [fst snd].
  by rewrite !fmap_app, H3.
Qed.

(** As seen by a caller who needs no refresh. *)
Lemma GetOrSet_from_detached key ttl loader w r w1 :
  solo (GetOrSetWithCodec (T := T) ctx dc key ttl (Some defaultCodec) loader) w = (r, [], w1) →
  solo (GetOrSet ctx c key ttl loader) w = (r, [], w1).
Proof using Hctx.
  unfold GetOrSet. pose proof (GetOrSet_on_detached key ttl (Some defaultCodec) loader w) as H.
  cbv beta zeta in H. revert H.
  generalize (solo (GetOrSetWithCodec ctx dc key ttl (Some defaultCodec) loader) w).
  intros p (H1 & H2 & H3) Hp. rewrite Hp in H1, H2, H3.
  destruct (solo (GetOrSetWithCodec ctx c _ _ _ _) w) as [[a sp] w']. cbn [fst snd] in *. subst.
  by destruct sp.
Qed.

Lemma GetOrSet_detached_time key ttl loader w :
  w_time (solo (GetOrSet (T := T) ctx c key ttl loader) w).2
  = w_time (solo (GetOrSetWithCodec ctx dc key ttl (Some defaultCodec) loader) w).2.
Proof using Hctx.
  unfold GetOrSet.
  by destruct (GetOrSet_on_detached key ttl (Some defaultCodec) loader w) as (_ & -> & _).
Qed.

End detached.


