(* ===== verification/CoreThms.v ===== *)
(** * Encodings, options, keys: the theorems

    The stored formats (envelope.go, negative.go, hooks.go), the options and
    TTL jitter (options.go), the early-refresh decision, and the single-flight
    keys (cache.go). *)
From S2P Require Import Prelude Int64 Float64 Errors Runtime Envelope Hooks Codec.
From S2P Require Import Options Cache Memory Group GetOrSet Instances.
From Stdlib Require Import ZArith Lia.
Local Open Scope Z_scope.

(** ** Stored formats *)

(** C35: The metadata envelope round-trips: what wrapEnvelope writes is
    recognised as an envelope and never as a negative entry, and parses back
    to the payload, the load duration cut to milliseconds, and the freshness
    deadline cut to milliseconds (none stays none).  So an entry is not called
    stale a millisecond or more before its deadline, and not called fresh
    after it. *)
Theorem envelope_round_trip payload fu d now :
  fu = zero_time ∨ unix_epoch + Millisecond <= fu ∧ unixmilli_ok fu → is_int64 d →
  let data := wrapEnvelope payload fu d in
  let e := (parseEnvelope data).1 in
  hasEnvelope data = true ∧ isNegativeEntry data = false
  ∧ (parseEnvelope data).2 = payload
  ∧ delta e = Milliseconds d * Millisecond
  ∧ (fu = zero_time → freshUntil e = zero_time ∧ stale e now = false)
  ∧ (fu ≠ zero_time → fu - Millisecond < freshUntil e <= fu
     ∧ (fu < now → stale e now = true)
     ∧ (now <= fu - Millisecond → stale e now = false)).
Proof.
  intros Hfu Hd. cbn zeta. pose proof (wrapEnvelope_hasEnvelope payload fu d) as He.
  split; [done|]. split; [by apply hasEnvelope_not_negative|].
  destruct Hfu as [->|[Hlo Hok]].
  { rewrite parse_wrap_zero by done. by split_and!. }
  rewrite parse_wrap_fresh by done. cbn [fst snd delta freshUntil].
  pose proof (trunc_ms_bounds fu). split_and!; [done|done| |].
  { intros ->. unfold zero_time, unix_epoch, Millisecond in *. lia. }
  intros _. split; [lia|]. unfold stale, After, IsZero. cbn [freshUntil].
  rewrite (proj2 (Z.eqb_neq _ _))
    by (unfold zero_time, unix_epoch, Millisecond in *; lia).
  cbn [negb andb]. split; intros; [apply Z.ltb_lt|apply Z.ltb_ge]; lia.
Qed.

Lemma envelope_round_trip_witness :
  let data := wrapEnvelope json_true demo_time Second in
  (parseEnvelope data).2 = json_true ∧ stale (parseEnvelope data).1 (demo_time + 1) = true.
Proof.
  destruct (envelope_round_trip json_true demo_time Second (demo_time + 1))
    as (_ & _ & Hp & _ & _ & H).
  - right. split; [vm_compute; discriminate|split; vm_compute; discriminate].
  - split; vm_compute; discriminate.
  - split; [exact Hp|]. apply H; [discriminate|]. vm_compute. reflexivity.
Defined.

(** The three stored formats do not mix: no bytes are both an envelope and
    a negative marker; bytes that do not start with NUL, as JSON texts do not,
    are neither; bytes without an envelope, and any bytes for a cache that
    never enabled the feature, parse as bare payload, which is never stale and
    never refreshed early. *)
Theorem stored_formats_disjoint cfg data :
  ¬ (hasEnvelope data = true ∧ isNegativeEntry data = true)
  ∧ (head data ≠ Some x00 → hasEnvelope data = false ∧ isNegativeEntry data = false)
  ∧ (envelopeEnabled cfg = false ∨ hasEnvelope data = false →
     parseStored cfg data = (no_envelope, data)
     ∧ ∀ S now (w : World S), stale (parseStored cfg data).1 now = false
       ∧ run (shouldEarlyRefresh (parseStored cfg data).1 now (cfg_earlyRefreshBeta cfg)) w
         = (false, w)).
Proof.
  split_and!.
  - intros [H1%hasEnvelope_not_negative H2]. congruence.
  - intros Hh. split.
    + apply not_true_iff_false. unfold hasEnvelope. intros [_ Hp]%andb_true_iff.
      apply bytes_HasPrefix_spec in Hp as [l ->]. by apply Hh.
    + apply bool_decide_eq_false. intros ->. by apply Hh.
  - intros Hoff. assert (parseStored cfg data = (no_envelope, data)) as ->.
    { destruct (envelopeEnabled cfg) eqn:E; [|by apply parseStored_off].
      rewrite parseStored_on by done. destruct Hoff as [?|?]; [done|].
      by apply hasEnvelope_parse. }
    split; [done|]. intros S now w. split; [done|]. apply shouldEarlyRefresh_off. by right.
Qed.

(** The early-refresh decision draws one random number when the feature is
    on and the entry has a deadline, none otherwise, touches nothing else, and
    for the same draw a hit closer to the deadline refreshes whenever an
    earlier one does: the probability only rises as expiry approaches. *)
Theorem early_refresh_monotone {S} e now now' beta (w : World S) :
  now <= now' →
  let r := run (shouldEarlyRefresh e now beta) w in
  let r' := run (shouldEarlyRefresh e now' beta) w in
  (r.1 = true → r'.1 = true) ∧ r.2 = r'.2
  ∧ w_store r.2 = w_store w ∧ w_trace r.2 = w_trace w ∧ w_time r.2 = w_time w
  ∧ w_draws r.2 = (if fle beta fzero || IsZero (freshUntil e)
                   then w_draws w else 1 + w_draws w)%nat.
Proof.
  intros Hle. cbn zeta. unfold shouldEarlyRefresh.
  destruct (fle beta fzero || IsZero (freshUntil e)); step; [done|].
  split_and!; try done. unfold After, time_Add. intros H%Z.ltb_lt. apply Z.ltb_lt. lia.
Qed.

Lemma early_refresh_monotone_witness :
  let e := mkEnvelope (demo_time + Second) Second in
  (run (shouldEarlyRefresh e (demo_time + 500 * Millisecond) fone) demo_empty).1 = true
  ∧ (run (shouldEarlyRefresh e (demo_time + 900 * Millisecond) fone) demo_empty).1 = true.
Proof.
  assert ((run (shouldEarlyRefresh (mkEnvelope (demo_time + Second) Second)
    (demo_time + 500 * Millisecond) fone) demo_empty).1 = true) as H
    by (vm_compute; reflexivity).
  split; [exact H|].
  apply (early_refresh_monotone (mkEnvelope (demo_time + Second) Second)
    (demo_time + 500 * Millisecond) (demo_time + 900 * Millisecond) fone demo_empty);
    [vm_compute; discriminate|exact H].
Defined.

(** ** Options and jitter *)

(** The two clamps of buildOptions. *)
Definition clamp_jitter (x : float64) : float64 :=
  let x := if flt x fzero then fzero else x in if flt f09 x then f09 else x.

Definition clamp_beta (x : float64) : float64 := if flt x fzero then fzero else x.

Lemma f09_pos : ∃ m, f09 = Fin m ∧ 0 < m.
Proof. eexists. split; [done|]. apply Z.mul_pos_pos; [lia|]. apply Z.pow_pos_nonneg; lia. Qed.

Lemma clamp_beta_spec x :
  (clamp_beta x = NaN ∨ fle fzero (clamp_beta x) = true)
  ∧ flt (clamp_beta x) fzero = false.
Proof.
  unfold clamp_beta. destruct x as [|[]|z]; cbn [flt fzero].
  1-3: split; [(by left) || by right|done].
  destruct (Z.ltb_spec z 0) as [H|H]; cbn; [by auto|].
  rewrite (proj2 (Z.ltb_ge z 0)) by lia. by auto.
Qed.

Lemma clamp_jitter_spec x :
  (clamp_jitter x = NaN ∨ fle fzero (clamp_jitter x) = true ∧ fle (clamp_jitter x) f09 = true)
  ∧ flt (clamp_jitter x) fzero = false ∧ flt f09 (clamp_jitter x) = false.
Proof.
  unfold clamp_jitter. destruct f09_pos as (m & -> & Hm).
  destruct x as [|[]|z]; cbn [flt fle fzero].
  - split; [by left|done].
  - cbn. rewrite !(proj2 (Z.ltb_ge _ _)) by lia. cbn.
    rewrite !(proj2 (Z.ltb_ge _ _)) by lia. by auto.
  - cbn. rewrite !(proj2 (Z.ltb_ge _ _)) by lia. by auto.
  - destruct (Z.ltb_spec z 0) as [H|H]; cbn [flt fle fzero].
    + rewrite !(proj2 (Z.ltb_ge m 0)) by lia. cbn. rewrite !(proj2 (Z.ltb_ge _ _)) by lia. by auto.
    + destruct (Z.ltb_spec m z); cbn [flt fle fzero];
        rewrite !(proj2 (Z.ltb_ge _ _)) by lia; by auto.
Qed.

Lemma normalize_fields {T} `{!JSON T} (o : Options T) :
  OptCodec (normalize_options o) = Some (codec_or_default (OptCodec o))
  ∧ TTLJitter (normalize_options o) = clamp_jitter (TTLJitter o)
  ∧ EarlyRefreshBeta (normalize_options o) = clamp_beta (EarlyRefreshBeta o).
Proof.
  unfold normalize_options, clamp_jitter, clamp_beta. generalize f09. intros m.
  destruct o as [a u p db pre dt [cd|] ct h j nt ot st b];
    cbn -[flt fzero]; destruct (flt j fzero); cbn -[flt fzero];
    match goal with |- context [flt m ?x] => destruct (flt m x) end;
    cbn -[flt fzero]; destruct (flt b fzero); by split_and!.
Qed.

(** C37: buildOptions normalises what the options leave: the codec is never
    nil, the jitter fraction is in [0, 0.9] and the early-refresh factor at
    least 0 - unless it is NaN, which passes both clamps unchanged - and
    normalising again changes nothing. *)
Theorem buildOptions_normalized {T} `{!JSON T} (opts : list (Option T)) :
  let o := buildOptions opts in
  OptCodec o ≠ None
  ∧ (TTLJitter o = NaN ∨ fle fzero (TTLJitter o) = true ∧ fle (TTLJitter o) f09 = true)
  ∧ (EarlyRefreshBeta o = NaN ∨ fle fzero (EarlyRefreshBeta o) = true)
  ∧ normalize_options o = o.
Proof.
  cbn zeta. unfold buildOptions.
  match goal with |- context [normalize_options ?x] => generalize x end. intros o.
  destruct (normalize_fields o) as (Hc & Hj & Hb).
  destruct (clamp_jitter_spec (TTLJitter o)) as (Hj1 & Hj2 & Hj3).
  destruct (clamp_beta_spec (EarlyRefreshBeta o)) as (Hb1 & Hb2).
  rewrite Hc, Hj, Hb. split; [done|]. split; [done|]. split; [done|]. clear Hj1 Hb1.
  generalize dependent (normalize_options o). intros o' Hc Hj Hb.
  unfold normalize_options. rewrite Hc. rewrite Hj, Hj2, Hj, Hj3, Hb, Hb2. done.
Qed.

(** C36: TTL jitter keeps every TTL within the documented spread: for a fraction
    in (0, 0.9] and a TTL of up to 2^62 ns, whatever the draw, the float64
    computation yields a TTL within fraction x ttl of the given one, up to
    ttl/2^49 + 1 ns of rounding; from 12 ns up it stays positive; a
    non-positive TTL or fraction is passed through without a draw. *)
Theorem applyJitter_bounds {S} ttl f (w : World S) :
  0 < f → fle (Fin f) f09 = true →
  (0 < ttl <= 2 ^ 62 →
   let r := run (applyJitter ttl (Fin f)) w in
   2 ^ 49 * (Z.abs (r.1 - ttl) * one_units) <= 2 ^ 49 * (ttl * f) + (ttl + 2 ^ 49) * one_units
   ∧ (12 <= ttl → 0 < r.1)
   ∧ w_store r.2 = w_store w ∧ w_trace r.2 = w_trace w ∧ w_time r.2 = w_time w)
  ∧ ∀ ttl' frac, ttl' <= 0 ∨ fle frac fzero = true →
      run (applyJitter ttl' frac) w = (ttl', w).
Proof.
  intros Hf Hf09. split; [|intros; by apply applyJitter_off]. intros Ht. cbn zeta.
  rewrite run_applyJitter_on; [|lia|].
  2:{ cbn. by rewrite (proj2 (Z.ltb_lt 0 f)). }
  cbn [fst snd]. split; [by apply jittered_error; [lia..|]|]. split; [|done].
  intros H12. eapply proj1, jittered_positive; [lia..|done].
Qed.

Lemma applyJitter_bounds_witness :
  0 < (run (applyJitter Minute (Fin (2 ^ 1070))) demo_empty).1.
Proof.
  destruct (applyJitter_bounds Minute (2 ^ 1070) demo_empty) as [H _].
  - vm_compute. reflexivity.
  - vm_compute. reflexivity.
  - destruct H as (_ & H & _); [split; vm_compute; (reflexivity || discriminate)|].
    apply H. vm_compute. discriminate.
Defined.

(** ** Single-flight keys *)

(** Two calls share a flight only for the same key of the same cache:
    flight keys of 64-bit addresses are injective, whatever the keys contain. *)
Theorem flightKey_injective a b k k' :
  (a < 2 ^ 64)%N → (b < 2 ^ 64)%N → flightKey a k = flightKey b k' → a = b ∧ k = k'.
Proof.
  intros Ha Hb H. apply no_nul_split in H as [H ->]; [|apply fmt_p_no_nul..].
  split; [|done]. by apply fmt_p_inj.
Qed.

Lemma flightKey_injective_witness :
  ¬ flightKey 0xc000010000 "k" = flightKey 0xc000010001 "k".
Proof.
  intros H. destruct (flightKey_injective 0xc000010000 0xc000010001 "k" "k") as [E _];
    [reflexivity|reflexivity|exact H|discriminate E].
Defined.
