(* ===== verification/RefreshThms.v ===== *)
(** * GetOrSet: the theorems on refreshing and staleness

    Background refreshes, the re-check of a flight, the stale window that
    packing leaves, and the codec GetOrSet uses. *)
From S2P Require Import Prelude Int64 Float64 Errors Runtime Envelope Hooks Codec.
From S2P Require Import Options Cache Memory Group GetOrSet GetOrSetFacts GetOrSetSpec.
From S2P Require Import Instances Batch.
From Stdlib Require Import ZArith Lia.
Local Open Scope Z_scope.

(** The refresh flight is the flight's body, then the report of a failure. *)
Lemma run_refresh {S T} `{!JSON T} (c : Cache S) ctx key ttl (cdc : Codec T) loader cfg env
    (w : World S) :
  let b := run (loadAndStore ctx c key ttl cdc loader cfg
                  (mkFlightOpts false (refreshTimeout ttl cfg) (freshUntil env))) w in
  run (start (refreshFlight ctx c key ttl cdc loader cfg env)) w =
  match flight_result b.1 with
  | Ok data => (Ok data, b.2)
  | Err e => (Err e, add_events (ev_if (OnError (cfg_hooks cfg)) (EvError OpRefresh key e)) b.2)
  end.
Proof.
  cbn zeta. rewrite run_start. unfold refreshFlight. rewrite run_bind.
  destruct (run (loadAndStore _ _ _ _ _ _ _ _) w) as [o w1]. cbn [fst snd].
  destruct o as [[data|e]|v]; cbn [flight_result]; step; done.
Qed.

(** C6: A background refresh of a stale or nearly stale entry, on any backend
    that keeps its contract: the entry that triggered it never satisfies its
    re-check, so the loader runs; success replaces the entry by one that
    decodes to the new value, a reported absence by the negative marker when
    configured; any other failure, a panic included, leaves every reader's
    view, the stale entry's too, as it was, and is the last thing reported,
    through OnError(OpRefresh). *)
Theorem refresh_outcomes {S T} `{!JSON T} (c : Cache S) view lifetime
    `{!CacheSpec c view lifetime} ctx key ttl (cdc : Codec T) loader old o (w : World S) :
  let cfg := configOf (c_config c) in
  let env := (parseStored cfg old).1 in
  let r := run (start (refreshFlight ctx c key ttl cdc loader cfg env)) w in
  0 <= w_time w → holds view key old w → isNegativeEntry old = false →
  freshUntil env ≠ zero_time → loader_yields view loader o →
  match o with
  | Returned (Ok v) => ∀ payload, Marshal cdc v = Ok payload → Unmarshal cdc payload = Ok v →
      ∃ data sttl wa, r.1 = Ok data ∧ isNegativeEntry data = false
        ∧ Unmarshal cdc (parseStored cfg data).2 = Ok v
        ∧ w_time w <= w_time wa ∧ written view lifetime key data sttl wa r.2
  | Returned (Err e) =>
      if (0 <? cfg_negativeTTL cfg) && errors_Is e ErrNotFound
      then ∃ wa, r.1 = Ok negativeMarker ∧ w_time w <= w_time wa
             ∧ written view lifetime key negativeMarker (cfg_negativeTTL cfg) wa r.2
      else r.1 = Err e ∧ same_view_by view w r.2
           ∧ (OnError (cfg_hooks cfg) = true →
              last (w_trace r.2) = Some (EvError OpRefresh key e))
  | Panicked v =>
      let e := Errorf "cachekit: loader panic: %v" [AStr v] None in
      r.1 = Err e ∧ same_view_by view w r.2
      ∧ (OnError (cfg_hooks cfg) = true →
         last (w_trace r.2) = Some (EvError OpRefresh key e))
  end.
Proof.
  cbn zeta. intros Hw Hold Hn Hfu Hl. rewrite run_refresh. cbn zeta.
  set (cfg := configOf (c_config c)) in *. set (env := (parseStored cfg old).1) in *.
  destruct (loadAndStore_refresh c view lifetime ctx key ttl cdc loader cfg
    (mkFlightOpts false (refreshTimeout ttl cfg) (freshUntil env)) old w Hw Hold Hn
    eq_refl Hfu) as (fctx & w1 & Hsv & ->).
  assert (envelopeEnabled cfg = true) as Hon.
  { destruct (envelopeEnabled cfg) eqn:E; [done|]. subst env.
    by rewrite parseStored_off in Hfu. }
  assert (0 <= w_time w1) as Hw1 by (destruct Hsv; lia).
  assert (∀ w2 e, same_view_by view w1 w2 →
    same_view_by view w (add_events (ev_if (OnError (cfg_hooks cfg)) (EvError OpRefresh key e)) w2))
    as Hfail by (intros w2 e H; by apply (same_view_trans view _ _ _ Hsv H)).
  assert (∀ (w2 : World S) e, OnError (cfg_hooks cfg) = true →
    last (w_trace (add_events (ev_if (OnError (cfg_hooks cfg)) (EvError OpRefresh key e)) w2))
    = Some (EvError OpRefresh key e)) as Hlast
    by (intros w2 e Hh; rewrite Hh; apply last_snoc).
  destruct o as [[v|e]|v].
  - intros payload Hm Hu.
    destruct (loadPhase_ok c view lifetime key ttl cdc loader cfg fctx v payload w1 Hw1 Hl Hm)
      as (data & sttl & t & d & wa & -> & Hp & Ht & Hta & Hwr).
    destruct (packed_decodes cdc cfg key v payload ttl d data sttl t Hm Hu (or_introl Hon) Hp)
      as (Hneg & Hu' & _).
    exists data, sttl, wa. destruct Hsv. split_and!; done || lia.
  - destruct ((0 <? cfg_negativeTTL cfg) && errors_Is e ErrNotFound) eqn:En.
    + apply andb_true_iff in En as [En%Z.ltb_lt He].
      destruct (loadPhase_not_found c view lifetime key ttl cdc loader cfg fctx e w1 Hw1 Hl En He)
        as (wa & -> & Ht & Hwr).
      exists wa. destruct Hsv. split_and!; done || lia.
    + assert (cfg_negativeTTL cfg <= 0 ∨ errors_Is e ErrNotFound = false) as Hne.
      { apply andb_false_iff in En as [?%Z.ltb_ge|?]; auto. }
      destruct (loadPhase_err c view key ttl cdc loader cfg fctx e w1 Hw1 Hl Hne)
        as [-> Hsv']. cbn [flight_result fst snd]. auto.
  - destruct (loadPhase_panic c view key ttl cdc loader cfg fctx v w1 Hw1 Hl)
      as [-> Hsv']. cbn [flight_result fst snd]. auto.
Qed.

Lemma refresh_outcomes_witness :
  let w := demo_with demo_stale_entry in
  let r := run (start (refreshFlight (T := bool) Background demo_cache "k" Minute JSONCodec
                 (demo_loader (Panicked "boom")) (configOf (c_config demo_cache))
                 (parseStored (configOf (c_config demo_cache)) demo_stale_entry).1)) w in
  same_view_by (mem_view demo_memory) w r.2
  ∧ last (w_trace r.2) = Some (EvError OpRefresh "k"
      (Errorf "cachekit: loader panic: %v" [AStr "boom"] None)).
Proof.
  destruct (refresh_outcomes (T := bool) demo_cache (mem_view demo_memory)
    (mem_lifetime demo_memory) Background "k" Minute JSONCodec (demo_loader (Panicked "boom"))
    demo_stale_entry (Panicked "boom") (demo_with demo_stale_entry)) as (_ & H1 & H2).
  - vm_compute. discriminate.
  - intros t _.
    change (mem_view demo_memory (w_store (demo_with demo_stale_entry)) "k" t)
      with (item_at (mkItem demo_stale_entry (demo_time + Minute)) t).
    unfold item_at. cbn [mi_deadline mi_val].
    destruct (IsZero _ || _); [left|right]; reflexivity.
  - reflexivity.
  - vm_compute. discriminate.
  - apply demo_loader_yields.
  - split; [exact H1|]. apply H2. reflexivity.
Defined.

(** The re-check that starts a flight, on any backend: it takes exactly
    what Get returns, and only if that is a negative entry, or decodes, is not
    stale at the moment of the check and, for a refresh, is strictly fresher
    than the entry that triggered it (so a refresh is never satisfied by its
    own trigger, nor a miss by a stale entry). *)
Theorem recheck_accepts {S T} `{!JSON T} (c : Cache S) key (codec : Codec T) cfg opts fctx
    (w : World S) data :
  let g := run (c_Get c fctx key) w in
  let env := (parseStored cfg data).1 in
  (run (recheck c key codec cfg opts fctx) w).1 = Some data ↔
  g.1 = Ok data
  ∧ (isNegativeEntry data = true
     ∨ stale env (read_clock g.2).1 = false
       ∧ (refreshOf opts = zero_time ∨ refreshOf opts < freshUntil env)
       ∧ ∃ v, Unmarshal codec (parseStored cfg data).2 = Ok v).
Proof.
  cbn zeta. rewrite run_recheck.
  destruct (run (c_Get c fctx key) w) as [[data'|e] w1]; cbn [fst snd].
  2:{ split; [done|]. by intros [? _]. }
  destruct (parseStored cfg data') as [env payload] eqn:Hp.
  assert (isNegativeEntry data' || negb (stale env (read_clock w1).1)
      && (IsZero (refreshOf opts) || After (freshUntil env) (refreshOf opts))
      && is_Ok (Unmarshal codec payload) = true ↔
    isNegativeEntry data' = true ∨ stale env (read_clock w1).1 = false
      ∧ (refreshOf opts = zero_time ∨ refreshOf opts < freshUntil env)
      ∧ ∃ v, Unmarshal codec payload = Ok v) as Hiff.
  { rewrite orb_true_iff, !andb_true_iff, negb_true_iff, orb_true_iff.
    unfold IsZero, After. rewrite Z.eqb_eq, Z.ltb_lt.
    assert (is_Ok (Unmarshal codec payload) = true ↔ ∃ v, Unmarshal codec payload = Ok v) as ->
      by (destruct (Unmarshal codec payload); split; [eauto|done|done|by intros [??]]).
    tauto. }
  destruct (_ || _) eqn:E.
  - split.
    + intros [= <-]. rewrite Hp. split; [done|]. by apply Hiff.
    + by intros [[= <-] _].
  - split; [done|]. intros [[= <-] H]. rewrite Hp in H. apply Hiff in H. done.
Qed.

Lemma normalize_WithCodec {T} `{!JSON T} (cd : Codec T) (o : Options T) :
  normalize_options (WithCodec (Some cd) o) = WithCodec (Some cd) (normalize_options o).
Proof.
  unfold normalize_options. generalize f09. intros m.
  destruct o as [a u p db pre dt [cd'|] ct h j nt ot st b];
    cbn -[flt fzero]; destruct (flt j fzero); cbn -[flt fzero];
    match goal with |- context [flt m ?x] => destruct (flt m x) end;
    cbn -[flt fzero]; by destruct (flt b fzero).
Qed.

(** GetOrSet always encodes with the package default: configuring a
    MemoryCache with WithCodec changes nothing of what GetOrSet and
    GetOrSetMany do with it; the codec is only handed out by Codec(). *)
Theorem WithCodec_unused {T} `{!JSON T} addr (opts : list (Option T)) (cd : Codec T)
    ctx key ttl loader keys bloader :
  let plain := NewMemory addr opts in
  let custom := NewMemory addr (opts ++ [WithCodec (Some cd)]) in
  GetOrSet ctx (MemoryCache_Cache custom) key ttl loader
    = GetOrSet ctx (MemoryCache_Cache plain) key ttl loader
  ∧ GetOrSetMany ctx (MemoryCache_Cache custom) keys ttl bloader
    = GetOrSetMany ctx (MemoryCache_Cache plain) keys ttl bloader
  ∧ mem_Codec custom = Some cd.
Proof.
  cbn zeta. unfold NewMemory, buildOptions. rewrite foldl_app. cbn [foldl].
  rewrite normalize_WithCodec.
  match goal with |- context [WithCodec _ ?x] => generalize x end. intros o. by split_and!.
Qed.

(** The freshness window that packing chose is positive and below twice the
    TTL and a nanosecond, with jitter or without. *)
Lemma packed_fresh_bounds cfg f base fresh :
  cfg_ttlJitter cfg = Fin f → 0 <= f → fle (Fin f) f09 = true → 12 <= base <= 2 ^ 61 →
  fresh = base ∨ (∃ oob k, fresh = jittered oob base (cfg_ttlJitter cfg) (of_draw k)) →
  0 < fresh <= 2 * base + 1.
Proof.
  intros Hj Hf Hf09 Hb [->|(oob & k & ->)]; [lia|]. rewrite Hj.
  pose proof (jittered_positive oob base f k ltac:(lia) Hf Hf09).
  pose proof (jittered_le oob base f k ltac:(lia) Hf Hf09). lia.
Qed.

(** C23: The stale window: with the envelope on, what storing a loaded value
    leaves in a backend that keeps its contract - jittered or not - is
    visible until an expiry that is the freshness deadline recorded in the
    entry plus the stale TTL, up to the millisecond resolution below, and
    above it by at most two milliseconds and the time the store took.  So the
    whole stale window is served, and no longer. *)
Theorem stale_window {S T} `{!JSON T} (c : Cache S) view lifetime
    `{!CacheSpec c view lifetime} key ttl (cdc : Codec T) fctx d v payload f (w : World S) :
  let cfg := configOf (c_config c) in
  let base := base_ttl cfg ttl in
  let r := run (storeLoaded c key ttl cdc cfg fctx d (Ok v)) w in
  unix_epoch + Millisecond <= w_time w → w_time r.2 <= unix_epoch + 2 ^ 62 → is_int64 d →
  Marshal cdc v = Ok payload → envelopeEnabled cfg = true →
  cfg_ttlJitter cfg = Fin f → 0 <= f → fle (Fin f) f09 = true →
  Millisecond <= base <= 2 ^ 61 → 0 <= cfg_staleTTL cfg <= 2 ^ 61 →
  ∃ data expiry, r.1 = Ok data
  ∧ (∀ t, w_time r.2 <= t →
       view (w_store r.2) key t = if t <? expiry then Some data else None)
  ∧ let fu := freshUntil (parseStored cfg data).1 in
    fu + cfg_staleTTL cfg - Millisecond < expiry
    <= fu + cfg_staleTTL cfg + 2 * Millisecond + (w_time r.2 - w_time w).
Proof.
  cbn zeta. intros Hlo Hhi Hd Hm Hon Hj Hf Hf09 Hb Hst.
  set (cfg := configOf (c_config c)) in *. set (base := base_ttl cfg ttl) in *.
  destruct (storeLoaded_ok c view lifetime key ttl cdc cfg fctx d v payload w
    ltac:(unfold unix_epoch, Millisecond in *; lia) Hm)
    as (data & sttl & t & wa & Hr & [_ _ _ Henv] & Ht & Hta & Hwr).
  destruct (Henv Hon) as (Hhas & fresh & Hcase & _ & Hfr). fold base in Hfr.
  assert (0 < fresh <= 2 * base + 1) as Hfb
    by (eapply packed_fresh_bounds; try done; unfold Millisecond in *; lia).
  destruct Hcase as [(? & _)|(_ & -> & ->)]; [lia|].
  rewrite dur_add_id in Hwr by (unfold is_int64, min_int64, max_int64; lia).
  destruct Hwr as (e & He & _ & Huntil).
  pose proof (spec_lifetime _ _ _ He (or_introl Hhas)) as [_ Hl].
  fold cfg in Hl. rewrite base_ttl_pos in Hl by lia.
  destruct (Hl ltac:(lia)) as [Hpos Hle]. destruct (Huntil Hpos) as (dl & Hdl & Hv).
  eexists _, dl. split; [exact Hr|]. split; [exact Hv|].
  rewrite parseStored_on by done.
  rewrite parse_wrap_deadline by (unfold Millisecond in *; lia).
  pose proof (trunc_ms_bounds (t + fresh)).
  pose proof (floor_ms_gt (fresh + cfg_staleTTL cfg)).
  unfold Millisecond in *. lia.
Qed.

Lemma stale_window_witness :
  ∃ data expiry,
    (run (storeLoaded (T := bool) demo_cache "k" Minute JSONCodec
       (configOf (c_config demo_cache)) Background Millisecond (Ok true)) demo_empty).1 = Ok data
    ∧ freshUntil (parseStored (configOf (c_config demo_cache)) data).1
      + 10 * Second - Millisecond < expiry.
Proof.
  destruct (stale_window (T := bool) demo_cache (mem_view demo_memory)
    (mem_lifetime demo_memory) "k" Minute JSONCodec Background Millisecond true json_true 0
    demo_empty) as (data & expiry & H1 & _ & H2 & _);
    [vm_compute; discriminate|vm_compute; discriminate|split; vm_compute; discriminate
    |reflexivity|reflexivity|reflexivity|lia|vm_compute; reflexivity
    |split; vm_compute; discriminate|split; vm_compute; discriminate|].
  exists data, expiry. split; [exact H1|exact H2].
Defined.
