(* ===== verification/Flights.v ===== *)
(** * Many callers at once: flights on the shared single-flight group

    group.go, run by many goroutines.  golang.org/x/sync/singleflight is code
    outside the repository: what the package relies on - a table from keys to
    the call in progress, which DoChan joins or extends, Forget and the end of
    the call clear - is the class [SingleFlight].  The state of the system is
    the shared world, the group, the flights ever started and the callers;
    its steps interleave the atomic steps of callers and flights in any
    order, with the passing of time and the firing of cancellations. *)
From S2P Require Import Prelude Int64 Float64 Errors Runtime Group.
From Stdlib Require Import ZArith Lia.

(** ** singleflight.Group *)

Class SingleFlight (G : Type) := {
  sf_zero : G;                               (* the zero Group *)
  sf_lookup : G → string → option nat;       (* the call DoChan would join *)
  sf_register : string → nat → G → G;        (* DoChan starts this call *)
  sf_forget : string → G → G;                (* Forget *)
  sf_end : string → nat → G → G              (* the call ends *)
}.

(** Its documented behaviour: "only one execution is in-flight for a given key
    at a time", "Forget tells the singleflight to forget about a key". *)
Class SingleFlightLaws (G : Type) `{!SingleFlight G} : Prop := {
  sf_lookup_zero k : sf_lookup sf_zero k = None;
  sf_lookup_register k n g k' :
    sf_lookup (sf_register k n g) k' = if decide (k' = k) then Some n else sf_lookup g k';
  sf_lookup_forget k g k' :
    sf_lookup (sf_forget k g) k' = if decide (k' = k) then None else sf_lookup g k';
  sf_lookup_end k n g k' :
    sf_lookup (sf_end k n g) k'
    = if decide (k' = k ∧ sf_lookup g k = Some n) then None else sf_lookup g k'
}.

(** A concrete group: the map of the calls. *)
#[export] Instance SingleFlight_map : SingleFlight (gmap string nat) := {|
  sf_zero := ∅;
  sf_lookup g k := g !! k;
  sf_register k n g := <[k := n]> g;
  sf_forget k g := delete k g;
  sf_end k n g := if decide (g !! k = Some n) then delete k g else g
|}.

#[export] Instance SingleFlight_map_laws : SingleFlightLaws (gmap string nat).
Proof.
  split; cbn.
  - intros k. apply lookup_empty.
  - intros k n g k'. case_decide; subst; [apply lookup_insert_eq|by apply lookup_insert_ne].
  - intros k g k'. case_decide; subst; [apply lookup_delete_eq|by apply lookup_delete_ne].
  - intros k n g k'. destruct (decide (g !! k = Some n)) as [E|E].
    + destruct (decide (k' = k)) as [->|Hne].
      * rewrite lookup_delete_eq. by rewrite decide_True.
      * rewrite lookup_delete_ne by done. rewrite decide_False; [done|]. by intros [? _].
    + rewrite decide_False; [done|]. by intros [_ ?].
Qed.

(** ** The system *)

(** A flight: running the function handed to DoChan (panics already turned
    into errors), past its deferred Forget, or ended and delivered. *)
Inductive phase (S : Type) :=
| Running (m : act S (result bytes))
| Forgotten (r : result bytes)
| Delivered (r : result bytes).
Arguments Running {S} m. Arguments Forgotten {S} r. Arguments Delivered {S} r.

Record flight (S : Type) := mkFlight {
  f_key : string;
  f_phase : phase S
}.
Arguments mkFlight {S}. Arguments f_key {S}. Arguments f_phase {S}.

(** A caller: running, in the select of [do] on the flight [n] of its key, or
    returned. *)
Inductive caller (S A : Type) :=
| Caller (p : prog S A)
| Waiting (ctx : Context) (key : string) (n : nat) (k : result bytes → prog S A)
| Finished (a : A).
Arguments Caller {S A} p. Arguments Waiting {S A} ctx key n k. Arguments Finished {S A} a.

Record system (G S A : Type) := mkSystem {
  s_world : World S;
  s_group : G;
  s_flights : list (flight S);
  s_callers : list (caller S A)
}.
Arguments mkSystem {G S A}. Arguments s_world {G S A}. Arguments s_group {G S A}.
Arguments s_flights {G S A}. Arguments s_callers {G S A}.

Section flights.
Context {G S A : Type} `{!SingleFlight G}.
Implicit Types (s : system G S A) (w : World S).

(** DoChan: join the call of the key, or start a flight; the number of the
    flight, the group and the flights after it. *)
Definition DoChan (key : string) (fn : flight_fn S) (g : G) (fs : list (flight S))
    : nat * G * list (flight S) :=
  match sf_lookup g key with
  | Some n => (n, g, fs)
  | None => (length fs, sf_register key (length fs) g,
             fs ++ [mkFlight key (Running (start fn))])
  end.

(** Time passes, cancellation signals fire, the rest of the process uses the
    sources of randomness. *)
Definition env_step w w' : Prop :=
  ∃ d l n1 n2 n3 n4,
    w' = mkWorld (w_orc w) (n1 + w_reads w) (n2 + w_draws w) (n3 + w_ranges w)
           (n4 + w_selects w) (w_time w + Z.of_N d) (w_canceled w ++ l)
           (w_store w) (w_trace w).

Inductive step_sys : system G S A → system G S A → Prop :=
(** the caller [i] takes an atomic step *)
| S_caller w g fs cs i f :
    cs !! i = Some (Caller (PStep f)) →
    step_sys (mkSystem w g fs cs)
      (mkSystem (f w).2 g fs (<[i := Caller (f w).1]> cs))
(** the caller [i] enters [do]: the flight is joined or started, then waited on *)
| S_do w g fs cs i ctx key fn k n g' fs' :
    cs !! i = Some (Caller (PDo ctx key fn k)) →
    DoChan key fn g fs = (n, g', fs') →
    step_sys (mkSystem w g fs cs)
      (mkSystem w g' fs' (<[i := Waiting ctx key n k]> cs))
(** the caller [i] calls [doAsync] and goes on *)
| S_async w g fs cs i key fn k n g' fs' :
    cs !! i = Some (Caller (PAsync key fn k)) →
    DoChan key fn g fs = (n, g', fs') →
    step_sys (mkSystem w g fs cs) (mkSystem w g' fs' (<[i := Caller k]> cs))
(** the select of the caller [i] receives the result of its flight *)
| S_receive w g fs cs i ctx key n k f r :
    cs !! i = Some (Waiting ctx key n k) →
    fs !! n = Some f → f_phase f = Delivered r →
    step_sys (mkSystem w g fs cs) (mkSystem w g fs (<[i := Caller (k r)]> cs))
(** or sees that its context is done *)
| S_cancel w g fs cs i ctx key n k e :
    cs !! i = Some (Waiting ctx key n k) →
    ctx_Err ctx w = Some e →
    step_sys (mkSystem w g fs cs) (mkSystem w g fs (<[i := Caller (k (Err e))]> cs))
(** the caller [i] returns *)
| S_return w g fs cs i a :
    cs !! i = Some (Caller (PRet a)) →
    step_sys (mkSystem w g fs cs) (mkSystem w g fs (<[i := Finished a]> cs))
(** the flight [n] takes an atomic step *)
| S_flight w g fs cs n key f :
    fs !! n = Some (mkFlight key (Running (Step f))) →
    step_sys (mkSystem w g fs cs)
      (mkSystem (f w).2 g (<[n := mkFlight key (Running (f w).1)]> fs) cs)
(** its function has returned: the deferred Forget *)
| S_forget w g fs cs n key r :
    fs !! n = Some (mkFlight key (Running (Ret r))) →
    step_sys (mkSystem w g fs cs)
      (mkSystem w (sf_forget key g) (<[n := mkFlight key (Forgotten r)]> fs) cs)
(** the call ends: the result is delivered to all channels *)
| S_deliver w g fs cs n key r :
    fs !! n = Some (mkFlight key (Forgotten r)) →
    step_sys (mkSystem w g fs cs)
      (mkSystem w (sf_end key n g) (<[n := mkFlight key (Delivered r)]> fs) cs)
(** the environment *)
| S_env w w' g fs cs :
    env_step w w' → step_sys (mkSystem w g fs cs) (mkSystem w' g fs cs).

(** The start of the system: callers about to run their programs. *)
Definition initial (w : World S) (ps : list (prog S A)) : system G S A :=
  mkSystem w sf_zero [] (Caller <$> ps).

Definition reachable (w : World S) (ps : list (prog S A)) s : Prop :=
  rtc step_sys (initial w ps) s.

(** *** Schedules

    A scheduler's decision, and the state after it: the executable side of
    [step_sys]. *)
Inductive choice :=
| ChCaller (i : nat)       (* the caller goes on *)
| ChReceive (i : nat)      (* its select takes the result *)
| ChCancel (i : nat)       (* its select takes the done context *)
| ChFlight (n : nat)       (* the flight goes on *)
| ChTime (d : N)           (* time passes *)
| ChSignal (token : nat).  (* a cancellation signal fires *)

Definition sched (ch : choice) s : option (system G S A) :=
  let '(mkSystem w g fs cs) := s in
  match ch with
  | ChCaller i =>
      match cs !! i with
      | Some (Caller (PStep f)) => Some (mkSystem (f w).2 g fs (<[i := Caller (f w).1]> cs))
      | Some (Caller (PDo ctx key fn k)) =>
          let '(n, g', fs') := DoChan key fn g fs in
          Some (mkSystem w g' fs' (<[i := Waiting ctx key n k]> cs))
      | Some (Caller (PAsync key fn k)) =>
          let '(_, g', fs') := DoChan key fn g fs in
          Some (mkSystem w g' fs' (<[i := Caller k]> cs))
      | Some (Caller (PRet a)) => Some (mkSystem w g fs (<[i := Finished a]> cs))
      | _ => None
      end
  | ChReceive i =>
      match cs !! i with
      | Some (Waiting ctx key n k) =>
          match f_phase <$> fs !! n with
          | Some (Delivered r) => Some (mkSystem w g fs (<[i := Caller (k r)]> cs))
          | _ => None
          end
      | _ => None
      end
  | ChCancel i =>
      match cs !! i with
      | Some (Waiting ctx key n k) =>
          match ctx_Err ctx w with
          | Some e => Some (mkSystem w g fs (<[i := Caller (k (Err e))]> cs))
          | None => None
          end
      | _ => None
      end
  | ChFlight n =>
      match fs !! n with
      | Some (mkFlight key (Running (Step f))) =>
          Some (mkSystem (f w).2 g (<[n := mkFlight key (Running (f w).1)]> fs) cs)
      | Some (mkFlight key (Running (Ret r))) =>
          Some (mkSystem w (sf_forget key g) (<[n := mkFlight key (Forgotten r)]> fs) cs)
      | Some (mkFlight key (Forgotten r)) =>
          Some (mkSystem w (sf_end key n g) (<[n := mkFlight key (Delivered r)]> fs) cs)
      | _ => None
      end
  | ChTime d => Some (mkSystem (elapse d w) g fs cs)
  | ChSignal token =>
      Some (mkSystem (mkWorld (w_orc w) (w_reads w) (w_draws w) (w_ranges w) (w_selects w)
                        (w_time w) (w_canceled w ++ [token]) (w_store w) (w_trace w)) g fs cs)
  end.

(** Follow a schedule; a decision that is not possible is skipped. *)
Definition schedule (chs : list choice) s : system G S A :=
  foldl (λ s ch, default s (sched ch s)) s chs.

Lemma env_step_elapse d w : env_step w (elapse d w).
Proof. exists d, [], 0, 0, 0, 0. unfold elapse. by rewrite app_nil_r. Qed.

Lemma sched_sound ch s s' : sched ch s = Some s' → step_sys s s'.
Proof.
  destruct s as [w g fs cs], ch; cbn [sched]; intros H.
  - destruct (cs !! i) as [[p| |]|] eqn:E; try done. destruct p.
    + injection H as <-. by apply S_return.
    + injection H as <-. by apply S_caller.
    + destruct (DoChan key fn g fs) as [[n g'] fs'] eqn:Ed. injection H as <-.
      by eapply S_do.
    + destruct (DoChan key fn g fs) as [[n g'] fs'] eqn:Ed. injection H as <-.
      by eapply S_async.
  - destruct (cs !! i) as [[p|ctx key n k|]|] eqn:E; try done.
    destruct (fs !! n) as [[k' ph]|] eqn:Ef; [|done]. cbn in H.
    destruct ph; try done. injection H as <-. by eapply S_receive.
  - destruct (cs !! i) as [[p|ctx key n k|]|] eqn:E; try done.
    destruct (ctx_Err ctx w) eqn:Ee; [|done]. injection H as <-. by eapply S_cancel.
  - destruct (fs !! n) as [[key ph]|] eqn:Ef; [|done].
    destruct ph as [m|r|r]; [destruct m|..]; try done; injection H as <-.
    + by apply S_forget.
    + by apply S_flight.
    + by apply S_deliver.
  - injection H as <-. apply S_env, env_step_elapse.
  - injection H as <-. apply S_env. exists 0%N, [token], 0, 0, 0, 0.
    by rewrite Z.add_0_r.
Qed.

Lemma schedule_sound chs s : rtc step_sys s (schedule chs s).
Proof.
  revert s. induction chs as [|ch chs IH]; intros s; [apply rtc_refl|]. cbn.
  etrans; [|apply IH].
  destruct (sched ch s) as [s'|] eqn:E; cbn; [|apply rtc_refl].
  by apply rtc_once, (sched_sound ch).
Qed.
End flights.

(** ** Invariants *)

Section invariants.
Context {G S A : Type} `{!SingleFlight G} `{!SingleFlightLaws G}.
Implicit Types (s : system G S A) (w : World S) (fs : list (flight S)).

(** The group's table holds exactly the running flights, by key. *)
Definition table (g : G) fs : Prop :=
  ∀ k n, sf_lookup g k = Some n ↔ ∃ m, fs !! n = Some (mkFlight k (Running m)).

(** So the system keeps it, and a waiter waits on a flight of its own key. *)
Record flight_inv s : Prop := {
  inv_table : table (s_group s) (s_flights s);
  inv_waiting i ctx k n κ : s_callers s !! i = Some (Waiting ctx k n κ) →
    ∃ f, s_flights s !! n = Some f ∧ f_key f = k
}.

Lemma flight_inv_initial w (ps : list (prog S A)) : flight_inv (initial (G := G) w ps).
Proof.
  split; cbn [initial s_group s_flights s_callers].
  - intros k n. rewrite sf_lookup_zero. split; [done|]. by intros [m ?].
  - intros i ctx k n κ H. rewrite list_lookup_fmap in H. by destruct (ps !! i).
Qed.

(** What DoChan does to the table and the flights. *)
Lemma DoChan_spec key (fn : flight_fn S) (g : G) fs n g' fs' :
  table g fs → DoChan key fn g fs = (n, g', fs') →
  table g' fs'
  ∧ (∃ m, fs' !! n = Some (mkFlight key (Running m)))
  ∧ (∀ j f, fs !! j = Some f → fs' !! j = Some f)
  ∧ (fs' = fs ∨ fs' = fs ++ [mkFlight key (Running (start fn))]).
Proof.
  intros Htab. unfold DoChan. destruct (sf_lookup g key) as [n0|] eqn:E; intros [= <- <- <-].
  { split_and!; [done|by apply Htab|done|by left]. }
  split_and!; [| | |by right].
  - intros k n. rewrite sf_lookup_register. case_decide as Hk.
    + subst k. split.
      * intros [= <-]. eexists. by rewrite list_lookup_middle.
      * intros [m Hm]. apply lookup_app_Some in Hm as [Hm|[Hle Hm]].
        { assert (sf_lookup g key = Some n) by (apply Htab; by exists m). congruence. }
        apply list_lookup_singleton_Some in Hm as [Hn _]. f_equal. lia.
    + rewrite (Htab k n). split; intros [m Hm]; exists m.
      * by apply lookup_app_l_Some.
      * apply lookup_app_Some in Hm as [Hm|[Hle Hm]]; [done|].
        by apply list_lookup_singleton_Some in Hm as [_ [= -> _]].
  - eexists. by rewrite list_lookup_middle.
  - intros j f Hj. by apply lookup_app_l_Some.
Qed.

(** Waiters keep their flights when flights keep their keys. *)
Lemma waiting_mono fs fs' (cs : list (caller S A)) :
  (∀ n f, fs !! n = Some f → ∃ f', fs' !! n = Some f' ∧ f_key f' = f_key f) →
  (∀ i ctx k n κ, cs !! i = Some (Waiting ctx k n κ) →
     ∃ f, fs !! n = Some f ∧ f_key f = k) →
  ∀ i ctx k n κ, cs !! i = Some (Waiting ctx k n κ) →
     ∃ f, fs' !! n = Some f ∧ f_key f = k.
Proof.
  intros Hfs H i ctx k n κ Hi. destruct (H _ _ _ _ _ Hi) as (f & Hf & <-). by apply Hfs.
Qed.

Lemma waiting_insert fs (cs : list (caller S A)) j (c : caller S A) :
  match c with Waiting _ k n _ => ∃ f, fs !! n = Some f ∧ f_key f = k | _ => True end →
  (∀ i ctx k n κ, cs !! i = Some (Waiting ctx k n κ) →
     ∃ f, fs !! n = Some f ∧ f_key f = k) →
  ∀ i ctx k n κ, <[j := c]> cs !! i = Some (Waiting ctx k n κ) →
     ∃ f, fs !! n = Some f ∧ f_key f = k.
Proof.
  intros Hc H i ctx k n κ Hi. apply list_lookup_insert_Some in Hi
    as [(-> & -> & _)|[_ Hi]]; [done|by eapply H].
Qed.

(** Replacing a flight by one of the same key. *)
Lemma insert_keeps_keys fs n key ph ph' :
  fs !! n = Some (mkFlight key ph) →
  ∀ j f, fs !! j = Some f →
    ∃ f', <[n := mkFlight key ph']> fs !! j = Some f' ∧ f_key f' = f_key f.
Proof.
  intros Hn j f Hj. destruct (decide (j = n)) as [->|Hne].
  - rewrite list_lookup_insert_eq by (by eapply lookup_lt_Some).
    eexists. split; [done|]. by assert (f = mkFlight key ph) as -> by congruence.
  - rewrite list_lookup_insert_ne by done. by exists f.
Qed.

(** The table after each step of a flight. *)
Lemma table_running g fs n key m m' :
  fs !! n = Some (mkFlight key (Running m)) → table g fs →
  table g (<[n := mkFlight key (Running m')]> fs).
Proof.
  intros H Htab k j. rewrite (Htab k j). apply lookup_lt_Some in H as Hlt.
  destruct (decide (j = n)) as [->|Hne].
  - rewrite list_lookup_insert_eq by done.
    split; intros [m0 Hm]; eexists; [by assert (k = key) as -> by congruence|].
    injection Hm as <- _. done.
  - by rewrite list_lookup_insert_ne.
Qed.

Lemma table_forget g fs n key m r :
  fs !! n = Some (mkFlight key (Running m)) → table g fs →
  table (sf_forget key g) (<[n := mkFlight key (Forgotten r)]> fs).
Proof.
  intros H Htab k j. apply lookup_lt_Some in H as Hlt.
  assert (sf_lookup g key = Some n) as Hn by (apply Htab; by eexists).
  rewrite sf_lookup_forget. destruct (decide (j = n)) as [->|Hne].
  - rewrite list_lookup_insert_eq by done. case_decide as Hk; [by split; [|intros [? ?]]|].
    rewrite (Htab k n). split; intros [m' Hm]; congruence.
  - rewrite list_lookup_insert_ne by done. rewrite <-(Htab k j).
    case_decide as Hk; [|done]. subst k. split; [done|]. congruence.
Qed.

Lemma table_deliver g fs n key r :
  fs !! n = Some (mkFlight key (Forgotten r)) → table g fs →
  table (sf_end key n g) (<[n := mkFlight key (Delivered r)]> fs).
Proof.
  intros H Htab k j. apply lookup_lt_Some in H as Hlt.
  assert (sf_lookup g key ≠ Some n) as Hn.
  { intros Hn. apply Htab in Hn as [m Hm]. congruence. }
  rewrite sf_lookup_end, decide_False by (by intros [_ ?]). rewrite (Htab k j).
  destruct (decide (j = n)) as [->|Hne].
  - rewrite list_lookup_insert_eq by done. split; intros [m Hm]; congruence.
  - by rewrite list_lookup_insert_ne.
Qed.

Lemma flight_inv_step s s' : flight_inv s → step_sys s s' → flight_inv s'.
Proof.
  intros [Htab Hwait] Hstep. destruct Hstep; cbn [s_group s_flights s_callers] in *.
  1,4,5,6: by split; [done|apply waiting_insert].
  3-5: split; cbn [s_group s_flights s_callers];
    [|eapply waiting_mono; [|done]; by eapply insert_keeps_keys].
  - destruct (DoChan_spec _ _ _ _ _ _ _ Htab H0) as (Htab' & (m & Hm) & Hmono & _).
    split; [done|]. apply waiting_insert; [by eexists|].
    eapply waiting_mono; [|done]. intros j f Hj. exists f. by split; [apply Hmono|].
  - destruct (DoChan_spec _ _ _ _ _ _ _ Htab H0) as (Htab' & _ & Hmono & _).
    split; [done|]. apply waiting_insert; [done|].
    eapply waiting_mono; [|done]. intros j f Hj. exists f. by split; [apply Hmono|].
  - by eapply table_running.
  - by eapply table_forget.
  - by eapply table_deliver.
  - done.
Qed.

Lemma flight_inv_steps s s' : flight_inv s → rtc step_sys s s' → flight_inv s'.
Proof. intros H Hst. induction Hst; [done|]. eauto using flight_inv_step. Qed.

Lemma flight_inv_reachable w ps s : reachable (G := G) w ps s → flight_inv s.
Proof. apply flight_inv_steps, flight_inv_initial. Qed.
End invariants.
