(* ===== verification/FlightsThms.v ===== *)
(** * Concurrent callers: the theorems

    What holds in every state that many concurrent callers of GetOrSet can
    reach, for any scheduling of callers and flights: one flight per key, no
    orphan waiter, one result for all, cancellation of a waiter, and the
    sequential meaning [solo] as one of the schedules. *)
From S2P Require Import Prelude Int64 Float64 Errors Runtime Envelope Hooks Codec.
From S2P Require Import Options Cache Memory Group GetOrSet GetOrSetFacts Instances.
From S2P Require Import Flights.
From Stdlib Require Import ZArith Lia.

(** ** What a program asks of the group *)

(** Every flight the program may start or join, now or later, is allowed. *)
Fixpoint prog_all {S A} (P : string → Prop) (p : prog S A) : Prop :=
  match p with
  | PRet _ => True
  | PStep f => ∀ w, prog_all P (f w).1
  | PDo _ key _ k => P key ∧ ∀ r, prog_all P (k r)
  | PAsync key _ k => P key ∧ prog_all P k
  end.

Section prog_all.
Context {S : Type} (P : string → Prop).

Lemma prog_all_bind {A B} (p : prog S A) (k : A → prog S B) :
  prog_all P p → (∀ a, prog_all P (k a)) → prog_all P (p ≫= k).
Proof.
  intros Hp Hk. induction p as [a|f IH|ctx key fn h IH|key fn h IH] using prog_rect'.
  - apply Hk.
  - intros w. specialize (IH w). specialize (Hp w). simpl.
    destruct (f w) as [p' w']. by apply IH.
  - destruct Hp as [H1 H2]. split; [done|]. intros r. by apply IH.
  - destruct Hp as [H1 H2]. split; [done|]. by apply IH.
Qed.

Lemma prog_all_lift {A} (m : act S A) : prog_all P (lift m).
Proof.
  induction m as [a|f IH] using act_rect'; [done|]. intros w. specialize (IH w).
  simpl. by destruct (f w).
Qed.

Lemma prog_all_do ctx key (fn : flight_fn S) : P key → prog_all P (do ctx key fn).
Proof. by intros H. Qed.

Lemma prog_all_async key (fn : flight_fn S) : P key → prog_all P (doAsync key fn).
Proof. by intros H. Qed.
End prog_all.

(** GetOrSet only uses the flight key of its cache and key. *)
Lemma GetOrSet_flights {S T} `{!JSON T} ctx (c : Cache S) key ttl (codec : option (Codec T))
    loader :
  prog_all (λ k, k = flightKey (c_addr c) key)
    (GetOrSetWithCodec ctx c key ttl codec loader).
Proof.
  unfold GetOrSetWithCodec. apply prog_all_bind; [apply prog_all_lift|]. intros r.
  apply prog_all_bind.
  - destruct r as [data|e]; [|done]. unfold serveHit.
    destruct (isNegativeEntry data); [done|].
    destruct (parseStored _ data) as [env payload], (Unmarshal _ payload) as [v|e].
    + apply prog_all_bind; [apply prog_all_lift|]. intros t. apply prog_all_bind; [|done].
      case_match; [by apply prog_all_async|].
      apply prog_all_bind; [apply prog_all_lift|]. intros [|]; [by apply prog_all_async|done].
    + apply prog_all_bind; [apply prog_all_lift|]. intros _.
      apply prog_all_bind; [apply prog_all_lift|done].
  - intros [res|]; [done|]. apply prog_all_bind; [by apply prog_all_do|done].
Qed.

(** ** Callers of GetOrSet *)

Record call (S T : Type) := mkCall {
  cl_ctx : Context;
  cl_cache : Cache S;
  cl_key : string;
  cl_ttl : Duration;
  cl_codec : option (Codec T);
  cl_loader : Context → act S (outcome (result T))
}.
Arguments mkCall {S T}. Arguments cl_ctx {S T}. Arguments cl_cache {S T}.
Arguments cl_key {S T}. Arguments cl_ttl {S T}. Arguments cl_codec {S T}.
Arguments cl_loader {S T}.

Definition call_prog {S T} `{!JSON T} (cl : call S T) : prog S (result T) :=
  GetOrSetWithCodec (cl_ctx cl) (cl_cache cl) (cl_key cl) (cl_ttl cl) (cl_codec cl)
    (cl_loader cl).

(** The cache and the key of a call, and its flight key. *)
Definition call_id {S T} (cl : call S T) : N * string := (c_addr (cl_cache cl), cl_key cl).
Definition id_key (id : N * string) : string := flightKey id.1 id.2.

Definition running_key {S} (f : flight S) : option string :=
  match f_phase f with Running _ => Some (f_key f) | _ => None end.

Definition running_keys {G S A} (s : system G S A) : list string :=
  omap running_key (s_flights s).

Section calls.
Context {G S T : Type} `{!SingleFlight G} `{!SingleFlightLaws G} `{!JSON T}.
Implicit Types (s : system G S (result T)) (calls : list (call S T)).

(** Callers and flights only ever concern the calls that were made. *)
Definition caller_ok (cl : call S T) (c : caller S (result T)) : Prop :=
  match c with
  | Caller p => prog_all (λ k, k = id_key (call_id cl)) p
  | Waiting _ k _ κ => k = id_key (call_id cl)
      ∧ ∀ r, prog_all (λ k, k = id_key (call_id cl)) (κ r)
  | Finished _ => True
  end.

Record calls_inv calls s : Prop := {
  ci_callers i c : s_callers s !! i = Some c →
    ∃ cl, calls !! i = Some cl ∧ caller_ok cl c;
  ci_flights n f : s_flights s !! n = Some f →
    ∃ cl, cl ∈ calls ∧ f_key f = id_key (call_id cl)
}.

Lemma calls_inv_initial w calls : calls_inv calls (initial (G := G) w (call_prog <$> calls)).
Proof.
  split; cbn [initial s_flights s_callers]; [|done].
  intros i c Hi. rewrite list_lookup_fmap, list_lookup_fmap in Hi.
  destruct (calls !! i) as [cl|]; [|done]. injection Hi as <-.
  exists cl. split; [done|]. apply GetOrSet_flights.
Qed.

Lemma ci_insert calls (cs : list (caller S (result T))) i c0 c' :
  cs !! i = Some c0 →
  (∀ i c, cs !! i = Some c → ∃ cl, calls !! i = Some cl ∧ caller_ok cl c) →
  (∀ cl, calls !! i = Some cl → caller_ok cl c0 → caller_ok cl c') →
  ∀ j c, <[i := c']> cs !! j = Some c → ∃ cl, calls !! j = Some cl ∧ caller_ok cl c.
Proof.
  intros Hi H Hc j c Hj. apply list_lookup_insert_Some in Hj as [(<- & <- & _)|[_ Hj]].
  - destruct (H _ _ Hi) as (cl & Hcl & Hok). exists cl. split; [done|]. by apply Hc.
  - by apply H.
Qed.

Lemma ci_replace calls (fs : list (flight S)) n key ph ph' :
  fs !! n = Some (mkFlight key ph) →
  (∀ n f, fs !! n = Some f → ∃ cl, cl ∈ calls ∧ f_key f = id_key (call_id cl)) →
  ∀ m f, <[n := mkFlight key ph']> fs !! m = Some f →
    ∃ cl, cl ∈ calls ∧ f_key f = id_key (call_id cl).
Proof.
  intros Hn H m f Hm. apply list_lookup_insert_Some in Hm as [(<- & <- & _)|[_ Hm]].
  - apply (H _ _ Hn).
  - by apply (H m).
Qed.

(** A new flight has the key of the call that starts it. *)
Lemma ci_DoChan calls key (fn : flight_fn S) (g : G) fs n g' fs' cl :
  DoChan key fn g fs = (n, g', fs') → cl ∈ calls → key = id_key (call_id cl) →
  (∀ n f, fs !! n = Some f → ∃ cl, cl ∈ calls ∧ f_key f = id_key (call_id cl)) →
  ∀ n f, fs' !! n = Some f → ∃ cl, cl ∈ calls ∧ f_key f = id_key (call_id cl).
Proof.
  unfold DoChan. intros Hd Hcl Hk H m f Hm.
  destruct (sf_lookup g key); injection Hd as <- <- <-; [by apply (H m)|].
  apply lookup_app_Some in Hm as [Hm|[_ Hm]]; [by apply (H m)|].
  apply list_lookup_singleton_Some in Hm as [_ <-]. by exists cl.
Qed.

Lemma calls_inv_step calls s s' : calls_inv calls s → step_sys s s' → calls_inv calls s'.
Proof.
  intros [Hc Hf] Hstep. destruct Hstep; cbn [s_callers s_flights] in *.
  1,4,5,6: split; cbn [s_callers s_flights]; [|done]; eapply ci_insert; [done..|];
    intros cl _; cbn [caller_ok prog_all]; naive_solver.
  - destruct (Hc _ _ H) as (cl & Hcl & Hk & _).
    split; cbn [s_callers s_flights].
    + eapply ci_insert; [done..|]. intros cl' _. cbn [caller_ok prog_all]. done.
    + eapply ci_DoChan; [done| |done|done]. by eapply list_elem_of_lookup_2.
  - destruct (Hc _ _ H) as (cl & Hcl & Hk & _).
    split; cbn [s_callers s_flights].
    + eapply ci_insert; [done..|]. intros cl' _. cbn [caller_ok prog_all]. by intros [_ ?].
    + eapply ci_DoChan; [done| |done|done]. by eapply list_elem_of_lookup_2.
  - split; cbn [s_callers s_flights]; [done|]. by eapply ci_replace.
  - split; cbn [s_callers s_flights]; [done|]. by eapply ci_replace.
  - split; cbn [s_callers s_flights]; [done|]. by eapply ci_replace.
  - done.
Qed.

Lemma calls_inv_reachable w calls s :
  reachable w (call_prog <$> calls) s → calls_inv calls s.
Proof.
  unfold reachable. intros H. pose proof (calls_inv_initial w calls) as Hi.
  revert Hi. induction H; [done|]. eauto using calls_inv_step.
Qed.

(** Running flights have different keys. *)
Lemma running_keys_NoDup s : flight_inv s → NoDup (running_keys s).
Proof.
  intros [Htab _]. unfold running_keys.
  assert (∀ i j f f' k, s_flights s !! i = Some f → s_flights s !! j = Some f' →
    running_key f = Some k → running_key f' = Some k → i = j) as Huniq.
  { intros i j [k1 ph1] [k2 ph2] k Hi Hj H1 H2. unfold running_key in *. cbn in *.
    destruct ph1 as [m1| |], ph2 as [m2| |]; simplify_eq.
    assert (sf_lookup (s_group s) k = Some i) by (apply Htab; by eexists).
    assert (sf_lookup (s_group s) k = Some j) by (apply Htab; by eexists). congruence. }
  clear Htab. induction (s_flights s) as [|f fs IH]; [apply NoDup_nil_2|]. cbn.
  destruct (running_key f) as [k|] eqn:E.
  - apply NoDup_cons. split.
    + intros ([k' ph] & Hin & Hk)%list_elem_of_omap.
      apply list_elem_of_lookup in Hin as [j Hj].
      specialize (Huniq 0 (Datatypes.S j) f _ k eq_refl Hj E Hk). done.
    + apply IH. intros i j f1 f2 k' Hi Hj H1 H2.
      specialize (Huniq (Datatypes.S i) (Datatypes.S j) f1 f2 k' Hi Hj H1 H2). lia.
  - apply IH. intros i j f1 f2 k' Hi Hj H1 H2.
    specialize (Huniq (Datatypes.S i) (Datatypes.S j) f1 f2 k' Hi Hj H1 H2). lia.
Qed.
End calls.

(** ** At most one load per key *)

Lemma id_key_inj (id1 id2 : N * string) :
  (id1.1 < 2 ^ 64)%N → (id2.1 < 2 ^ 64)%N → id_key id1 = id_key id2 → id1 = id2.
Proof.
  destruct id1 as [a k], id2 as [b k']. unfold id_key, flightKey. cbn [fst snd].
  intros Ha Hb H. apply no_nul_split in H as [H ->]; [|apply fmt_p_no_nul..].
  by rewrite (fmt_p_inj a b).
Qed.

(** The callers of the demonstration: three callers of one key, on one cache. *)
Definition demo_call : call items bool :=
  mkCall Background demo_cache "k" Minute None (demo_loader (Returned (Ok true))).
Definition demo_calls : list (call items bool) := [demo_call; demo_call; demo_call].

Section one_load.
Context {G S T : Type} `{!SingleFlight G} `{!SingleFlightLaws G} `{!JSON T}.
Implicit Types (s : system G S (result T)) (calls : list (call S T)).

(** C11: However many callers of GetOrSet run at once, and however their steps
    and those of the flights interleave, at most one flight is running per
    cache and key - no more flights than distinct (cache, key) pairs were
    asked for -, every running flight is one that some caller asked for, and
    callers that wait on the same flight asked for the same key of the same
    cache. *)
Theorem one_flight_per_key w calls s :
  reachable w (call_prog <$> calls) s →
  NoDup (running_keys s)
  ∧ (∀ k, k ∈ running_keys s → ∃ cl, cl ∈ calls ∧ k = id_key (call_id cl))
  ∧ length (running_keys s) ≤ length (remove_dups (call_id <$> calls))
  ∧ (Forall (λ cl, (c_addr (cl_cache cl) < 2 ^ 64)%N) calls →
     ∀ i j n cl1 cl2 ctx1 ctx2 k1 k2 κ1 κ2,
       calls !! i = Some cl1 → calls !! j = Some cl2 →
       s_callers s !! i = Some (Waiting ctx1 k1 n κ1) →
       s_callers s !! j = Some (Waiting ctx2 k2 n κ2) →
       call_id cl1 = call_id cl2).
Proof.
  intros Hr. pose proof (flight_inv_reachable _ _ _ Hr) as Hf.
  pose proof (calls_inv_reachable _ _ _ Hr) as [Hcallers Hflights].
  pose proof (running_keys_NoDup _ Hf) as Hnd.
  assert (∀ k, k ∈ running_keys s → ∃ cl, cl ∈ calls ∧ k = id_key (call_id cl)) as Hk.
  { intros k ([key ph] & Hin & Hk)%list_elem_of_omap.
    apply list_elem_of_lookup in Hin as [n Hn].
    destruct (Hflights _ _ Hn) as (cl & Hcl & E). exists cl. split; [done|].
    rewrite <-E. unfold running_key in Hk. cbn in *. by destruct ph; simplify_eq. }
  split_and!; [done|done| |].
  - rewrite <-(length_fmap id_key). apply submseteq_length, NoDup_submseteq; [done|].
    intros k (cl & Hcl & ->)%Hk. apply list_elem_of_fmap_2, elem_of_remove_dups.
    by apply list_elem_of_fmap_2.
  - intros Haddr i j n cl1 cl2 ctx1 ctx2 k1 k2 κ1 κ2 H1 H2 Hw1 Hw2.
    destruct (inv_waiting _ Hf _ _ _ _ _ Hw1) as (f & Hfn & <-).
    destruct (inv_waiting _ Hf _ _ _ _ _ Hw2) as (f' & Hfn' & <-).
    assert (f' = f) as -> by congruence.
    destruct (Hcallers _ _ Hw1) as (cl & Hcl & E1 & _).
    destruct (Hcallers _ _ Hw2) as (cl' & Hcl' & E2 & _).
    assert (cl = cl1) as -> by congruence. assert (cl' = cl2) as -> by congruence.
    rewrite Forall_forall in Haddr.
    apply id_key_inj; [apply Haddr; by eapply list_elem_of_lookup_2..|congruence].
Qed.
End one_load.

(** Two of the three callers miss and wait; the third has not started; the
    flight is about to load. *)
Definition demo_start : system (gmap string nat) items (result bool) :=
  initial demo_empty (call_prog <$> demo_calls).
Definition demo_waiting : system (gmap string nat) items (result bool) :=
  schedule (replicate 10 (ChCaller 0) ++ replicate 10 (ChCaller 1) ++ replicate 3 (ChFlight 0))
    demo_start.

Lemma demo_waiting_reachable : reachable demo_empty (call_prog <$> demo_calls) demo_waiting.
Proof. apply schedule_sound. Qed.

(** What the callers are doing. *)
Definition caller_flight {S A} (c : caller S A) : option nat :=
  match c with Waiting _ _ n _ => Some n | _ => None end.

Lemma one_flight_per_key_witness :
  caller_flight <$> s_callers demo_waiting = [Some 0; Some 0; None]
  ∧ length (running_keys demo_waiting) = 1
  ∧ length (running_keys demo_waiting) ≤ length (remove_dups (call_id <$> demo_calls)).
Proof.
  split_and!; [vm_compute; reflexivity..|].
  apply (one_flight_per_key demo_empty demo_calls demo_waiting demo_waiting_reachable).
Defined.

(** ** Flights finish *)

Section progress.
Context {G S A : Type} `{!SingleFlight G} `{!SingleFlightLaws G}.
Implicit Types (s : system G S A) (w : World S).

(** A flight that is left to run reaches the result its code runs to. *)
Lemma flight_runs n key (m : act S (result bytes)) w (g : G) fs (cs : list (caller S A)) :
  fs !! n = Some (mkFlight key (Running m)) →
  rtc step_sys (mkSystem w g fs cs)
    (mkSystem (run m w).2 g (<[n := mkFlight key (Running (Ret (run m w).1))]> fs) cs).
Proof.
  revert w fs. induction m as [r|f IH] using act_rect'; intros w fs Hn.
  - cbn. by rewrite list_insert_id.
  - eapply rtc_l; [by apply S_flight|]. specialize (IH w (f w).2
      (<[n := mkFlight key (Running (f w).1)]> fs)).
    rewrite list_insert_insert_eq in IH. cbn [run]. destruct (f w) as [m' w'].
    apply IH. apply list_lookup_insert_eq. by eapply lookup_lt_Some.
Qed.

(** The end of a flight whose function has returned. *)
Lemma flight_delivers n key r w (g : G) fs (cs : list (caller S A)) :
  fs !! n = Some (mkFlight key (Forgotten r)) →
  rtc step_sys (mkSystem w g fs cs)
    (mkSystem w (sf_end key n g) (<[n := mkFlight key (Delivered r)]> fs) cs).
Proof. intros Hn. by apply rtc_once, S_deliver. Qed.

(** The waiters of [n], given its result. *)
Definition resume n (r : result bytes) (c : caller S A) : caller S A :=
  match c with
  | Waiting _ _ n' k => if decide (n' = n) then Caller (k r) else c
  | _ => c
  end.

Lemma waiters_receive n key r w (g : G) fs (cs : list (caller S A)) :
  fs !! n = Some (mkFlight key (Delivered r)) →
  rtc step_sys (mkSystem w g fs cs) (mkSystem w g fs (resume n r <$> cs)).
Proof.
  intros Hn. cut (∀ seen rest, rtc step_sys (mkSystem w g fs (seen ++ rest))
    (mkSystem w g fs (seen ++ (resume n r <$> rest)))); [by intros H; apply (H [])|].
  intros seen rest. revert seen. induction rest as [|c rest IH]; intros seen; [done|].
  specialize (IH (seen ++ [resume n r c])). rewrite <-!(assoc_L (++)) in IH. cbn in *.
  destruct c as [p|ctx key' n' k|a]; try done. unfold resume in IH at 1 2.
  unfold resume at 1. case_decide as E; [subst n'|done].
  eapply rtc_l; [|apply IH].
  replace (seen ++ Caller (k r) :: rest) with
    (<[length seen := Caller (k r)]> (seen ++ Waiting ctx key' n k :: rest)).
  - eapply S_receive; [by apply list_lookup_middle|done|done].
  - by rewrite insert_app_r_alt, Nat.sub_diag by lia.
Qed.

(** C16: No waiter is stuck behind a flight, and no key stays occupied: from
    every reachable state, whatever the callers and the other flights do or
    have done, a running flight that is scheduled alone ends with exactly the
    result and the world its function runs to; all its waiters - and nobody
    else - can then go on with that result, and the next caller of the key
    starts a flight of its own. *)
Theorem flight_completes w ps s n key m :
  reachable (G := G) w ps s → s_flights s !! n = Some (mkFlight key (Running m)) →
  let r := (run m (s_world s)).1 in
  ∃ s', rtc step_sys s s'
  ∧ s_world s' = (run m (s_world s)).2
  ∧ s_flights s' = <[n := mkFlight key (Delivered r)]> (s_flights s)
  ∧ s_callers s' = (resume n r <$> s_callers s)
  ∧ ∀ fn, (DoChan key fn (s_group s') (s_flights s')).1.1 = length (s_flights s').
Proof.
  intros Hr Hn r. pose proof (flight_inv_reachable _ _ _ Hr) as [Htab _].
  destruct s as [w0 g fs cs]. cbn [s_world s_group s_flights s_callers] in *.
  apply lookup_lt_Some in Hn as Hlt.
  exists (mkSystem (run m w0).2 (sf_end key n (sf_forget key g))
    (<[n := mkFlight key (Delivered r)]> fs) (resume n r <$> cs)).
  split_and!; [|done|done|done|].
  - etrans; [by apply (flight_runs n key m)|].
    eapply rtc_l; [by apply S_forget, list_lookup_insert_eq|].
    rewrite list_insert_insert_eq. etrans.
    { apply flight_delivers, list_lookup_insert_eq. done. }
    rewrite list_insert_insert_eq.
    apply (waiters_receive n key), list_lookup_insert_eq. done.
  - intros fn. cbn [s_group s_flights]. unfold DoChan.
    rewrite sf_lookup_end, sf_lookup_forget, decide_False by (rewrite decide_True by done; by intros [_ ?]).
    by rewrite decide_True.
Qed.
End progress.

Lemma running_flight {G S A} (s : system G S A) n key :
  (s_flights s !! n) ≫= running_key = Some key →
  ∃ m, s_flights s !! n = Some (mkFlight key (Running m)).
Proof.
  destruct (s_flights s !! n) as [[k [m| |]]|]; try done. intros [= ->]. by exists m.
Qed.

Lemma flight_completes_witness :
  ∃ s', rtc step_sys demo_waiting s'
  ∧ (caller_flight <$> s_callers s') = [None; None; None].
Proof.
  destruct (running_flight demo_waiting 0 (id_key (call_id demo_call))) as [m E];
    [vm_compute; reflexivity|].
  destruct (flight_completes demo_empty _ demo_waiting 0 _ m demo_waiting_reachable E)
    as (s' & Hs & _ & _ & Hc & _).
  exists s'. split; [done|]. rewrite Hc. vm_compute. reflexivity.
Defined.

(** ** One result for all waiters *)

Section results.
Context {G S A : Type} `{!SingleFlight G}.
Implicit Types (s : system G S A).

(** What has been delivered stays. *)
Lemma delivered_step s s' n key r :
  s_flights s !! n = Some (mkFlight key (Delivered r)) → step_sys s s' →
  s_flights s' !! n = Some (mkFlight key (Delivered r)).
Proof.
  intros Hn Hstep. destruct Hstep; cbn [s_flights] in *; try done.
  1,2: unfold DoChan in H0; destruct (sf_lookup g key0); injection H0 as <- <- <-;
    [done|by apply lookup_app_l_Some].
  all: rewrite list_lookup_insert_ne; [done|]; by intros ->; simplify_eq.
Qed.

Lemma delivered_steps s s' n key r :
  rtc step_sys s s' → s_flights s !! n = Some (mkFlight key (Delivered r)) →
  s_flights s' !! n = Some (mkFlight key (Delivered r)).
Proof. induction 1; eauto using delivered_step. Qed.

(** C17: A waiter leaves the select of [do] in one of two ways only, whatever
    else happens in the system.  Either it goes on with the result its flight
    delivered - and a delivered result never changes, so all the waiters of
    one flight that take it, early or late, take the same one -; or its own
    context is done and it goes on with that context's error.  In both cases
    nothing else moves: a cancellation does not touch the cache, the group,
    the flight the others wait for, or the other callers. *)
Theorem waiters_share_result s s' i ctx key n κ :
  s_callers s !! i = Some (Waiting ctx key n κ) → step_sys s s' →
  (∀ k r s'', s_flights s !! n = Some (mkFlight k (Delivered r)) →
     rtc step_sys s s'' → s_flights s'' !! n = Some (mkFlight k (Delivered r)))
  ∧ (s_callers s' !! i = Some (Waiting ctx key n κ)
     ∨ ∃ r, (f_phase <$> s_flights s !! n = Some (Delivered r)
             ∨ ∃ e, ctx_Err ctx (s_world s) = Some e ∧ r = Err e)
       ∧ s' = mkSystem (s_world s) (s_group s) (s_flights s)
                (<[i := Caller (κ r)]> (s_callers s))).
Proof.
  intros Hi Hstep. split; [by eauto using delivered_steps|].
  destruct Hstep as [w g fs cs j f Hj|w g fs cs j c k fn h m g' fs' Hj Hd
    |w g fs cs j k fn h m g' fs' Hj Hd|w g fs cs j c k m h f r Hj Hf Hp
    |w g fs cs j c k m h e Hj He|w g fs cs j a Hj| | | | ];
    cbn [s_world s_group s_flights s_callers] in *; try (by left);
    (destruct (decide (j = i)) as [->|Hne]; [|left; by rewrite list_lookup_insert_ne]);
    simplify_eq; right.
  - exists r. split; [left; by rewrite Hf; cbn; rewrite Hp|done].
  - exists (Err e). split; [right; by exists e|done].
Qed.
End results.

(** The flight has delivered; its two waiters have not looked yet. *)
Definition demo_delivered : system (gmap string nat) items (result bool) :=
  schedule (replicate 40 (ChFlight 0)) demo_waiting.

Lemma waiting_caller {G S A} (s : system G S A) i n :
  (s_callers s !! i) ≫= caller_flight = Some n →
  ∃ ctx key κ, s_callers s !! i = Some (Waiting ctx key n κ).
Proof. destruct (s_callers s !! i) as [[]|]; try done. intros [= ->]. eauto. Qed.

Definition flight_done {S} (f : flight S) : option (result bytes) :=
  match f_phase f with Delivered r => Some r | _ => None end.

Lemma delivered_flight {G S A} (s : system G S A) n r :
  (s_flights s !! n) ≫= flight_done = Some r →
  ∃ key, s_flights s !! n = Some (mkFlight key (Delivered r)).
Proof.
  destruct (s_flights s !! n) as [[k [m| |]]|]; try done. intros [= ->]. by exists k.
Qed.

Definition demo_loaded : bytes :=
  wrapEnvelope json_true (demo_time + 60020000020) (20 * Millisecond).

(** The second caller takes the result; the first one still can. *)
Lemma waiters_share_result_witness :
  let s' := schedule [ChReceive 1] demo_delivered in
  step_sys demo_delivered s'
  ∧ (caller_flight <$> s_callers s') = [Some 0; None; None]
  ∧ (s_flights s' !! 0) ≫= flight_done = Some (Ok demo_loaded).
Proof.
  destruct (waiting_caller demo_delivered 1 0) as (ctx & key & κ & Hi);
    [vm_compute; reflexivity|].
  destruct (delivered_flight demo_delivered 0 (Ok demo_loaded)) as [k Hk];
    [vm_compute; reflexivity|].
  assert (step_sys demo_delivered (schedule [ChReceive 1] demo_delivered)) as Hs.
  { apply (sched_sound (ChReceive 1)). cbn [schedule foldl].
    assert (bool_decide (is_Some (sched (ChReceive 1) demo_delivered)) = true) as E
      by (vm_compute; reflexivity).
    apply bool_decide_eq_true in E as [s' ->]. reflexivity. }
  cbn zeta. split; [done|]. split; [vm_compute; reflexivity|].
  destruct (waiters_share_result _ _ _ _ _ _ _ Hi Hs) as [Hstay _].
  rewrite (Hstay _ _ _ Hk (rtc_once _ _ Hs)). reflexivity.
Defined.

(** ** Running alone is one of the schedules *)

(** Programs with steps only, and programs whose last act towards the group is
    a [doAsync]; [Q] holds of the value returned after it. *)
Fixpoint straight {S A} (Q : A → Prop) (p : prog S A) : Prop :=
  match p with
  | PRet a => Q a
  | PStep f => ∀ w, straight Q (f w).1
  | _ => False
  end.

Fixpoint async_last {S A} (Q : A → Prop) (p : prog S A) : Prop :=
  match p with
  | PRet _ => True
  | PStep f => ∀ w, async_last Q (f w).1
  | PDo _ _ _ k => ∀ r, async_last Q (k r)
  | PAsync _ _ k => straight Q k
  end.

Section async_last.
Context {S : Type}.

Lemma straight_bind {A B} (Q : A → Prop) (Q' : B → Prop) (p : prog S A) k :
  straight Q p → (∀ a, Q a → straight Q' (k a)) → straight Q' (p ≫= k).
Proof.
  intros Hp Hk. induction p as [a|f IH|ctx key fn h IH|key fn h IH] using prog_rect';
    [by apply Hk| |done|done].
  intros w. specialize (IH w). specialize (Hp w). simpl. destruct (f w). by apply IH.
Qed.

Lemma async_last_bind {A B} (Q : A → Prop) (Q' : B → Prop) (p : prog S A) k :
  async_last Q p → (∀ a, async_last Q' (k a)) → (∀ a, Q a → straight Q' (k a)) →
  async_last Q' (p ≫= k).
Proof.
  intros Hp Hk Hs. induction p as [a|f IH|ctx key fn h IH|key fn h IH] using prog_rect'.
  - apply Hk.
  - intros w. specialize (IH w). specialize (Hp w). simpl. destruct (f w). by apply IH.
  - intros r. by apply IH.
  - by eapply straight_bind.
Qed.

Lemma async_last_lift {A} (Q : A → Prop) (m : act S A) : async_last Q (lift m).
Proof.
  induction m as [a|f IH] using act_rect'; [done|]. intros w. specialize (IH w).
  simpl. by destruct (f w).
Qed.
End async_last.

Lemma serveHit_async {S T} `{!JSON T} ctx (c : Cache S) key ttl (codec : Codec T) loader
    cfg data :
  async_last is_Some (serveHit ctx c key ttl codec loader cfg data).
Proof.
  unfold serveHit. destruct (isNegativeEntry data); [done|].
  destruct (parseStored cfg data) as [env payload], (Unmarshal codec payload) as [v|e].
  - eapply async_last_bind; [apply (async_last_lift (λ _, False))|intros t|done].
    eapply (async_last_bind (λ _, True)); [|done|by intros _ _; eexists].
    destruct (stale env t); [done|].
    eapply async_last_bind; [apply (async_last_lift (λ _, False))|intros [|]|]; done.
  - eapply async_last_bind; [apply (async_last_lift (λ _, False))|intros t|done].
    eapply async_last_bind; [apply (async_last_lift (λ _, False))|done|done].
Qed.

Lemma GetOrSet_async {S T} `{!JSON T} ctx (c : Cache S) key ttl
    (codec : option (Codec T)) loader :
  async_last (λ _, True) (GetOrSetWithCodec ctx c key ttl codec loader).
Proof.
  unfold GetOrSetWithCodec.
  eapply async_last_bind; [apply (async_last_lift (λ _, False))|intros r|done].
  eapply (async_last_bind is_Some); [|intros [res|]; done|by intros [res|] [? ?]].
  destruct r as [data|e]; [apply serveHit_async|done].
Qed.

(** The flights that have not finished, as [solo] hands them back. *)
Definition pending {S} (f : flight S) : option (string * act S (result bytes)) :=
  match f_phase f with Running m => Some (f_key f, m) | _ => None end.

Section solo_schedule.
Context {G S A : Type} `{!SingleFlight G} `{!SingleFlightLaws G}.
Implicit Types (p : prog S A) (g : G) (w : World S) (fs : list (flight S))
  (cs : list (caller S A)).

Lemma straight_runs Q p w g fs cs i :
  straight Q p → cs !! i = Some (Caller p) →
  ∃ a w', solo p w = (a, [], w')
  ∧ rtc step_sys (mkSystem w g fs cs) (mkSystem w' g fs (<[i := Finished a]> cs)).
Proof.
  revert w cs. induction p as [a|f IH|ctx key fn h IH|key fn h IH] using prog_rect';
    intros w cs Hp Hi; try done.
  - exists a, w. split; [done|]. by apply rtc_once, S_return.
  - destruct (IH w (f w).2 (<[i := Caller (f w).1]> cs)) as (a & w' & Hs & Hst).
    { apply Hp. } { apply list_lookup_insert_eq. by eapply lookup_lt_Some. }
    exists a, w'. split; [simpl; by destruct (f w)|].
    eapply rtc_l; [by apply S_caller|]. by rewrite list_insert_insert_eq in Hst.
Qed.

Lemma sf_lookup_cycle key n g k :
  sf_lookup g k = None →
  sf_lookup (sf_end key n (sf_forget key (sf_register key n g))) k = None.
Proof.
  intros H. rewrite sf_lookup_end. case_decide; [done|]. rewrite sf_lookup_forget.
  destruct (decide (k = key)); [done|]. by rewrite sf_lookup_register, decide_False.
Qed.

(** A flight started on a free key, run to its end. *)
Lemma flight_alone key (m : act S (result bytes)) w g fs cs :
  let r := (run m w).1 in let n := length fs in
  rtc step_sys (mkSystem w (sf_register key n g) (fs ++ [mkFlight key (Running m)]) cs)
    (mkSystem (run m w).2 (sf_end key n (sf_forget key (sf_register key n g)))
       (fs ++ [mkFlight key (Delivered r)]) cs).
Proof.
  intros r n.
  assert (∀ x y : flight S, <[n := y]> (fs ++ [x]) = fs ++ [y]) as Hins.
  { intros x y. by rewrite insert_app_r_alt, Nat.sub_diag by lia. }
  etrans; [apply (flight_runs n key m); by apply list_lookup_middle|].
  rewrite Hins. eapply rtc_l; [apply S_forget; by apply list_lookup_middle|].
  rewrite Hins. etrans; [apply flight_delivers; by apply list_lookup_middle|].
  by rewrite Hins.
Qed.

(** The select of [do] once the flight has delivered. *)
Lemma select_schedule ctx key n k r w g fs cs i :
  cs !! i = Some (Waiting ctx key n k) → fs !! n = Some (mkFlight key (Delivered r)) →
  rtc step_sys (mkSystem w g fs cs)
    (mkSystem (select_result ctx r w).2 g fs
       (<[i := Caller (k (select_result ctx r w).1)]> cs)).
Proof.
  intros Hi Hn. unfold select_result. destruct (ctx_Err ctx w) as [e|] eqn:E; cbn.
  - eapply rtc_r; [|apply S_env; exists 0%N, [], 0, 0, 0, 1; by rewrite Z.add_0_r, app_nil_r].
    apply rtc_once. destruct (select _ _); [by eapply S_cancel|by eapply S_receive].
  - apply rtc_once. by eapply S_receive.
Qed.

Lemma solo_schedule_gen (P : string → Prop) Q p w g fs cs i :
  (∀ k, P k → sf_lookup g k = None) → prog_all P p → async_last Q p →
  cs !! i = Some (Caller p) →
  ∃ a sp w' g' fs', solo p w = (a, sp, w') ∧ omap pending fs' = sp
  ∧ rtc step_sys (mkSystem w g fs cs) (mkSystem w' g' (fs ++ fs') (<[i := Finished a]> cs)).
Proof.
  revert w g fs cs. induction p as [a|f IH|ctx key fn h IH|key fn h IH] using prog_rect';
    intros w g fs cs Hfree Hall Hlast Hi; apply lookup_lt_Some in Hi as Hlt.
  - exists a, [], w, g, []. split_and!; [done..|]. rewrite app_nil_r.
    by apply rtc_once, S_return.
  - destruct (IH w (f w).2 g fs (<[i := Caller (f w).1]> cs)) as
      (a & sp & w' & g' & fs' & Hs & Hsp & Hst);
      [done|by apply Hall|by apply Hlast|by apply list_lookup_insert_eq|].
    exists a, sp, w', g', fs'. split_and!; [simpl; by destruct (f w)|done|].
    eapply rtc_l; [by apply S_caller|]. by rewrite list_insert_insert_eq in Hst.
  - destruct Hall as [Hkey Hall]. set (n := length fs).
    set (m := start fn). set (r := (run m w).1). set (w1 := (run m w).2).
    set (g1 := sf_end key n (sf_forget key (sf_register key n g))).
    set (fs1 := fs ++ [mkFlight key (Delivered r)]).
    set (r' := (select_result ctx r w1).1). set (w2 := (select_result ctx r w1).2).
    destruct (IH r' w2 g1 fs1 (<[i := Caller (h r')]> cs)) as
      (a & sp & w' & g' & fs' & Hs & Hsp & Hst);
      [|by apply Hall|by apply Hlast|by apply list_lookup_insert_eq|].
    { intros k Hk. by apply sf_lookup_cycle, Hfree. }
    exists a, sp, w', g', (mkFlight key (Delivered r) :: fs'). split_and!.
    + simpl. fold m. subst w2 r' w1 r. destruct (run m w) as [r0 w0].
      cbn [fst snd] in Hs. destruct (select_result ctx r0 w0). apply Hs.
    + done.
    + eapply rtc_l; [eapply (S_do _ _ _ _ _ _ _ _ _ n); [done|]|].
      { unfold DoChan. by rewrite Hfree. }
      etrans; [apply flight_alone|]. fold m r w1 g1 fs1.
      etrans; [eapply (select_schedule ctx key n h r w1 g1 fs1)|];
        [by apply list_lookup_insert_eq|by apply list_lookup_middle|].
      fold r' w2. unfold fs1 in Hst at 2. rewrite <-(assoc_L (++)) in Hst.
      by rewrite list_insert_insert_eq in Hst |- *.
  - destruct Hall as [Hkey Hall]. set (n := length fs).
    destruct (straight_runs Q h w (sf_register key n g)
      (fs ++ [mkFlight key (Running (start fn))]) (<[i := Caller h]> cs) i) as
      (a & w' & Hs & Hst); [done|by apply list_lookup_insert_eq|].
    exists a, [(key, start fn)], w', (sf_register key n g),
      [mkFlight key (Running (start fn))]. split_and!; [simpl; by rewrite Hs|done|].
    eapply rtc_l; [eapply (S_async _ _ _ _ _ _ _ _ n); [done|]|].
    { unfold DoChan. by rewrite Hfree. }
    by rewrite list_insert_insert_eq in Hst.
Qed.
End solo_schedule.

Section sequential.
Context {G S T : Type} `{!SingleFlight G} `{!SingleFlightLaws G} `{!JSON T}.

(** C19: What the sequential theorems say of a call running alone is something
    that does happen among concurrent callers: from any state in which no
    flight of its key is in progress - whatever the others are doing -, the
    caller can be scheduled to run exactly as [solo] runs it, with the same
    result, the same final world and the same background refreshes left
    running, while all other callers and flights stay where they are. *)
Theorem solo_is_a_schedule (s : system G S (result T)) i (cl : call S T) :
  s_callers s !! i = Some (Caller (call_prog cl)) →
  sf_lookup (s_group s) (id_key (call_id cl)) = None →
  let '(a, sp, w') := solo (call_prog cl) (s_world s) in
  ∃ s' fs', rtc step_sys s s' ∧ s_world s' = w'
  ∧ s_callers s' = <[i := Finished a]> (s_callers s)
  ∧ s_flights s' = s_flights s ++ fs' ∧ omap pending fs' = sp.
Proof.
  intros Hi Hfree. destruct s as [w g fs cs]. cbn [s_callers s_group s_world s_flights] in *.
  destruct (solo_schedule_gen (λ k, k = id_key (call_id cl)) (λ _, True) (call_prog cl)
    w g fs cs i) as (a & sp & w' & g' & fs' & -> & Hsp & Hst);
    [by intros k ->|apply GetOrSet_flights|apply GetOrSet_async|done|].
  eexists _, fs'. split_and!; [exact Hst|done..].
Qed.
End sequential.

Lemma solo_is_a_schedule_witness :
  ∃ s', rtc step_sys demo_start s'
  ∧ (s_callers s' !! 0) = Some (Finished (Ok true)).
Proof.
  pose proof (solo_is_a_schedule demo_start 0 demo_call eq_refl eq_refl) as H.
  assert ((solo (call_prog demo_call) (s_world demo_start)).1.1 = Ok true) as E
    by (vm_compute; reflexivity).
  destruct (solo (call_prog demo_call) (s_world demo_start)) as [[a sp] w'].
  destruct H as (s' & fs' & Hst & _ & Hc & _). exists s'. split; [done|].
  rewrite Hc. cbn in E. by rewrite E.
Defined.
