(* ===== verification/Provenance.v ===== *)
(** * Where returned values come from

    A rely-guarantee argument over the interleaved system of Flights.v: if
    the loaders for a key only return values that [V] holds of, so do all
    concurrent calls, whatever the schedule.  [act_ok] and [prog_ok] say that
    each atomic step keeps an invariant of the store which it may assume; the
    interface [HonestCache] is what a backend guarantees, MemoryCache
    implements it. *)
From S2P Require Import Prelude Int64 Float64 Errors Runtime Envelope Hooks Codec.
From S2P Require Import Options Cache Memory Group GetOrSet GetOrSetFacts Instances.
From S2P Require Import Flights FlightsThms.
From Stdlib Require Import ZArith Lia.

(** ** Code that keeps an invariant of the store at every step *)

Fixpoint act_ok {S A} (J : S → Prop) (Q : A → Prop) (m : act S A) : Prop :=
  match m with
  | Ret a => Q a
  | Step f => ∀ w, J (w_store w) → J (w_store (f w).2) ∧ act_ok J Q (f w).1
  end.

(** Programs: the results of flights satisfy [R], by flight key. *)
Fixpoint prog_ok {S A} (J : S → Prop) (R : string → result bytes → Prop) (Q : A → Prop)
    (p : prog S A) : Prop :=
  match p with
  | PRet a => Q a
  | PStep f => ∀ w, J (w_store w) → J (w_store (f w).2) ∧ prog_ok J R Q (f w).1
  | PDo _ key fn k => act_ok J (R key) (start fn) ∧ ∀ r, R key r → prog_ok J R Q (k r)
  | PAsync key fn k => act_ok J (R key) (start fn) ∧ prog_ok J R Q k
  end.

Section act_ok.
Context {S : Type} (J : S → Prop).

Lemma ok_bind {A B} (Q : A → Prop) (Q' : B → Prop) (m : act S A) (k : A → act S B) :
  act_ok J Q m → (∀ a, Q a → act_ok J Q' (k a)) → act_ok J Q' (m ≫= k).
Proof.
  intros Hm Hk. induction m as [a|f IH] using act_rect'; [by apply Hk|].
  intros w Hw. destruct (Hm w Hw) as [H1 H2]. specialize (IH w H2). simpl.
  by destruct (f w).
Qed.

Lemma ok_mono {A} (Q Q' : A → Prop) (m : act S A) :
  (∀ a, Q a → Q' a) → act_ok J Q m → act_ok J Q' m.
Proof.
  intros HQ Hm. induction m as [a|f IH] using act_rect'; [by apply HQ|].
  intros w Hw. destruct (Hm w Hw) as [H1 H2]. by split; [|apply IH].
Qed.

Lemma ok_atom {A} (Q : A → Prop) (f : World S → A * World S) :
  (∀ w, J (w_store w) → J (w_store (f w).2) ∧ Q (f w).1) → act_ok J Q (atom f).
Proof. intros H w Hw. specialize (H w Hw). simpl. by destruct (f w). Qed.

(** The steps one after the other. *)
Lemma ok_run {A} (Q : A → Prop) (m : act S A) w :
  act_ok J Q m → J (w_store w) → J (w_store (run m w).2) ∧ Q (run m w).1.
Proof.
  revert w. induction m as [a|f IH] using act_rect'; intros w Hm Hw; [done|].
  destruct (Hm w Hw) as [H1 H2]. specialize (IH w (f w).2 H2 H1). simpl.
  by destruct (f w).
Qed.

Lemma ok_locked {A} (Q : A → Prop) (m : act S A) : act_ok J Q m → act_ok J Q (locked m).
Proof. intros Hm. apply ok_atom. intros w Hw. by apply ok_run. Qed.

(** Steps that leave the store alone. *)
Lemma ok_true {A} (f : World S → A * World S) :
  (∀ w, w_store (f w).2 = w_store w) → act_ok J (λ _, True) (atom f).
Proof. intros H. apply ok_atom. intros w Hw. by rewrite H. Qed.

Lemma ok_now : act_ok J (λ _, True) now.
Proof. by apply ok_true. Qed.

Lemma ok_emit e : act_ok J (λ _, True) (emit e).
Proof. by apply ok_true. Qed.

Lemma ok_rand : act_ok J (λ _, True) rand_Float64.
Proof. by apply ok_true. Qed.

Lemma ok_oracle : act_ok J (λ _, True) get_oracle.
Proof. by apply ok_true. Qed.

Lemma ok_if_emit (b : bool) e : act_ok J (λ _, True) (if b then emit e else mret ()).
Proof. destruct b; [apply ok_emit|done]. Qed.

Lemma ok_applyJitter ttl frac : act_ok J (λ _, True) (applyJitter ttl frac).
Proof.
  unfold applyJitter. case_goal; [done|].
  eapply ok_bind; [apply ok_rand|intros r _].
  eapply ok_bind; [apply ok_oracle|done].
Qed.

Lemma ok_shouldEarlyRefresh env t beta :
  act_ok J (λ _, True) (shouldEarlyRefresh env t beta).
Proof.
  unfold shouldEarlyRefresh. case_goal; [done|].
  eapply ok_bind; [apply ok_rand|intros r _].
  eapply ok_bind; [apply ok_oracle|done].
Qed.

Lemma ok_flightContext base opts : act_ok J (λ _, True) (flightContext base opts).
Proof.
  unfold flightContext, WithTimeout. case_goal; [|done].
  eapply ok_bind; [apply ok_now|done].
Qed.

(** Programs. *)
Context (R : string → result bytes → Prop).

Lemma ok_lift {A} (Q : A → Prop) (m : act S A) : act_ok J Q m → prog_ok J R Q (lift m).
Proof.
  intros Hm. induction m as [a|f IH] using act_rect'; [done|].
  intros w Hw. destruct (Hm w Hw) as [H1 H2]. specialize (IH w H2). simpl.
  by destruct (f w).
Qed.

Lemma prog_ok_bind {A B} (Q : A → Prop) (Q' : B → Prop) (p : prog S A) k :
  prog_ok J R Q p → (∀ a, Q a → prog_ok J R Q' (k a)) → prog_ok J R Q' (p ≫= k).
Proof.
  intros Hp Hk. induction p as [a|f IH|ctx key fn h IH|key fn h IH] using prog_rect'.
  - by apply Hk.
  - intros w Hw. destruct (Hp w Hw) as [H1 H2]. specialize (IH w H2). simpl.
    by destruct (f w).
  - destruct Hp as [H1 H2]. split; [done|]. intros r Hr. by apply IH, H2.
  - destruct Hp as [H1 H2]. split; [done|]. by apply IH.
Qed.
End act_ok.

(** ** What a backend guarantees *)

(** The value the bytes stand for, if any, is one [V] holds of. *)
Definition valid {T} (cfg : cacheConfig) (codec : Codec T) (V : string → T → Prop)
    (key : string) (data : bytes) : Prop :=
  isNegativeEntry data = false →
  ∀ v, Unmarshal codec (parseStored cfg data).2 = Ok v → V key v.

(** Get hands out valid bytes and Set is only given such, while other callers
    work on the same store. *)
Class HonestCache {S T} (c : Cache S) (codec : Codec T) (V : string → T → Prop)
    (J : S → Prop) : Prop := {
  honest_Get ctx key : act_ok J
    (λ r, ∀ data, r = Ok data → valid (configOf (c_config c)) codec V key data)
    (c_Get c ctx key);
  honest_Set ctx key data ttl : valid (configOf (c_config c)) codec V key data →
    act_ok J (λ _, True) (c_Set c ctx key data ttl);
  honest_Delete ctx key : act_ok J (λ _, True) (c_Delete c ctx key)
}.

(** What a loader of [key] guarantees. *)
Definition loader_ok {S T} (J : S → Prop) (V : string → T → Prop) (key : string)
    (loader : Context → act S (outcome (result T))) : Prop :=
  ∀ ctx, act_ok J (λ o, ∀ v, o = Returned (Ok v) → V key v) (loader ctx).

Section pieces.
Context {S T : Type} `{!JSON T}.
Context (c : Cache S) (codec : Codec T) (V : string → T → Prop) (J : S → Prop).
Context `{!HonestCache c codec V J, !CodecRoundTrip codec}.
Abbreviation cfg := (configOf (c_config c)).

Lemma valid_negative key : valid cfg codec V key negativeMarker.
Proof. intros H. discriminate H. Qed.

(** What is packed for the backend is valid when the value is. *)
Lemma ok_packForStore key payload v ttl d :
  Unmarshal codec payload = Ok v → V key v →
  act_ok J (λ ds, valid cfg codec V key ds.1) (packForStore payload ttl d cfg).
Proof.
  intros Hu Hv. unfold packForStore. destruct (envelopeEnabled cfg) eqn:He; cbn [negb].
  - assert (∀ fu, valid cfg codec V key (wrapEnvelope payload fu d)) as Hw.
    { intros fu _ v'. rewrite parse_stored_wrap by done. congruence. }
    eapply ok_bind; [apply ok_applyJitter|intros fresh _].
    destruct (0 <? fresh)%Z; [|apply Hw].
    eapply ok_bind; [apply ok_now|]. intros t _. apply Hw.
  - intros _ v'. rewrite parseStored_off by done. cbn [fst snd]. congruence.
Qed.

Lemma ok_recheck key opts fctx :
  act_ok J (λ hit, ∀ data, hit = Some data → valid cfg codec V key data)
    (recheck c key codec cfg opts fctx).
Proof.
  unfold recheck. eapply ok_bind; [apply (honest_Get (V := V) (J := J))|]. intros [data|e] Hr; [|done].
  specialize (Hr data eq_refl).
  destruct (isNegativeEntry data); [by intros ? [= <-]|].
  destruct (parseStored _ data) as [env payload].
  eapply ok_bind; [apply ok_now|]. intros t _. case_goal; [|done].
  destruct (Unmarshal codec payload); [by intros ? [= <-]|].
  eapply ok_bind; [apply ok_if_emit|intros _ _].
  by eapply ok_bind; [apply (honest_Delete (V := V) (J := J))|].
Qed.

(** The bytes a flight yields are valid. *)
Abbreviation yields_valid key :=
  (λ r : result bytes, ∀ data, r = Ok data → valid cfg codec V key data).
Abbreviation flight_valid key :=
  (λ o : outcome (result bytes), ∀ data, o = Returned (Ok data) → valid cfg codec V key data).

Lemma ok_storeLoaded key ttl fctx d lr :
  (∀ v, lr = Ok v → V key v) →
  act_ok J (yields_valid key) (storeLoaded c key ttl codec cfg fctx d lr).
Proof.
  intros Hv. unfold storeLoaded. destruct lr as [v|e].
  - destruct (Marshal codec v) as [payload|me] eqn:Em.
    + eapply ok_bind; [eapply (ok_packForStore key); [by eapply codec_round_trip|by apply Hv]|].
      intros [data sttl] Hd. eapply ok_bind; [by apply (honest_Set (V := V) (J := J))|].
      intros _ _ ? [= <-]. done.
    + by eapply ok_bind; [apply ok_if_emit|].
  - case_goal; [|done].
    eapply ok_bind; [apply (honest_Set (V := V) (J := J)), valid_negative|].
    intros _ _ ? [= <-]. apply valid_negative.
Qed.

Lemma ok_loadAndStore base key ttl loader opts :
  loader_ok J V key loader →
  act_ok J (flight_valid key) (loadAndStore base c key ttl codec loader cfg opts).
Proof.
  intros Hl. unfold loadAndStore. eapply ok_bind; [apply ok_flightContext|intros fctx _].
  eapply ok_bind; [apply ok_recheck|]. intros [data|] Hd.
  { intros ? [= <-]. by apply Hd. }
  unfold loadPhase. eapply ok_bind; [apply ok_now|intros t0 _].
  eapply ok_bind; [apply Hl|]. intros [lr|p] Ho; [|done].
  eapply ok_bind; [apply ok_now|intros t1 _].
  eapply ok_bind; [apply ok_if_emit|intros _ _].
  eapply ok_bind; [apply ok_storeLoaded|].
  { intros v ->. by apply Ho. }
  intros r Hr ? [= ->]. by apply Hr.
Qed.

Lemma ok_start key fn :
  act_ok J (flight_valid key) fn → act_ok J (yields_valid key) (start fn).
Proof.
  intros H. eapply ok_bind; [exact H|]. intros [r|p] Hr; [|done].
  intros data ->. by apply Hr.
Qed.

Lemma ok_refreshFlight ctx key ttl loader env :
  loader_ok J V key loader →
  act_ok J (flight_valid key) (refreshFlight ctx c key ttl codec loader cfg env).
Proof.
  intros Hl. unfold refreshFlight. eapply ok_bind; [by apply ok_loadAndStore|].
  intros [[data|e]|p] Ho; cbn.
  - intros ? [= <-]. by apply Ho.
  - by eapply ok_bind; [apply ok_if_emit|].
  - by eapply ok_bind; [apply ok_if_emit|].
Qed.
End pieces.

(** ** Callers

    [R fk r]: the group may hand [r] to those who wait for the flight key
    [fk].  Under the keys of this cache that means: bytes valid for the key. *)

Section callers.
Context {S T : Type} `{!JSON T}.
Context (c : Cache S) (codec : Codec T) (V : string → T → Prop) (J : S → Prop).
Context `{!HonestCache c codec V J, !CodecRoundTrip codec}.
Abbreviation cfg := (configOf (c_config c)).

Definition hands_out (R : string → result bytes → Prop) : Prop :=
  ∀ key r, R (flightKey (c_addr c) key) r ↔ ∀ data, r = Ok data → valid cfg codec V key data.

Context (R : string → result bytes → Prop) (HR : hands_out R).

Lemma ok_handed key (m : act S (result bytes)) :
  act_ok J (λ r, ∀ data, r = Ok data → valid cfg codec V key data) m →
  act_ok J (R (flightKey (c_addr c) key)) m.
Proof. apply ok_mono. intros r. apply HR. Qed.

Definition returns_ok (key : string) (r : result T) : Prop := ∀ v, r = Ok v → V key v.

Lemma ok_refreshAsync ctx key ttl loader env :
  loader_ok J V key loader →
  prog_ok J R (λ _, True) (refreshAsync ctx c key ttl codec loader cfg env).
Proof. intros Hl. split; [|done]. by eapply ok_handed, ok_start, ok_refreshFlight. Qed.

Lemma ok_serveHit ctx key ttl loader data :
  loader_ok J V key loader → valid cfg codec V key data →
  prog_ok J R (λ hit, ∀ res, hit = Some res → returns_ok key res)
    (serveHit ctx c key ttl codec loader cfg data).
Proof.
  intros Hl Hd. unfold serveHit, valid in *. destruct (isNegativeEntry data).
  { by intros ? [= <-] v. }
  destruct (parseStored _ data) as [env payload]. cbn [snd] in Hd. specialize (Hd eq_refl).
  destruct (Unmarshal codec payload) as [v|e].
  - eapply prog_ok_bind; [apply ok_lift, ok_now|intros t _].
    eapply (prog_ok_bind J R (λ _, True)).
    + case_goal; [by apply ok_refreshAsync|].
      eapply prog_ok_bind; [apply ok_lift, ok_shouldEarlyRefresh|].
      intros [|] _; [by apply ok_refreshAsync|done].
    + intros _ _ res [= <-] v' [= <-]. by apply Hd.
  - eapply prog_ok_bind; [apply ok_lift, ok_if_emit|intros _ _].
    by eapply prog_ok_bind; [eapply ok_lift, (honest_Delete (V := V) (J := J))|].
Qed.

Lemma ok_decodeFlight key d :
  R (flightKey (c_addr c) key) d → returns_ok key (decodeFlight codec cfg key d).
Proof.
  intros Hd v. unfold decodeFlight. destruct d as [data|e]; [|done].
  pose proof (proj1 (HR key _) Hd data eq_refl) as Hv. clear Hd. unfold valid in Hv.
  destruct (isNegativeEntry data); [done|].
  destruct (parseStored _ data) as [env payload]. cbn [snd] in Hv.
  destruct (Unmarshal codec payload); [|done]. intros [= <-]. by apply Hv.
Qed.

Lemma ok_GetOrSet ctx key ttl codec' loader :
  codec_or_default codec' = codec → loader_ok J V key loader →
  prog_ok J R (returns_ok key) (GetOrSetWithCodec ctx c key ttl codec' loader).
Proof.
  intros Hc Hl. unfold GetOrSetWithCodec. rewrite Hc.
  eapply prog_ok_bind; [apply ok_lift, (honest_Get (V := V) (J := J))|intros r Hr].
  eapply (prog_ok_bind J R (λ hit, ∀ res, hit = Some res → returns_ok key res)).
  - destruct r as [data|e]; [|done]. apply ok_serveHit; [done|]. by apply Hr.
  - intros [res|] Hres; [by apply Hres|].
    eapply prog_ok_bind.
    + split; [|intros r' Hr'; exact Hr']. by eapply ok_handed, ok_start, ok_loadAndStore.
    + intros d Hd. by apply ok_decodeFlight.
Qed.

(** Callers of one cache, with loaders that only return what [V] allows. *)
Definition honest_call (cl : call S T) : Prop :=
  cl_cache cl = c ∧ codec_or_default (cl_codec cl) = codec
  ∧ loader_ok J V (cl_key cl) (cl_loader cl).

Lemma honest_call_prog (cl : call S T) :
  honest_call cl → prog_ok J R (returns_ok (cl_key cl)) (call_prog cl).
Proof. intros (H1 & H2 & H3). unfold call_prog. rewrite H1. by apply ok_GetOrSet. Qed.

End callers.

(** ** The system *)

Section system_ok.
Context {G S : Type} `{!SingleFlight G} `{!SingleFlightLaws G}.
Context (J : S → Prop) (R : string → result bytes → Prop) (Rerr : ∀ fk e, R fk (Err e)).

(** The invariant of the whole system: the caller [i] returns what [Qs !! i]
    allows. *)
Definition phase_ok (fk : string) (ph : phase S) : Prop :=
  match ph with
  | Running m => act_ok J (R fk) m
  | Forgotten r | Delivered r => R fk r
  end.

Definition caller_good {A} (Q : A → Prop) (cl : caller S A) : Prop :=
  match cl with
  | Caller p => prog_ok J R Q p
  | Waiting _ fk _ k => ∀ r, R fk r → prog_ok J R Q (k r)
  | Finished a => Q a
  end.

Definition callers_good {A} (Qs : list (A → Prop)) (cs : list (caller S A)) : Prop :=
  ∀ i cl, cs !! i = Some cl → ∃ Q, Qs !! i = Some Q ∧ caller_good Q cl.

Definition flights_good (fs : list (flight S)) : Prop :=
  ∀ n f, fs !! n = Some f → phase_ok (f_key f) (f_phase f).

Record system_ok {A} (Qs : list (A → Prop)) (s : system G S A) : Prop := {
  so_world : J (w_store (s_world s));
  so_flights : flights_good (s_flights s);
  so_callers : callers_good Qs (s_callers s)
}.

Lemma flights_insert (fs : list (flight S)) n fk ph :
  phase_ok fk ph → flights_good fs → flights_good (<[n := mkFlight fk ph]> fs).
Proof.
  intros Hp H m f Hm. apply list_lookup_insert_Some in Hm as [(<- & <- & _)|[_ Hm]];
    [done|by apply (H m)].
Qed.

Lemma callers_insert {A} (Qs : list (A → Prop)) cs i cl cl' :
  cs !! i = Some cl → callers_good Qs cs →
  (∀ Q, caller_good Q cl → caller_good Q cl') → callers_good Qs (<[i := cl']> cs).
Proof.
  intros Hi H Hc j cl2 Hj. apply list_lookup_insert_Some in Hj as [(<- & <- & _)|[_ Hj]].
  - destruct (H _ _ Hi) as (Q & Hk & Hg). exists Q. split; [done|by apply Hc].
  - by apply H.
Qed.

Lemma DoChan_ok fk (fn : flight_fn S) (g : G) fs n g' fs' :
  DoChan fk fn g fs = (n, g', fs') → act_ok J (R fk) (start fn) →
  flights_good fs → flights_good fs'.
Proof.
  unfold DoChan. intros Hd Hfn H m f Hm.
  destruct (sf_lookup g fk); injection Hd as <- <- <-; [by apply (H m)|].
  apply lookup_app_Some in Hm as [Hm|[_ Hm]]; [by apply (H m)|].
  by apply list_lookup_singleton_Some in Hm as [_ <-].
Qed.

Lemma system_ok_step {A} (Qs : list (A → Prop)) (s s' : system G S A) :
  flight_inv s → system_ok Qs s → step_sys s s' → system_ok Qs s'.
Proof.
  intros Hinv Hok Hstep. destruct Hok as [Hw Hf Hc].
  destruct Hstep as [w g fs cs i f Hi|w g fs cs i x fk fn k n g' fs' Hi Hd
    |w g fs cs i fk fn k n g' fs' Hi Hd|w g fs cs i x fk n k f r Hi Hn Hp
    |w g fs cs i x fk n k e Hi He|w g fs cs i a Hi|w g fs cs n fk f Hn
    |w g fs cs n fk r Hn|w g fs cs n fk r Hn|w w' g fs cs He];
    cbn [s_world s_flights s_callers] in *.
  - destruct (Hc _ _ Hi) as (Q & _ & Hg). destruct (Hg w Hw) as [Hw' _].
    split; [done..|]. eapply callers_insert; [done..|]. intros Q' Hg'.
    by destruct (Hg' w Hw).
  - destruct (Hc _ _ Hi) as (Q & _ & Hg & _).
    split; [done|by eapply DoChan_ok|]. eapply callers_insert; [done..|].
    by intros Q' [_ Hg'].
  - destruct (Hc _ _ Hi) as (Q & _ & Hg & _).
    split; [done|by eapply DoChan_ok|]. eapply callers_insert; [done..|].
    by intros Q' [_ Hg'].
  - split; [done..|]. eapply callers_insert; [done..|]. intros Q' Hg'. apply Hg'.
    destruct (inv_waiting _ Hinv _ _ _ _ _ Hi) as (f' & Hn' & <-). cbn in Hn'.
    assert (f' = f) as -> by congruence. specialize (Hf _ _ Hn). by rewrite Hp in Hf.
  - split; [done..|]. eapply callers_insert; [done..|]. intros Q' Hg'.
    apply Hg', Rerr.
  - split; [done..|]. by eapply callers_insert.
  - destruct (Hf _ _ Hn w Hw) as [Hw' Hm]. split; [done| |done].
    by apply flights_insert.
  - split; [done| |done]. apply flights_insert; [|done]. apply (Hf _ _ Hn).
  - split; [done| |done]. apply flights_insert; [|done]. apply (Hf _ _ Hn).
  - destruct He as (d & l & n1 & n2 & n3 & n4 & ->). by split.
Qed.

Lemma system_ok_steps {A} (Qs : list (A → Prop)) (s s' : system G S A) :
  rtc step_sys s s' → flight_inv s → system_ok Qs s → system_ok Qs s'.
Proof. induction 1; eauto using system_ok_step, flight_inv_step. Qed.

(** Every state reachable from programs that are in order is in order, and
    then so is what its finished callers return. *)
Lemma system_ok_reachable {A} (Qs : list (A → Prop)) w ps (s : system G S A) :
  J (w_store w) → Forall2 (prog_ok J R) Qs ps → reachable w ps s → system_ok Qs s.
Proof.
  intros Hw Hps Hr. eapply system_ok_steps; [done|apply flight_inv_initial|].
  split; [done|done|]. cbn [initial s_callers]. intros i p Hi.
  rewrite list_lookup_fmap in Hi. destruct (ps !! i) as [p'|] eqn:E; [|done].
  injection Hi as <-. destruct (Forall2_lookup_r _ _ _ _ _ Hps E) as (Q & HQ & Hp).
  by exists Q.
Qed.

Lemma system_ok_finished {A} (Qs : list (A → Prop)) (s : system G S A) i Q a :
  system_ok Qs s → Qs !! i = Some Q → s_callers s !! i = Some (Finished a) → Q a.
Proof.
  intros [_ _ Hc] Hi Hs. destruct (Hc _ _ Hs) as (Q' & Hk & Hg).
  rewrite Hi in Hk. by injection Hk as <-.
Qed.

End system_ok.

Section provenance.
Context {G S T : Type} `{!SingleFlight G} `{!SingleFlightLaws G} `{!JSON T}.
Context (c : Cache S) (codec : Codec T) (V : string → T → Prop) (J : S → Prop).
Context `{!HonestCache c codec V J, !CodecRoundTrip codec}.

(** What the group hands to the waiters of a flight key. *)
Definition handed (fk : string) (r : result bytes) : Prop :=
  ∀ key data, fk = flightKey (c_addr c) key → r = Ok data →
    valid (configOf (c_config c)) codec V key data.

Lemma handed_hands_out : hands_out c codec V handed.
Proof.
  intros key r. split; [by intros H data; apply H|].
  intros H key' data Hk. apply no_nul_split in Hk as [_ <-]; [|apply fmt_p_no_nul..]. apply H.
Qed.

Lemma handed_Err fk e : handed fk (Err e).
Proof. by intros key data _ ?. Qed.

(** Any number of callers of GetOrSet work at once on one cache, on any
    keys, in any interleaving of their steps, their flights and the background
    refreshes, with cancellations at any moment: if what is in the cache to
    start with and what the loaders of each key return satisfies [V key], then
    every value that any call returns satisfies [V] for the key it asked for,
    and so does whatever is readable in the cache, at every moment.  No call is
    ever answered with a value loaded for another key, with a half-written
    entry, or with one that no loader produced. *)
Theorem concurrent_provenance w (calls : list (call S T)) s :
  J (w_store w) → Forall (honest_call c codec V J) calls →
  reachable w (call_prog <$> calls) s →
  J (w_store (s_world s))
  ∧ ∀ i cl v, calls !! i = Some cl →
      s_callers (G := G) s !! i = Some (Finished (Ok v)) → V (cl_key cl) v.
Proof.
  intros Hw Hcalls Hr.
  assert (system_ok J handed ((λ cl, returns_ok V (cl_key cl)) <$> calls) s) as Hok.
  { eapply system_ok_reachable; [apply handed_Err|done| |done].
    apply Forall2_fmap, Forall_Forall2_diag.
    eapply Forall_impl; [exact Hcalls|]. intros cl Hcl.
    apply (honest_call_prog c codec V J); [apply handed_hands_out|exact Hcl]. }
  split; [apply Hok|]. intros i cl v Hi Hs.
  apply (system_ok_finished J handed ((λ cl, returns_ok V (cl_key cl)) <$> calls) s i
    (returns_ok V (cl_key cl)) (Ok v)); [done|by rewrite list_lookup_fmap, Hi|done|done].
Qed.
End provenance.

(** ** MemoryCache keeps the guarantee *)

Section memory_honest.
Context {T : Type} (c : MemoryCache T) (codec : Codec T) (V : string → T → Prop).

(** Every entry is valid for the key it is stored under. *)
Definition mem_valid (its : items) : Prop :=
  ∀ key it, its !! mem_key c key = Some it →
    valid (mem_config c) codec V key (mi_val it).

Lemma mem_valid_delete its k : mem_valid its → mem_valid (delete k its).
Proof. intros H key it [_ Hk]%lookup_delete_Some. by apply (H key). Qed.

Lemma mem_valid_insert its key it :
  mem_valid its → valid (mem_config c) codec V key (mi_val it) →
  mem_valid (<[mem_key c key := it]> its).
Proof.
  intros H Hv key' it' [[Hk <-]|[_ Hk]]%lookup_insert_Some; [|by apply (H key')].
  by apply mem_key_inj in Hk as <-.
Qed.

Lemma mem_lookup_ok key :
  act_ok mem_valid
    (λ r, ∀ data, r = Some data → valid (mem_config c) codec V key data)
    (mem_lookup c key).
Proof.
  unfold mem_lookup. eapply ok_bind.
  { apply (ok_atom _ (λ its, mem_valid its)). intros w Hw. by split. }
  intros its Hits. destruct (its !! mem_key c key) as [it|] eqn:E; [|done].
  specialize (Hits _ _ E). case_goal; [by intros ? [= <-]|].
  eapply ok_bind; [apply ok_now|intros t _]. case_goal; [|by intros ? [= <-]].
  eapply (ok_bind _ (λ _, True)); [|done]. apply ok_atom. intros w Hw.
  split; [by apply mem_valid_delete|done].
Qed.

#[export] Instance MemoryCache_honest :
  HonestCache (MemoryCache_Cache c) codec V mem_valid.
Proof.
  split; cbn [MemoryCache_Cache c_Get c_Set c_Delete c_config configOf].
  - intros ctx key. unfold mem_Get. eapply ok_bind; [apply ok_locked, mem_lookup_ok|].
    intros [data|] Hd.
    + eapply ok_bind; [apply ok_if_emit|]. intros _ _ ? [= <-]. by apply Hd.
    + by eapply ok_bind; [apply ok_if_emit|].
  - intros ctx key data ttl Hd. unfold mem_Set, newItem.
    eapply (ok_bind _ (λ it, mi_val it = data)).
    + eapply (ok_bind _ (λ _, True)); [case_goal; [apply ok_applyJitter|done]|].
      intros e _. case_goal; [|done]. by eapply ok_bind; [apply ok_now|].
    + intros it <-. eapply (ok_bind _ (λ _, True)); [|done].
      apply ok_locked, ok_atom. intros w Hw. split; [by apply mem_valid_insert|done].
  - intros ctx key. unfold mem_Delete. eapply (ok_bind _ (λ _, True)); [|done].
    apply ok_locked, ok_atom. intros w Hw. split; [by apply mem_valid_delete|done].
Qed.
End memory_honest.

(** All the callers of the demonstration run to their end: two share a flight,
    the third is served from the cache. *)
Definition demo_end : system (gmap string nat) items (result bool) :=
  schedule ([ChReceive 0; ChReceive 1] ++ replicate 20 (ChCaller 0)
            ++ replicate 20 (ChCaller 1) ++ replicate 20 (ChCaller 2)) demo_delivered.

Lemma demo_end_reachable : reachable demo_empty (call_prog <$> demo_calls) demo_end.
Proof.
  assert (rtc step_sys demo_waiting demo_delivered) as H1 by apply schedule_sound.
  assert (rtc step_sys demo_delivered demo_end) as H2 by apply schedule_sound.
  pose proof demo_waiting_reachable as H0. unfold reachable in *.
  by rewrite H0, H1.
Qed.

Definition caller_result {S A} (c : caller S A) : option A :=
  match c with Finished a => Some a | _ => None end.

Lemma concurrent_provenance_witness :
  (caller_result <$> s_callers demo_end) = replicate 3 (Some (Ok true))
  ∧ ∀ i cl v, demo_calls !! i = Some cl →
      s_callers demo_end !! i = Some (Finished (Ok v)) → v = true.
Proof.
  split; [vm_compute; reflexivity|].
  apply (concurrent_provenance demo_cache defaultCodec (λ _ v, v = true)
    (mem_valid demo_memory defaultCodec (λ _ v, v = true)) demo_empty demo_calls demo_end).
  - intros key it H. discriminate H.
  - repeat apply Forall_cons_2; [..|apply Forall_nil_2];
      (split; [reflexivity|split; [reflexivity|]]; intros ctx;
       apply ok_atom; intros w Hw; split; [exact Hw|intros v [= <-]; reflexivity]).
  - apply demo_end_reachable.
Defined.
