(* ===== verification/MixedProvenance.v ===== *)
(** * Where returned values come from, with every kind of client at once

    Provenance.v speaks of callers of GetOrSet.  Here the callers of one cache
    may be of any kind, in any mixture and any interleaving: GetOrSet,
    GetOrSetMany, and direct reads, writes and deletions, one key or many.
    [HonestBatch] is what a backend guarantees of its batch operations. *)
From S2P Require Import Prelude Int64 Float64 Errors Runtime Envelope Hooks Codec.
From S2P Require Import Options Cache Memory Group GetOrSet GetOrSetFacts Batch Instances.
From S2P Require Import Flights FlightsThms Provenance.
From Stdlib Require Import ZArith Lia.

(** ** Loops *)

Section loops.
Context {S : Type} (J : S → Prop).

Lemma ok_for_fold {A B} (I : B → Prop) (f : B → A → act S B) l b :
  I b → (∀ b x, x ∈ l → I b → act_ok J I (f b x)) → act_ok J I (for_fold f b l).
Proof.
  revert b. induction l as [|x l IH]; intros b Hb Hf; [done|].
  cbn [for_fold]. eapply ok_bind; [apply Hf; [apply list_elem_of_here|done]|].
  intros b' Hb'. apply IH; [done|]. intros b'' y Hy. by apply Hf, list_elem_of_further.
Qed.

Lemma ok_for_each {A} (f : A → act S ()) l :
  (∀ x, x ∈ l → act_ok J (λ _, True) (f x)) → act_ok J (λ _, True) (for_each f l).
Proof.
  induction l as [|x l IH]; intros Hf; [done|].
  cbn [for_each]. eapply ok_bind; [apply Hf, list_elem_of_here|].
  intros _ _. apply IH. intros y Hy. by apply Hf, list_elem_of_further.
Qed.

(** The pairs a [range] visits are those of the map. *)
Lemma ok_range {A} (m : gmap string A) :
  act_ok J (λ l, ∀ kv, kv ∈ l → m !! kv.1 = Some kv.2) (range m).
Proof.
  apply ok_atom. intros w Hw. split; [exact Hw|]. destruct (range_map_spec m w) as [Hp _].
  intros [k v] Hin. rewrite Hp in Hin. by apply elem_of_map_to_list in Hin.
Qed.
End loops.

(** ** What a backend guarantees of its batch operations *)

(** Each entry of the map is valid for its key. *)
Definition all_valid {T} (cfg : cacheConfig) (codec : Codec T) (V : string → T → Prop)
    (m : gmap string bytes) : Prop :=
  map_Forall (valid cfg codec V) m.

(** Each value of the map is one [V] holds of. *)
Definition all_good {T} (V : string → T → Prop) (m : gmap string T) : Prop :=
  map_Forall V m.

Class HonestBatch {S T} (c : Cache S) (codec : Codec T) (V : string → T → Prop)
    (J : S → Prop) : Prop := {
  honest_GetMany bc ctx keys : c_batch c = Some bc →
    act_ok J (λ r, ∀ m, r = Ok m → all_valid (configOf (c_config c)) codec V m)
      (b_GetMany bc ctx keys);
  honest_SetMany bc ctx m ttl : c_batch c = Some bc →
    all_valid (configOf (c_config c)) codec V m →
    act_ok J (λ _, True) (b_SetMany bc ctx m ttl)
}.

(** What a loader of many keys guarantees. *)
Definition batch_loader_ok {S T} (J : S → Prop) (V : string → T → Prop)
    (loader : batch_loader S T) : Prop :=
  ∀ ctx keys, act_ok J (λ o, ∀ m, o = Returned (Ok m) → all_good V m) (loader ctx keys).

Section batch.
Context {S T : Type} `{!JSON T}.
Context (c : Cache S) (codec : Codec T) (V : string → T → Prop) (J : S → Prop).
Context `{!HonestCache c codec V J, !HonestBatch c codec V J, !CodecRoundTrip codec}.
Abbreviation cfg := (configOf (c_config c)).
Abbreviation valid_map := (all_valid cfg codec V).

Lemma ok_readRaw ctx uniq : act_ok J valid_map (readRaw ctx c uniq).
Proof.
  unfold readRaw. destruct (c_batch c) as [bc|] eqn:Hb.
  - eapply ok_bind; [by apply (honest_GetMany (V := V) (J := J))|]. intros [raw|e] Hr.
    + by apply Hr.
    + apply map_Forall_empty.
  - apply ok_for_fold; [apply map_Forall_empty|]. intros raw k _ Hraw.
    eapply ok_bind; [apply (honest_Get (V := V) (J := J))|]. intros [data|e] Hr; [|done].
    apply map_Forall_insert_2; [by apply Hr|done].
Qed.

Lemma ok_decode_step ctx raw res missing k :
  valid_map raw → all_good V res →
  act_ok J (λ acc, all_good V acc.1) (decode_step ctx c codec cfg raw (res, missing) k).
Proof.
  intros Hraw Hres. unfold decode_step. destruct (raw !! k) as [data|] eqn:E; [|done].
  specialize (Hraw k data E). unfold valid in Hraw.
  destruct (isNegativeEntry data); [done|].
  destruct (parseStored cfg data) as [env payload]. cbn [snd] in Hraw. specialize (Hraw eq_refl).
  destruct (Unmarshal codec payload) as [v|e].
  - apply map_Forall_insert_2; [by apply Hraw|done].
  - eapply ok_bind; [apply ok_if_emit|intros _ _].
    by eapply ok_bind; [apply (honest_Delete (V := V) (J := J))|].
Qed.

(** The packing loop only collects valid bytes and good values. *)
Definition pack_good (st : packState T) : Prop :=
  all_good V (pk_result st) ∧ valid_map (pk_vals st) ∧ valid_map (pk_negs st).

Lemma ok_pack_step ttl d loaded st k :
  all_good V loaded → pack_good st →
  act_ok J pack_good (pack_step codec cfg ttl d loaded st k).
Proof.
  intros Hl (Hr & Hv & Hn). unfold pack_step. destruct (loaded !! k) as [v|] eqn:E.
  - specialize (Hl k v E). destruct (Marshal codec v) as [payload|me] eqn:Hm.
    + eapply ok_bind.
      { eapply ok_packForStore; [by apply codec_round_trip|exact Hl]. }
      intros [data sttl] Hd. split_and!; [|by apply map_Forall_insert_2|done].
      by apply map_Forall_insert_2.
    + eapply ok_bind; [apply ok_if_emit|intros _ _]. split_and!; [|done|done].
      by apply map_Forall_insert_2.
  - case_goal; [|done]. split_and!; [done|done|].
    apply map_Forall_insert_2; [apply valid_negative|done].
Qed.

Lemma ok_setEach ctx m ttl : valid_map m → act_ok J (λ _, True) (setEach ctx c m ttl).
Proof.
  intros Hm. unfold setEach. eapply ok_bind; [apply ok_range|]. intros l Hl.
  apply ok_for_each. intros [k data] Hin.
  eapply ok_bind; [|done]. apply (honest_Set (V := V) (J := J)). apply (Hm k), (Hl _ Hin).
Qed.

Lemma ok_writeBack ctx vals negs ttl :
  valid_map vals → valid_map negs → act_ok J (λ _, True) (writeBack ctx c cfg vals negs ttl).
Proof.
  intros Hv Hn. unfold writeBack. destruct (c_batch c) as [bc|] eqn:Hb.
  - eapply ok_bind; [by apply (honest_SetMany (V := V) (J := J))|intros _ _].
    by eapply ok_bind; [by apply (honest_SetMany (V := V) (J := J))|].
  - eapply ok_bind; [by apply ok_setEach|intros _ _]. by apply ok_setEach.
Qed.

Definition many_ok (o : outcome (result (gmap string T))) : Prop :=
  ∀ m, o = Returned (Ok m) → all_good V m.

Lemma ok_loadMissing ctx ttl loader res missing :
  batch_loader_ok J V loader → all_good V res →
  act_ok J many_ok (loadMissing ctx c ttl codec loader cfg res missing).
Proof.
  intros Hl Hres. unfold loadMissing. eapply ok_bind; [apply ok_now|intros t0 _].
  eapply ok_bind; [apply Hl|]. intros [lr|p] Ho; [|done].
  eapply ok_bind; [apply ok_now|intros t1 _].
  eapply ok_bind; [apply ok_for_each; intros; apply ok_if_emit|intros _ _].
  destruct lr as [loaded|err]; [|done]. specialize (Ho loaded eq_refl).
  eapply (ok_bind _ pack_good).
  - apply ok_for_fold; [split_and!; [done|apply map_Forall_empty..]|].
    intros st k _ Hst. by apply ok_pack_step.
  - intros st (Hr & Hv & Hn). eapply ok_bind; [by apply ok_writeBack|].
    by intros _ _ m [= <-].
Qed.

Lemma ok_GetOrSetMany ctx keys ttl codec' loader :
  codec_or_default codec' = codec → batch_loader_ok J V loader →
  act_ok J many_ok (GetOrSetManyWithCodec ctx c keys ttl codec' loader).
Proof.
  intros Hc Hl. unfold GetOrSetManyWithCodec. rewrite Hc.
  eapply ok_bind; [apply ok_readRaw|intros raw Hraw].
  eapply (ok_bind _ (λ acc, all_good V acc.1)).
  - apply ok_for_fold; [apply map_Forall_empty|]. intros [res missing] k _ Hres.
    by apply ok_decode_step.
  - intros [res missing] Hres. cbn [fst] in Hres. case_decide.
    + by intros m [= <-].
    + by apply ok_loadMissing.
Qed.
End batch.

(** ** Clients of every kind *)

(** What a client of a cache does; the direct operations are those of the
    interfaces Cache and BatchCache. *)
Inductive task (S T : Type) :=
| LoadOne (cl : call S T)
| LoadMany (ctx : Context) (keys : list string) (ttl : Duration)
    (codec : option (Codec T)) (loader : batch_loader S T)
| Read (ctx : Context) (key : string)
| Write (ctx : Context) (key : string) (data : bytes) (ttl : Duration)
| Remove (ctx : Context) (key : string)
| ReadMany (bc : BatchOps S) (ctx : Context) (keys : list string)
| WriteMany (bc : BatchOps S) (ctx : Context) (m : gmap string bytes) (ttl : Duration).
Arguments LoadOne {S T} cl. Arguments LoadMany {S T} ctx keys ttl codec loader.
Arguments Read {S T} ctx key. Arguments Write {S T} ctx key data ttl.
Arguments Remove {S T} ctx key. Arguments ReadMany {S T} bc ctx keys.
Arguments WriteMany {S T} bc ctx m ttl.

(** What it gets. *)
Inductive answer (T : Type) :=
| One (r : result T)
| Many (o : outcome (result (gmap string T)))
| Bytes (r : result bytes)
| BytesMany (r : result (gmap string bytes))
| Wrote (e : option error).
Arguments One {T} r. Arguments Many {T} o. Arguments Bytes {T} r.
Arguments BytesMany {T} r. Arguments Wrote {T} e.

Definition task_prog {S T} `{!JSON T} (c : Cache S) (t : task S T) : prog S (answer T) :=
  match t with
  | LoadOne cl => r ← call_prog cl; mret (One r)
  | LoadMany ctx keys ttl codec loader =>
      lift (o ← GetOrSetManyWithCodec ctx c keys ttl codec loader; mret (Many o))
  | Read ctx key => lift (r ← c_Get c ctx key; mret (Bytes r))
  | Write ctx key data ttl => lift (e ← c_Set c ctx key data ttl; mret (Wrote e))
  | Remove ctx key => lift (e ← c_Delete c ctx key; mret (Wrote e))
  | ReadMany bc ctx keys => lift (r ← b_GetMany bc ctx keys; mret (BytesMany r))
  | WriteMany bc ctx m ttl => lift (e ← b_SetMany bc ctx m ttl; mret (Wrote e))
  end.

Section mixed.
Context {G S T : Type} `{!SingleFlight G} `{!SingleFlightLaws G} `{!JSON T}.
Context (c : Cache S) (codec : Codec T) (V : string → T → Prop) (J : S → Prop).
Context `{!HonestCache c codec V J, !HonestBatch c codec V J, !CodecRoundTrip codec}.
Abbreviation cfg := (configOf (c_config c)).

(** Clients that put nothing else in: loaders and direct writes only supply
    what [V] allows. *)
Definition honest_task (t : task S T) : Prop :=
  match t with
  | LoadOne cl => honest_call c codec V J cl
  | LoadMany _ _ _ codec' loader =>
      codec_or_default codec' = codec ∧ batch_loader_ok J V loader
  | Read _ _ | Remove _ _ => True
  | Write _ key data _ => valid cfg codec V key data
  | ReadMany bc _ _ => c_batch c = Some bc
  | WriteMany bc _ m _ => c_batch c = Some bc ∧ all_valid cfg codec V m
  end.

(** What a client may get. *)
Definition good_answer (t : task S T) (a : answer T) : Prop :=
  match t, a with
  | LoadOne cl, One r => ∀ v, r = Ok v → V (cl_key cl) v
  | LoadMany _ _ _ _ _, Many o => ∀ m, o = Returned (Ok m) → all_good V m
  | Read _ key, Bytes r => ∀ data, r = Ok data → valid cfg codec V key data
  | ReadMany _ _ _, BytesMany r => ∀ m, r = Ok m → all_valid cfg codec V m
  | Write _ _ _ _, Wrote _ | Remove _ _, Wrote _ | WriteMany _ _ _ _, Wrote _ => True
  | _, _ => False
  end.

Lemma task_prog_ok R (t : task S T) :
  hands_out c codec V R → honest_task t → prog_ok J R (good_answer t) (task_prog c t).
Proof using All.
  intros HR. destruct t as [cl|ctx keys ttl codec' loader|ctx key|ctx key data ttl|ctx key
    |bc ctx keys|bc ctx m ttl]; cbn [task_prog honest_task].
  - intros Ht. eapply prog_ok_bind; [by apply (honest_call_prog c codec V J)|]. by intros r Hr.
  - intros [Hc Hl]. apply ok_lift. eapply ok_bind; [by apply (ok_GetOrSetMany c codec V)|].
    by intros o Ho.
  - intros _. apply ok_lift. eapply ok_bind; [apply (honest_Get (V := V) (J := J))|].
    by intros r Hr.
  - intros Hd. apply ok_lift. by eapply ok_bind; [by apply (honest_Set (V := V) (J := J))|].
  - intros _. apply ok_lift. by eapply ok_bind; [apply (honest_Delete (V := V) (J := J))|].
  - intros Hb. apply ok_lift. eapply ok_bind; [by apply (honest_GetMany (V := V) (J := J))|].
    by intros r Hr.
  - intros [Hb Hm]. apply ok_lift.
    by eapply ok_bind; [by apply (honest_SetMany (V := V) (J := J))|].
Qed.

(** The invariant of a system of such clients. *)
Lemma mixed_system w (ts : list (task S T)) (s : system G S (answer T)) :
  J (w_store w) → Forall honest_task ts → reachable w (task_prog c <$> ts) s →
  J (w_store (s_world s))
  ∧ ∀ i t a, ts !! i = Some t → s_callers s !! i = Some (Finished a) → good_answer t a.
Proof using All.
  intros Hw Hts Hr.
  assert (system_ok J (handed c codec V) (good_answer <$> ts) s) as Hok.
  { eapply system_ok_reachable; [apply handed_Err|done| |done].
    apply Forall2_fmap, Forall_Forall2_diag. eapply Forall_impl; [exact Hts|].
    intros t. apply task_prog_ok, handed_hands_out. }
  split; [apply Hok|]. intros i t a Hi Hs.
  eapply system_ok_finished; [exact Hok| |exact Hs]. by rewrite list_lookup_fmap, Hi.
Qed.

(** C12: Clients of every kind work at once on one cache - GetOrSet,
    GetOrSetMany, and direct reads, writes and deletions, of one key or many -
    in any interleaving of their steps, their flights and the background
    refreshes, with cancellations at any moment: if what is in the cache to
    start with, what the loaders of each key return and what is written
    directly satisfies [V] for its key, then so does every value any call
    returns, every entry of every map GetOrSetMany or GetMany returns, and
    whatever is readable in the cache, at every moment.  No call is ever
    answered with a value of another key, with a half-written entry, or with
    one that nobody supplied. *)
Theorem mixed_provenance w (ts : list (task S T)) (s : system G S (answer T)) :
  J (w_store w) → Forall honest_task ts → reachable w (task_prog c <$> ts) s →
  J (w_store (s_world s))
  ∧ ∀ i t a, ts !! i = Some t → s_callers s !! i = Some (Finished a) → good_answer t a.
Proof. apply mixed_system. Qed.
End mixed.

(** ** MemoryCache keeps the guarantee *)

#[export] Instance MemoryCache_honest_batch {T} (c : MemoryCache T) codec V :
  HonestBatch (MemoryCache_Cache c) codec V (mem_valid c codec V).
Proof.
  split; intros bc ctx.
  - intros keys [= <-]. cbn [b_GetMany]. unfold mem_GetMany.
    eapply (ok_bind _ (λ r, all_valid (mem_config c) codec V r.1.1)).
    + apply ok_locked, ok_for_fold; [apply map_Forall_empty|].
      intros [[out hits] misses] k _ Hout. unfold mem_GetMany_step.
      eapply ok_bind; [apply mem_lookup_ok|]. intros [val|] Hv; [|done].
      apply map_Forall_insert_2; [by apply Hv|done].
    + intros [[out hits] misses] Hout.
      eapply ok_bind; [apply ok_for_each; intros; apply ok_if_emit|intros _ _].
      eapply ok_bind; [apply ok_for_each; intros; apply ok_if_emit|intros _ _].
      by intros m [= <-].
  - intros m ttl [= <-] Hm. cbn [b_SetMany]. unfold mem_SetMany.
    eapply (ok_bind _ (λ _, True)); [|done].
    apply ok_locked. eapply ok_bind; [apply ok_range|]. intros l Hl.
    apply ok_for_each. intros [k data] Hin. specialize (Hl _ Hin).
    eapply (ok_bind _ (λ it, mi_val it = data)).
    + unfold newItem. eapply (ok_bind _ (λ _, True)); [case_goal; [apply ok_applyJitter|done]|].
      intros e _. case_goal; [|done]. by eapply ok_bind; [apply ok_now|].
    + intros it <-. apply ok_atom. intros w Hw. split; [|done].
      apply mem_valid_insert; [done|]. by apply (Hm k).
Qed.

(** Four clients of one MemoryCache at once: GetOrSet and GetOrSetMany on
    overlapping keys, a direct write, a direct batch read. *)
Definition mixed_loader : batch_loader items bool :=
  λ _ keys, mret (Returned (Ok (list_to_map ((λ k, (k, true)) <$> keys)))).

Definition mixed_tasks : list (task items bool) :=
  [LoadOne demo_call;
   LoadMany Background ["k"; "j"; "k"] Minute None mixed_loader;
   Write Background "i" json_true Minute;
   ReadMany (mkBatchOps (mem_GetMany demo_memory) (mem_SetMany demo_memory)) Background
     ["i"; "x"]].

Definition mixed_end : system (gmap string nat) items (answer bool) :=
  schedule (replicate 4 (ChCaller 0) ++ replicate 9 (ChCaller 1) ++ replicate 9 (ChCaller 2)
            ++ replicate 20 (ChFlight 0) ++ replicate 20 (ChCaller 1) ++ replicate 9 (ChCaller 3)
            ++ [ChReceive 0] ++ replicate 9 (ChCaller 0) ++ replicate 20 (ChCaller 1))
    (initial demo_empty (task_prog demo_cache <$> mixed_tasks)).

Lemma mixed_loader_ok J : batch_loader_ok J (λ _ v, v = true) mixed_loader.
Proof.
  intros ctx keys m [= <-] k v Hk. apply elem_of_list_to_map_2 in Hk.
  by apply list_elem_of_fmap in Hk as (k' & [= -> ->] & _).
Qed.

Lemma mixed_provenance_witness :
  (caller_result <$> s_callers mixed_end)
  = [Some (One (Ok true)); Some (Many (Returned (Ok {[ "k" := true; "j" := true ]})));
     Some (Wrote None); Some (BytesMany (Ok {[ "i" := json_true ]}))]
  ∧ ∀ i t a, mixed_tasks !! i = Some t → s_callers mixed_end !! i = Some (Finished a) →
      good_answer demo_cache defaultCodec (λ _ v, v = true) t a.
Proof.
  split; [vm_compute; reflexivity|].
  apply (mixed_provenance demo_cache defaultCodec (λ _ v, v = true)
    (mem_valid demo_memory defaultCodec (λ _ v, v = true)) demo_empty mixed_tasks mixed_end).
  - intros key it H. discriminate H.
  - repeat apply Forall_cons_2; [..|apply Forall_nil_2].
    + split; [reflexivity|split; [reflexivity|]]. intros ctx.
      apply ok_atom. intros w Hw. split; [exact Hw|]. by intros v [= <-].
    + split; [reflexivity|apply mixed_loader_ok].
    + intros _ v Hv. vm_compute in Hv. congruence.
    + reflexivity.
  - apply schedule_sound.
Defined.
