(* ===== verification/Staged.v ===== *)
(** * One load per key and cache: the argument over any backend

    The headline promise of GetOrSet: however many callers miss at once, and
    however their steps interleave, the loader of a key runs once, and its
    value serves everybody until the TTL ends.  Flights are shared within a
    cache; several caches on one store - the replicas of a service - each load
    for themselves, but at most once each, and not at all when they find what
    another has stored.  The argument fixes a key and an instant before its TTL
    ends.  Each cache goes through three stages ([Idle]; [Loaded], but not
    stored; [Stored]); only its one flight of the key moves it from stage to
    stage ([go]), all other code is [calm].  The store as a whole moves once,
    from holding nothing under the key to holding a good value ([live]).

    What a backend has to promise is the class [StagedCache]; Herd.v keeps the
    promise for MemoryCache, NetworkHerd.v for RedisCache and ValkeyCache. *)
From S2P Require Import Prelude Int64 Float64 Errors Runtime Envelope Hooks Codec.
From S2P Require Import Options Cache Group GetOrSet GetOrSetFacts.
From S2P Require Import Flights FlightsThms.
From Stdlib Require Import ZArith Lia.
Local Open Scope Z_scope.

(** ** Counting loads *)

Definition is_load (key : string) (e : event) : bool :=
  match e with EvLoad k _ _ => bool_decide (k = key) | _ => false end.

(** How often OnLoad was called for the key. *)
Definition load_count (key : string) (tr : list event) : nat :=
  length (List.filter (is_load key) tr).

Lemma load_count_app key tr tr' :
  load_count key (tr ++ tr') = (load_count key tr + load_count key tr')%nat.
Proof. unfold load_count. by rewrite List.filter_app, length_app. Qed.

(** Loaders of their own business: each step leaves the cache and the hook
    calls alone and does not turn the clock back; [Q] holds of the outcome. *)
Fixpoint clean_code {S A} (Q : A → Prop) (m : act S A) : Prop :=
  match m with
  | Ret a => Q a
  | Step f => ∀ w, (w_store (f w).2 = w_store w ∧ w_trace (f w).2 = w_trace w
                    ∧ w_time w <= w_time (f w).2) ∧ clean_code Q (f w).1
  end.

Lemma clean_mono {S A} (Q Q' : A → Prop) (m : act S A) :
  (∀ a, Q a → Q' a) → clean_code Q m → clean_code Q' m.
Proof.
  intros HQ Hm. induction m as [a|f IH] using act_rect'; [by apply HQ|].
  intros w. destruct (Hm w) as [H1 H2]. by split; [|apply IH].
Qed.

(** ** Stages of a cache, for the key *)

Inductive stage := Idle | Loaded | Stored.

(** The loads a cache has had by then. *)
Definition spent (st : stage) : nat := match st with Idle => 0 | _ => 1 end.

(** What holds of a store from a time on. *)
Class Lasting {S} (P : S → Time → Prop) : Prop :=
  lasting s t t' : P s t → t <= t' → P s t'.

Section stages.
Context {S T : Type} `{!JSON T} (cfg : cacheConfig) (cdc : Codec T).
(** The key, the start, an instant before which the TTL does not end. *)
Context (key : string) (t0 until : Time).
(** From a time on, a reader finds nothing under the key; finds one good value. *)
Context (gone held : S → Time → Prop) `{!Lasting gone, !Lasting held}.
(** The contexts under which the caches do not give up before that instant. *)
Context (steady : Context → Prop).
Implicit Types (w : World S) (P : World S → Prop).

Abbreviation loads w := (load_count key (w_trace w)).
Abbreviation is_gone w := (gone (w_store w) (w_time w)).
Abbreviation is_held w := (held (w_store w) (w_time w)).

(** Bytes that are served as a fresh value until then. *)
Definition good_data (data : bytes) : Prop :=
  isNegativeEntry data = false
  ∧ (∃ v, Unmarshal cdc (parseStored cfg data).2 = Ok v)
  ∧ ∀ t, t < until → stale (parseStored cfg data).1 t = false.

Definition live w : Prop := t0 <= w_time w ∧ (is_gone w ∨ is_held w).

(** A cache that has stored a value knows the store to hold one. *)
Definition in_stage (st : stage) w : Prop := live w ∧ (st = Stored → is_held w).

(** What all code but the flight of the key does to the world. *)
Definition quiet w w' : Prop :=
  (is_gone w → is_gone w' ∨ is_held w') ∧ (is_held w → is_held w')
  ∧ w_time w <= w_time w' ∧ loads w' = loads w.

Lemma quiet_live w w' : quiet w w' → live w → live w'.
Proof.
  intros (Hg & Hh & Ht & _) [Ht0 [H|H]]; (split; [lia|]); [by apply Hg|right; by apply Hh].
Qed.

Lemma quiet_stage st w w' : quiet w w' → in_stage st w → in_stage st w'.
Proof.
  intros Hq [Hl Hs]. split; [by eapply quiet_live|]. intros H. by apply Hq, Hs.
Qed.

Lemma live_stage w : live w → in_stage Idle w.
Proof. by split. Qed.

Lemma live_time w : live w → t0 <= w_time w.
Proof. by intros [? _]. Qed.

Lemma in_stage_time st w : in_stage st w → t0 <= w_time w.
Proof. by intros [[? _] _]. Qed.

(** ** Calm code

    From a world where [P] holds, each step is quiet, as long as the clock has
    not reached the end. *)
Fixpoint calm {A} P (Q : A → Prop) (m : act S A) : Prop :=
  match m with
  | Ret a => Q a
  | Step f => ∀ w, P w → w_time (f w).2 < until → quiet w (f w).2 ∧ calm P Q (f w).1
  end.

(** Code of the flight of the key: it may move its cache to another stage, at
    the cost of a load. *)
Definition moves (st : stage) w (st' : stage) w' : Prop :=
  in_stage st' w' ∧ (is_held w → is_held w') ∧ w_time w <= w_time w'
  ∧ (loads w' + spent st <= loads w + spent st')%nat.

Fixpoint go {A} (Q : stage → A → Prop) (st : stage) (m : act S A) : Prop :=
  match m with
  | Ret a => Q st a
  | Step f => ∀ w, in_stage st w → w_time (f w).2 < until →
      ∃ st', moves st w st' (f w).2 ∧ go Q st' (f w).1
  end.

Lemma quiet_moves st w w' : quiet w w' → in_stage st w → moves st w st w'.
Proof.
  intros Hq Hs. split; [by eapply quiet_stage|]. destruct Hq as (_ & Hh & Ht & Hl).
  split_and!; [done|done|lia].
Qed.

Section calm.
Context {A B : Type} (P : World S → Prop).

Lemma calm_bind (Q : A → Prop) (Q' : B → Prop) (m : act S A) k :
  calm P Q m → (∀ a, Q a → calm P Q' (k a)) → calm P Q' (m ≫= k).
Proof.
  intros Hm Hk. induction m as [a|f IH] using act_rect'; [by apply Hk|].
  intros w Hw. simpl. specialize (Hm w Hw). specialize (IH w).
  destruct (f w) as [m' w']. cbn [fst snd] in *. intros Ht.
  destruct (Hm Ht) as [H1 H2]. by split; [|apply IH].
Qed.

Lemma calm_mono (Q Q' : A → Prop) (m : act S A) :
  (∀ a, Q a → Q' a) → calm P Q m → calm P Q' m.
Proof.
  intros HQ Hm. induction m as [a|f IH] using act_rect'; [by apply HQ|].
  intros w Hw Ht. destruct (Hm w Hw Ht) as [H1 H2]. by split; [|apply IH].
Qed.

Lemma calm_atom (Q : A → Prop) (f : World S → A * World S) :
  (∀ w, P w → w_time (f w).2 < until → quiet w (f w).2 ∧ Q (f w).1) → calm P Q (atom f).
Proof.
  intros H w Hw. specialize (H w Hw). simpl. destruct (f w) as [a w']. exact H.
Qed.

Lemma go_calm st (Q : A → Prop) (m : act S A) :
  calm (in_stage st) Q m → go (λ st' a, st' = st ∧ Q a) st m.
Proof.
  intros Hm. induction m as [a|f IH] using act_rect'; [by split|].
  intros w Hw Ht. destruct (Hm w Hw Ht) as [H1 H2]. exists st.
  split; [by apply quiet_moves|by apply IH].
Qed.

Lemma go_bind (Q : stage → A → Prop) (Q' : stage → B → Prop) st (m : act S A) k :
  go Q st m → (∀ st' a, Q st' a → go Q' st' (k a)) → go Q' st (m ≫= k).
Proof.
  intros Hm Hk. revert st Hm. induction m as [a|f IH] using act_rect'; intros st Hm;
    [by apply Hk|].
  intros w Hw. simpl. specialize (Hm w Hw). specialize (IH w).
  destruct (f w) as [m' w']. cbn [fst snd] in *. intros Ht.
  destruct (Hm Ht) as (st' & H1 & H2). exists st'. by split; [|apply IH].
Qed.

Lemma go_mono (Q Q' : stage → A → Prop) st (m : act S A) :
  (∀ st a, Q st a → Q' st a) → go Q st m → go Q' st m.
Proof.
  intros HQ. revert st. induction m as [a|f IH] using act_rect'; intros st Hm; [by apply HQ|].
  intros w Hw Ht. destruct (Hm w Hw Ht) as (st' & H1 & H2). exists st'. by split; [|apply IH].
Qed.

Lemma go_atom (Q : stage → A → Prop) st (f : World S → A * World S) :
  (∀ w, in_stage st w → w_time (f w).2 < until →
     ∃ st', moves st w st' (f w).2 ∧ Q st' (f w).1) →
  go Q st (atom f).
Proof.
  intros H w Hw. specialize (H w Hw). simpl. destruct (f w) as [a w']. exact H.
Qed.
End calm.

(** A flight that starts calm, and what follows. *)
Lemma go_then {A B} st (Q : A → Prop) (Q' : stage → B → Prop) (m : act S A) k :
  calm (in_stage st) Q m → (∀ a, Q a → go Q' st (k a)) → go Q' st (m ≫= k).
Proof.
  intros Hm Hk. eapply go_bind; [by eapply go_calm|]. intros st' a [-> Ha]. by apply Hk.
Qed.

(** What is calm in the first stage is calm in a live world. *)
Lemma calm_idle {A} (Q : A → Prop) (m : act S A) : calm (in_stage Idle) Q m → calm live Q m.
Proof.
  intros Hm. induction m as [a|f IH] using act_rect'; [done|].
  intros w Hw Ht. destruct (Hm w (live_stage w Hw) Ht) as [H1 H2]. by split; [|apply IH].
Qed.

(** ** The code of the package, step by step *)

(** Steps that leave the store and the loads alone. *)
Lemma quiet_still w w' :
  w_store w' = w_store w → w_time w <= w_time w' → loads w' = loads w → quiet w w'.
Proof.
  intros Hs Ht Hl. unfold quiet. rewrite Hs.
  split_and!; [intros H; left; by eapply lasting|intros H; by eapply lasting|done|done].
Qed.

(** A step that leaves the store and the trace alone. *)
Lemma calm_pure {A} P (f : World S → A * World S) :
  (∀ w, w_store (f w).2 = w_store w ∧ w_trace (f w).2 = w_trace w
        ∧ w_time w <= w_time (f w).2) →
  calm P (λ _, True) (atom f).
Proof.
  intros H. apply calm_atom. intros w _ _. destruct (H w) as (H1 & H2 & H3).
  split; [apply quiet_still; [done|done|by rewrite H2]|done].
Qed.

Section code.
Context (P : World S → Prop) (HP : ∀ w, P w → t0 <= w_time w).

Lemma calm_now : calm P (λ t, t0 <= t < until) now.
Proof.
  apply calm_atom. intros w Hw Ht. specialize (HP w Hw).
  unfold read_clock in *. cbn in *. split; [|lia]. apply quiet_still; cbn; [done|lia|done].
Qed.

Lemma calm_rand : calm P (λ _, True) rand_Float64.
Proof. apply calm_pure. intros w. cbn. split_and!; [done|done|lia]. Qed.

Lemma calm_oracle : calm P (λ _, True) get_oracle.
Proof. apply calm_pure. intros w. cbn. split_and!; [done|done|lia]. Qed.

Lemma calm_emit e : is_load key e = false → calm P (λ _, True) (emit e).
Proof.
  intros He. apply calm_atom. intros w _ _. split; [|done].
  apply quiet_still; cbn [add_event w_store w_time w_trace fst snd]; [done|lia|].
  rewrite load_count_app. unfold load_count at 2. cbn [List.filter]. rewrite He. cbn. lia.
Qed.

Lemma calm_if_emit (b : bool) e :
  is_load key e = false → calm P (λ _, True) (if b then emit e else mret ()).
Proof. destruct b; [apply calm_emit|done]. Qed.

Lemma calm_applyJitter ttl frac : calm P (λ _, True) (applyJitter ttl frac).
Proof.
  unfold applyJitter. case_goal; [done|].
  eapply calm_bind; [apply calm_rand|intros r _].
  eapply calm_bind; [apply calm_oracle|done].
Qed.

Lemma calm_shouldEarlyRefresh env t beta : calm P (λ _, True) (shouldEarlyRefresh env t beta).
Proof.
  unfold shouldEarlyRefresh. case_goal; [done|].
  eapply calm_bind; [apply calm_rand|intros r _].
  eapply calm_bind; [apply calm_oracle|done].
Qed.

Lemma calm_flightContext base opts : calm P (λ _, True) (flightContext base opts).
Proof.
  unfold flightContext, WithTimeout. case_goal; [|done].
  eapply calm_bind; [apply calm_now|done].
Qed.

Lemma calm_packForStore payload ttl d cf : calm P (λ _, True) (packForStore payload ttl d cf).
Proof.
  unfold packForStore. case_goal; [done|].
  eapply calm_bind; [apply calm_applyJitter|intros fresh _].
  case_goal; [|done]. by eapply calm_bind; [apply calm_now|].
Qed.

End code.

Lemma calm_clean {A} P (Q : A → Prop) (m : act S A) : clean_code Q m → calm P Q m.
Proof.
  intros Hm. induction m as [a|f IH] using act_rect'; [done|].
  intros w _ _. destruct (Hm w) as [(H1 & H2 & H3) H4]. split; [|by apply IH].
  apply quiet_still; [done|done|by rewrite H2].
Qed.

(** ** What a backend promises *)

(** The TTL of a call outlasts the window; so does that of a write. *)
Definition outlasts (ttl : Duration) : Prop :=
  base_ttl cfg ttl <= 0
  ∨ until + Millisecond <= t0 + base_ttl cfg ttl ∧ base_ttl cfg ttl <= 2 ^ 61.

Definition outlasts_store (sttl : Duration) : Prop :=
  base_ttl cfg sttl <= 0 ∨ until + Millisecond <= t0 + base_ttl cfg sttl.

(** What Get finds, by stage: what is found is good, and there is something to
    be found if a value has been stored. *)
Definition get_result (st : stage) (r : result bytes) : Prop :=
  match r with
  | Ok data => good_data data
  | Err _ => st ≠ Stored
  end.

(** Step by step: under a steady context, reads of the key find what the stage
    says and a write of a good value ends with it stored; under any context a
    read may fail, but finds nothing that is not good, and operations on other
    keys are calm. *)
Class StagedCache (c : Cache S) : Prop := {
  sg_config : configOf (c_config c) = cfg;
  sg_Get st ctx : steady ctx → calm (in_stage st) (get_result st) (c_Get c ctx key);
  sg_Get_any ctx : calm live (get_result Idle) (c_Get c ctx key);
  sg_Set st ctx v ttl :
    steady ctx → good_data v → outlasts_store ttl →
    go (λ st' _, st' = Stored) st (c_Set c ctx key v ttl);
  sg_Get_other ctx k : k ≠ key → calm live (λ _, True) (c_Get c ctx k);
  sg_Set_other ctx k v ttl : k ≠ key → calm live (λ _, True) (c_Set c ctx k v ttl);
  sg_Delete_other ctx k : k ≠ key → calm live (λ _, True) (c_Delete c ctx k)
}.

Section cache.
Context (c : Cache S) {Hstaged : StagedCache c}.

(** ** Flights of other keys *)

Section other.
Context (k : string) (Hne : k ≠ key) (loader : Context → act S (outcome (result T))).
Context (codec : Codec T) (Hloader : ∀ ctx, clean_code (λ _, True) (loader ctx)).
Abbreviation alive_calm := (calm live (λ _, True)).

Lemma calm_recheck_other opts fctx : alive_calm (recheck c k codec cfg opts fctx).
Proof using All.
  unfold recheck. eapply calm_bind; [by apply sg_Get_other|]. intros [data|e] _; [|done].
  destruct (isNegativeEntry data); [done|]. destruct (parseStored cfg data) as [env payload].
  eapply calm_bind; [apply calm_now, live_time|intros t _]. case_goal; [|done].
  destruct (Unmarshal codec payload); [done|].
  eapply calm_bind; [by apply calm_if_emit|intros _ _].
  by eapply calm_bind; [by apply sg_Delete_other|].
Qed.

Lemma calm_storeLoaded_other ttl fctx d lr :
  alive_calm (storeLoaded c k ttl codec cfg fctx d lr).
Proof using All.
  unfold storeLoaded. destruct lr as [v|e].
  - destruct (Marshal codec v) as [payload|me].
    + eapply calm_bind; [apply calm_packForStore, live_time|]. intros [data sttl] _.
      by eapply calm_bind; [apply sg_Set_other|].
    + by eapply calm_bind; [by apply calm_if_emit|].
  - case_goal; [|done].
    by eapply calm_bind; [apply sg_Set_other|].
Qed.

Lemma calm_loadAndStore_other base ttl opts :
  alive_calm (loadAndStore base c k ttl codec loader cfg opts).
Proof using All.
  unfold loadAndStore.
  eapply calm_bind; [apply calm_flightContext, live_time|intros fctx _].
  eapply calm_bind; [apply calm_recheck_other|]. intros [data|] _; [done|].
  unfold loadPhase. eapply calm_bind; [apply calm_now, live_time|intros t1 _].
  eapply calm_bind; [apply calm_clean, Hloader|]. intros [lr|p] _; [|done].
  eapply calm_bind; [apply calm_now, live_time|intros t2 _].
  eapply calm_bind; [apply calm_if_emit; by apply bool_decide_eq_false|intros _ _].
  by eapply calm_bind; [apply calm_storeLoaded_other|].
Qed.

Lemma calm_start (fn : flight_fn S) : alive_calm fn → alive_calm (start fn).
Proof. intros H. by eapply calm_bind. Qed.

Lemma calm_refreshFlight_other ctx ttl env :
  alive_calm (refreshFlight ctx c k ttl codec loader cfg env).
Proof using All.
  unfold refreshFlight. eapply calm_bind; [apply calm_loadAndStore_other|].
  intros [[data|e]|p] _; [done|..]; by eapply calm_bind; [by apply calm_if_emit|].
Qed.
End other.

(** ** The key itself *)

(** The configuration of the cache and the range of the clock. *)
Record settings : Prop := {
  st_jitter : fle (cfg_ttlJitter cfg) fzero = true;
  st_beta : fle (cfg_earlyRefreshBeta cfg) fzero = true;
  st_stale : 0 <= cfg_staleTTL cfg <= 2 ^ 61;
  st_start : unix_epoch + Millisecond <= t0;
  st_until : until <= unix_epoch + 2 ^ 62
}.

Section own.
Context (Hset : settings) `{!CodecRoundTrip cdc, !CodecNoNUL cdc}.

(** The context of a miss flight keeps the deadline of the call that started
    it, and nothing else that ends it. *)
Definition miss_context (base : Context) : Context :=
  match cx_deadline base with
  | Some d => WithDeadline (WithoutCancel base) d
  | None => WithoutCancel base
  end.

Lemma flightContext_miss base :
  flightContext (S := S) base (mkFlightOpts true 0 zero_time) = mret (miss_context base).
Proof. done. Qed.

(** The re-check of a miss: passed when the value is stored. *)
Lemma calm_recheck_own st fctx :
  steady fctx →
  calm (in_stage st) (λ hit, hit = None → st ≠ Stored)
    (recheck c key cdc cfg (mkFlightOpts true 0 zero_time) fctx).
Proof using All.
  intros Hsteady. unfold recheck. eapply calm_bind; [by apply sg_Get|].
  intros [data|e] Hr; [|by intros _].
  destruct Hr as (Hneg & (v & Hv) & Hfresh). rewrite Hneg.
  destruct (parseStored cfg data) as [env payload]. cbn [fst snd] in *.
  eapply calm_bind; [apply calm_now, in_stage_time|]. intros t [_ Ht].
  rewrite (Hfresh t Ht). cbn [negb refreshOf].
  change (IsZero zero_time) with true. cbn [orb andb]. by rewrite Hv.
Qed.

(** What is packed for storing is good, and so is its TTL. *)
Lemma good_bare v payload :
  envelopeEnabled cfg = false → Marshal cdc v = Ok payload → good_data payload.
Proof using All.
  intros Hoff Hm. unfold good_data. rewrite parseStored_off by done. split_and!.
  - apply bool_decide_eq_false. intros ->. by apply (codec_no_nul _ _ Hm).
  - exists v. by apply codec_round_trip.
  - intros t _. apply stale_no_envelope.
Qed.

Lemma good_wrapped v payload fu d :
  envelopeEnabled cfg = true → Marshal cdc v = Ok payload →
  fu = zero_time ∨ until + Millisecond <= fu <= unix_epoch + 2 ^ 64 ∧ t0 <= fu →
  good_data (wrapEnvelope payload fu d).
Proof using All.
  intros Hon Hm Hfu. unfold good_data. rewrite parse_stored_wrap by done. split_and!.
  - apply hasEnvelope_not_negative, wrapEnvelope_hasEnvelope.
  - exists v. by apply codec_round_trip.
  - intros t Ht. rewrite parseStored_on by done. unfold stale.
    destruct Hfu as [->|[Hfu Hlow]]; [by rewrite parse_wrap|].
    pose proof (st_start Hset). rewrite parse_wrap_deadline by lia.
    pose proof (trunc_ms_bounds fu). unfold After.
    rewrite (proj2 (Z.ltb_ge _ _)) by lia. apply andb_false_r.
Qed.

Lemma applyJitter_none ttl :
  applyJitter (S := S) ttl (cfg_ttlJitter cfg) = mret ttl.
Proof using Hset. unfold applyJitter. by rewrite (st_jitter Hset), orb_true_r. Qed.

Lemma calm_packForStore_own st ttl d v payload :
  outlasts ttl → Marshal cdc v = Ok payload →
  calm (in_stage st) (λ ds, good_data ds.1 ∧ outlasts_store ds.2)
    (packForStore payload ttl d cfg).
Proof using All.
  intros Httl Hm. unfold packForStore. destruct (envelopeEnabled cfg) eqn:He; cbn [negb].
  2:{ split; [by eapply good_bare|]. destruct Httl as [?|?]; [by left|right].
      cbn [snd]. lia. }
  rewrite applyJitter_none. fold (base_ttl cfg ttl). cbn [mbind act_mbind act_bind_def mret act_ret].
  destruct (Z.ltb_spec 0 (base_ttl cfg ttl)) as [Hpos|Hneg].
  - destruct Httl as [?|[Hu Hmax]]; [lia|].
    eapply calm_bind; [apply calm_now, in_stage_time|]. intros t [Ht1 Ht2].
    split; cbn [fst snd].
    + eapply good_wrapped; [done..|]. right. unfold time_Add, Millisecond in *.
      pose proof (st_until Hset). lia.
    + pose proof (st_stale Hset). right.
      rewrite dur_add_id by (unfold is_int64, min_int64, max_int64; lia).
      rewrite base_ttl_pos by lia. unfold Millisecond in *. lia.
  - split; cbn [fst snd]; [eapply good_wrapped; [done..|by left]|].
    left. by eapply base_ttl_neg.
Qed.

(** Loaders that succeed with a value the codec can encode. *)
Definition loads_ok (loader : Context → act S (outcome (result T))) : Prop :=
  ∀ ctx, clean_code
    (λ o, ∃ v payload, o = Returned (Ok v) ∧ Marshal cdc v = Ok payload) (loader ctx).

Lemma go_hooks_load d e :
  go (λ st _, st ≠ Stored) Idle (hooks_load (cfg_hooks cfg) key d e).
Proof.
  unfold hooks_load. case_goal; [|done]. apply go_atom. intros w Hw _.
  exists Loaded. split; [|done]. unfold moves, in_stage, live in *.
  cbn [add_event w_store w_time w_trace fst snd]. split.
  - split; [exact (proj1 Hw)|done].
  - split; [done|]. split; [lia|]. cbn [spent].
    rewrite load_count_app. unfold load_count at 2. cbn [List.filter is_load].
    rewrite bool_decide_true by done. cbn. lia.
Qed.

Lemma go_loadAndStore st base ttl loader :
  steady (miss_context base) → st ≠ Loaded → outlasts ttl → loads_ok loader →
  go (λ st' _, st' ≠ Loaded) st
    (loadAndStore base c key ttl cdc loader cfg (mkFlightOpts true 0 zero_time)).
Proof using All.
  intros Hsteady Hst Httl Hl. unfold loadAndStore. rewrite flightContext_miss.
  cbn [mbind act_mbind mret act_ret act_bind_def].
  eapply go_then; [by apply calm_recheck_own|]. intros [data|] Hhit; [done|].
  destruct st; [|done|by specialize (Hhit eq_refl)]. unfold loadPhase.
  eapply go_then; [apply calm_now, in_stage_time|intros t1 _].
  eapply go_then; [apply calm_clean, Hl|]. intros o (v & payload & -> & Hm).
  eapply go_then; [apply calm_now, in_stage_time|intros t2 _].
  eapply go_bind; [apply go_hooks_load|]. intros st _ _.
  eapply (go_bind (λ st' _, st' = Stored)); [|by intros st' a ->].
  unfold storeLoaded. rewrite Hm.
  eapply go_then; [by eapply calm_packForStore_own|]. intros [data sttl] [Hd Hs].
  eapply (go_bind (λ st' _, st' = Stored)); [by apply sg_Set|by intros st' a ->].
Qed.
End own.
End cache.

Lemma go_start (Q : stage → Prop) st (fn : flight_fn S) :
  go (λ st' _, Q st') st fn → go (λ st' _, Q st') st (start fn).
Proof. intros H. eapply go_bind; [exact H|by intros st' a]. Qed.

(** ** Callers

    of any of several caches on the store. *)
Section callers.
Context (caches : list (Cache S)) (Hstaged : Forall StagedCache caches).

(** The flights of the key, one for each cache. *)
Definition own_flights : list string := (λ c, flightKey (c_addr c) key) <$> caches.

(** The flights a caller may start: one of the key does not leave its cache
    between loading and storing, any other is calm. *)
Definition flight_good (fk : string) (fn : flight_fn S) : Prop :=
  if decide (fk ∈ own_flights)
  then ∀ st, st ≠ Loaded → go (λ st' _, st' ≠ Loaded) st (start fn)
  else calm live (λ _, True) (start fn).

Fixpoint calm_prog {A} (Q : A → Prop) (p : prog S A) : Prop :=
  match p with
  | PRet a => Q a
  | PStep f => ∀ w, live w → w_time (f w).2 < until → quiet w (f w).2 ∧ calm_prog Q (f w).1
  | PDo _ fk fn k => flight_good fk fn ∧ ∀ r, calm_prog Q (k r)
  | PAsync fk fn k => flight_good fk fn ∧ calm_prog Q k
  end.

Lemma calm_lift {A} (Q : A → Prop) (m : act S A) : calm live Q m → calm_prog Q (lift m).
Proof.
  intros Hm. induction m as [a|f IH] using act_rect'; [done|].
  intros w Hw. simpl. specialize (Hm w Hw). specialize (IH w).
  destruct (f w) as [m' w']. cbn [fst snd] in *. intros Ht.
  destruct (Hm Ht) as [H1 H2]. by split; [|apply IH].
Qed.

Lemma calm_prog_bind {A B} (Q : A → Prop) (Q' : B → Prop) (p : prog S A) k :
  calm_prog Q p → (∀ a, Q a → calm_prog Q' (k a)) → calm_prog Q' (p ≫= k).
Proof.
  intros Hp Hk. induction p as [a|f IH|ctx fk fn h IH|fk fn h IH] using prog_rect'.
  - by apply Hk.
  - intros w Hw. simpl. specialize (Hp w Hw). specialize (IH w).
    destruct (f w) as [p' w']. cbn [fst snd] in *. intros Ht.
    destruct (Hp Ht) as [H1 H2]. by split; [|apply IH].
  - destruct Hp as [H1 H2]. split; [done|]. intros r. by apply IH.
  - destruct Hp as [H1 H2]. split; [done|]. by apply IH.
Qed.

Lemma own_flight_key (c : Cache S) k : flightKey (c_addr c) k ∈ own_flights → k = key.
Proof.
  intros (c' & Hk & _)%list_elem_of_fmap.
  by apply no_nul_split in Hk as [_ ?]; [|apply fmt_p_no_nul..].
Qed.

(** Calls the theorem is about: on one of the caches, with a loader that minds
    its own business; for the key itself it succeeds and the TTL outlasts the
    window. *)
Definition herd_call (cl : call S T) : Prop :=
  cl_cache cl ∈ caches
  ∧ (∀ ctx, clean_code (λ _, True) (cl_loader cl ctx))
  ∧ (cl_key cl = key → codec_or_default (cl_codec cl) = cdc ∧ outlasts (cl_ttl cl)
     ∧ loads_ok (cl_loader cl)).

Section of_cache.
Context (c : Cache S) (Hin : c ∈ caches).
Context (Hset : settings) `{!CodecRoundTrip cdc, !CodecNoNUL cdc}.

#[local] Instance staged_member : StagedCache c.
Proof using Hstaged Hin. rewrite Forall_forall in Hstaged. by apply Hstaged. Qed.

Lemma calm_own_call ctx ttl codec loader :
  steady (miss_context ctx) → codec_or_default codec = cdc → outlasts ttl → loads_ok loader →
  calm_prog (λ _, True) (GetOrSetWithCodec ctx c key ttl codec loader).
Proof using All.
  intros Hsteady Hc Httl Hl. unfold GetOrSetWithCodec. rewrite Hc, sg_config.
  assert (flight_good (flightKey (c_addr c) key)
    (loadAndStore ctx c key ttl cdc loader cfg (mkFlightOpts true 0 zero_time))) as Hfl.
  { unfold flight_good. rewrite decide_True by (apply list_elem_of_fmap; by eexists).
    intros st Hst. apply (go_start (λ st', st' ≠ Loaded)). by apply (go_loadAndStore c). }
  eapply calm_prog_bind; [apply calm_lift, sg_Get_any|]. intros r Hd.
  apply (calm_prog_bind (λ _, True)); [|by intros [res|] _].
  destruct r as [data|e]; [|done].
  destruct Hd as (Hneg & (v & Hv) & Hfresh). unfold serveHit. rewrite Hneg.
  destruct (parseStored cfg data) as [env payload]. cbn [fst snd] in *. rewrite Hv.
  eapply calm_prog_bind; [apply calm_lift, calm_now, live_time|]. intros t [_ Ht].
  rewrite (Hfresh t Ht). apply (calm_prog_bind (λ _, True)); [|done].
  apply (calm_prog_bind (λ early : bool, early = false)); [|by intros ? ->].
  apply calm_lift. unfold shouldEarlyRefresh. by rewrite (st_beta Hset).
Qed.

Lemma flight_good_other k (fn : flight_fn S) :
  k ≠ key → calm live (λ _, True) fn → flight_good (flightKey (c_addr c) k) fn.
Proof.
  intros Hne Hfn. unfold flight_good. rewrite decide_False.
  - by apply calm_start.
  - by intros H%own_flight_key.
Qed.

Lemma calm_other_call ctx k ttl codec loader :
  k ≠ key → (∀ ctx, clean_code (λ _, True) (loader ctx)) →
  calm_prog (λ _, True) (GetOrSetWithCodec ctx c k ttl codec loader).
Proof.
  intros Hne Hl. unfold GetOrSetWithCodec. rewrite sg_config.
  eapply calm_prog_bind; [by apply calm_lift, sg_Get_other|]. intros r _.
  apply (calm_prog_bind (λ _, True)).
  - destruct r as [data|e]; [|done]. unfold serveHit.
    destruct (isNegativeEntry data); [done|].
    destruct (parseStored cfg data) as [env payload], (Unmarshal _ payload) as [v|e].
    + eapply calm_prog_bind; [apply calm_lift, calm_now, live_time|]. intros t _.
      apply (calm_prog_bind (λ _, True)); [|done].
      assert (∀ env, calm_prog (λ _, True)
        (refreshAsync ctx c k ttl (codec_or_default codec) loader cfg env)) as Hr.
      { intros env'. split; [|done]. by apply flight_good_other, (calm_refreshFlight_other c). }
      case_goal; [apply Hr|].
      eapply calm_prog_bind; [apply calm_lift, calm_shouldEarlyRefresh|].
      by intros [|] _; [apply Hr|].
    + eapply calm_prog_bind; [by apply calm_lift, calm_if_emit|intros _ _].
      by eapply calm_prog_bind; [by apply calm_lift, sg_Delete_other|].
  - intros [res|] _; [done|]. split; [|done].
    by apply flight_good_other, (calm_loadAndStore_other c).
Qed.

End of_cache.

Lemma calm_call (Hset : settings) `{!CodecRoundTrip cdc, !CodecNoNUL cdc} cl :
  herd_call cl → (cl_key cl = key → steady (miss_context (cl_ctx cl))) →
  calm_prog (λ _, True) (call_prog cl).
Proof using All.
  intros (Hc & Hl & Hk) Hsteady. unfold call_prog.
  destruct (decide (cl_key cl = key)) as [E|E]; [|by apply calm_other_call].
  destruct (Hk E) as (H1 & H2 & H3). rewrite E. apply calm_own_call; auto.
Qed.

(** ** The system *)

Section system.
Context {G : Type} `{!SingleFlight G} `{!SingleFlightLaws G}.
Implicit Types (s : system G S (result T)) (fs : list (flight S)).

(** The stages of the caches, in their order; what they have loaded. *)
Implicit Types (σ : list stage).

Definition total_spent σ : nat := sum_list (spent <$> σ).

Definition phase_good σ (f : flight S) : Prop :=
  match f_phase f with
  | Running m =>
      (∀ i st, own_flights !! i = Some (f_key f) → σ !! i = Some st →
         go (λ st' _, st' ≠ Loaded) st m)
      ∧ (f_key f ∉ own_flights → calm live (λ _, True) m)
  | _ => True
  end.

Definition caller_calm (cl : caller S (result T)) : Prop :=
  match cl with
  | Caller p => calm_prog (λ _, True) p
  | Waiting _ _ _ k => ∀ r, calm_prog (λ _, True) (k r)
  | Finished _ => True
  end.

(** Each cache in its stage, which accounts for the loads; between loading and
    storing, its flight of the key runs. *)
Record herd_inv (n0 : nat) σ s : Prop := {
  hi_length : length σ = length caches;
  hi_live : live (s_world s);
  hi_stages i st : σ !! i = Some st → in_stage st (s_world s);
  hi_loads : (loads (s_world s) <= n0 + total_spent σ)%nat;
  hi_loaded i fk : σ !! i = Some Loaded → own_flights !! i = Some fk →
    sf_lookup (s_group s) fk ≠ None;
  hi_flights n f : s_flights s !! n = Some f → phase_good σ f;
  hi_callers i cl : s_callers s !! i = Some cl → caller_calm cl
}.

Lemma insert_callers (cs : list (caller S (result T))) i cl' :
  caller_calm cl' → (∀ i cl, cs !! i = Some cl → caller_calm cl) →
  ∀ j cl, <[i := cl']> cs !! j = Some cl → caller_calm cl.
Proof.
  intros Hc H j cl [(<- & <- & _)|[_ Hj]]%list_lookup_insert_Some; [done|by apply (H j)].
Qed.

Lemma insert_flights σ fs n f' :
  phase_good σ f' → (∀ n f, fs !! n = Some f → phase_good σ f) →
  ∀ j f, <[n := f']> fs !! j = Some f → phase_good σ f.
Proof.
  intros Hc H j f [(<- & <- & _)|[_ Hj]]%list_lookup_insert_Some; [done|by apply (H j)].
Qed.

Lemma total_spent_cons st σ : total_spent (st :: σ) = (spent st + total_spent σ)%nat.
Proof. done. Qed.

Lemma total_spent_insert σ i st st' :
  σ !! i = Some st →
  (total_spent (<[i := st']> σ) + spent st = total_spent σ + spent st')%nat.
Proof.
  revert i. induction σ as [|st0 σ IH]; intros [|i]; [done..| |].
  - intros [= ->]. change (<[0%nat := st']> (st :: σ)) with (st' :: σ).
    rewrite !total_spent_cons. lia.
  - intros Hi. specialize (IH i Hi).
    change (<[Datatypes.S i := st']> (st0 :: σ)) with (st0 :: <[i := st']> σ).
    rewrite !total_spent_cons. lia.
Qed.

Lemma total_spent_le σ : (total_spent σ <= length σ)%nat.
Proof.
  induction σ as [|st σ IH]; [done|]. rewrite total_spent_cons. destruct st; cbn; lia.
Qed.

Context (Hdistinct : NoDup own_flights).

(** A flight that is started: no flight of the key runs, so its cache is not
    between loading and storing. *)
Lemma herd_DoChan σ fk fn (g : G) fs n g' fs' :
  DoChan fk fn g fs = (n, g', fs') → flight_good fk fn →
  (∀ i fk, σ !! i = Some Loaded → own_flights !! i = Some fk → sf_lookup g fk ≠ None) →
  (∀ n f, fs !! n = Some f → phase_good σ f) →
  (∀ i fk, σ !! i = Some Loaded → own_flights !! i = Some fk → sf_lookup g' fk ≠ None)
  ∧ ∀ n f, fs' !! n = Some f → phase_good σ f.
Proof.
  unfold DoChan. intros Hd Hfn Hst H.
  destruct (sf_lookup g fk) eqn:E; injection Hd as <- <- <-; [done|]. split.
  - intros i fk' Hi Hk. rewrite sf_lookup_register. case_decide; [done|by eapply Hst].
  - intros m f [Hm|[_ Hm]]%lookup_app_Some; [by apply (H m)|].
    apply list_lookup_singleton_Some in Hm as [_ <-].
    unfold phase_good, flight_good in *. cbn [f_phase f_key]. case_decide as Hk.
    + split; [|done]. intros i st Hi Hσ. apply Hfn. intros ->. by apply (Hst i fk).
    + split; [|done]. intros i st Hi. destruct Hk. by eapply list_elem_of_lookup_2.
Qed.

(** The other flights do not see the stage of the cache change. *)
Lemma other_flights σ i fk st' fs (g : G) n m f j fj :
  table g fs → own_flights !! i = Some fk → fs !! n = Some (mkFlight fk (Running m)) →
  (∀ n f, fs !! n = Some f → phase_good σ f) →
  phase_good (<[i := st']> σ) f → <[n := f]> fs !! j = Some fj →
  phase_good (<[i := st']> σ) fj.
Proof using Hdistinct.
  intros Htab Hown Hn H Hf [(<- & <- & _)|[Hne Hj]]%list_lookup_insert_Some; [done|].
  specialize (H _ _ Hj). unfold phase_good in *. destruct fj as [fk' ph].
  cbn [f_phase f_key] in *. destruct ph as [m'| |]; [|done..].
  destruct H as [H1 H2]. split; [|done]. intros i' st Hi' Hσ.
  destruct (decide (i' = i)) as [->|Hii].
  - assert (fk' = fk) as -> by congruence.
    assert (sf_lookup g fk = Some n) by (apply Htab; by eexists).
    assert (sf_lookup g fk = Some j) by (apply Htab; by eexists). congruence.
  - rewrite list_lookup_insert_ne in Hσ by done. by apply (H1 i').
Qed.

(** A step that ends before the TTL may. *)
Definition step_before s s' : Prop := step_sys s s' ∧ w_time (s_world s') < until.

(** Steps that are quiet, and the flights and callers after them. *)
Lemma herd_inv_quiet n0 σ w w' (g : G) fs fs' cs cs' :
  quiet w w' → herd_inv n0 σ (mkSystem w g fs cs) →
  (∀ n f, fs' !! n = Some f → phase_good σ f) →
  (∀ i cl, cs' !! i = Some cl → caller_calm cl) →
  herd_inv n0 σ (mkSystem w' g fs' cs').
Proof.
  intros Hq [Hlen Hl Hst Hld Hg _ _] Hf Hc. split; cbn in *; try done.
  - by eapply quiet_live.
  - intros i st Hi. eapply quiet_stage; [done|by apply (Hst i)].
  - destruct Hq as (_ & _ & _ & ->). done.
Qed.

(** A step of the flight of the key of one of the caches. *)
Lemma herd_inv_own n0 σ i fk w (g : G) fs cs n f :
  flight_inv (mkSystem w g fs cs) → herd_inv n0 σ (mkSystem w g fs cs) →
  own_flights !! i = Some fk → fs !! n = Some (mkFlight fk (Running (Step f))) →
  w_time (f w).2 < until →
  ∃ σ', herd_inv n0 σ'
    (mkSystem (f w).2 g (<[n := mkFlight fk (Running (f w).1)]> fs) cs).
Proof using All.
  intros Hinv [Hlen Hl Hst Hld Hg Hf Hc] Hi Hn Ht. cbn in *.
  destruct (lookup_lt_is_Some_2 σ i) as [st Hσ].
  { apply lookup_lt_Some in Hi. unfold own_flights in Hi. rewrite length_fmap in Hi. lia. }
  destruct (Hf _ _ Hn) as [Hgo _]. cbn [f_phase f_key] in Hgo.
  destruct (Hgo i st Hi Hσ w (Hst i st Hσ) Ht) as (st' & (Hw' & Hh & Htm & Hlo) & Hgo').
  exists (<[i := st']> σ). split; cbn [s_world s_group s_flights s_callers].
  - by rewrite length_insert.
  - apply Hw'.
  - intros j stj [(<- & <- & _)|[_ Hj]]%list_lookup_insert_Some; [done|].
    split; [apply Hw'|]. intros E. by apply Hh, (Hst j stj Hj).
  - pose proof (total_spent_insert σ i st st' Hσ). lia.
  - intros j fk' [(<- & _ & _)|[_ Hj]]%list_lookup_insert_Some Hk; [|by eapply Hg].
    assert (fk' = fk) as -> by congruence.
    assert (sf_lookup g fk = Some n) as ->; [|done]. apply (inv_table _ Hinv). by eexists.
  - intros j fj. eapply other_flights; [apply Hinv|exact Hi|exact Hn|exact Hf|].
    unfold phase_good. cbn [f_phase f_key]. split.
    + intros i' st2 Hi' Hσ'. assert (i' = i) as -> by (by eapply NoDup_lookup).
      rewrite list_lookup_insert_eq in Hσ' by (by eapply lookup_lt_Some).
      by injection Hσ' as <-.
    + intros Hk. destruct Hk. by eapply list_elem_of_lookup_2.
  - exact Hc.
Qed.

Lemma herd_inv_step n0 σ s s' :
  flight_inv s → herd_inv n0 σ s → step_before s s' → ∃ σ', herd_inv n0 σ' s'.
Proof using All.
  intros Hinv Hh [Hstep Ht]. pose proof Hh as [Hlen Hl Hst Hld Hg Hf Hc].
  destruct Hstep as [w g fs cs i f Hi|w g fs cs i x fk fn k n g' fs' Hi Hd
    |w g fs cs i fk fn k n g' fs' Hi Hd|w g fs cs i x fk n k f r Hi Hn Hp
    |w g fs cs i x fk n k e Hi He|w g fs cs i a Hi|w g fs cs n fk f Hn
    |w g fs cs n fk r Hn|w g fs cs n fk r Hn|w w' g fs cs He];
    cbn [s_world s_group s_flights s_callers] in *.
  - destruct (Hc _ _ Hi w Hl Ht) as [Hq Hp]. exists σ.
    eapply herd_inv_quiet; [exact Hq|exact Hh|exact Hf|by apply insert_callers].
  - destruct (Hc _ _ Hi) as [Hfn Hk].
    destruct (herd_DoChan σ _ _ _ _ _ _ _ Hd Hfn Hg Hf) as [H1 H2]. exists σ.
    split; [done..|by apply insert_callers].
  - destruct (Hc _ _ Hi) as [Hfn Hk].
    destruct (herd_DoChan σ _ _ _ _ _ _ _ Hd Hfn Hg Hf) as [H1 H2]. exists σ.
    split; [done..|by apply insert_callers].
  - exists σ. split; [done..|]. apply insert_callers; [|done]. apply (Hc _ _ Hi).
  - exists σ. split; [done..|]. apply insert_callers; [|done]. apply (Hc _ _ Hi).
  - exists σ. split; [done..|]. by apply insert_callers.
  - destruct (decide (fk ∈ own_flights)) as [[i Hi]%list_elem_of_lookup|Hk].
    + by eapply herd_inv_own.
    + destruct (Hf _ _ Hn) as [_ Hm]. destruct (Hm Hk w Hl Ht) as [Hq Hm']. exists σ.
      eapply herd_inv_quiet; [exact Hq|exact Hh| |exact Hc]. apply insert_flights; [|done].
      split; [|done]. intros i st Hi. destruct Hk. by eapply list_elem_of_lookup_2.
  - exists σ. split; [done..| |by apply insert_flights|done]. cbn [s_group].
    intros i fk' Hi Hown. rewrite sf_lookup_forget. case_decide as Hk; [|by eapply Hg].
    subst fk'. destruct (Hf _ _ Hn) as [Hgo _]. by destruct (Hgo i Loaded Hown Hi).
  - exists σ. split; [done..| |by apply insert_flights|done]. cbn [s_group].
    intros i fk' Hi Hown. rewrite sf_lookup_end, decide_False; [by eapply Hg|].
    intros [_ Hlk]. apply (inv_table _ Hinv) in Hlk as [m Hm]. cbn [s_flights] in Hm. congruence.
  - exists σ. destruct He as (d & l & n1 & n2 & n3 & n4 & ->).
    eapply herd_inv_quiet; [|exact Hh|exact Hf|exact Hc].
    apply quiet_still; cbn [w_store w_time w_trace]; [done|lia|done].
Qed.

Lemma herd_inv_steps n0 σ s s' :
  rtc step_before s s' → flight_inv s → herd_inv n0 σ s → ∃ σ', herd_inv n0 σ' s'.
Proof using All.
  intros Hst. revert σ. induction Hst as [s|s1 s2 s3 H12 _ IH]; intros σ Hinv Hh; [by eexists|].
  destruct (herd_inv_step n0 σ s1 s2 Hinv Hh H12) as [σ' Hh'].
  apply (IH σ'); [|done]. eapply flight_inv_step; [done|apply H12].
Qed.
End system.
End callers.
End stages.

(** At most one load for each of the caches of a key that is gone at the start,
    up to [until]. *)
Lemma staged_loads {G S T} `{!SingleFlight G, !SingleFlightLaws G, !JSON T}
    (caches : list (Cache S)) cfg (cdc : Codec T) `{!CodecRoundTrip cdc, !CodecNoNUL cdc} key until
    (gone held : S → Time → Prop) `{!Lasting gone, !Lasting held} (steady : Context → Prop)
    (calls : list (call S T)) w (s : system G S (result T)) :
  Forall (StagedCache cfg cdc key (w_time w) until gone held steady) caches →
  NoDup (own_flights key caches) → settings cfg (w_time w) until →
  gone (w_store w) (w_time w) →
  Forall (herd_call cfg cdc key (w_time w) until caches) calls →
  Forall (λ cl, cl_key cl = key → steady (miss_context (cl_ctx cl))) calls →
  rtc (step_before until) (initial w (call_prog <$> calls)) s →
  (load_count key (w_trace (s_world s)) <= length caches + load_count key (w_trace w))%nat.
Proof.
  intros Hstaged Hdist Hset Habs Hcalls Hsteady Hrun. rewrite Forall_forall in Hcalls, Hsteady.
  destruct (herd_inv_steps cfg cdc key (w_time w) until gone held steady caches Hstaged Hdist
    (load_count key (w_trace w)) (replicate (length caches) Idle) _ _ Hrun) as [σ Hh].
  - apply flight_inv_initial.
  - assert (live (w_time w) gone held w) as Hl by (split; [lia|by left]).
    split; cbn [initial s_world s_group s_flights s_callers]; [| |..].
    + apply length_replicate.
    + exact Hl.
    + by intros i st [-> _]%lookup_replicate.
    + lia.
    + by intros i fk [? _]%lookup_replicate.
    + done.
    + intros i p Hi. rewrite !list_lookup_fmap in Hi.
      destruct (calls !! i) as [cl|] eqn:E; [|done]. injection Hi as <-.
      apply list_elem_of_lookup_2 in E. eapply calm_call; [done..|by apply Hcalls|by apply Hsteady].
  - destruct Hh as [Hlen _ _ Hld _ _ _]. pose proof (total_spent_le σ). lia.
Qed.

(** Caches of different addresses have different flights. *)
Lemma own_flights_distinct {S} key (caches : list (Cache S)) :
  Forall (λ c, c_addr c < 2 ^ 64)%N caches → NoDup (c_addr <$> caches) →
  NoDup (own_flights key caches).
Proof.
  intros Hb Hn. unfold own_flights. induction Hb as [|c caches Hc Hb IH]; [constructor|].
  apply NoDup_cons in Hn as [Hin Hn]. apply NoDup_cons. split; [|by apply IH].
  intros (c' & Hk & Hc')%list_elem_of_fmap. apply no_nul_split in Hk as [Hk _];
    [|apply fmt_p_no_nul..].
  rewrite Forall_forall in Hb. apply fmt_p_inj in Hk; [|done|by apply Hb].
  destruct Hin. apply list_elem_of_fmap. by exists c'.
Qed.

(** A schedule during which the clock stays before [until]. *)
Fixpoint schedule_within {G S A} `{!SingleFlight G} (until : Time) (chs : list choice)
    (s : system G S A) : bool :=
  match chs with
  | [] => true
  | ch :: chs => let s' := default s (sched ch s) in
                 (w_time (s_world s') <? until) && schedule_within until chs s'
  end.

Lemma schedule_within_sound {G S T} `{!SingleFlight G} until chs
    (s : system G S (result T)) :
  schedule_within until chs s = true → rtc (step_before until) s (schedule chs s).
Proof.
  revert s. induction chs as [|ch chs IH]; intros s; cbn; [done|].
  intros [Ht Hw]%andb_true_iff. apply Z.ltb_lt in Ht.
  destruct (sched ch s) as [s'|] eqn:E; cbn in *; [|by apply IH].
  eapply rtc_l; [|by apply IH]. split; [by apply (sched_sound ch)|done].
Qed.
