(* ===== verification/Herd.v ===== *)
(** * No thundering herd on MemoryCache: at most one load per key within the TTL

    MemoryCache keeps the promise of [StagedCache] (Staged.v): an entry that
    is absent stays so until it is set, an entry with a good value and a
    deadline past the window is served until then, and operations on other
    keys do not touch it. *)
From S2P Require Import Prelude Int64 Float64 Errors Runtime Envelope Hooks Codec.
From S2P Require Import Options Cache Memory Group GetOrSet GetOrSetFacts Instances.
From S2P Require Import Flights FlightsThms Staged.
From Stdlib Require Import ZArith Lia.
Local Open Scope Z_scope.

Section memory.
Context {T : Type} `{!JSON T} (c : MemoryCache T) (cdc : Codec T).
Context (key : string) (t0 until : Time).
Implicit Types (w : World items) (P : World items → Prop).
Abbreviation K := (mem_key c key).
Abbreviation mc := (MemoryCache_Cache c).
Abbreviation cfg := (mem_config c).
Abbreviation good := (good_data cfg cdc until).

Definition mem_gone (its : items) (_ : Time) : Prop := its !! K = None.

Definition good_item (it : memoryItem) : Prop :=
  good (mi_val it) ∧ (mi_deadline it = zero_time ∨ until <= mi_deadline it).

Definition mem_held (its : items) (_ : Time) : Prop :=
  ∃ it, its !! K = Some it ∧ good_item it.

#[export] Instance mem_gone_lasting : Lasting mem_gone.
Proof. by intros its t t' H _. Qed.
#[export] Instance mem_held_lasting : Lasting mem_held.
Proof. by intros its t t' H _. Qed.

Abbreviation in_stage := (in_stage t0 mem_gone mem_held).
Abbreviation quiet := (quiet key mem_gone mem_held).
Abbreviation calm := (calm key until mem_gone mem_held).
Abbreviation go := (go key t0 until mem_gone mem_held).
Abbreviation live := (live t0 mem_gone mem_held).

(** Steps that leave the entry of the key alone. *)
Lemma quiet_entry w w' :
  w_store w' !! K = w_store w !! K → w_time w <= w_time w' → w_trace w' = w_trace w →
  quiet w w'.
Proof.
  intros Hs Ht Htr. unfold Staged.quiet, mem_gone, mem_held. rewrite Hs, Htr.
  split_and!; [by left|done|done|done].
Qed.

Lemma mem_key_ne k : k ≠ key → mem_key c k ≠ K.
Proof. intros Hne E%mem_key_inj. done. Qed.

(** ** Operations on other keys *)

Lemma calm_Get_other P ctx k : k ≠ key → calm P (λ _, True) (mem_Get c ctx k).
Proof.
  intros Hne. unfold mem_Get. eapply (calm_bind _ _ _ _ _ (λ _, True)).
  - apply calm_atom. intros w _ _. split; [|done].
    destruct (mem_lookup_spec c k w) as (t & Ht & _ & _ & Htr).
    apply quiet_entry; [|lia|done]. unfold mem_lookup. step.
    destruct (w_store w !! mem_key c k) as [it|]; [|done]. case_goal; [done|]. step.
    case_goal; [|done]. step. cbn. by apply lookup_delete_ne, mem_key_ne.
  - intros [v|] _; (eapply calm_bind; [apply calm_if_emit; first [apply _|done]|done]).
Qed.

Lemma calm_newItem P v ttl : calm P (λ _, True) (newItem c v ttl).
Proof.
  unfold newItem. eapply (calm_bind _ _ _ _ _ (λ _, True)).
  { case_goal; [apply calm_applyJitter; apply _|done]. }
  intros e _. case_goal; [|done].
  eapply (calm_bind _ _ _ _ _ (λ _, True)); [|done].
  apply calm_pure; [tc_solve..|]. intros w. cbn. split_and!; [done|done|lia].
Qed.

Lemma calm_modify P f :
  (∀ its : items, f its !! K = its !! K) → calm P (λ _, True) (locked (modify_store f)).
Proof.
  intros Hf. apply calm_atom. intros w _ _. rewrite run_modify_store. split; [|done].
  apply quiet_entry; cbn; [apply Hf|lia|done].
Qed.

Lemma calm_Set_other P ctx k v ttl : k ≠ key → calm P (λ _, True) (mem_Set c ctx k v ttl).
Proof.
  intros Hne. unfold mem_Set. eapply calm_bind; [apply calm_newItem|intros it _].
  eapply (calm_bind _ _ _ _ _ (λ _, True)); [|done].
  apply calm_modify. intros its. by apply lookup_insert_ne, mem_key_ne.
Qed.

Lemma calm_Delete_other P ctx k : k ≠ key → calm P (λ _, True) (mem_Delete c ctx k).
Proof.
  intros Hne. unfold mem_Delete. eapply (calm_bind _ _ _ _ _ (λ _, True)); [|done].
  apply calm_modify. intros its. by apply lookup_delete_ne, mem_key_ne.
Qed.

(** ** Operations on the key *)

Lemma own_lookup st w :
  in_stage st w → w_time (run (mem_lookup c key) w).2 < until →
  quiet w (run (mem_lookup c key) w).2
  ∧ match (run (mem_lookup c key) w).1 with
    | Some data => good data
    | None => st ≠ Stored
    end.
Proof.
  intros [[Ht0 Hl] Hst]. unfold mem_lookup, mem_gone, mem_held in *. step.
  assert (quiet w w) as Hrefl by (by apply quiet_entry; [|lia|]).
  destruct (w_store w !! K) as [it|] eqn:E.
  2:{ intros _. split; [done|]. intros Hs. by destruct (Hst Hs) as (it & Hit & _). }
  assert (good_item it) as [Hgood Hdl].
  { destruct Hl as [?|(it' & Hit & Hg)]; [done|]. by injection Hit as ->. }
  destruct (IsZero (mi_deadline it)) eqn:Ez; [by intros _|].
  destruct Hdl as [Hz|Hdl]; [by rewrite Hz in Ez|].
  step. unfold Before, read_clock. cbn [fst snd].
  destruct (Z.ltb_spec (w_time w + Z.of_N (tick (w_orc w) (w_reads w))) (mi_deadline it));
    cbn [negb]; step; cbn [w_time set_store fst snd]; intros Ht; [|lia].
  split; [|done]. apply quiet_entry; cbn [w_time w_store w_trace]; [done|lia|done].
Qed.

Lemma calm_Get_own st ctx :
  calm (in_stage st) (get_result cfg cdc until st) (mem_Get c ctx key).
Proof.
  unfold mem_Get. eapply (calm_bind _ _ _ _ _ (λ r, match r with
    | Some data => good data | None => st ≠ Stored end)).
  - apply calm_atom. intros w Hw Ht. by apply own_lookup.
  - intros [data|] Hd; (eapply calm_bind; [apply calm_if_emit; first [apply _|done]|]);
      by intros _ _.
Qed.

Context (Hset : settings cfg t0 until).

Lemma calm_newItem_own st v ttl :
  good v → outlasts_store cfg t0 until ttl → calm (in_stage st) good_item (newItem c v ttl).
Proof using Hset.
  intros Hv Httl. unfold newItem. fold (base_ttl (mem_config c) ttl).
  unfold outlasts_store in Httl. change (m_ttlJitter c) with (cfg_ttlJitter (mem_config c)).
  rewrite (applyJitter_none (mem_config c) t0 until Hset).
  eapply (calm_bind _ _ _ _ _ (λ e, e = base_ttl (mem_config c) ttl)); [by case_goal|].
  intros e ->. destruct (Z.ltb_spec 0 (base_ttl (mem_config c) ttl)); [|split; [done|by left]].
  eapply calm_bind; [apply (calm_now _ t0); [tc_solve..|by intros w [[? _] _]]|]. intros t [Ht _].
  split; [done|right]. unfold Millisecond in *. destruct Httl; unfold time_Add;
    cbn [mi_deadline]; lia.
Qed.

Lemma go_Set_own st ctx v ttl :
  good v → outlasts_store cfg t0 until ttl →
  go (λ st' _, st' = Stored) st (mem_Set c ctx key v ttl).
Proof using Hset.
  intros Hv Httl. unfold mem_Set. eapply go_then; [by apply calm_newItem_own|].
  intros it Hit. eapply (go_bind _ _ _ _ _ (λ st' _, st' = Stored)); [|by intros ? ? ->].
  apply go_atom. intros w Hw _. exists Stored. split; [|done].
  rewrite run_modify_store. cbn [fst snd].
  assert (mem_held (<[K := it]> (w_store w)) (w_time w)) as Hh
    by (exists it; split; [apply lookup_insert_eq|done]).
  unfold moves, Staged.in_stage, Staged.live. cbn [set_store w_store w_time w_trace spent].
  split_and!; [by apply in_stage_time in Hw|by right|done|done|lia|destruct st; cbn; lia].
Qed.

#[export] Instance MemoryCache_staged : 
  StagedCache cfg cdc key t0 until mem_gone mem_held (λ _, True) mc.
Proof using Hset.
  split; intros; [done|by apply calm_Get_own|by apply calm_idle, calm_Get_own|by apply go_Set_own
    |by apply calm_Get_other|by apply calm_Set_other|by apply calm_Delete_other].
Qed.
End memory.

(** ** The theorem *)

(** C2: No thundering herd.  On a MemoryCache with jitter and early refresh off,
    take any number of concurrent callers of GetOrSet, on any keys, with any
    loaders that mind their own business, and any interleaving of their steps,
    flights and background refreshes, with cancellations at any moment.  For a
    key that is absent at the start and whose loaders succeed, the loader
    completes at most once (as OnLoad counts it) for as long as the clock stays
    a millisecond short of the TTL of its calls (for ever when there is no
    TTL): the callers that come while the load is running share it, those that
    missed before it was stored find it in the re-check of their flight, and
    later ones hit.  Loads of other keys, failing ones too, do not disturb
    this. *)
Theorem one_load_within_ttl {G T} `{!SingleFlight G, !SingleFlightLaws G, !JSON T}
    (c : MemoryCache T) (cdc : Codec T) `{!CodecRoundTrip cdc, !CodecNoNUL cdc}
    key until (calls : list (call items T)) w (s : system G items (result T)) :
  settings (mem_config c) (w_time w) until →
  w_store w !! mem_key c key = None →
  Forall (herd_call (mem_config c) cdc key (w_time w) until [MemoryCache_Cache c]) calls →
  rtc (step_before until) (initial w (call_prog <$> calls)) s →
  (load_count key (w_trace (s_world s)) <= S (load_count key (w_trace w)))%nat.
Proof.
  intros Hset Habs Hcalls Hrun.
  apply (staged_loads [MemoryCache_Cache c] (mem_config c) cdc key until (mem_gone c key)
    (mem_held c cdc key until) (λ _, True) calls w s);
    [|apply NoDup_singleton|done..|by apply Forall_forall|done].
  apply Forall_singleton. by apply MemoryCache_staged.
Qed.

Definition demo_herd : list choice :=
  replicate 10 (ChCaller 0) ++ replicate 10 (ChCaller 1) ++ replicate 40 (ChFlight 0)
    ++ [ChReceive 1; ChReceive 0] ++ replicate 20 (ChCaller 2).

Lemma one_load_within_ttl_witness :
  let s := schedule demo_herd demo_start in
  (load_count "k" (w_trace (s_world s)) <= 1)%nat
  ∧ load_count "k" (w_trace (s_world s)) = 1%nat
  ∧ length (List.filter (λ e, bool_decide (e = EvMiss "k")) (w_trace (s_world s))) = 3%nat.
Proof.
  cbn zeta. split; [|split; vm_compute; reflexivity].
  apply (one_load_within_ttl demo_memory JSONCodec "k" (demo_time + 30 * Second) demo_calls
    demo_empty).
  - split; [reflexivity|reflexivity|split; vm_compute; discriminate
      |vm_compute; discriminate|vm_compute; discriminate].
  - reflexivity.
  - assert (herd_call (mem_config demo_memory) JSONCodec "k" (w_time demo_empty)
      (demo_time + 30 * Second) [MemoryCache_Cache demo_memory] demo_call) as H;
      [|repeat apply Forall_cons_2; [exact H..|apply Forall_nil_2]].
    split; [by apply list_elem_of_singleton|split].
    + intros ctx w. split; [|exact I]. split_and!; [reflexivity..|]. cbn. lia.
    + intros _. split; [reflexivity|split].
      * right. split; vm_compute; discriminate.
      * intros ctx w. split; [split_and!; [reflexivity..|]; cbn; lia|].
        exists true, json_true. split; reflexivity.
  - apply schedule_within_sound. vm_compute. reflexivity.
Defined.
