(* ===== verification/NetworkHerd.v ===== *)
(** * No thundering herd on RedisCache and ValkeyCache

    The network backends, OpTimeout off, keep the promise of [StagedCache]
    (Staged.v) over any client that answers until the context of a command is
    done (Reliable.v), ValkeyCache without its client-side cache; the contexts
    that do not end before the window does are the steady ones.  The key is gone
    when the server shows nothing under its prefixed name until the window ends,
    held when it shows one good value throughout.  Replicas of a service that
    share a server load a key at most once each. *)
From S2P Require Import Prelude Int64 Float64 Errors Runtime Envelope Hooks Codec.
From S2P Require Import Options Cache Server Redis Valkey FakeServer Reliable.
From S2P Require Import Group GetOrSet Instances Flights FlightsThms Provenance Staged.
From Stdlib Require Import ZArith Lia.
Local Open Scope Z_scope.

(** ** Stages of a key on a server *)

Section server.
Context {S T : Type} `{!JSON T} (cfg : cacheConfig) (cdc : Codec T).
Context (db : S → string → Time → option bytes).
Context (key full : string) (t0 until : Time).
Implicit Types (w : World S) (P : World S → Prop).
Abbreviation good := (good_data cfg cdc until).

Definition srv_gone (s : S) (t : Time) : Prop :=
  ∀ t', t <= t' < until → db s full t' = None.

Definition srv_held (s : S) (t : Time) : Prop :=
  ∃ data, good data ∧ ∀ t', t <= t' < until → db s full t' = Some data.

#[export] Instance srv_gone_lasting : Lasting srv_gone.
Proof. intros s t t' H Ht u Hu. apply H. lia. Qed.
#[export] Instance srv_held_lasting : Lasting srv_held.
Proof.
  intros s t t' (data & Hd & H) Ht. exists data. split; [done|]. intros u Hu. apply H. lia.
Qed.

Abbreviation in_stage := (in_stage t0 srv_gone srv_held).
Abbreviation quiet := (quiet key srv_gone srv_held).
Abbreviation calm := (calm key until srv_gone srv_held).
Abbreviation go := (go key t0 until srv_gone srv_held).

(** Steps that a reader of the key cannot tell. *)
Lemma quiet_key w w' :
  w_time w <= w_time w' → w_trace w' = w_trace w →
  (∀ t, w_time w' <= t → db (w_store w') full t = db (w_store w) full t) → quiet w w'.
Proof.
  intros Ht Htr Hdb. unfold Staged.quiet. rewrite Htr. split_and!; [|
    |done|done].
  - intros H. left. intros t Hu. rewrite Hdb by lia. apply H. lia.
  - intros (data & Hd & H). exists data. split; [done|]. intros t Hu.
    rewrite Hdb by lia. apply H. lia.
Qed.

Lemma unseen_quiet w w' : unseen db w w' → quiet w w'.
Proof. intros (H1 & H2 & H3). apply quiet_key; [done|done|]. intros t. apply H3. Qed.

(** A context that does not end before the window does. *)
Definition steady (ctx : Context) : Prop :=
  cx_tokens ctx = [] ∧ ∀ d, cx_deadline ctx = Some d → until <= d.

Lemma steady_live ctx w : steady ctx → w_time w < until → ctx_Err ctx w = None.
Proof.
  intros [Ht Hd] Hw. unfold ctx_Err. rewrite Ht. cbn [existsb].
  destruct (cx_deadline ctx) as [d|] eqn:E; [|done]. specialize (Hd d eq_refl).
  by rewrite (proj2 (Z.leb_gt _ _)) by lia.
Qed.

(** A command whose effect is quiet; [Q'] holds of its true answers and, unless
    the context is steady, of its failures. *)
Lemma calm_served {A} P ctx (failed : A → Prop) (E : World S → World S → Prop)
    (R : World S → A → World S → Prop) (Q Q' : A → Prop) (m : act S A) :
  (∀ w w', P w → w_time w' < until → E w w' → quiet w w' ∧ ∀ a, R w a w' → Q' a) →
  steady ctx ∨ (∀ a, failed a → Q' a) →
  (∀ a, Q a → Q' a) → served db ctx failed E R Q m → calm P Q' m.
Proof.
  intros HE Hfail. revert Q. induction m as [a|f IH] using act_rect'; intros Q HQ Hm;
    [by apply HQ|].
  intros w Hw Ht.
  assert (∀ a, cut ctx failed a (f w).2 → Q' a) as Hcut.
  { intros a [Ha [e He]]. destruct Hfail as [Hs|Hf]; [|by apply Hf].
    by rewrite (steady_live _ _ Hs Ht) in He. }
  destruct (Hm w) as [[H1 H2]|[H1 H2]].
  - split; [by apply unseen_quiet|]. eapply IH; [|exact H2].
    intros a [Ha|Ha]; [by apply HQ|by apply Hcut].
  - destruct (HE w (f w).2 Hw Ht H1) as [Hq HR]. split; [done|]. eapply IH; [|exact H2].
    intros a [Ha|[Ha|Ha]]; [by apply HQ|by apply HR|by apply Hcut].
Qed.

(** One whose effect stores the key. *)
Lemma go_served {A} st ctx (failed : A → Prop) (E : World S → World S → Prop)
    (R : World S → A → World S → Prop) (Q : A → Prop) (m : act S A) :
  (∀ st w w', in_stage st w → w_time w' < until → E w w' →
     moves key t0 srv_gone srv_held st w Stored w') →
  steady ctx →
  (∀ a, Q a → st = Stored) → served db ctx failed E R Q m → go (λ st' _, st' = Stored) st m.
Proof.
  intros HE Hs. revert st Q. induction m as [a|f IH] using act_rect'; intros st Q HQ Hm;
    [by apply (HQ a)|].
  intros w Hw Ht. destruct (Hm w) as [[H1 H2]|[H1 H2]].
  - exists st. split; [by apply quiet_moves; [apply unseen_quiet|]|]. eapply IH; [|exact H2].
    intros a [Ha|[_ [e He]]]; [by apply (HQ a)|]. by rewrite (steady_live _ _ Hs Ht) in He.
  - exists Stored. split; [by apply HE|]. by eapply IH; [|exact H2].
Qed.

(** ** The commands, by stage *)

(** A read of the key finds what the stage says. *)
Definition stage_finds (st : stage) (o : option bytes) : Prop :=
  match o with Some data => good data | None => st ≠ Stored end.

Lemma stage_reads {A} st (reply : option bytes → A → Prop) w w' a :
  in_stage st w → w_time w' < until → answers db full reply w a w' →
  ∃ o, reply o a ∧ stage_finds st o.
Proof.
  intros [[Ht0 Hl] Hst] Ht (t & Htt & Hr).
  exists (db (w_store w) full t). split; [done|].
  assert (srv_held (w_store w) (w_time w) → stage_finds st (db (w_store w) full t)) as Hheld.
  { intros (data & Hd & H). by rewrite H by lia. }
  destruct Hl as [Hg|Hh]; [|by apply Hheld].
  destruct (db (w_store w) full t) as [data|] eqn:E; [|].
  - rewrite Hg in E by lia. done.
  - intros ->. destruct (Hst eq_refl) as (data & _ & H). rewrite H in E by lia. done.
Qed.

(** A read of the key: what it may answer, [Q], covers failures unless the
    context is steady. *)
Lemma calm_reads_key {A} st ctx (failed : A → Prop) (reply : option bytes → A → Prop)
    (Q : A → Prop) (m : act S A) :
  (∀ o a, stage_finds st o → reply o a → Q a) → steady ctx ∨ (∀ a, failed a → Q a) →
  serves db ctx failed (unseen db) (answers db full reply) m → calm (in_stage st) Q m.
Proof.
  intros HQ Hf. apply calm_served; [|done|done]. intros w w' Hw Ht Hu.
  split; [by apply unseen_quiet|]. intros a Ha.
  destruct (stage_reads _ _ _ _ _ Hw Ht Ha) as (o & Ho & Hst). by eapply HQ.
Qed.

Lemma calm_reads {A} P ctx k (failed : A → Prop) (reply : option bytes → A → Prop) (m : act S A) :
  serves db ctx failed (unseen db) (answers db k reply) m → calm P (λ _, True) m.
Proof.
  apply calm_served; [|by right|done]. intros w w' _ _ Hu. by split; [apply unseen_quiet|].
Qed.

Lemma calm_writes {A} P ctx k v d (err : A → option error) (m : act S A) :
  k ≠ full → serves db ctx (said_no err) (writes db k v d) (said_yes err) m →
  calm P (λ _, True) m.
Proof.
  intros Hk. apply calm_served; [|by right|done].
  intros w w' _ _ (Ht & Htr & Ho & _). split; [|done].
  apply quiet_key; [done|done|]. intros t Hu. by apply Ho.
Qed.

Lemma calm_removes {A} P ctx k (err : A → option error) (m : act S A) :
  k ≠ full → serves db ctx (said_no err) (removes db k) (said_yes err) m →
  calm P (λ _, True) m.
Proof.
  intros Hk. apply calm_served; [|by right|done].
  intros w w' _ _ (Ht & Htr & Ho). split; [|done].
  apply quiet_key; [done|done|]. intros t Hu. rewrite Ho by done. by rewrite decide_False.
Qed.

(** A write of a good value that outlasts the window stores the key. *)
Lemma go_writes {A} st ctx v d (err : A → option error) (m : act S A) :
  steady ctx → good v → (d <= 0 ∨ until + Millisecond <= t0 + d) →
  serves db ctx (said_no err) (writes db full v d) (said_yes err) m →
  go (λ st _, st = Stored) st m.
Proof.
  intros Hs Hv Hd. apply go_served; [|done|done].
  intros st' w w' Hw Hlt (Ht & Htr & _ & e & -> & Hforever & Huntil).
  pose proof (in_stage_time _ _ _ _ _ Hw).
  assert (srv_held (w_store w') (w_time w')) as Hh.
  { exists v. split; [done|]. intros t Hu.
    destruct (Z.leb_spec (px d) 0) as [Hle|Hpos]; [apply Hforever; lia|].
    destruct (Huntil Hpos) as (dl & Hdl & Hu'). rewrite Hu' by lia.
    rewrite (proj2 (Z.ltb_lt t dl)); [done|]. unfold px in *.
    pose proof (floor_ms_gt d). destruct (Z.leb_spec d 0); lia. }
  unfold moves, Staged.in_stage, Staged.live. rewrite Htr.
  split_and!; [lia|by right|done|done|done|destruct st'; cbn; lia].
Qed.

(** ** What is made of the answers *)

Lemma calm_opContext P ctx d : calm P (λ _, True) (opContext ctx d).
Proof.
  unfold opContext, WithTimeout. case_goal; [done|].
  eapply (calm_bind _ _ _ _ _ (λ _, True)); [|done].
  apply calm_pure; [apply _..|]. intros w. cbn. split_and!; [done|done|lia].
Qed.

Lemma calm_hook {A} P (b : bool) e (a : A) (Q : A → Prop) :
  is_load key e = false → Q a →
  calm P Q ((if b then emit e else mret ());; mret a).
Proof.
  intros He Ha. eapply calm_bind; [apply calm_if_emit; [apply _..|done]|by intros _ _].
Qed.

Lemma calm_read P h k (nil : error → bool) e1 e2 (r : result bytes) :
  calm P (λ r', match r with Ok data => r' = Ok data | Err _ => ∃ e, r' = Err e end)
    (match r with
     | Err err =>
         if nil err then hooks_miss h k;; mret (Err (e1 err))
         else hooks_error h OpGet k err;; mret (Err (e2 err))
     | Ok data => hooks_hit h k;; mret (Ok data)
     end : act S (result bytes)).
Proof.
  destruct r as [data|err]; [by apply calm_hook|].
  case_goal; apply calm_hook; first [done|by eexists].
Qed.

Lemma calm_written P h op k (f : error → error) (e : option error) :
  calm P (λ _, True)
    (match e with
     | Some err => hooks_error h op k err;; mret (Some (f err))
     | None => mret None
     end : act S (option error)).
Proof. destruct e; [by apply calm_hook|done]. Qed.

Lemma go_written {A} st (Q : stage → A → Prop) (m : act S A) :
  calm (in_stage st) (λ _, True) m → (∀ a, Q st a) → go Q st m.
Proof. intros Hm HQ. eapply go_mono; [|by apply go_calm]. intros ? a [-> _]. apply HQ. Qed.
End server.

Lemma mret_bind {S A B} (a : A) (k : A → act S B) : mret a ≫= k = k a.
Proof. done. Qed.

(** The resolved TTL of a write, with jitter off. *)
Lemma no_jitter {S} cfg v ttl :
  fle (cfg_ttlJitter cfg) fzero = true →
  (if hasEnvelope v then mret (base_ttl cfg ttl)
   else applyJitter (S := S) (base_ttl cfg ttl) (cfg_ttlJitter cfg)) = mret (base_ttl cfg ttl).
Proof.
  intros Hj. destruct (hasEnvelope v); [done|]. unfold applyJitter. by rewrite Hj, orb_true_r.
Qed.

(** Without a timeout, the commands run under the caller's context. *)
Lemma opContext_off {S} ctx d : d <= 0 → opContext (S := S) ctx d = mret ctx.
Proof. intros Hd. unfold opContext. by rewrite (proj2 (Z.leb_le _ _)). Qed.

(** ** RedisCache *)

Section redis.
Context {S T : Type} `{!JSON T} (c : RedisCache S T) (cdc : Codec T).
Context (db : S → string → Time → option bytes).
Context `{!ReliableRedis db (r_client c)} `{!NoKeepTTL c}.
Context (key : string) (t0 until : Time).
Abbreviation rc := (RedisCache_Cache c).
Abbreviation cfg := (redis_config c).
Abbreviation full := (redis_key c key).
Abbreviation gone := (srv_gone db full until).
Abbreviation held := (srv_held cfg cdc db full until).
Abbreviation calm := (calm key until gone held).
Abbreviation in_stage := (in_stage t0 gone held).
Context (Hset : settings cfg t0 until) (Hplain : r_opTimeout c <= 0).

Lemma redis_ttlFor_plain ttl v :
  redis_ttlFor c ttl v = mret (base_ttl (redis_config c) ttl)
  ∧ base_ttl (redis_config c) ttl ≠ -1.
Proof using All.
  pose proof (st_jitter _ _ _ Hset) as Hj. split; [by apply (no_jitter (redis_config c))|].
  apply (no_keep_ttl v ttl). unfold resolved_ttl. by rewrite Hj, orb_true_r.
Qed.

Lemma redis_key_ne k : k ≠ key → redis_key c k ≠ full.
Proof. by intros Hne ?%redis_key_inj. Qed.

(** Any error will do where the key need not be held. *)
Lemma calm_redis_Get st ctx :
  steady until ctx ∨ st ≠ Stored →
  calm (in_stage st) (get_result cfg cdc until st) (redis_Get c ctx key).
Proof using All.
  intros Hs. unfold redis_Get. rewrite opContext_off, mret_bind by done.
  eapply (calm_bind _ _ _ _ _ (get_result cfg cdc until st)).
  - eapply (calm_reads_key cfg cdc db); [| |apply (lr_Get db)].
    + intros [data|] r Hst; cbn; [by intros ->|by intros (e & -> & _)].
    + destruct Hs as [Hs|Hs]; [by left|right]. by intros r (e & -> & _).
  - intros r Hr. eapply calm_mono; [|apply (calm_read cfg cdc db _ _ _ _ _ _
      (λ e, errors_Is e _) (λ _, _) (λ e, _))].
    destruct r as [data|e]; [by intros ? ->|by intros ? [e' ->]].
Qed.

#[export] Instance RedisCache_staged :
  StagedCache cfg cdc key t0 until gone held (steady until) rc.
Proof using All.
  split.
  - done.
  - intros st ctx Hs. apply calm_redis_Get. by left.
  - intros ctx. apply calm_idle, calm_redis_Get. by right.
  - intros st ctx v ttl Hs Hv Httl. cbn [rc RedisCache_Cache c_Set]. unfold redis_Set.
    destruct (redis_ttlFor_plain ttl v) as [-> Hkeep]. rewrite opContext_off, !mret_bind by done.
    eapply go_bind; [by eapply go_writes, (lr_Set db)|]. intros ? e ->.
    apply go_written; [by apply (calm_written _ _ _ _ _ _ _ _ _ _ (λ e, _))|done].
  - intros ctx k Hk. cbn [rc RedisCache_Cache c_Get]. unfold redis_Get.
    rewrite opContext_off, mret_bind by done.
    eapply calm_bind; [by eapply calm_reads, (lr_Get db)|intros r _].
    eapply calm_mono; [|apply (calm_read cfg cdc db _ _ _ _ _ _ (λ e, errors_Is e _) (λ _, _)
    (λ e, _))]. done.
  - intros ctx k v ttl Hk. cbn [rc RedisCache_Cache c_Set]. unfold redis_Set.
    destruct (redis_ttlFor_plain ttl v) as [-> Hkeep]. rewrite opContext_off, !mret_bind by done.
    eapply calm_bind; [by eapply calm_writes, (lr_Set db); [apply redis_key_ne|]|intros e _].
    by apply (calm_written _ _ _ _ _ _ _ _ _ _ (λ e, _)).
  - intros ctx k Hk. cbn [rc RedisCache_Cache c_Delete]. unfold redis_Delete.
    rewrite opContext_off, mret_bind by done.
    eapply calm_bind; [by eapply calm_removes, (lr_Del db); apply redis_key_ne|intros e _].
    by apply (calm_written _ _ _ _ _ _ _ _ _ _ (λ e, _)).
Qed.
End redis.

(** ** ValkeyCache *)

Section valkey.
Context {S T : Type} `{!JSON T} (c : ValkeyCache S T) (cdc : Codec T).
Context (db : S → string → Time → option bytes) `{!ReliableValkey db (v_client c)}.
Context (key : string) (t0 until : Time).
Abbreviation vc := (ValkeyCache_Cache c).
Abbreviation cfg := (valkey_config c).
Abbreviation full := (valkey_key c key).
Abbreviation gone := (srv_gone db full until).
Abbreviation held := (srv_held cfg cdc db full until).
Abbreviation calm := (calm key until gone held).
Abbreviation in_stage := (in_stage t0 gone held).
Context (Hset : settings cfg t0 until) (Hlocal : v_clientCacheTTL c <= 0).
Context (Hplain : v_opTimeout c <= 0).

(** The SET of a write, with jitter off. *)
Lemma setCmd_plain k v ttl :
  setCmd c k v ttl
  = mret (CmdSet (valkey_key c k) v (plain_px (base_ttl (valkey_config c) ttl))).
Proof using Hset.
  unfold setCmd, valkey_ttlFor. cbv zeta.
  change (if ttl <=? 0 then v_defaultTTL c else ttl) with (base_ttl (valkey_config c) ttl).
  assert ((if negb (hasEnvelope v)
    then applyJitter (S := S) (base_ttl (valkey_config c) ttl) (v_ttlJitter c)
    else mret (base_ttl (valkey_config c) ttl)) = mret (base_ttl (valkey_config c) ttl)) as ->.
  { rewrite <-(no_jitter (valkey_config c) v ttl (st_jitter _ _ _ Hset)).
    by destruct (hasEnvelope v). }
  rewrite !mret_bind. do 2 f_equal. apply plain_px_floor.
Qed.

Lemma valkey_key_ne k : k ≠ key → valkey_key c k ≠ full.
Proof. by intros Hne ?%valkey_key_inj. Qed.

Lemma valkey_get_of ctx k :
  (if 0 <? v_clientCacheTTL c
   then vc_DoCache (v_client c) ctx (CmdGet (valkey_key c k)) (v_clientCacheTTL c)
   else vc_Do (v_client c) ctx (CmdGet (valkey_key c k)))
  = vc_Do (v_client c) ctx (CmdGet (valkey_key c k)).
Proof using Hlocal. by rewrite (proj2 (Z.ltb_ge _ _)). Qed.

Lemma calm_valkey_read P h k (r : ValkeyResult) :
  calm P (λ r', match AsBytes r with
                | Ok data => r' = Ok data
                | Err _ => ∃ e, r' = Err e
                end)
    (match AsBytes r with
     | Err err =>
         if IsValkeyNil (v_client c) err then
           hooks_miss h k;; mret (Err (Errorf "%w: %s" [AStr k] (Some ErrCacheMiss)))
         else
           hooks_error h OpGet k err;;
           mret (Err (Errorf "cachekit: get %q: %w" [AStr k] (Some err)))
     | Ok data => hooks_hit h k;; mret (Ok data)
     end).
Proof. apply (calm_read cfg cdc db _ _ _ _ _ _ _ (λ _, _) (λ e, _)). Qed.

Lemma calm_valkey_Get st ctx :
  steady until ctx ∨ st ≠ Stored →
  calm (in_stage st) (get_result cfg cdc until st) (valkey_Get c ctx key).
Proof using All.
  intros Hs. unfold valkey_Get. rewrite opContext_off, mret_bind, valkey_get_of by done.
  eapply (calm_bind _ _ _ _ _ (λ r, get_result cfg cdc until st (AsBytes r))).
  - eapply (calm_reads_key cfg cdc db); [| |apply (lv_Get db)].
    + intros [data|] r Hst; cbn; [by intros ->|by intros (e & -> & _)].
    + destruct Hs as [Hs|Hs]; [by left|right]. by intros r (e & -> & _).
  - intros r Hr. eapply calm_mono; [|apply calm_valkey_read].
    destruct (AsBytes r) as [data|e]; [by intros ? ->|by intros ? [e' ->]].
Qed.

#[export] Instance ValkeyCache_staged :
  StagedCache cfg cdc key t0 until gone held (steady until) vc.
Proof using All.
  split.
  - done.
  - intros st ctx Hs. apply calm_valkey_Get. by left.
  - intros ctx. apply calm_idle, calm_valkey_Get. by right.
  - intros st ctx v ttl Hs Hv Httl. cbn [vc ValkeyCache_Cache c_Set]. unfold valkey_Set.
    rewrite setCmd_plain, opContext_off, !mret_bind by done.
    eapply go_bind; [eapply go_writes, (lv_Set db), plain_px_ok; [done..|]|].
    + unfold outlasts_store in Httl. unfold plain_px.
      destruct (Z.ltb_spec 0 (base_ttl (valkey_config c) ttl)); cbn; lia.
    + intros ? e ->. apply go_written; [by apply (calm_written _ _ _ _ _ _ _ _ _ _ (λ e, _))|done].
  - intros ctx k Hk. cbn [vc ValkeyCache_Cache c_Get]. unfold valkey_Get.
    rewrite opContext_off, mret_bind, valkey_get_of by done.
    eapply calm_bind; [by eapply calm_reads, (lv_Get db)|intros r _].
    by eapply calm_mono; [|apply calm_valkey_read].
  - intros ctx k v ttl Hk. cbn [vc ValkeyCache_Cache c_Set]. unfold valkey_Set.
    rewrite setCmd_plain, opContext_off, !mret_bind by done.
    eapply calm_bind; [eapply calm_writes, (lv_Set db), plain_px_ok; by apply valkey_key_ne|].
    intros e _. by apply (calm_written _ _ _ _ _ _ _ _ _ _ (λ e, _)).
  - intros ctx k Hk. cbn [vc ValkeyCache_Cache c_Delete]. unfold valkey_Delete.
    rewrite opContext_off, mret_bind by done.
    eapply calm_bind; [by eapply calm_removes, (lv_Del db); apply valkey_key_ne|intros e _].
    by apply (calm_written _ _ _ _ _ _ _ _ _ _ (λ e, _)).
Qed.
End valkey.

(** ** The theorems *)

(** A replica of a service: same configuration, without WithOpTimeout, same
    prefix, a client of the same server. *)
Record replica {S T} (db : S → string → Time → option bytes) (cfg : cacheConfig)
    (prefix : string) (c : RedisCache S T) : Prop := {
  rp_client : ReliableRedis db (r_client c);
  rp_no_keep : NoKeepTTL c;
  rp_timeout : r_opTimeout c <= 0;
  rp_config : redis_config c = cfg;
  rp_prefix : r_prefix c = prefix;
  rp_addr : (r_addr c < 2 ^ 64)%N
}.

Lemma replica_staged {S T} `{!JSON T} db cfg prefix (c : RedisCache S T) (cdc : Codec T)
    key t0 until :
  replica db cfg prefix c → settings cfg t0 until →
  StagedCache cfg cdc key t0 until (srv_gone db (prefix +:+ key) until)
    (srv_held cfg cdc db (prefix +:+ key) until) (steady until) (RedisCache_Cache c).
Proof. intros [? ? ? <- <- _] Hset. by apply RedisCache_staged. Qed.

(** A call of the key is not given a deadline before the window ends: its
    flight, which keeps the deadline, could not store the value any more.  It
    may be canceled at any moment, a flight goes on without its callers. *)
Definition unhurried {S T} (key : string) (until : Time) (cl : call S T) : Prop :=
  cl_key cl = key → ∀ d, cx_deadline (cl_ctx cl) = Some d → until <= d.

Lemma unhurried_steady {S T} key until (calls : list (call S T)) :
  Forall (unhurried key until) calls →
  Forall (λ cl, cl_key cl = key → steady until (miss_context (cl_ctx cl))) calls.
Proof.
  intros H. eapply Forall_impl; [exact H|]. intros cl Hcl Hk. specialize (Hcl Hk). unfold miss_context.
  destruct (cx_deadline (cl_ctx cl)) as [d|]; (split; [done|]); [|done].
  intros d' [= <-]. by apply Hcl.
Qed.

(** C4: No thundering herd on a server that the replicas of a service share:
    any number of RedisCaches with the same options and prefix, jitter, early
    refresh and OpTimeout off, over clients that answer truly, or with an error
    once the context of a command is done, and may send a command again; any
    number of concurrent callers of GetOrSet on each of them, on any keys, and
    any interleaving of their steps, of the requests and replies on the network,
    of flights, background refreshes and cancellations.  For a key the server
    does not show at the start, whose loaders succeed and whose callers have no
    deadline before [until], the loader completes at most once per replica up to
    [until], an instant a millisecond short of the TTL of its calls, whoever
    stores first and however often the others write the same entry again. *)
Theorem replicas_load_once {G S T} `{!SingleFlight G, !SingleFlightLaws G, !JSON T}
    (db : S → string → Time → option bytes) cfg prefix (cs : list (RedisCache S T))
    (cdc : Codec T) `{!CodecRoundTrip cdc, !CodecNoNUL cdc}
    key until (calls : list (call S T)) w (s : system G S (result T)) :
  Forall (replica db cfg prefix) cs → NoDup (r_addr <$> cs) →
  settings cfg (w_time w) until →
  (∀ t, w_time w <= t < until → db (w_store w) (prefix +:+ key) t = None) →
  Forall (herd_call cfg cdc key (w_time w) until (RedisCache_Cache <$> cs)) calls →
  Forall (unhurried key until) calls →
  rtc (step_before until) (initial w (call_prog <$> calls)) s →
  (load_count key (w_trace (s_world s)) <= length cs + load_count key (w_trace w))%nat.
Proof.
  intros Hcs Haddr Hset Habs Hcalls Hun%unhurried_steady Hrun.
  rewrite <-(length_fmap RedisCache_Cache cs).
  apply (staged_loads (RedisCache_Cache <$> cs) cfg cdc key until
    (srv_gone db (prefix +:+ key) until) (srv_held cfg cdc db (prefix +:+ key) until)
    (steady until) calls w s); [| |done..].
  - apply Forall_fmap. eapply Forall_impl; [exact Hcs|]. intros c Hc. by apply replica_staged.
  - apply own_flights_distinct.
    + apply Forall_fmap. eapply Forall_impl; [exact Hcs|]. by intros c [].
    + by rewrite <-list_fmap_compose.
Qed.

(** C14: No thundering herd on ValkeyCache without client-side caching and
    OpTimeout, over any client that answers truly, or with an error once the
    context of a command is done: any number of concurrent callers of GetOrSet
    on any keys, in any interleaving of their steps, requests, replies, flights,
    refreshes and cancellations; for a key the server does not show at the
    start, whose loaders succeed and whose callers have no deadline before
    [until], the loader completes at most once up to [until], an instant a
    millisecond short of the TTL of its calls. *)
Theorem valkey_one_load {G S T} `{!SingleFlight G, !SingleFlightLaws G, !JSON T}
    (c : ValkeyCache S T) (db : S → string → Time → option bytes)
    `{!ReliableValkey db (v_client c)}
    (cdc : Codec T) `{!CodecRoundTrip cdc, !CodecNoNUL cdc}
    key until (calls : list (call S T)) w (s : system G S (result T)) :
  v_clientCacheTTL c <= 0 → v_opTimeout c <= 0 →
  settings (valkey_config c) (w_time w) until →
  (∀ t, w_time w <= t < until → db (w_store w) (valkey_key c key) t = None) →
  Forall (herd_call (valkey_config c) cdc key (w_time w) until [ValkeyCache_Cache c]) calls →
  Forall (unhurried key until) calls →
  rtc (step_before until) (initial w (call_prog <$> calls)) s →
  (load_count key (w_trace (s_world s)) <= 1 + load_count key (w_trace w))%nat.
Proof.
  intros Hlocal Htimeout Hset Habs Hcalls Hun%unhurried_steady Hrun.
  apply (staged_loads [ValkeyCache_Cache c] (valkey_config c) cdc key until
    (srv_gone db (valkey_key c key) until)
    (srv_held (valkey_config c) cdc db (valkey_key c key) until) (steady until)
    calls w s); [|apply NoDup_singleton|done..].
  apply Forall_singleton. by apply ValkeyCache_staged.
Qed.

(** Callers with a deadline and a signal of their own. *)
Definition herd_context (signal : nat) : Context :=
  mkContext 0 [signal] (Some (demo_time + 40 * Second)).

Definition herd_options {T} : list (Option T) :=
  [WithPrefix "svc:"; WithHooks all_hooks; WithStaleTTL (10 * Second)].

Definition herd_config : cacheConfig :=
  redis_config (NewWithClient (T := bool) 0 network_redis herd_options).

Definition herd_call_on (c : Cache entries) (signal : nat) : call entries bool :=
  mkCall (herd_context signal) c "k" Minute None (demo_loader (Returned (Ok true))).

Lemma herd_call_good (c : Cache entries) cs signal :
  c ∈ cs →
  herd_call herd_config JSONCodec "k" demo_time (demo_time + 30 * Second) cs
    (herd_call_on c signal).
Proof.
  intros Hc. split; [exact Hc|]. split.
  - intros ctx w. split; [|exact I]. split_and!; [reflexivity..|]. cbn. lia.
  - intros _. split; [reflexivity|split].
    + right. unfold base_ttl. cbn [cl_ttl herd_call_on]. split; vm_compute; discriminate.
    + intros ctx w. split; [split_and!; [reflexivity..|]; cbn; lia|].
      exists true, json_true. split; reflexivity.
Qed.

Lemma herd_unhurried calls :
  Forall (λ cl, ∃ c signal, cl = herd_call_on c signal) calls →
  Forall (unhurried "k" (demo_time + 30 * Second)) calls.
Proof.
  intros H. eapply Forall_impl; [exact H|]. intros cl (c & signal & ->) _ d [= <-]. vm_compute. discriminate.
Qed.

Lemma herd_settings : settings herd_config demo_time (demo_time + 30 * Second).
Proof.
  split; [reflexivity|reflexivity|split; vm_compute; discriminate
    |vm_compute; discriminate|vm_compute; discriminate].
Qed.

(** Two replicas of a service: both miss before either has stored, so both
    load; later calls on either hit. *)
Definition herd_replica (addr : N) : RedisCache entries bool :=
  NewWithClient addr network_redis herd_options.

Definition herd_replicas : list (RedisCache entries bool) :=
  [herd_replica 0xc0000c0000; herd_replica 0xc0000d0000].

Lemma herd_replica_good addr :
  (addr < 2 ^ 64)%N → replica fake_db herd_config "svc:" (herd_replica addr).
Proof.
  intros Ha. split; [apply network_redis_reliable| |vm_compute; discriminate|reflexivity..|done].
  apply no_keep_ttl_plain; [vm_compute; discriminate|reflexivity].
Qed.

Definition replica_calls : list (call entries bool) :=
  c ← [0; 1; 0; 1]%nat;
  (λ r, herd_call_on (RedisCache_Cache r) (7 + c)) <$> option_list (herd_replicas !! c).

Definition replica_start : system (gmap string nat) entries (result bool) :=
  initial (demo_world ∅) (call_prog <$> replica_calls).

Definition replica_schedule : list choice :=
  replicate 20 (ChCaller 0) ++ replicate 20 (ChCaller 1)
    ++ concat (replicate 40 [ChFlight 0; ChFlight 1]) ++ [ChReceive 1; ChReceive 0]
    ++ replicate 9 (ChCaller 0) ++ replicate 9 (ChCaller 1)
    ++ replicate 20 (ChCaller 2) ++ replicate 20 (ChCaller 3).

Lemma replicas_load_once_witness :
  let s := schedule replica_schedule replica_start in
  (load_count "k" (w_trace (s_world s)) <= 2)%nat
  ∧ load_count "k" (w_trace (s_world s)) = 2%nat
  ∧ caller_result <$> s_callers s = replicate 4 (Some (Ok true)).
Proof.
  cbn zeta. split; [|split; vm_compute; reflexivity].
  apply (replicas_load_once fake_db herd_config "svc:" herd_replicas JSONCodec "k"
    (demo_time + 30 * Second) replica_calls (demo_world ∅)).
  - repeat apply Forall_cons_2; [by apply herd_replica_good..|apply Forall_nil_2].
  - apply NoDup_cons. split; [|apply NoDup_singleton]. intros H%list_elem_of_singleton.
    discriminate H.
  - exact herd_settings.
  - reflexivity.
  - repeat apply Forall_cons_2; [apply herd_call_good; set_solver..|apply Forall_nil_2].
  - apply herd_unhurried. repeat apply Forall_cons_2; [by eexists _, _..|apply Forall_nil_2].
  - apply schedule_within_sound. vm_compute. reflexivity.
Defined.

(** Three callers of one key of a ValkeyCache over the network: two miss while
    the first load is running, the one that started it is canceled, the third
    comes later. *)
Definition herd_valkey : ValkeyCache entries bool :=
  NewValkeyWithClient 0xc000080000 network_valkey herd_options.

Definition herd_calls : list (call entries bool) :=
  herd_call_on (ValkeyCache_Cache herd_valkey) <$> [7; 8; 9]%nat.

Definition herd_schedule : list choice :=
  replicate 20 (ChCaller 0) ++ replicate 20 (ChCaller 1) ++ [ChSignal 7; ChCancel 0]
    ++ replicate 40 (ChFlight 0) ++ [ChReceive 1] ++ replicate 9 (ChCaller 0)
    ++ replicate 9 (ChCaller 1) ++ replicate 20 (ChCaller 2).

Definition herd_start : system (gmap string nat) entries (result bool) :=
  initial (demo_world ∅) (call_prog <$> herd_calls).

Lemma valkey_one_load_witness :
  let s := schedule herd_schedule herd_start in
  (load_count "k" (w_trace (s_world s)) <= 1)%nat
  ∧ load_count "k" (w_trace (s_world s)) = 1%nat
  ∧ length (List.filter (λ e, bool_decide (e = EvMiss "k")) (w_trace (s_world s))) = 3%nat
  ∧ caller_result <$> s_callers s = [Some (Err Canceled); Some (Ok true); Some (Ok true)].
Proof.
  cbn zeta. split; [|split_and!; vm_compute; reflexivity].
  apply (valkey_one_load herd_valkey fake_db JSONCodec "k" (demo_time + 30 * Second)
    herd_calls (demo_world ∅)).
  - vm_compute. discriminate.
  - vm_compute. discriminate.
  - exact herd_settings.
  - reflexivity.
  - apply Forall_fmap, Forall_forall. intros signal _. by apply herd_call_good, list_elem_of_singleton.
  - apply herd_unhurried, Forall_fmap, Forall_forall. intros signal _. by eexists _, _.
  - apply schedule_within_sound. vm_compute. reflexivity.
Defined.
