(* ===== verification/Staleness.v ===== *)
(** * How old a returned value can be

    The values of each key have a source that changes with time: [src key t v]
    says that it held [v] at [t].  A loader returns what the source held at
    some instant while it ran.  If flights end within [D] of their start, no
    entry lives longer than [B], and reads find values no older than [R] -
    B + D, and what a copy of the server's entries adds -, then no call returns
    a value that the source held only longer ago than R + D before the call -
    whatever the interleaving.  The argument is a rely-guarantee one with time in it:
    [timed] code knows a lower bound of the clock, and the clock readings at
    which it is still allowed to run.  [AgedCache] is the interface of the
    backends, stated of the values a reader sees. *)
From S2P Require Import Prelude Int64 Float64 Errors Runtime Envelope Hooks Codec.
From S2P Require Import Options Cache Group GetOrSet GetOrSetFacts.
From S2P Require Import Flights FlightsThms.
From Stdlib Require Import ZArith Lia.
Local Open Scope Z_scope.

(** ** Code and the clock *)

(** From a time [t] on, as long as the clock allows it ([H]): each step keeps
    [J], which holds of the store at each time, and does not turn the clock
    back; [Q] holds of the outcome and the time known to have come. *)
Fixpoint timed {S A} (J : S → Time → Prop) (H : Time → Prop) (t : Time)
    (Q : Time → A → Prop) (m : act S A) : Prop :=
  match m with
  | Ret a => Q t a
  | Step f => ∀ w, t <= w_time w → H (w_time (f w).2) → J (w_store w) (w_time w) →
      w_time w <= w_time (f w).2 ∧ J (w_store (f w).2) (w_time (f w).2)
      ∧ timed J H (w_time (f w).2) Q (f w).1
  end.

(** What holds of a store stays so while time passes. *)
Class Enduring {S} (J : S → Time → Prop) : Prop :=
  enduring s t t' : J s t → t <= t' → J s t'.

Section timed.
Context {S : Type} (J : S → Time → Prop) `{!Enduring J} (H : Time → Prop).
Implicit Types (t u : Time).

Lemma timed_bind {A B} t (Q : Time → A → Prop) (Q' : Time → B → Prop) (m : act S A) k :
  timed J H t Q m → (∀ u a, t <= u → Q u a → timed J H u Q' (k a)) →
  timed J H t Q' (m ≫= k).
Proof.
  revert t. induction m as [a|f IH] using act_rect'; intros t Hm Hk; [apply Hk; [lia|done]|].
  intros w Ht. simpl. specialize (Hm w Ht). specialize (IH w).
  destruct (f w) as [m' w']. cbn [fst snd] in *. intros HH HJ.
  destruct (Hm HH HJ) as (H1 & H2 & H3). split_and!; [done|done|].
  apply IH; [done|]. intros u a Hu. apply Hk. lia.
Qed.

Lemma timed_mono {A} t (Q Q' : Time → A → Prop) (m : act S A) :
  (∀ u a, t <= u → Q u a → Q' u a) → timed J H t Q m → timed J H t Q' m.
Proof.
  revert t. induction m as [a|f IH] using act_rect'; intros t HQ Hm; [apply HQ; [lia|done]|].
  intros w Ht HH HJ. destruct (Hm w Ht HH HJ) as (H1 & H2 & H3). split_and!; [done|done|].
  apply IH; [|done]. intros u a Hu. apply HQ. lia.
Qed.

Lemma timed_atom {A} t (Q : Time → A → Prop) (f : World S → A * World S) :
  (∀ w, t <= w_time w → H (w_time (f w).2) → J (w_store w) (w_time w) →
     w_time w <= w_time (f w).2 ∧ J (w_store (f w).2) (w_time (f w).2)
     ∧ Q (w_time (f w).2) (f w).1) →
  timed J H t Q (atom f).
Proof. intros Hf w. specialize (Hf w). simpl. by destruct (f w). Qed.

Lemma timed_ret {A} t (Q : Time → A → Prop) a : Q t a → timed J H t Q (mret a).
Proof. done. Qed.

(** Steps that leave the store alone. *)
Lemma timed_pure {A} t (f : World S → A * World S) :
  (∀ w, w_store (f w).2 = w_store w ∧ w_time w <= w_time (f w).2) →
  timed J H t (λ _ _, True) (atom f).
Proof.
  intros Hf. apply timed_atom. intros w _ _ HJ. destruct (Hf w) as [Hs Ht].
  split_and!; [done| |done]. rewrite Hs. by eapply enduring.
Qed.

Lemma timed_now t : timed J H t (λ u v, u = v ∧ t <= v ∧ H v) now.
Proof.
  apply timed_atom. intros w Ht HH HJ. cbn in *. split_and!; [lia| |done|lia|done].
  eapply enduring; [exact HJ|lia].
Qed.

Lemma timed_emit t e : timed J H t (λ _ _, True) (emit e).
Proof. apply timed_pure. intros w. cbn. split; [done|lia]. Qed.

Lemma timed_if_emit t (b : bool) e :
  timed J H t (λ _ _, True) (if b then emit e else mret ()).
Proof. destruct b; [apply timed_emit|done]. Qed.

(** Jitter is resolved without touching the clock. *)
Lemma timed_applyJitter t ttl frac :
  timed J H t (λ _ e, (if (ttl <=? 0) || fle frac fzero then e = ttl
                       else ∃ oob k, e = jittered oob ttl frac (of_draw k)))
    (applyJitter ttl frac).
Proof.
  unfold applyJitter. destruct ((ttl <=? 0) || fle frac fzero) eqn:E; [by apply timed_ret|].
  eapply (timed_bind _ (λ _ r, ∃ k, r = of_draw k)).
  - apply timed_atom. intros w Ht _ HJ. cbn. split_and!; [lia|done|by eexists].
  - intros u r _ [k ->]. eapply (timed_bind _ (λ _ _, True)).
    + apply timed_pure. intros w. cbn. split; [done|lia].
    + intros u' o _ _. apply timed_ret. by eexists _, k.
Qed.

Lemma timed_shouldEarlyRefresh t env u beta :
  timed J H t (λ _ _, True) (shouldEarlyRefresh env u beta).
Proof.
  unfold shouldEarlyRefresh. case_goal; [done|].
  eapply (timed_bind _ (λ _ _, True)); [|intros ? r _ _].
  { apply timed_pure. intros w. cbn. split; [done|lia]. }
  eapply (timed_bind _ (λ _ _, True)); [|done].
  apply timed_pure. intros w. cbn. split; [done|lia].
Qed.

Lemma timed_WithTimeout t ctx d : timed J H t (λ _ _, True) (WithTimeout ctx d).
Proof. unfold WithTimeout. by eapply timed_bind; [apply timed_now|]. Qed.

Lemma timed_flightContext t base opts :
  timed J H t (λ _ _, True) (flightContext base opts).
Proof. unfold flightContext. case_goal; [apply timed_WithTimeout|done]. Qed.

Lemma timed_opContext t ctx d : timed J H t (λ _ _, True) (opContext ctx d).
Proof. unfold opContext. case_goal; [done|apply timed_WithTimeout]. Qed.
End timed.

(** ** Sources and ages *)

Section ages.
Context {S T : Type} `{!JSON T} (c : Cache S) (codec : Codec T).
Context (src : string → Time → T → Prop).
(** The longest an entry lives, the longest a flight takes, the oldest a value
    is that a reader finds. *)
Context (B D R : Duration).
Implicit Types (t u lo : Time).
Abbreviation cfg := (configOf (c_config c)).

(** The source held the value at some instant between two. *)
Definition held_since (key : string) lo t (v : T) : Prop :=
  ∃ u, lo <= u <= t ∧ src key u v.

(** The value the bytes stand for, if any, is that young. *)
Definition aged (key : string) lo t (data : bytes) : Prop :=
  isNegativeEntry data = false →
  ∀ v, Unmarshal codec (parseStored cfg data).2 = Ok v → held_since key lo t v.

Lemma held_weaken key lo lo' t t' v :
  lo' <= lo → t <= t' → held_since key lo t v → held_since key lo' t' v.
Proof. intros H1 H2 (u & Hu & Hs). exists u. split; [lia|done]. Qed.

Lemma aged_weaken key lo lo' t t' data :
  lo' <= lo → t <= t' → aged key lo t data → aged key lo' t' data.
Proof. intros H1 H2 Ha Hn v Hv. eapply held_weaken; [done..|by apply Ha]. Qed.

Lemma aged_negative key lo t : aged key lo t negativeMarker.
Proof. intros H. discriminate H. Qed.

(** A store is in order if whatever a reader will find at a time [u] was the
    source's value no longer than [N] before. *)
Definition aged_shown (N : Duration) (shows : S → string → Time → bytes → Prop)
    (s : S) t : Prop :=
  ∀ key u data, t <= u → shows s key u data → aged key (u - N) t data.

#[export] Instance aged_shown_enduring N shows : Enduring (aged_shown N shows).
Proof.
  intros s t t' Hs Ht key u data Hu Hd.
  apply (aged_weaken _ (u - N) _ t); [lia|done|]. apply Hs; [lia|done].
Qed.

Definition aged_store (N : Duration) (view : S → string → Time → option bytes) : S → Time → Prop :=
  aged_shown N (λ s k u data, view s k u = Some data).

#[export] Instance aged_store_enduring N view : Enduring (aged_store N view).
Proof. apply aged_shown_enduring. Qed.

(** The TTLs a write of the data may be given all end within [B]. *)
Definition lives (data : bytes) (ttl : Duration) : Prop :=
  isNegativeEntry data = true ∨ ∀ e, resolved_ttl cfg data ttl e → 0 < e <= B.

(** What is asked of a backend: reads find what its store is in order for; a
    write of a value that is no older than [lo], by [lo + D], keeps it so. *)
Class AgedCache (J : S → Time → Prop) : Prop := {
  ac_Get ctx key H t :
    timed J H t (λ u r, ∀ data, r = Ok data → aged key (t - R) u data)
      (c_Get c ctx key);
  ac_Set ctx key data ttl lo (H : Time → Prop) t :
    (∀ u, H u → u <= lo + D) → aged key lo t data → lives data ttl →
    timed J H t (λ _ _, True) (c_Set c ctx key data ttl);
  ac_Delete ctx key H t : timed J H t (λ _ _, True) (c_Delete c ctx key)
}.

Context (J : S → Time → Prop) `{!Enduring J, !AgedCache J, !CodecRoundTrip codec}.

(** ** The code of the package *)

(** A loader returns what the source held while it ran. *)
Definition fresh_loader (key : string)
    (loader : Context → act S (outcome (result T))) : Prop :=
  ∀ ctx H t, timed J H t
    (λ u o, ∀ v, o = Returned (Ok v) → held_since key t u v) (loader ctx).

(** The TTLs a call may use end within [B], the stale window included. *)
Definition bounded_ttl (ttl : Duration) : Prop :=
  ∀ data e, resolved_ttl cfg data ttl e → 0 < e ∧ e + cfg_staleTTL cfg <= B.

(** Nothing lives too long, neither does what is computed overflow. *)
Record lifetimes : Prop := {
  lt_stale : 0 <= cfg_staleTTL cfg;
  lt_int64 : 0 <= B <= max_int64;
  lt_flight : 0 <= D;
  lt_reads : 0 <= R
}.
Context (Hlife : lifetimes).

(** What is packed for storing is as old as the load and lives within [B]. *)
Lemma timed_packForStore key H lo t payload v ttl d :
  Unmarshal codec payload = Ok v → held_since key lo t v → bounded_ttl ttl →
  timed J H t (λ u ds, aged key lo u ds.1 ∧ lives ds.1 ds.2) (packForStore payload ttl d cfg).
Proof using All.
  intros Hu Hv Httl. unfold packForStore. destruct (envelopeEnabled cfg) eqn:He; cbn [negb].
  - fold (base_ttl cfg ttl).
    assert (∀ u fu, t <= u → aged key lo u (wrapEnvelope payload fu d)) as Hw.
    { intros u fu Htu _ v'. rewrite parse_stored_wrap by done. cbn [snd]. rewrite Hu.
      intros [= <-]. eapply held_weaken; [|exact Htu|done]. lia. }
    eapply timed_bind; [apply timed_applyJitter; apply _|]. intros u fresh Htu Hf.
    assert (0 < fresh ∧ fresh + cfg_staleTTL cfg <= B) as Hfb.
    { apply (Httl []). exact Hf. }
    rewrite (proj2 (Z.ltb_lt 0 fresh)) by lia.
    eapply timed_bind; [apply timed_now; apply _|]. intros u' tn Hu' _.
    split; [apply Hw; lia|]. right. intros e. cbn [snd fst].
    pose proof (lt_stale Hlife). pose proof (lt_int64 Hlife).
    rewrite dur_add_id by (unfold is_int64, min_int64, max_int64 in *; lia).
    unfold resolved_ttl. rewrite wrapEnvelope_hasEnvelope. cbn [orb].
    intros ->. rewrite base_ttl_pos; lia.
  - split; cbn [fst snd].
    + intros _ v'. rewrite parseStored_off by done. cbn [snd]. rewrite Hu. by intros [= <-].
    + right. intros e Hr. pose proof (lt_stale Hlife). specialize (Httl _ _ Hr). lia.
Qed.

Lemma timed_recheck key H t opts fctx :
  timed J H t (λ u hit, ∀ data, hit = Some data → aged key (t - R) u data)
    (recheck c key codec cfg opts fctx).
Proof using All.
  unfold recheck. eapply timed_bind; [apply ac_Get|]. intros u [data|e] Htu Hr; [|done].
  specialize (Hr data eq_refl). destruct (isNegativeEntry data); [by intros ? [= <-]|].
  destruct (parseStored cfg data) as [env payload] eqn:Ep.
  eapply timed_bind; [apply timed_now; apply _|]. intros u' tn Hu' _. case_goal; [|done].
  destruct (Unmarshal codec payload).
  - intros ? [= <-]. by eapply aged_weaken; [|exact Hu'|exact Hr].
  - eapply timed_bind; [apply timed_if_emit; apply _|intros ? [] ? _].
    by eapply timed_bind; [apply ac_Delete|].
Qed.

(** Storing by the end of a flight that began at [lo]. *)
Lemma timed_storeLoaded key ttl lo t fctx d lr :
  bounded_ttl ttl →
  (∀ v, lr = Ok v → held_since key lo t v) →
  timed J (λ u, u <= lo + D) t (λ u r, ∀ data, r = Ok data → aged key lo u data)
    (storeLoaded c key ttl codec cfg fctx d lr).
Proof using All.
  intros Httl Hv. unfold storeLoaded. destruct lr as [v|e].
  - destruct (Marshal codec v) as [payload|me] eqn:Hm.
    + eapply timed_bind.
      { eapply timed_packForStore; [by apply codec_round_trip|by apply Hv|done]. }
      intros u [data sttl] Hu [Ha Hl]. eapply timed_bind; [by eapply ac_Set|].
      intros u' ? Hu' _ ? [= <-]. by eapply aged_weaken; [|exact Hu'|exact Ha].
    + by eapply timed_bind; [apply timed_if_emit; apply _|].
  - case_goal; [|done]. eapply timed_bind.
    { eapply ac_Set; [done|apply aged_negative|by left]. }
    intros u ? Hu _ ? [= <-]. apply aged_negative.
Qed.

Definition flight_aged (key : string) (lo u : Time) (o : outcome (result bytes)) : Prop :=
  ∀ data, o = Returned (Ok data) → aged key (lo - R) u data.

Lemma timed_loadAndStore key base ttl loader opts b :
  bounded_ttl ttl → fresh_loader key loader →
  timed J (λ u, u <= b + D) b (flight_aged key b)
    (loadAndStore base c key ttl codec loader cfg opts).
Proof using All.
  intros Httl Hl. unfold loadAndStore.
  eapply timed_bind; [apply timed_flightContext; apply _|intros u fctx Hu _].
  eapply timed_bind; [apply timed_recheck|]. intros u' [hit|] Hu' Hhit.
  { intros data [= <-]. eapply aged_weaken; [|reflexivity|by apply Hhit]. lia. }
  unfold loadPhase. eapply timed_bind; [apply timed_now; apply _|intros t1 ? Ht1 _].
  eapply timed_bind; [apply Hl|]. intros t2 [lr|p] Ht2 Ho; [|done].
  eapply timed_bind; [apply timed_now; apply _|intros t3 ? Ht3 _].
  eapply timed_bind; [apply timed_if_emit; apply _|intros t4 ? Ht4 _].
  eapply timed_bind; [apply (timed_storeLoaded _ _ b); [done|]|].
  - intros v ->. eapply held_weaken; [| |by apply Ho]; lia.
  - intros t5 r Ht5 Hr data [= ->]. pose proof (lt_reads Hlife).
    eapply aged_weaken; [|reflexivity|by apply Hr]. lia.
Qed.

Lemma timed_refreshFlight key ctx ttl loader env b :
  bounded_ttl ttl → fresh_loader key loader →
  timed J (λ u, u <= b + D) b (flight_aged key b)
    (refreshFlight ctx c key ttl codec loader cfg env).
Proof using All.
  intros Httl Hl. unfold refreshFlight.
  eapply timed_bind; [by apply timed_loadAndStore|]. intros u [[data|e]|p] Hu Ho; cbn.
  - done.
  - by eapply timed_bind; [apply timed_if_emit; apply _|].
  - by eapply timed_bind; [apply timed_if_emit; apply _|].
Qed.

(** What a flight of a flight key that began at [b] hands to its waiters. *)
Definition handed_aged (fk : string) (b u : Time) (r : result bytes) : Prop :=
  ∀ key data, fk = flightKey (c_addr c) key → r = Ok data → aged key (b - R) u data.

Lemma timed_start key b (fn : flight_fn S) :
  timed J (λ u, u <= b + D) b (flight_aged key b) fn →
  timed J (λ u, u <= b + D) b (handed_aged (flightKey (c_addr c) key) b) (start fn).
Proof.
  intros Hfn. eapply timed_bind; [exact Hfn|]. intros u [r|p] Hu Ho; [|by intros ? ? _ ?].
  intros key' data Hk ->. apply no_nul_split in Hk as [_ <-]; [|apply fmt_p_no_nul..].
  by apply Ho.
Qed.

(** ** Callers *)

Fixpoint timed_prog {A} t (Q : Time → A → Prop) (p : prog S A) : Prop :=
  match p with
  | PRet a => Q t a
  | PStep f => ∀ w, t <= w_time w → J (w_store w) (w_time w) →
      w_time w <= w_time (f w).2 ∧ J (w_store (f w).2) (w_time (f w).2)
      ∧ timed_prog (w_time (f w).2) Q (f w).1
  | PDo _ fk fn k =>
      (∀ b, timed J (λ u, u <= b + D) b (handed_aged fk b) (start fn))
      ∧ ∀ b u r, t <= b + D → t <= u → handed_aged fk b u r → timed_prog u Q (k r)
  | PAsync fk fn k =>
      (∀ b, timed J (λ u, u <= b + D) b (handed_aged fk b) (start fn)) ∧ timed_prog t Q k
  end.

Lemma timed_lift {A} t (Q : Time → A → Prop) (m : act S A) :
  timed J (λ _, True) t Q m → timed_prog t Q (lift m).
Proof.
  revert t. induction m as [a|f IH] using act_rect'; intros t Hm; [done|].
  intros w Ht. simpl. specialize (Hm w Ht I). specialize (IH w).
  destruct (f w) as [m' w']. cbn [fst snd] in *. intros HJ.
  destruct (Hm HJ) as (H1 & H2 & H3). split_and!; [done|done|by apply IH].
Qed.

Lemma timed_prog_bind {A A'} t (Q : Time → A → Prop) (Q' : Time → A' → Prop) (p : prog S A) k :
  timed_prog t Q p → (∀ u a, t <= u → Q u a → timed_prog u Q' (k a)) →
  timed_prog t Q' (p ≫= k).
Proof.
  revert t. induction p as [a|f IH|ctx fk fn h IH|fk fn h IH] using prog_rect'; intros t Hp Hk.
  - apply Hk; [lia|done].
  - intros w Ht. simpl. specialize (Hp w Ht). specialize (IH w).
    destruct (f w) as [p' w']. cbn [fst snd] in *. intros HJ.
    destruct (Hp HJ) as (H1 & H2 & H3). split_and!; [done|done|].
    apply IH; [done|]. intros u a Hu. apply Hk. lia.
  - destruct Hp as [H1 H2]. split; [done|]. intros b u r Hb Hu Hr.
    apply IH; [by eapply H2|]. intros u' a Hu'. apply Hk. lia.
  - destruct Hp as [H1 H2]. split; [done|]. by apply IH.
Qed.

(** What a call that began at [t] may return at [u]. *)
Definition young (key : string) t u (r : result T) : Prop :=
  ∀ v, r = Ok v → held_since key (t - (R + D)) u v.

Lemma timed_refreshAsync t key ctx ttl loader env :
  bounded_ttl ttl → fresh_loader key loader →
  timed_prog t (λ _ _, True) (refreshAsync ctx c key ttl codec loader cfg env).
Proof using All. intros Httl Hl. split; [|done]. intros b. by apply timed_start, timed_refreshFlight. Qed.

Lemma timed_serveHit t0 t key ctx ttl loader data :
  t0 <= t → bounded_ttl ttl → fresh_loader key loader → aged key (t0 - R) t data →
  timed_prog t (λ u hit, ∀ res, hit = Some res → young key t0 u res)
    (serveHit ctx c key ttl codec loader cfg data).
Proof using All.
  intros Ht Httl Hl Hd. unfold serveHit, aged in *. destruct (isNegativeEntry data).
  { by intros ? [= <-] v. }
  destruct (parseStored cfg data) as [env payload]. cbn [snd] in Hd. specialize (Hd eq_refl).
  destruct (Unmarshal codec payload) as [v|e].
  - eapply timed_prog_bind; [apply timed_lift, timed_now; apply _|intros u ? Hu _].
    eapply (timed_prog_bind _ (λ _ _, True)).
    + case_goal; [by apply timed_refreshAsync|].
      eapply timed_prog_bind; [apply timed_lift, timed_shouldEarlyRefresh; apply _|].
      intros u' [|] Hu' _; [by apply timed_refreshAsync|done].
    + intros u' [] Hu' _ res [= <-] v' [= <-]. pose proof (lt_flight Hlife).
      eapply held_weaken; [| |by apply Hd]; lia.
  - eapply timed_prog_bind; [apply timed_lift, timed_if_emit; apply _|intros u ? Hu _].
    by eapply timed_prog_bind; [apply timed_lift, ac_Delete|].
Qed.

Lemma young_decodeFlight t0 u key b r :
  t0 <= b + D → handed_aged (flightKey (c_addr c) key) b u r →
  young key t0 u (decodeFlight codec cfg key r).
Proof.
  intros Hb Hr v. unfold decodeFlight. destruct r as [data|e]; [|done].
  specialize (Hr key data eq_refl eq_refl). unfold aged in Hr.
  destruct (isNegativeEntry data); [done|].
  destruct (parseStored cfg data) as [env payload]. cbn [snd] in Hr. specialize (Hr eq_refl).
  destruct (Unmarshal codec payload) as [v'|]; [|done]. intros [= <-].
  eapply held_weaken; [|reflexivity|by apply Hr]. lia.
Qed.

Lemma timed_GetOrSet t key ctx ttl codec' loader :
  codec_or_default codec' = codec → bounded_ttl ttl → fresh_loader key loader →
  timed_prog t (young key t) (GetOrSetWithCodec ctx c key ttl codec' loader).
Proof using All.
  intros Hc Httl Hl. unfold GetOrSetWithCodec. rewrite Hc.
  eapply timed_prog_bind; [apply timed_lift, ac_Get|intros u r Hu Hr].
  eapply (timed_prog_bind _ (λ u hit, ∀ res, hit = Some res → young key t u res)).
  - destruct r as [data|e]; [|done]. apply timed_serveHit; [done..|]. by apply Hr.
  - intros u' [res|] Hu' Hres; [by apply Hres|].
    eapply (timed_prog_bind _ (λ u2 r, ∃ b, t <= b + D
      ∧ handed_aged (flightKey (c_addr c) key) b u2 r)).
    + split; [|intros b u2 r' Hb Hu2 Hr'; exists b; split; [lia|done]].
      intros b. by apply timed_start, timed_loadAndStore.
    + intros u2 r' Hu2 (b & Hb & Hr'). by eapply young_decodeFlight.
Qed.

(** ** The system *)

Section system.
Context {G : Type} `{!SingleFlight G} `{!SingleFlightLaws G}.
Context {A : Type}.
Implicit Types (s : system G S A) (bs : list Time) (Qs : list (Time → A → Prop)).

(** The times at which the flights of a system began, and steps during which
    no flight runs for longer than [D]. *)
Definition births s s' bs : list Time :=
  bs ++ replicate (length (s_flights s') - length (s_flights s)) (w_time (s_world s)).

Definition in_time s bs : Prop :=
  ∀ n fk m b, s_flights s !! n = Some (mkFlight fk (Running m)) → bs !! n = Some b →
    w_time (s_world s) <= b + D.

Inductive step_timely : system G S A * list Time → system G S A * list Time → Prop :=
| step_timely_intro s s' bs :
    step_sys s s' → in_time s' (births s s' bs) →
    step_timely (s, bs) (s', births s s' bs).

Definition flight_age (now : Time) (f : flight S) (b : Time) : Prop :=
  match f_phase f with
  | Running m => ∃ t, t <= now
      ∧ timed J (λ u, u <= b + D) t (handed_aged (f_key f) b) m
  | Forgotten r | Delivered r => handed_aged (f_key f) b now r
  end.

Definition caller_age (now : Time) bs (Q : Time → A → Prop) (cl : caller S A) : Prop :=
  match cl with
  | Caller p => ∃ t, t <= now ∧ timed_prog t Q p
  | Waiting _ fk n k => ∀ b u r,
      bs !! n = Some b → now <= u → handed_aged fk b u r → timed_prog u Q (k r)
  | Finished a => ∃ t, t <= now ∧ Q t a
  end.

Record age_inv Qs s bs : Prop := {
  ai_world : J (w_store (s_world s)) (w_time (s_world s));
  ai_flights : Forall2 (flight_age (w_time (s_world s))) (s_flights s) bs;
  ai_callers : Forall2 (caller_age (w_time (s_world s)) bs) Qs (s_callers s)
}.

Lemma handed_aged_later fk b u u' r : u <= u' → handed_aged fk b u r → handed_aged fk b u' r.
Proof.
  intros Hu Hr key data Hk Hd. eapply aged_weaken; [reflexivity|exact Hu|by eapply Hr].
Qed.

Lemma flight_age_later now now' f b : now <= now' → flight_age now f b → flight_age now' f b.
Proof.
  intros Hn. unfold flight_age. destruct (f_phase f) as [m|r|r].
  - intros (t & Ht & Hm). exists t. split; [lia|done].
  - by apply handed_aged_later.
  - by apply handed_aged_later.
Qed.

Lemma caller_age_later now now' bs Q cl :
  now <= now' → caller_age now bs Q cl → caller_age now' bs Q cl.
Proof.
  intros Hn. destruct cl as [p|ctx fk n k|a]; cbn.
  - intros (t & Ht & Hp). exists t. split; [lia|done].
  - intros Hk b u r Hb Hu. apply Hk; [done|lia].
  - intros (t & Ht & Ha). exists t. split; [lia|done].
Qed.

Lemma caller_age_births now bs bs' Q cl :
  (∀ ctx fk n k, cl = Waiting ctx fk n k → is_Some (bs !! n)) →
  caller_age now bs Q cl → caller_age now (bs ++ bs') Q cl.
Proof.
  intros Hsome. destruct cl as [p|ctx fk n k|a]; cbn; [done| |done].
  intros Hk b u r Hb. apply Hk. destruct (Hsome _ _ _ _ eq_refl) as [b' Hb'].
  by rewrite (lookup_app_l_Some _ _ _ _ Hb') in Hb; injection Hb as <-.
Qed.

Lemma age_DoChan fk fn (g : G) (fs : list (flight S)) n g' fs' bs now :
  DoChan fk fn g fs = (n, g', fs') → table g fs →
  (∀ b, timed J (λ u, u <= b + D) b (handed_aged fk b) (start fn)) →
  Forall2 (flight_age now) fs bs →
  Forall2 (flight_age now) fs' (bs ++ replicate (length fs' - length fs) now)
  ∧ ∃ m, fs' !! n = Some (mkFlight fk (Running m)).
Proof.
  unfold DoChan. intros Hd Htab Hfn Hf.
  destruct (sf_lookup g fk) as [n'|] eqn:E; injection Hd as <- <- <-.
  - rewrite Nat.sub_diag, app_nil_r. split; [done|]. by apply Htab.
  - rewrite length_app. cbn [length].
    replace (length fs + 1 - length fs)%nat with 1%nat by lia. split.
    + apply Forall2_app; [done|]. constructor; [|constructor]. exists now. by split; [lia|].
    + exists (start fn). by apply list_lookup_middle.
Qed.

(** No flight starts in the other steps. *)
Lemma no_births (fs fs' : list (flight S)) bs now :
  length fs' = length fs → bs ++ replicate (length fs' - length fs) now = bs.
Proof. intros ->. by rewrite Nat.sub_diag, app_nil_r. Qed.

(** All the callers, when time passes and flights start. *)
Lemma callers_later now now' Qs bs (cs : list (caller S A)) :
  now <= now' → Forall2 (caller_age now bs) Qs cs → Forall2 (caller_age now' bs) Qs cs.
Proof. intros Hn H. eapply Forall2_impl; [exact H|]. intros Q cl. by apply caller_age_later. Qed.

Lemma flights_later now now' (fs : list (flight S)) bs :
  now <= now' → Forall2 (flight_age now) fs bs → Forall2 (flight_age now') fs bs.
Proof. intros Hn H. eapply Forall2_impl; [exact H|]. intros f b. by apply flight_age_later. Qed.

Lemma insert_age now now' Qs bs (cs : list (caller S A)) i cl cl' :
  now <= now' → cs !! i = Some cl → Forall2 (caller_age now bs) Qs cs →
  (∀ Q, caller_age now bs Q cl → caller_age now' bs Q cl') →
  Forall2 (caller_age now' bs) Qs (<[i := cl']> cs).
Proof.
  intros Hnow Hi H Hc. apply Forall2_same_length_lookup. split.
  { rewrite length_insert. by eapply Forall2_length. }
  intros j Q cl2 HQ [(<- & <- & Hlt)|[Hne Hj]]%list_lookup_insert_Some.
  - apply Hc. by eapply Forall2_lookup_lr.
  - eapply caller_age_later; [exact Hnow|]. by eapply Forall2_lookup_lr.
Qed.

Lemma insert_flight_age now now' bs (fs : list (flight S)) n fk ph ph' :
  now <= now' → fs !! n = Some (mkFlight fk ph) → Forall2 (flight_age now) fs bs →
  (∀ b, bs !! n = Some b → flight_age now (mkFlight fk ph) b →
     flight_age now' (mkFlight fk ph') b) →
  Forall2 (flight_age now') (<[n := mkFlight fk ph']> fs) bs.
Proof.
  intros Hnow Hn H Hf. apply Forall2_same_length_lookup. split.
  { rewrite length_insert. by eapply Forall2_length. }
  intros j f b [(<- & <- & Hlt)|[Hne Hj]]%list_lookup_insert_Some Hb.
  - apply Hf; [done|]. by eapply Forall2_lookup_lr.
  - eapply flight_age_later; [exact Hnow|]. by eapply Forall2_lookup_lr.
Qed.

Lemma callers_births now Qs bs bs' s :
  flight_inv s → Forall2 (flight_age now) (s_flights s) bs →
  Forall2 (caller_age now bs) Qs (s_callers s) →
  Forall2 (caller_age now (bs ++ bs')) Qs (s_callers s).
Proof.
  intros Hinv Hf H. apply Forall2_same_length_lookup. split; [by eapply Forall2_length|].
  intros i Q cl HQ Hcl. apply caller_age_births; [|by eapply Forall2_lookup_lr].
  intros ctx fk n k ->. destruct (inv_waiting _ Hinv _ _ _ _ _ Hcl) as (f & Hn & _).
  destruct (Forall2_lookup_l _ _ _ _ _ Hf Hn) as (b & Hb & _). by exists b.
Qed.

(** A caller that comes to wait on a flight. *)
Lemma wait_age now bs Q ctx fk fn n k :
  (∀ b, bs !! n = Some b → now <= b + D) →
  caller_age now bs Q (Caller (PDo ctx fk fn k)) → caller_age now bs Q (Waiting ctx fk n k).
Proof.
  intros Hn (t & Ht & _ & Hk) b u r Hb Hu Hr. apply (Hk b); [|lia|done].
  specialize (Hn b Hb). lia.
Qed.

(** A step of a flight that is still in time. *)
Lemma age_inv_flight Qs w (g : G) (fs : list (flight S)) (cs : list (caller S A)) bs n fk f :
  age_inv Qs (mkSystem w g fs cs) bs → fs !! n = Some (mkFlight fk (Running (Step f))) →
  in_time (mkSystem (f w).2 g (<[n := mkFlight fk (Running (f w).1)]> fs) cs) bs →
  age_inv Qs (mkSystem (f w).2 g (<[n := mkFlight fk (Running (f w).1)]> fs) cs) bs.
Proof.
  intros [Hw Hf Hc] Hn Hin. cbn [s_world s_flights s_callers] in *.
  destruct (Forall2_lookup_l _ _ _ _ _ Hf Hn) as (b & Hb & t & Ht & Hm).
  assert (w_time (f w).2 <= b + D) as HbD.
  { eapply (Hin n); [|exact Hb]. cbn. apply list_lookup_insert_eq. by eapply lookup_lt_Some. }
  destruct (Hm w Ht HbD Hw) as (H1 & H2 & H3). split; cbn; [done| |by eapply callers_later].
  eapply insert_flight_age; [exact H1|done..|]. intros b' Hb' _.
  assert (b' = b) as -> by congruence. exists (w_time (f w).2). split; [lia|done].
Qed.

Lemma age_inv_step Qs s bs s' bs' :
  flight_inv s → age_inv Qs s bs → step_timely (s, bs) (s', bs') → age_inv Qs s' bs'.
Proof.
  intros Hinv Hall Hstep. pose proof Hall as [Hw Hf Hc]. inversion Hstep as [s0 s0' bs0 Hsys Hin]. subst s0 s0' bs0 bs'.
  unfold births in *.
  assert (∀ bs', Forall2 (caller_age (w_time (s_world s)) (bs ++ bs')) Qs (s_callers s))
    as Hbirths by (intros; by apply callers_births).
  destruct Hsys as [w g fs cs i f Hi|w g fs cs i x fk fn k n g' fs' Hi Hd
    |w g fs cs i fk fn k n g' fs' Hi Hd|w g fs cs i x fk n k f r Hi Hn Hp
    |w g fs cs i x fk n k e Hi He|w g fs cs i a Hi|w g fs cs n fk f Hn
    |w g fs cs n fk r Hn|w g fs cs n fk r Hn|w w' g fs cs He];
    cbn [s_world s_flights s_callers s_group] in *;
    try rewrite no_births in * by (rewrite ?length_insert; done).
  - destruct (Forall2_lookup_r _ _ _ _ _ Hc Hi) as (Q & _ & t & Ht & Hg).
    destruct (Hg w Ht Hw) as (H1 & H2 & _). split; cbn; [done|by eapply flights_later|].
    eapply insert_age; [exact H1|done..|]. intros Q' (t' & Ht' & Hg').
    exists (w_time (f w).2). split; [lia|]. by apply Hg'.
  - destruct (Forall2_lookup_r _ _ _ _ _ Hc Hi) as (Q & _ & t & _ & Hfn & _).
    destruct (age_DoChan _ _ _ _ _ _ _ _ _ Hd (inv_table _ Hinv) Hfn Hf) as [Hf' [m Hm]].
    split; cbn; [done|done|]. eapply insert_age; [reflexivity|done|apply Hbirths|].
    intros Q'. apply wait_age. intros b. by eapply Hin.
  - destruct (Forall2_lookup_r _ _ _ _ _ Hc Hi) as (Q & _ & t & _ & Hfn & _).
    destruct (age_DoChan _ _ _ _ _ _ _ _ _ Hd (inv_table _ Hinv) Hfn Hf) as [Hf' [m Hm]].
    split; cbn; [done|done|]. eapply insert_age; [reflexivity|done|apply Hbirths|].
    intros Q' (t' & Ht' & _ & Hk). by exists t'.
  - destruct (inv_waiting _ Hinv _ _ _ _ _ Hi) as (f' & Hn' & <-). cbn in Hn'.
    assert (f' = f) as -> by congruence.
    destruct (Forall2_lookup_l _ _ _ _ _ Hf Hn) as (b & Hb & Hage).
    unfold flight_age in Hage. rewrite Hp in Hage. split; cbn; [done|done|].
    eapply insert_age; [reflexivity|done..|]. intros Q' Hk. exists (w_time w).
    split; [lia|]. by apply (Hk b).
  - destruct (inv_waiting _ Hinv _ _ _ _ _ Hi) as (f' & Hn' & _). cbn in Hn'.
    destruct (Forall2_lookup_l _ _ _ _ _ Hf Hn') as (b & Hb & _). split; cbn; [done|done|].
    eapply insert_age; [reflexivity|done..|]. intros Q' Hk. exists (w_time w).
    split; [lia|]. by apply (Hk b).
  - split; cbn; [done|done|]. by eapply insert_age.
  - by apply age_inv_flight.
  - split; cbn; [done| |done]. eapply insert_flight_age; [reflexivity|done..|].
    intros b _ (t & Ht & Hr). by eapply handed_aged_later.
  - split; cbn; [done| |done]. by eapply insert_flight_age.
  - destruct He as (d & l & n1 & n2 & n3 & n4 & ->). cbn in *.
    split; cbn; [eapply enduring; [exact Hw|lia]|eapply flights_later; [|done]; lia
      |eapply callers_later; [|done]; lia].
Qed.

Lemma age_inv_steps Qs x y :
  rtc step_timely x y → flight_inv x.1 → age_inv Qs x.1 x.2 →
  flight_inv y.1 ∧ age_inv Qs y.1 y.2.
Proof.
  induction 1 as [x|[s bs] [s' bs'] z Hstep _ IH]; intros Hinv Hage; [done|].
  pose proof (age_inv_step _ _ _ _ _ Hinv Hage Hstep) as Hage'.
  inversion Hstep; subst. apply IH; [by eapply flight_inv_step|done].
Qed.

Lemma age_inv_initial w (ps : list (prog S A)) :
  J (w_store w) (w_time w) → Forall (timed_prog (w_time w) (λ _ _, True)) ps →
  age_inv (replicate (length ps) (λ _ _, True)) (initial w ps) [].
Proof.
  intros Hw Hps. split; [done|constructor|]. cbn [initial s_callers s_world].
  apply Forall2_same_length_lookup. split; [by rewrite length_replicate, length_fmap|].
  intros i Q cl [-> _]%lookup_replicate (p & -> & Hp)%list_lookup_fmap_Some.
  exists (w_time w). split; [lia|]. by eapply Forall_lookup_1.
Qed.

(** What a caller that has not begun is to return may be asked anew. *)
Lemma age_inv_begin Qs s bs i p Q :
  age_inv Qs s bs → s_callers s !! i = Some (Caller p) →
  timed_prog (w_time (s_world s)) Q p → age_inv (<[i := Q]> Qs) s bs.
Proof.
  intros [Hw Hf Hc] Hi Hp. split; [done|done|]. apply Forall2_same_length_lookup.
  split; [rewrite length_insert; by eapply Forall2_length|].
  intros j Q' cl [(<- & <- & _)|[_ HQ]]%list_lookup_insert_Some Hcl.
  - rewrite Hi in Hcl. injection Hcl as <-. exists (w_time (s_world s)). by split; [lia|].
  - by eapply Forall2_lookup_lr.
Qed.
End system.

(** *** Calls *)

Definition aged_call (cl : call S T) : Prop :=
  cl_cache cl = c ∧ codec_or_default (cl_codec cl) = codec
  ∧ bounded_ttl (cl_ttl cl) ∧ fresh_loader (cl_key cl) (cl_loader cl).

Lemma timed_call_prog t cl : aged_call cl → timed_prog t (young (cl_key cl) t) (call_prog cl).
Proof using All.
  intros (H1 & H2 & H3 & H4). unfold call_prog. rewrite H1. by apply timed_GetOrSet.
Qed.

Lemma timed_prog_any {A} t (Q : Time → A → Prop) (p : prog S A) :
  timed_prog t Q p → timed_prog t (λ _ _, True) p.
Proof.
  revert t. induction p as [a|f IH|ctx fk fn h IH|fk fn h IH] using prog_rect'; intros t Hp.
  - done.
  - intros w Ht HJ. destruct (Hp w Ht HJ) as (H1 & H2 & H3). split_and!; [done|done|by apply IH].
  - destruct Hp as [H1 H2]. split; [done|]. intros b u r Hb Hu Hr. by eapply IH, H2.
  - destruct Hp as [H1 H2]. by split; [|apply IH].
Qed.

(** A call that has not begun at [s1] and is over at [s2]. *)
Lemma call_age {G} `{!SingleFlight G, !SingleFlightLaws G} w (calls : list (call S T))
    (s1 s2 : system G S (result T)) bs1 bs2 i cl v :
  J (w_store w) (w_time w) → Forall aged_call calls →
  rtc step_timely (initial w (call_prog <$> calls), []) (s1, bs1) →
  calls !! i = Some cl → s_callers s1 !! i = Some (Caller (call_prog cl)) →
  rtc step_timely (s1, bs1) (s2, bs2) → s_callers s2 !! i = Some (Finished (Ok v)) →
  held_since (cl_key cl) (w_time (s_world s1) - (R + D)) (w_time (s_world s2)) v.
Proof using All.
  intros Hw Hcalls Hr1 Hcl Hi Hr2 Hfin.
  assert (Forall (timed_prog (w_time w) (λ _ _, True)) (call_prog <$> calls)) as Hps.
  { apply Forall_fmap. eapply Forall_impl; [exact Hcalls|]. intros cl' Hcl'.
    by eapply timed_prog_any, timed_call_prog. }
  destruct (age_inv_steps _ _ _ Hr1 (flight_inv_initial _ _)
    (age_inv_initial w (call_prog <$> calls) Hw Hps)) as [Hinv1 Hage1].
  cbn [fst snd] in *. rewrite Forall_forall in Hcalls.
  pose proof (list_elem_of_lookup_2 _ _ _ Hcl) as Hin.
  pose proof (age_inv_begin _ _ _ _ _ (young (cl_key cl) (w_time (s_world s1))) Hage1 Hi
    (timed_call_prog _ _ (Hcalls cl Hin))) as Hage1'.
  destruct (age_inv_steps _ _ _ Hr2 Hinv1 Hage1') as [_ [_ _ Hc2]]. cbn [fst snd] in *.
  destruct (Forall2_lookup_r _ _ _ _ _ Hc2 Hfin) as (Q & HQ & t & Ht & Hv).
  rewrite list_lookup_insert_eq in HQ.
  - injection HQ as <-. eapply held_weaken; [reflexivity|exact Ht|by apply Hv].
  - rewrite length_replicate, length_fmap. by eapply lookup_lt_Some.
Qed.
End ages.

(** ** Schedules on which flights end in time *)

Section schedules.
Context {G S A : Type} `{!SingleFlight G} (D : Duration).
Implicit Types (s : system G S A) (bs : list Time).

Definition in_timeb s bs : bool :=
  forallb (λ fb : flight S * Time,
    match f_phase fb.1 with Running _ => w_time (s_world s) <=? fb.2 + D | _ => true end)
    (zip (s_flights s) bs).

Lemma in_timeb_sound s bs : in_timeb s bs = true → in_time D s bs.
Proof.
  unfold in_timeb. rewrite forallb_forall. intros H n fk m b Hn Hb.
  specialize (H (mkFlight fk (Running m), b)). cbn in H. apply Z.leb_le, H.
  apply list_elem_of_In. apply list_elem_of_lookup. exists n. apply lookup_zip_with_Some. by eexists _, _.
Qed.

(** Follow a schedule, with the times at which flights began; [None] when a
    flight takes too long. *)
Fixpoint run_timely (chs : list choice) s bs : option (system G S A * list Time) :=
  match chs with
  | [] => Some (s, bs)
  | ch :: chs =>
      match sched ch s with
      | Some s' =>
          if in_timeb s' (births s s' bs) then run_timely chs s' (births s s' bs) else None
      | None => run_timely chs s bs
      end
  end.

Lemma run_timely_sound chs s bs s' bs' :
  run_timely chs s bs = Some (s', bs') → rtc (step_timely D) (s, bs) (s', bs').
Proof.
  revert s bs. induction chs as [|ch chs IH]; intros s bs; cbn; [by intros [= -> ->]|].
  destruct (sched ch s) as [s1|] eqn:E; [|by apply IH].
  destruct (in_timeb _ _) eqn:Ht; [|done]. intros Hrun.
  eapply rtc_l; [|by apply IH]. constructor; [by apply (sched_sound ch)|by apply in_timeb_sound].
Qed.

Lemma run_timely_default chs s bs :
  bool_decide (is_Some (run_timely chs s bs)) = true →
  rtc (step_timely D) (s, bs) (default (s, bs) (run_timely chs s bs)).
Proof.
  intros [[s' bs'] H]%bool_decide_eq_true. rewrite H. by apply run_timely_sound in H.
Qed.

(** A schedule that leaves a caller alone. *)
Definition spares (i : nat) (ch : choice) : bool :=
  match ch with
  | ChCaller j | ChReceive j | ChCancel j => negb (j =? i)%nat
  | _ => true
  end.

Lemma sched_spares i ch s s' :
  sched ch s = Some s' → spares i ch = true → s_callers s' !! i = s_callers s !! i.
Proof.
  destruct s as [w g fs cs]. intros Hs Hi.
  assert (∀ j cl, (j =? i)%nat = false → <[j := cl]> cs !! i = cs !! i) as Hne.
  { intros j cl Hj%Nat.eqb_neq. by apply list_lookup_insert_ne. }
  destruct ch; cbn [sched spares] in *; try apply negb_true_iff in Hi;
    repeat case_match; simplify_eq; try done; by apply Hne.
Qed.

Lemma run_timely_spares i chs s bs s' bs' :
  forallb (spares i) chs = true → run_timely chs s bs = Some (s', bs') →
  s_callers s' !! i = s_callers s !! i.
Proof.
  revert s bs. induction chs as [|ch chs IH]; intros s bs; cbn; [by intros _ [= -> ->]|].
  intros [Hi Hr]%andb_true_iff. destruct (sched ch s) as [s1|] eqn:E; [|by apply IH].
  destruct (in_timeb _ _); [|done]. intros Hrun.
  by rewrite (IH _ _ Hr Hrun), (sched_spares _ _ _ _ E Hi).
Qed.
End schedules.
