(* ===== verification/BackendAges.v ===== *)
(** * No backend returns a value that is too old

    MemoryCache, RedisCache and ValkeyCache keep the promise of [AgedCache]
    (Staleness.v): whatever a reader finds was the value of its source no longer
    ago than the longest lifetime and the longest flight together - and, with
    client-side caching, the time a copy lasts.  The network backends do so over
    clients that fail and retry (Lossy.v).  The theorems bound the age of what
    GetOrSet returns. *)
From S2P Require Import Prelude Int64 Float64 Errors Runtime Envelope Hooks Codec.
From S2P Require Import Options Cache Memory Server Redis Valkey FakeServer Reliable.
From S2P Require Import Group GetOrSet GetOrSetFacts Instances Flights FlightsThms.
From S2P Require Import Provenance NetworkHerd Staleness Lossy.
From Stdlib Require Import ZArith Lia.
Local Open Scope Z_scope.

(** The resolved TTL of a write. *)
Lemma timed_resolve {S} (J : S → Time → Prop) `{!Enduring J} H t cfg data ttl :
  timed J H t (λ _ e, resolved_ttl cfg data ttl e)
    (if hasEnvelope data then mret (base_ttl cfg ttl)
     else applyJitter (base_ttl cfg ttl) (cfg_ttlJitter cfg)).
Proof.
  unfold resolved_ttl. destruct (hasEnvelope data); cbn [orb]; [by apply timed_ret|].
  by apply timed_applyJitter.
Qed.

(** ** MemoryCache *)

Section memory.
Context {T : Type} (c : MemoryCache T) (codec : Codec T) (src : string → Time → T → Prop).
Context (B D : Duration).
Abbreviation mc := (MemoryCache_Cache c).
Abbreviation aged := (aged mc codec src).
Abbreviation lives := (lives mc B).

(** Time has begun, and the store is in order. *)
Definition mem_ages (its : items) (t : Time) : Prop :=
  0 <= t ∧ aged_store mc codec src (B + D) (mem_view c) its t.

#[export] Instance mem_ages_enduring : Enduring mem_ages.
Proof. intros its t t' [H0 H] Ht. split; [lia|]. by eapply enduring. Qed.

(** Steps after which no reader finds more than before. *)
Lemma mem_ages_less its its' t t' :
  mem_ages its t → t <= t' →
  (∀ key u data, t' <= u → mem_view c its' key u = Some data → mem_view c its key u = Some data) →
  mem_ages its' t'.
Proof.
  intros HJ Ht Hless. destruct (enduring _ _ _ HJ Ht) as [H0 H]. split; [done|].
  intros key u data Hu Hd. apply H; [done|by apply Hless].
Qed.

Lemma timed_mem_Get ctx key H t :
  timed mem_ages H t (λ u r, ∀ data, r = Ok data → aged key (t - (B + D)) u data)
    (mem_Get c ctx key).
Proof.
  unfold mem_Get. eapply (timed_bind _ _ _ (λ u r, ∀ data, r = Some data →
    aged key (t - (B + D)) u data)).
  - apply timed_atom. intros w Ht _ HJ.
    destruct (mem_lookup_spec c key w) as (tl & Htl & Hv & Hless & _). split_and!; [lia| |].
    + eapply mem_ages_less; [done|lia|]. intros k u data Hu. rewrite Hless by lia. done.
    + intros data Hd. rewrite Hv in Hd. destruct HJ as [_ HJ].
      eapply aged_weaken; [| |apply (HJ key tl); [lia|exact Hd]]; lia.
  - intros u [data|] _ Hd; (eapply timed_bind; [apply timed_if_emit; apply _|]).
    + intros u' [] Hu' _ ? [= <-]. eapply aged_weaken; [reflexivity|exact Hu'|by apply Hd].
    + by intros.
Qed.

(** An item whose value is no older than [lo], and ends in time. *)
Definition item_ends (lo : Time) (data : bytes) (it : memoryItem) : Prop :=
  mi_val it = data
  ∧ (isNegativeEntry data = true
     ∨ IsZero (mi_deadline it) = false ∧ mi_deadline it - (B + D) <= lo).

Lemma timed_newItem data ttl lo (H : Time → Prop) t :
  (∀ u, H u → u <= lo + D) → lives data ttl →
  timed mem_ages H t (λ _ it, item_ends lo data it) (newItem c data ttl).
Proof.
  intros HH Hl. unfold newItem. fold (base_ttl (mem_config c) ttl).
  change (m_ttlJitter c) with (cfg_ttlJitter (mem_config c)).
  eapply (timed_bind _ _ _ (λ _ e, resolved_ttl (mem_config c) data ttl e)).
  { destruct (hasEnvelope data) eqn:E; cbn [negb].
    - apply timed_ret. unfold resolved_ttl. by rewrite E.
    - pose proof (timed_resolve mem_ages H t (mem_config c) data ttl) as Hr.
      by rewrite E in Hr. }
  intros u e Hu He. destruct (Z.ltb_spec 0 e).
  - eapply (timed_bind _ _ _ (λ _ v, H v ∧ 0 <= v)).
    + apply timed_atom. intros w Ht HHw HJ. cbn in *. split_and!; [lia| |done|].
      * eapply enduring; [exact HJ|lia].
      * destruct HJ. lia.
    + intros u' v _ [Hv Hpos]. apply timed_ret. split; [done|].
      destruct Hl as [Hn|Hl]; [by left|right]. specialize (Hl e He). specialize (HH v Hv).
      cbn [mi_deadline]. unfold time_Add, IsZero, zero_time.
      split; [apply Z.eqb_neq|]; lia.
  - apply timed_ret. split; [done|]. destruct Hl as [Hn|Hl]; [by left|].
    specialize (Hl e He). lia.
Qed.

Lemma timed_mem_Set ctx key data ttl lo (H : Time → Prop) t :
  (∀ u, H u → u <= lo + D) → aged key lo t data → lives data ttl →
  timed mem_ages H t (λ _ _, True) (mem_Set c ctx key data ttl).
Proof.
  intros HH Ha Hl. unfold mem_Set. eapply timed_bind; [by apply timed_newItem|].
  intros u it Hu [<- Hit]. eapply (timed_bind _ _ _ (λ _ _, True)); [|done].
  apply timed_atom. intros w Htw HHw HJ. rewrite run_modify_store. cbn in *.
  split_and!; [lia| |done]. destruct HJ as [H0 HJ]. split; [done|].
  intros k v d Hv Hd. destruct (decide (k = key)) as [->|Hne].
  - rewrite mem_view_insert_eq in Hd. unfold item_at in Hd.
    destruct Hit as [Hn|[Hz Hdl]].
    + destruct (_ || _); [|done]. injection Hd as <-. intros Hneg. congruence.
    + rewrite Hz in Hd. unfold Before in Hd. cbn [orb] in Hd.
      destruct (Z.ltb_spec v (mi_deadline it)); [|done]. injection Hd as <-.
      eapply aged_weaken; [| |exact Ha]; lia.
  - rewrite mem_view_insert_ne in Hd by done. by apply (HJ k v).
Qed.

#[export] Instance MemoryCache_aged : AgedCache mc codec src B D (B + D) mem_ages.
Proof.
  split; [apply timed_mem_Get|intros; by eapply timed_mem_Set|].
  intros ctx key H t. cbn [mc MemoryCache_Cache c_Delete]. unfold mem_Delete.
  eapply (timed_bind _ _ _ (λ _ _, True)); [|done].
  apply timed_atom. intros w Htw _ HJ. rewrite run_modify_store. cbn in *.
  split_and!; [lia| |done]. eapply mem_ages_less; [done|lia|].
  intros k u data _. rewrite mem_view_delete. by case_decide.
Qed.
End memory.

(** ** The network backends

    What the server holds was the value of its source no longer than B + D ago;
    what the client's copies hold, no longer than [R]. *)

Section network.
Context {S T : Type} (c : Cache S) (codec : Codec T) (src : string → Time → T → Prop).
Context (B D R : Duration) (db : S → string → Time → option bytes).
Context (near : S → string → Time → bytes → Prop).
Context (full : string → string) `{!Inj (=) (=) full} (HR : B + D <= R).
Implicit Types (w : World S).
Abbreviation aged := (aged c codec src).

Definition net_ages (s : S) (t : Time) : Prop :=
  aged_store c codec src (B + D) (λ s k, db s (full k)) s t
  ∧ aged_shown c codec src R (λ s k, near s (full k)) s t.

#[export] Instance net_ages_enduring : Enduring net_ages.
Proof. intros s t t' [H1 H2] Ht. by split; eapply enduring. Qed.

(** Steps after which a reader finds no more than before, or what is young. *)
Lemma net_ages_step w w' :
  net_ages (w_store w) (w_time w) → w_time w <= w_time w' →
  (∀ key u data, w_time w' <= u → db (w_store w') (full key) u = Some data →
     db (w_store w) (full key) u = Some data ∨ aged key (u - (B + D)) (w_time w') data) →
  (∀ key u data, w_time w' <= u → near (w_store w') (full key) u data →
     near (w_store w) (full key) u data ∨ aged key (u - R) (w_time w') data) →
  net_ages (w_store w') (w_time w').
Proof.
  intros [H1 H2] Ht Hdb Hnear. split; intros key u data Hu Hd.
  - apply Hdb in Hd as [Hd|Hd]; [|done|done].
    eapply aged_weaken; [reflexivity|exact Ht|]. apply H1; [lia|done].
  - apply Hnear in Hd as [Hd|Hd]; [|done|done].
    eapply aged_weaken; [reflexivity|exact Ht|]. apply H2; [lia|done].
Qed.

Lemma unnoticed_ages w w' :
  unnoticed db near w w' → net_ages (w_store w) (w_time w) →
  w_time w <= w_time w' ∧ net_ages (w_store w') (w_time w').
Proof.
  intros [(Ht & _ & Hdb) Hn] HJ. split; [done|]. apply (net_ages_step w); [done|done| |].
  - intros key u data Hu. rewrite Hdb by done. by left.
  - intros key u data Hu Hd. left. by apply Hn.
Qed.

(** Code that is tried again keeps the store in order if each step does. *)
Lemma timed_tries {A} H t (Q : Time → A → Prop) (E : World S → World S → Prop)
    (F : World S → A → World S → Prop) (Q0 : A → Prop) (m : act S A) :
  tries E F Q0 m →
  (∀ a u, t <= u → Q0 a → Q u a) →
  (∀ w w', t <= w_time w → H (w_time w') → net_ages (w_store w) (w_time w) → E w w' →
     w_time w <= w_time w' ∧ net_ages (w_store w') (w_time w')) →
  (∀ w w' a u, t <= w_time w → net_ages (w_store w) (w_time w) → F w a w' →
     w_time w' <= u → Q u a) →
  timed net_ages H t Q m.
Proof.
  revert t Q0. induction m as [a|f IH] using act_rect'; intros t Q0 Hm HQ HE HF.
  - apply (HQ a t); [lia|done].
  - intros w Ht HH HJ. destruct (Hm w) as [H1 H2].
    destruct (HE w _ Ht HH HJ H1) as [Hle HJ']. split_and!; [done|done|].
    eapply IH; [exact H2|..].
    + intros a u Hu [Ha|Ha]; [apply HQ; [lia|done]|by apply (HF w (f w).2)].
    + intros w1 w2 Hw1. apply HE. lia.
    + intros w1 w2 a u Hw1. apply HF. lia.
Qed.

(** What a read finds is young enough. *)
Lemma found_young {A} key (got : A → bytes → Prop) w w' a t u :
  t <= w_time w → net_ages (w_store w) (w_time w) → found db (full key) got w a w' →
  w_time w' <= u → ∀ data, got a data → aged key (t - R) u data.
Proof using HR.
  intros Ht [H1 _] (tr & Htr & Hr) Hu data Hd. specialize (Hr data Hd).
  eapply aged_weaken; [| |apply (H1 key tr); [lia|exact Hr]]; lia.
Qed.

Lemma recalled_young {A} key (got : A → bytes → Prop) w w' a t u :
  t <= w_time w → net_ages (w_store w) (w_time w) → recalled db near (full key) got w a w' →
  w_time w' <= u → ∀ data, got a data → aged key (t - R) u data.
Proof using HR.
  intros Ht [H1 H2] (tr & Htr & Hr) Hu data Hd. destruct (Hr data Hd) as [Hn|Hn].
  - eapply aged_weaken; [| |apply (H2 key tr); [lia|exact Hn]]; lia.
  - eapply aged_weaken; [| |apply (H1 key tr); [lia|exact Hn]]; lia.
Qed.

Lemma timed_reads {A} H t key (got : A → bytes → Prop) (m : act S A) :
  tries (unnoticed db near) (found db (full key) got) (no_data got) m →
  timed net_ages H t (λ u a, ∀ data, got a data → aged key (t - R) u data) m.
Proof using HR.
  intros Hm. eapply timed_tries; [exact Hm|..].
  - intros a u _ Hn data Hd. by destruct (Hn data).
  - intros w w' _ _ HJ Hu. by apply unnoticed_ages.
  - intros w w' a u Ht HJ Hf Hu. by eapply found_young.
Qed.

(** A copy lasts no longer than [R] allows. *)
Lemma timed_recalls {A} H t key ttl (got : A → bytes → Prop) (m : act S A) :
  B + D + ttl <= R →
  tries (copied db near (full key) ttl) (recalled db near (full key) got) (no_data got) m →
  timed net_ages H t (λ u a, ∀ data, got a data → aged key (t - R) u data) m.
Proof using All.
  intros Httl Hm. eapply timed_tries; [exact Hm|..].
  - intros a u _ Hn data Hd. by destruct (Hn data).
  - intros w w' _ _ HJ [(Hle & _ & Hdb) (tr & Htr & Hc)]. split; [done|].
    apply (net_ages_step w); [done|done| |].
    + intros k u data Hu. rewrite Hdb by done. by left.
    + intros k u data Hu Hd. destruct (Hc _ _ _ Hu Hd) as [Hn|(Hk & Hlt & Hn)]; [by left|right].
      apply (inj full) in Hk as ->. destruct HJ as [H1 _].
      eapply aged_weaken; [| |apply (H1 key tr); [lia|exact Hn]]; lia.
  - intros w w' a u Ht HJ Hf Hu. by eapply recalled_young.
Qed.

(** A write of a value no older than [lo], done by [lo + D]. *)
Lemma written_young key v d lo t w w' :
  w_time w' <= lo + D → aged key lo t v → t <= w_time w →
  isNegativeEntry v = true ∨ 0 < d <= B → Millisecond <= B →
  net_ages (w_store w) (w_time w) → no_copies near w w' →
  writes db (full key) v d w w' →
  w_time w <= w_time w' ∧ net_ages (w_store w') (w_time w').
Proof using Inj0.
  intros HH Ha Ht Hd HB HJ Hn (Hle & _ & Hother & e & -> & Hforever & Huntil).
  split; [exact Hle|]. apply (net_ages_step w); [exact HJ|exact Hle| |].
  - intros k u data Hu Hdata. destruct (decide (k = key)) as [->|Hne].
    + right. destruct Hd as [Hneg|Hd].
      { assert (data = v) as ->; [|by intros Hneg'; congruence].
        destruct (Z.leb_spec (px d) 0) as [Hpx|Hpx].
        - rewrite Hforever in Hdata by lia. congruence.
        - destruct (Huntil Hpx) as (dl & _ & Hdl). rewrite Hdl in Hdata by lia.
          destruct (u <? dl); congruence. }
      pose proof (px_pos d) as Hpos. destruct (Huntil ltac:(lia)) as (dl & Hdl & Hv).
      rewrite Hv in Hdata by lia. destruct (Z.ltb_spec u dl); [|congruence].
      injection Hdata as <-. pose proof (floor_ms_le d).
      assert (px d <= B) by (unfold px; case_match; lia).
      eapply aged_weaken; [| |exact Ha]; lia.
    + left. by rewrite Hother in Hdata; [|intros ?%(inj full)|lia].
  - intros k u data Hu Hdata. left. by apply Hn.
Qed.

Lemma timed_writes {A} (H : Time → Prop) t key v d lo (m : act S A) :
  (∀ u, H u → u <= lo + D) → aged key lo t v →
  isNegativeEntry v = true ∨ 0 < d <= B → Millisecond <= B →
  tries (stored db near (full key) v d) untold any m →
  timed net_ages H t (λ _ _, True) m.
Proof using Inj0.
  intros HH Ha Hd HB Hm. eapply timed_tries; [exact Hm|done| |done].
  intros w w' Ht HHw HJ [Hu|[Hw Hn]]; [by apply unnoticed_ages|].
  eapply written_young; [by apply HH|exact Ha|exact Ht|exact Hd|exact HB|exact HJ|exact Hn|exact Hw].
Qed.

Lemma timed_removes {A} H t key (m : act S A) :
  tries (dropped db near (full key)) untold any m → timed net_ages H t (λ _ _, True) m.
Proof.
  intros Hm. eapply timed_tries; [exact Hm|done| |done].
  intros w w' _ _ HJ [Hu|[(Hle & _ & Hdb) Hn]]; [by apply unnoticed_ages|].
  split; [done|]. apply (net_ages_step w); [done|done| |].
  - intros k u data Hu. rewrite Hdb by done. case_decide; [done|by left].
  - intros k u data Hu Hd. left. by apply Hn.
Qed.

(** What is made of the replies. *)
Lemma timed_read H t h key lo (nil : error → bool) e1 e2 (r : result bytes) :
  (∀ data, r = Ok data → aged key lo t data) →
  timed net_ages H t (λ u r, ∀ data, r = Ok data → aged key lo u data)
    (match r with
     | Err err =>
         if nil err then hooks_miss h key;; mret (Err (e1 err))
         else hooks_error h OpGet key err;; mret (Err (e2 err))
     | Ok data => hooks_hit h key;; mret (Ok data)
     end : act S (result bytes)).
Proof.
  intros Hr. destruct r as [data|err].
  - eapply timed_bind; [apply timed_if_emit; apply _|]. intros u [] Hu _ ? [= <-].
    eapply aged_weaken; [reflexivity|exact Hu|by apply Hr].
  - case_goal; by eapply timed_bind; [apply timed_if_emit; apply _|].
Qed.

Lemma timed_written H t h op key (f : error → error) (e : option error) :
  timed net_ages H t (λ _ _, True)
    (match e with
     | Some err => hooks_error h op key err;; mret (Some (f err))
     | None => mret None
     end : act S (option error)).
Proof. destruct e; [|done]. by eapply timed_bind; [apply timed_if_emit; apply _|]. Qed.
End network.

Section redis.
Context {S T : Type} (c : RedisCache S T) (codec : Codec T) (src : string → Time → T → Prop).
Context (B D : Duration) (db : S → string → Time → option bytes).
Context `{!LossyRedis db nowhere (r_client c), !NoKeepTTL c} (HB : Millisecond <= B).
Abbreviation rc := (RedisCache_Cache c).

Definition redis_ages : S → Time → Prop :=
  net_ages rc codec src B D (B + D) db nowhere (redis_key c).

#[export] Instance redis_ages_enduring : Enduring redis_ages.
Proof. apply net_ages_enduring. Qed.

#[local] Instance redis_key_injective : Inj (=) (=) (redis_key c).
Proof. intros k k'. apply redis_key_inj. Qed.

Lemma timed_redis_ttlFor H t ttl data :
  timed redis_ages H t (λ _ e, resolved_ttl (redis_config c) data ttl e)
    (redis_ttlFor c ttl data).
Proof. apply (timed_resolve redis_ages H t (redis_config c)). Qed.

#[export] Instance RedisCache_aged : AgedCache rc codec src B D (B + D) redis_ages.
Proof using All.
  split.
  - intros ctx key H t. cbn [rc RedisCache_Cache c_Get]. unfold redis_Get.
    eapply timed_bind; [apply timed_opContext; apply _|intros u ctx' Hu _].
    eapply timed_bind.
    { apply (timed_reads rc codec src B D (B + D) db nowhere (redis_key c) (Z.le_refl _)
        _ _ key redis_got), (yr_Get db nowhere). }
    intros u' r Hu' Hd. apply (timed_read rc codec src B D (B + D) db nowhere (redis_key c)
      _ _ _ _ _ (λ e, errors_Is e _) (λ _, _) (λ e, _)).
    intros data Hdata. eapply aged_weaken; [|reflexivity|by apply Hd]. lia.
  - intros ctx key data ttl lo H t HH Ha Hl. cbn [rc RedisCache_Cache c_Set]. unfold redis_Set.
    eapply timed_bind; [apply timed_opContext; apply _|intros u ctx' Hu _].
    eapply timed_bind; [apply timed_redis_ttlFor|]. intros u' d Hu' Hd.
    eapply timed_bind.
    { eapply (timed_writes rc codec src B D (B + D) db nowhere (redis_key c) _ _ _ _ d);
        [exact HH| | |exact HB|].
      - eapply aged_weaken; [reflexivity| |exact Ha]. lia.
      - destruct Hl as [Hn|Hl]; [by left|right]. by apply Hl.
      - apply (yr_Set db nowhere). exact (no_keep_ttl _ _ _ Hd). }
    intros u2 e _ _. apply (timed_written rc codec src B D _ db nowhere _ _ _ _ _ _ (λ e, _)).
  - intros ctx key H t. cbn [rc RedisCache_Cache c_Delete]. unfold redis_Delete.
    eapply timed_bind; [apply timed_opContext; apply _|intros u ctx' Hu _].
    eapply timed_bind.
    { by eapply (timed_removes rc codec src B D (B + D) db nowhere (redis_key c)),
        (yr_Del db nowhere). }
    intros u2 e _ _. apply (timed_written rc codec src B D _ db nowhere _ _ _ _ _ _ (λ e, _)).
Qed.
End redis.

Section valkey.
Context {S T : Type} (c : ValkeyCache S T) (codec : Codec T) (src : string → Time → T → Prop).
Context (B D : Duration) (db : S → string → Time → option bytes).
Context (near : S → string → Time → bytes → Prop).
Context `{!LossyValkey db near (v_client c)} (HB : Millisecond <= B).
Context (Hnear : 0 < v_clientCacheTTL c → NearCache db near (v_client c)).
Abbreviation vc := (ValkeyCache_Cache c).

(** The oldest a read finds: a copy may be made of an entry at its end. *)
Definition valkey_reach : Duration := B + D + Z.max 0 (v_clientCacheTTL c).

Definition valkey_ages : S → Time → Prop :=
  net_ages vc codec src B D valkey_reach db near (valkey_key c).

#[export] Instance valkey_ages_enduring : Enduring valkey_ages.
Proof. apply net_ages_enduring. Qed.

#[local] Instance valkey_key_injective : Inj (=) (=) (valkey_key c).
Proof. intros k k'. apply valkey_key_inj. Qed.

Lemma valkey_reach_server : B + D <= valkey_reach.
Proof. unfold valkey_reach. lia. Qed.

Lemma timed_setCmd H t key data ttl :
  timed valkey_ages H t
    (λ _ cmd, ∃ d, cmd = CmdSet (valkey_key c key) data (plain_px d)
       ∧ resolved_ttl (valkey_config c) data ttl d)
    (setCmd c key data ttl).
Proof.
  unfold setCmd, valkey_ttlFor.
  eapply (timed_bind _ _ _ (λ _ e, ∃ d, resolved_ttl (valkey_config c) data ttl d
    ∧ (if 0 <? e then Some e else None) = plain_px d)).
  - eapply (timed_bind _ _ _ (λ _ d, resolved_ttl (valkey_config c) data ttl d)).
    + pose proof (timed_resolve valkey_ages H t (valkey_config c) data ttl) as Hr.
      by destruct (hasEnvelope data).
    + intros u d _ Hd. apply timed_ret. exists d. split; [done|]. apply plain_px_floor.
  - intros u e _ (d & Hd & ->). apply timed_ret. by exists d.
Qed.

(** The server's expiry for such a SET stays within the bound. *)
Lemma plain_px_bound d : 0 < d <= B → 0 < default 0 (plain_px d) <= B.
Proof using HB.
  intros Hd. unfold plain_px. rewrite (proj2 (Z.ltb_lt 0 d)) by lia. cbn. lia.
Qed.

(** A read, from the server or through the copies. *)
Lemma timed_valkey_read H t ctx key :
  timed valkey_ages H t
    (λ u r, ∀ data, valkey_got r data → aged vc codec src key (t - valkey_reach) u data)
    (if 0 <? v_clientCacheTTL c
     then vc_DoCache (v_client c) ctx (CmdGet (valkey_key c key)) (v_clientCacheTTL c)
     else vc_Do (v_client c) ctx (CmdGet (valkey_key c key))).
Proof using All.
  destruct (Z.ltb_spec 0 (v_clientCacheTTL c)) as [Hpos|Hneg].
  - apply (timed_recalls vc codec src B D valkey_reach db near (valkey_key c) valkey_reach_server
      _ _ _ (v_clientCacheTTL c)); [unfold valkey_reach; lia|by apply Hnear].
  - apply (timed_reads vc codec src B D valkey_reach db near (valkey_key c) valkey_reach_server),
      (yv_Get db near).
Qed.

#[export] Instance ValkeyCache_aged : AgedCache vc codec src B D valkey_reach valkey_ages.
Proof using All.
  split.
  - intros ctx key H t. cbn [vc ValkeyCache_Cache c_Get]. unfold valkey_Get.
    eapply timed_bind; [apply timed_opContext; apply _|intros u ctx' Hu _].
    eapply timed_bind; [apply timed_valkey_read|]. intros u' r Hu' Hd.
    apply (timed_read vc codec src B D valkey_reach db near (valkey_key c) _ _ _ _ _ _ (λ _, _)
      (λ e, _)).
    intros data Hdata. eapply aged_weaken; [|reflexivity|by apply Hd]. lia.
  - intros ctx key data ttl lo H t HH Ha Hl. cbn [vc ValkeyCache_Cache c_Set]. unfold valkey_Set.
    eapply timed_bind; [apply timed_opContext; apply _|intros u ctx' Hu _].
    eapply timed_bind; [apply timed_setCmd|]. intros u' cmd Hu' (d & -> & Hd).
    eapply timed_bind.
    { eapply (timed_writes vc codec src B D valkey_reach db near (valkey_key c) _ _ _ _
        (default 0 (plain_px d))); [exact HH| | |exact HB|].
      - eapply aged_weaken; [reflexivity| |exact Ha]. lia.
      - destruct Hl as [Hn|Hl]; [by left|right]. by apply plain_px_bound, Hl.
      - apply (yv_Set db near), plain_px_ok. }
    intros u2 e _ _. apply (timed_written vc codec src B D _ db near _ _ _ _ _ _ (λ e, _)).
  - intros ctx key H t. cbn [vc ValkeyCache_Cache c_Delete]. unfold valkey_Delete.
    eapply timed_bind; [apply timed_opContext; apply _|intros u ctx' Hu _].
    eapply timed_bind.
    { by eapply (timed_removes vc codec src B D valkey_reach db near (valkey_key c)),
        (yv_Del db near). }
    intros u2 e _ _. apply (timed_written vc codec src B D _ db near _ _ _ _ _ _ (λ e, _)).
Qed.
End valkey.

(** ** The theorems *)

(** C3: Bounded staleness.  The values of each key come from a source that
    changes with time.  On a MemoryCache all of whose resolved TTLs, jitter and
    the stale window included, are at most [B], with loaders that return what
    the source held while they ran and flights that take at most [D], any
    number of concurrent callers of GetOrSet in any interleaving: a call that
    begins after the moment [s1] and returns a value by the moment [s2]
    returns one that the source held no earlier than B + 2 D before [s1] and
    not after [s2].  Fresh hits, hits within the stale window, background
    refreshes, shared and cancelled flights all keep within that bound. *)
Theorem memory_staleness {G T} `{!SingleFlight G, !SingleFlightLaws G, !JSON T}
    (c : MemoryCache T) (codec : Codec T) `{!CodecRoundTrip codec}
    (src : string → Time → T → Prop) B D (calls : list (call items T)) w
    (s1 s2 : system G items (result T)) bs1 bs2 i cl v :
  let mc := MemoryCache_Cache c in
  lifetimes mc B D (B + D) → 0 <= w_time w →
  aged_store mc codec src (B + D) (mem_view c) (w_store w) (w_time w) →
  Forall (aged_call mc codec src B (mem_ages c codec src B D)) calls →
  rtc (step_timely D) (initial w (call_prog <$> calls), []) (s1, bs1) →
  calls !! i = Some cl → s_callers s1 !! i = Some (Caller (call_prog cl)) →
  rtc (step_timely D) (s1, bs1) (s2, bs2) → s_callers s2 !! i = Some (Finished (Ok v)) →
  ∃ u, w_time (s_world s1) - (B + 2 * D) <= u <= w_time (s_world s2) ∧ src (cl_key cl) u v.
Proof.
  intros mc Hl Ht Hs. replace (B + 2 * D) with (B + D + D) by lia.
  by apply (call_age mc codec src B D (B + D) (mem_ages c codec src B D)).
Qed.

(** C15: Bounded staleness over a network that fails, and with copies: the same
    on ValkeyCache with or without client-side caching, over any client that
    may lose requests and replies, try a command again or give up, as long as
    no command has an effect after its reply and no copy outlives the TTL of
    the client-side cache, for lifetimes of at least the server's resolution of
    a millisecond.  A returned value was held by the source no earlier than
    B + 2 D and the TTL of the client-side cache before the call. *)
Theorem valkey_staleness {G S T} `{!SingleFlight G, !SingleFlightLaws G, !JSON T}
    (c : ValkeyCache S T) (db : S → string → Time → option bytes)
    (near : S → string → Time → bytes → Prop)
    `{!LossyValkey db near (v_client c)} (codec : Codec T) `{!CodecRoundTrip codec}
    (src : string → Time → T → Prop) B D (calls : list (call S T)) w
    (s1 s2 : system G S (result T)) bs1 bs2 i cl v :
  let vc := ValkeyCache_Cache c in
  let R := B + D + Z.max 0 (v_clientCacheTTL c) in
  (0 < v_clientCacheTTL c → NearCache db near (v_client c)) →
  Millisecond <= B → lifetimes vc B D R →
  aged_store vc codec src (B + D) (λ s k, db s (valkey_key c k)) (w_store w) (w_time w) →
  aged_shown vc codec src R (λ s k, near s (valkey_key c k)) (w_store w) (w_time w) →
  Forall (aged_call vc codec src B (valkey_ages c codec src B D db near)) calls →
  rtc (step_timely D) (initial w (call_prog <$> calls), []) (s1, bs1) →
  calls !! i = Some cl → s_callers s1 !! i = Some (Caller (call_prog cl)) →
  rtc (step_timely D) (s1, bs1) (s2, bs2) → s_callers s2 !! i = Some (Finished (Ok v)) →
  ∃ u, w_time (s_world s1) - (R + D) <= u <= w_time (s_world s2) ∧ src (cl_key cl) u v.
Proof.
  intros vc R Hnear HB Hl Hs Hn.
  by apply (call_age vc codec src B D (valkey_reach c B D) (valkey_ages c codec src B D db near)
    (AgedCache0 := ValkeyCache_aged c codec src B D db near HB Hnear)).
Qed.

(** The same on RedisCache. *)
Theorem redis_staleness {G S T} `{!SingleFlight G, !SingleFlightLaws G, !JSON T}
    (c : RedisCache S T) (db : S → string → Time → option bytes)
    `{!LossyRedis db nowhere (r_client c), !NoKeepTTL c}
    (codec : Codec T) `{!CodecRoundTrip codec}
    (src : string → Time → T → Prop) B D (calls : list (call S T)) w
    (s1 s2 : system G S (result T)) bs1 bs2 i cl v :
  let rc := RedisCache_Cache c in
  Millisecond <= B → lifetimes rc B D (B + D) →
  aged_store rc codec src (B + D) (λ s k, db s (redis_key c k)) (w_store w) (w_time w) →
  Forall (aged_call rc codec src B (redis_ages c codec src B D db)) calls →
  rtc (step_timely D) (initial w (call_prog <$> calls), []) (s1, bs1) →
  calls !! i = Some cl → s_callers s1 !! i = Some (Caller (call_prog cl)) →
  rtc (step_timely D) (s1, bs1) (s2, bs2) → s_callers s2 !! i = Some (Finished (Ok v)) →
  ∃ u, w_time (s_world s1) - (B + 2 * D) <= u <= w_time (s_world s2) ∧ src (cl_key cl) u v.
Proof.
  intros rc HB Hl Hs. replace (B + 2 * D) with (B + D + D) by lia.
  assert (redis_ages c codec src B D db (w_store w) (w_time w)) as HJ
    by (split; [exact Hs|by intros key u data _ []]).
  by apply (call_age rc codec src B D (B + D) (redis_ages c codec src B D db) (AgedCache0 :=
    RedisCache_aged c codec src B D db HB)).
Qed.

(** A source that holds [true] for thirty seconds and [false] from then on; a
    loader reads it and takes 20 ms. *)
Definition turning (_ : string) (u : Time) (v : bool) : Prop :=
  v = (u <? demo_time + 30 * Second).

Definition turning_loader {S} (_ : Context) : act S (outcome (result bool)) :=
  atom (λ w, (Returned (Ok (w_time w <? demo_time + 30 * Second)), elapse 20000000 w)).

Lemma turning_fresh {S} (J : S → Time → Prop) `{!Enduring J} key :
  fresh_loader turning J key turning_loader.
Proof.
  intros ctx H t. apply timed_atom. intros w Ht _ HJ. cbn. split_and!; [lia| |].
  - eapply enduring; [exact HJ|lia].
  - intros v [= <-]. exists (w_time w). split; [lia|]. done.
Qed.

(** Calls of one key, some of which run in a first schedule, and one more in a
    second. *)
Definition age_calls {S} (n : nat) (c : Cache S) : list (call S bool) :=
  replicate n (mkCall Background c "k" Minute None turning_loader).

Definition age_system {S} n (s : S) (c : Cache S) : system (gmap string nat) S (result bool) :=
  initial (demo_world s) (call_prog <$> age_calls n c).
Definition age_s1 {S} n sch1 (s : S) (c : Cache S)
    : system (gmap string nat) S (result bool) * list Time :=
  default (age_system n s c, []) (run_timely Second sch1 (age_system n s c) []).
Definition age_s2 {S} n sch1 sch2 (s : S) (c : Cache S)
    : system (gmap string nat) S (result bool) * list Time :=
  let x := age_s1 n sch1 s c in default x (run_timely Second sch2 x.1 x.2).

Lemma age_s1_timely {S} n sch1 (s : S) (c : Cache S) :
  bool_decide (is_Some (run_timely Second sch1 (age_system n s c) [])) = true →
  rtc (step_timely Second) (age_system n s c, []) (age_s1 n sch1 s c).
Proof. apply run_timely_default. Qed.

Lemma age_s1_waits {S} n i sch1 (s : S) (c : Cache S) :
  (i < n)%nat → forallb (spares i) sch1 = true →
  s_callers (age_s1 n sch1 s c).1 !! i
  = Some (Caller (call_prog (mkCall Background c "k" Minute None turning_loader))).
Proof.
  intros Hi Hsp.
  assert (s_callers (age_system n s c) !! i
    = Some (Caller (call_prog (mkCall Background c "k" Minute None turning_loader)))) as H0.
  { unfold age_system, age_calls, initial. cbn [s_callers].
    by rewrite !list_lookup_fmap, lookup_replicate_2. }
  unfold age_s1. destruct (run_timely _ _ _ _) as [[s1 bs1]|] eqn:E; [|done].
  apply (run_timely_spares _ i) in E; [|done]. by rewrite <-H0.
Qed.

Lemma age_s2_timely {S} n sch1 sch2 (s : S) (c : Cache S) :
  bool_decide (is_Some (run_timely Second sch2 (age_s1 n sch1 s c).1 (age_s1 n sch1 s c).2))
    = true →
  rtc (step_timely Second) (age_s1 n sch1 s c) (age_s2 n sch1 sch2 s c).
Proof. unfold age_s2. destruct (age_s1 n sch1 s c) as [s1 bs1]. apply run_timely_default. Qed.

Lemma plain_bounded {S} (c : Cache S) cfg :
  c_config c = Some cfg → cfg_staleTTL cfg = 10 * Second →
  fle (cfg_ttlJitter cfg) fzero = true → bounded_ttl c (70 * Second) Minute.
Proof.
  intros Hc Hs Hj data e He. rewrite Hc in *. cbn [configOf] in *.
  apply resolved_ttl_base in He as ->; [|by right]. rewrite base_ttl_pos by done.
  rewrite Hs. unfold Minute, Second, Millisecond. lia.
Qed.

(** With jitter on, TTLs from 12 ns up stay within twice their length. *)
Lemma jittered_bounded {S} (c : Cache S) cfg B f ttl :
  c_config c = Some cfg → cfg_ttlJitter cfg = Fin f → 0 <= f → fle (Fin f) f09 = true →
  12 <= base_ttl cfg ttl <= 2 ^ 62 → 2 * base_ttl cfg ttl + 1 + cfg_staleTTL cfg <= B →
  bounded_ttl c B ttl.
Proof.
  intros Hc Hj Hf Hf09 Hb HB data e. rewrite Hc. cbn [configOf]. unfold resolved_ttl.
  rewrite Hj. destruct (_ || _); [intros ->; lia|]. intros (oob & k & ->).
  pose proof (jittered_positive oob _ _ k Hb Hf Hf09).
  pose proof (jittered_le oob (base_ttl cfg ttl) f k ltac:(lia) Hf Hf09). lia.
Qed.

(** One call loads; 65 seconds later, the source having turned, a second call
    is answered with the entry, stale by then. *)
Definition age_schedule1 : list choice :=
  replicate 20 (ChCaller 0) ++ replicate 40 (ChFlight 0) ++ [ChReceive 0]
    ++ replicate 9 (ChCaller 0) ++ [ChTime 65000000000].
Definition age_schedule2 : list choice := replicate 20 (ChCaller 1).

Lemma memory_staleness_witness :
  let s1 := (age_s1 2 age_schedule1 ∅ demo_cache).1 in
  let s2 := (age_s2 2 age_schedule1 age_schedule2 ∅ demo_cache).1 in
  (w_time (s_world s1) - demo_time = 65020000020)
  ∧ (caller_result <$> s_callers s2) = replicate 2 (Some (Ok true))
  ∧ ∃ u, w_time (s_world s1) - 72 * Second <= u <= w_time (s_world s2) ∧ turning "k" u true.
Proof.
  split_and!; [vm_compute; reflexivity..|].
  apply (memory_staleness demo_memory defaultCodec turning (70 * Second) Second
    (age_calls 2 demo_cache) demo_empty _ _ (age_s1 2 age_schedule1 ∅ demo_cache).2
    (age_s2 2 age_schedule1 age_schedule2 ∅ demo_cache).2 1
    (mkCall Background demo_cache "k" Minute None turning_loader)).
  - split; vm_compute; [discriminate|split; discriminate|discriminate|discriminate].
  - vm_compute. discriminate.
  - intros key u data _ Hd. discriminate Hd.
  - apply Forall_replicate. split; [reflexivity|]. split; [reflexivity|]. split.
    + eapply plain_bounded; reflexivity.
    + apply turning_fresh. apply _.
  - rewrite <-surjective_pairing. apply age_s1_timely. vm_compute. reflexivity.
  - reflexivity.
  - apply age_s1_waits; [lia|reflexivity].
  - rewrite <-!surjective_pairing. apply age_s2_timely. vm_compute. reflexivity.
  - vm_compute. reflexivity.
Defined.

(** NewValkeyWithClient(WithPrefix("svc:"), WithStaleTTL(10s),
    WithClientSideCacheTTL(2m)) over a network that loses packets; each command
    is tried three times. *)
Definition age_valkey : ValkeyCache two_tier bool :=
  NewValkeyWithClient 0xc000080000 (lossy_valkey 3)
    [WithPrefix "svc:"; WithHooks all_hooks; WithStaleTTL (10 * Second);
     WithClientSideCacheTTL (2 * Minute)].

(** A first call loads; 65 seconds later a second one gets the entry, stale by
    then, copies it, and has it refreshed; yet another minute later, a third
    call is answered from the copy, two minutes old. *)
Definition near_schedule1 : list choice :=
  replicate 40 (ChCaller 0) ++ replicate 60 (ChFlight 0) ++ [ChReceive 0]
    ++ replicate 9 (ChCaller 0) ++ [ChTime 65000000000]
    ++ replicate 40 (ChCaller 1) ++ replicate 60 (ChFlight 1) ++ [ChTime 65000000000].
Definition near_schedule2 : list choice := replicate 40 (ChCaller 2).
Definition near_empty : two_tier := mkTwoTier ∅ ∅.

Lemma valkey_staleness_witness :
  let vc := ValkeyCache_Cache age_valkey in
  let s1 := (age_s1 3 near_schedule1 near_empty vc).1 in
  let s2 := (age_s2 3 near_schedule1 near_schedule2 near_empty vc).1 in
  130 * Second <= w_time (s_world s1) - demo_time
  ∧ (caller_result <$> s_callers s2) = replicate 3 (Some (Ok true))
  ∧ ∃ u, w_time (s_world s1) - 192 * Second <= u <= w_time (s_world s2) ∧ turning "k" u true.
Proof.
  split_and!; [vm_compute; discriminate|vm_compute; reflexivity|].
  apply (valkey_staleness age_valkey tt_db tt_near defaultCodec turning (70 * Second) Second
    (age_calls 3 (ValkeyCache_Cache age_valkey)) (demo_world near_empty) _ _
    (age_s1 3 near_schedule1 near_empty (ValkeyCache_Cache age_valkey)).2
    (age_s2 3 near_schedule1 near_schedule2 near_empty (ValkeyCache_Cache age_valkey)).2 2
    (mkCall Background (ValkeyCache_Cache age_valkey) "k" Minute None turning_loader)).
  - intros _. apply lossy_valkey_near.
  - vm_compute. discriminate.
  - split; vm_compute; [discriminate|split; discriminate|discriminate|discriminate].
  - intros key u data _ Hd. discriminate Hd.
  - intros key u data _ Hd. discriminate Hd.
  - apply Forall_replicate. split; [reflexivity|]. split; [reflexivity|]. split.
    + eapply plain_bounded; reflexivity.
    + apply turning_fresh. apply _.
  - rewrite <-surjective_pairing. apply age_s1_timely. vm_compute. reflexivity.
  - reflexivity.
  - apply age_s1_waits; [lia|reflexivity].
  - rewrite <-!surjective_pairing. apply age_s2_timely. vm_compute. reflexivity.
  - vm_compute. reflexivity.
Defined.
