(* ===== verification/OpContext.v ===== *)
(** * WithOpTimeout: the context of the commands

    Each operation of RedisCache and ValkeyCache derives one context from the
    caller's (opContext, options.go) and issues its commands under that one.
    A pure function cannot be asked which arguments it passed on, but it can be
    compared with itself: two clients that agree on the commands issued under
    one context, and differ arbitrarily on all others, cannot be told apart by
    an operation that uses no other. *)
From stdpp Require Import vector.
From S2P Require Import Prelude Int64 Float64 Errors Runtime Envelope Hooks Codec.
From S2P Require Import Options Cache Server Redis Valkey FakeServer Instances.
From Stdlib Require Import ZArith Lia.
Local Open Scope Z_scope.

(** A bounded context is done when the caller's is, and by [start + d]. *)
Lemma bounded_context_done {S} ctx d start (w : World S) :
  (is_Some (ctx_Err ctx w) → is_Some (ctx_Err (bounded_context ctx d start) w))
  ∧ (0 < d → start + d <= w_time w → is_Some (ctx_Err (bounded_context ctx d start) w)).
Proof.
  unfold ctx_Err, bounded_context. cbn [cx_tokens cx_deadline].
  destruct (existsb _ _); [split; by eexists|].
  destruct (Z.leb_spec d 0); [split; [done|lia]|].
  split.
  - destruct (cx_deadline ctx) as [d'|]; [|by intros [? ?]].
    destruct (Z.leb_spec d' (w_time w)); [|by intros [? ?]].
    intros _. rewrite (proj2 (Z.leb_le _ _)) by lia. by eexists.
  - intros _ Ht. destruct (cx_deadline ctx) as [d'|];
      rewrite (proj2 (Z.leb_le _ _)) by lia; by eexists.
Qed.

(** Code that derives its context first. *)
Lemma under_bounded {S A} ctx d (w : World S) (k k' : Context → act S A) :
  k (bounded_context ctx d (read_clock w).1) ≡ k' (bounded_context ctx d (read_clock w).1) →
  run (ctx ← opContext ctx d; k ctx) w = run (ctx ← opContext ctx d; k' ctx) w.
Proof. intros Hk. rewrite !run_bind, run_opContext_bounded. apply Hk. Qed.

(** The same code, up to commands that do the same. *)
Ltac same_code :=
  repeat first [ reflexivity | assumption | eassumption
               | apply bind_proper; [intros ?|]
               | match goal with H : ∀ _, _ |- _ => apply H end ].

(** ** RedisCache *)

Section redis.
Context {S T : Type}.
Implicit Types (c : RedisCache S T) (cl : RedisClient S).

(** The same cache on another client. *)
Definition redis_on c cl : RedisCache S T :=
  mkRedis (r_addr c) cl (r_prefix c) (r_defaultTTL c) (r_codec c) (r_hooks c)
    (r_ttlJitter c) (r_negativeTTL c) (r_opTimeout c) (r_staleTTL c) (r_earlyBeta c)
    (r_ownsClient c).

(** Clients that do the same under one context. *)
Record redis_agree (ctx : Context) cl cl' : Prop := {
  ra_Nil : rc_Nil cl = rc_Nil cl';
  ra_Get k : rc_Get cl ctx k ≡ rc_Get cl' ctx k;
  ra_Set k v d : rc_Set cl ctx k v d ≡ rc_Set cl' ctx k v d;
  ra_Del k : rc_Del cl ctx k ≡ rc_Del cl' ctx k;
  ra_Ping : rc_Ping cl ctx ≡ rc_Ping cl' ctx;
  ra_MGet ks : rc_MGet cl ctx ks ≡ rc_MGet cl' ctx ks;
  ra_Exec pipe : rc_Exec cl ctx pipe ≡ rc_Exec cl' ctx pipe
}.
End redis.

(** WithOpTimeout on RedisCache: every command that Get, Set, Delete,
    GetMany, SetMany or Ping issues, it issues under one context: the caller's
    values and cancellation signals, and a deadline which is the caller's or
    the first clock reading of the operation plus OpTimeout, whichever is
    earlier, the caller's when OpTimeout is off.  So two clients that agree on
    the commands under that context, and differ in any way on all others, give
    the same results in the same world. *)
Theorem redis_op_context {S T} (c : RedisCache S T) ctx (w : World S) cl cl' :
  redis_agree (bounded_context ctx (r_opTimeout c) (read_clock w).1) cl cl' →
  (∀ k, run (redis_Get (redis_on c cl) ctx k) w = run (redis_Get (redis_on c cl') ctx k) w)
  ∧ (∀ k v ttl, run (redis_Set (redis_on c cl) ctx k v ttl) w
                = run (redis_Set (redis_on c cl') ctx k v ttl) w)
  ∧ (∀ k, run (redis_Delete (redis_on c cl) ctx k) w
          = run (redis_Delete (redis_on c cl') ctx k) w)
  ∧ (∀ ks, run (redis_GetMany (redis_on c cl) ctx ks) w
           = run (redis_GetMany (redis_on c cl') ctx ks) w)
  ∧ (∀ m ttl, run (redis_SetMany (redis_on c cl) ctx m ttl) w
              = run (redis_SetMany (redis_on c cl') ctx m ttl) w)
  ∧ run (redis_Ping (redis_on c cl) ctx) w = run (redis_Ping (redis_on c cl') ctx) w.
Proof.
  intros [Hn Hg Hs Hd Hp Hm He]. split_and!; intros.
  - apply under_bounded. apply bind_proper; [intros r|apply Hg].
    change (r_client (redis_on c cl)) with cl. change (r_client (redis_on c cl')) with cl'.
    by rewrite Hn.
  - apply under_bounded. same_code.
  - apply under_bounded. same_code.
  - unfold redis_GetMany. case_decide; [done|]. apply under_bounded. same_code.
  - unfold redis_SetMany. case_decide; [done|]. apply under_bounded. same_code.
  - apply under_bounded. same_code.
Qed.

(** ** ValkeyCache *)

Section valkey.
Context {S T : Type}.
Implicit Types (c : ValkeyCache S T) (cl : ValkeyClient S).

Definition valkey_on c cl : ValkeyCache S T :=
  mkValkey (v_addr c) cl (v_prefix c) (v_defaultTTL c) (v_codec c) (v_clientCacheTTL c)
    (v_hooks c) (v_ttlJitter c) (v_negativeTTL c) (v_opTimeout c) (v_staleTTL c)
    (v_earlyBeta c) (v_ownsClient c).

Record valkey_agree (ctx : Context) cl cl' : Prop := {
  va_Nil e : IsValkeyNil cl e = IsValkeyNil cl' e;
  va_Do cmd : vc_Do cl ctx cmd ≡ vc_Do cl' ctx cmd;
  va_DoCache cmd ttl : vc_DoCache cl ctx cmd ttl ≡ vc_DoCache cl' ctx cmd ttl;
  va_DoMulti cmds : vc_DoMulti cl ctx cmds ≡ vc_DoMulti cl' ctx cmds;
  va_DoMultiCache cmds : vc_DoMultiCache cl ctx cmds ≡ vc_DoMultiCache cl' ctx cmds
}.
End valkey.

(** The loop over the replies, up to the test for nil. *)
Lemma same_replies {S T} (c : ValkeyCache S T) cl cl' acc l :
  (∀ e, IsValkeyNil cl e = IsValkeyNil cl' e) →
  for_fold (valkey_GetMany_step (valkey_on c cl)) acc l
  ≡ for_fold (valkey_GetMany_step (valkey_on c cl')) acc l.
Proof.
  intros Hn. revert acc. induction l as [|[k r] l IH]; intros acc; [done|]. cbn [for_fold].
  apply bind_proper; [exact IH|]. destruct acc as [out first]. unfold valkey_GetMany_step.
  cbn [fst snd]. destruct (AsBytes r) as [data|e]; [done|].
  change (v_client (valkey_on c cl)) with cl. change (v_client (valkey_on c cl')) with cl'.
  by rewrite Hn.
Qed.

(** C29: WithOpTimeout on ValkeyCache: every command that Get, Set, Delete,
    GetMany, SetMany or Ping issues - through the client-side cache as well -
    it issues under one context: the caller's values and cancellation signals,
    and a deadline which is the caller's or the first clock reading of the
    operation plus OpTimeout, whichever is earlier, the caller's when OpTimeout
    is off.  So two clients that agree on the commands under that context, and
    differ in any way on all others, give the same results in the same world.
    Such a context is done as soon as the caller's is, and by the deadline. *)
Theorem valkey_op_context {S T} (c : ValkeyCache S T) ctx (w : World S) cl cl' :
  let opctx := bounded_context ctx (v_opTimeout c) (read_clock w).1 in
  valkey_agree opctx cl cl' →
  (∀ k, run (valkey_Get (valkey_on c cl) ctx k) w = run (valkey_Get (valkey_on c cl') ctx k) w)
  ∧ (∀ k v ttl, run (valkey_Set (valkey_on c cl) ctx k v ttl) w
                = run (valkey_Set (valkey_on c cl') ctx k v ttl) w)
  ∧ (∀ k, run (valkey_Delete (valkey_on c cl) ctx k) w
          = run (valkey_Delete (valkey_on c cl') ctx k) w)
  ∧ (∀ ks, run (valkey_GetMany (valkey_on c cl) ctx ks) w
           = run (valkey_GetMany (valkey_on c cl') ctx ks) w)
  ∧ (∀ m ttl, run (valkey_SetMany (valkey_on c cl) ctx m ttl) w
              = run (valkey_SetMany (valkey_on c cl') ctx m ttl) w)
  ∧ run (valkey_Ping (valkey_on c cl) ctx) w = run (valkey_Ping (valkey_on c cl') ctx) w
  ∧ ∀ w' : World S,
      (is_Some (ctx_Err ctx w') → is_Some (ctx_Err opctx w'))
      ∧ (0 < v_opTimeout c → (read_clock w).1 + v_opTimeout c <= w_time w' →
         is_Some (ctx_Err opctx w')).
Proof.
  intros opctx [Hn Hdo Hca Hmu Hmc]. split_and!; intros.
  - apply under_bounded. apply bind_proper; [intros r|].
    + destruct (AsBytes r) as [data|e]; [done|].
      change (v_client (valkey_on c cl)) with cl. change (v_client (valkey_on c cl')) with cl'.
      by rewrite Hn.
    + change (v_clientCacheTTL (valkey_on c cl)) with (v_clientCacheTTL c).
      change (v_clientCacheTTL (valkey_on c cl')) with (v_clientCacheTTL c).
      destruct (0 <? v_clientCacheTTL c); same_code.
  - apply under_bounded. same_code.
  - apply under_bounded. same_code.
  - unfold valkey_GetMany. case_decide; [done|]. apply under_bounded. apply bind_proper.
    + intros rs. apply bind_proper; [done|]. by apply same_replies.
    + change (v_clientCacheTTL (valkey_on c cl)) with (v_clientCacheTTL c).
      change (v_clientCacheTTL (valkey_on c cl')) with (v_clientCacheTTL c).
      destruct (0 <? v_clientCacheTTL c); same_code.
  - unfold valkey_SetMany. case_decide; [done|]. apply under_bounded.
    apply bind_proper; [intros l|done]. apply bind_proper; [intros [ks cmds]|done].
    apply bind_proper; [done|apply Hmu].
  - apply under_bounded. same_code.
  - apply bounded_context_done.
Qed.

(** A client that answers under one context only, and one that always does. *)
#[export] Instance Context_eq_dec : EqDecision Context.
Proof. solve_decision. Defined.

Definition strict_valkey (allowed : Context) (cl : ValkeyClient entries) : ValkeyClient entries :=
  let refused := mkResult (Err (ErrOther "refused")) (Some (ErrOther "refused")) in
  mkValkeyClient (IsValkeyNil cl)
    (λ ctx cmd, if decide (ctx = allowed) then vc_Do cl ctx cmd else mret refused)
    (λ ctx cmd ttl, if decide (ctx = allowed) then vc_DoCache cl ctx cmd ttl else mret refused)
    (λ ctx cmds, if decide (ctx = allowed) then vc_DoMulti cl ctx cmds
                 else mret (vreplicate (length cmds) refused))
    (λ ctx cmds, if decide (ctx = allowed) then vc_DoMultiCache cl ctx cmds
                 else mret (vreplicate (length cmds) refused))
    (vc_Close cl).

(** NewValkeyWithClient(WithOpTimeout(50ms)), called with a deadline a minute
    away: the command runs under a deadline 50 ms after the first reading. *)
Definition op_cache : ValkeyCache entries bool :=
  NewValkeyWithClient 0xc000090000 fake_valkey [WithOpTimeout (50 * Millisecond)].

Definition op_caller : Context := mkContext 7 [3%nat] (Some (demo_time + Minute)).

Lemma valkey_op_context_witness :
  let w := demo_world {[ "k" := mkEntry json_true None ]} in
  let opctx := bounded_context op_caller (50 * Millisecond) (read_clock w).1 in
  cx_deadline opctx = Some ((read_clock w).1 + 50 * Millisecond)
  ∧ (run (valkey_Get op_cache op_caller "k") w).1 = Ok json_true
  ∧ run (valkey_Get (valkey_on op_cache (strict_valkey opctx fake_valkey)) op_caller "k") w
    = run (valkey_Get (valkey_on op_cache fake_valkey) op_caller "k") w.
Proof.
  cbn zeta. split_and!; [vm_compute; reflexivity..|].
  apply (valkey_op_context op_cache op_caller (demo_world {[ "k" := mkEntry json_true None ]})
    (strict_valkey (bounded_context op_caller (50 * Millisecond)
       (read_clock (demo_world {[ "k" := mkEntry json_true None ]})).1) fake_valkey) fake_valkey).
  split; intros; cbn [strict_valkey vc_Do vc_DoCache vc_DoMulti vc_DoMultiCache IsValkeyNil];
    [reflexivity|rewrite decide_True by reflexivity; reflexivity..].
Defined.
