(* ===== verification/EarlyRefresh.v ===== *)
(** * When an entry is refreshed early

    The spread that shouldEarlyRefresh (envelope.go) adds to the current time
    is a float64 product of the cost of a load, beta and a logarithm, cut to an
    integer.  With a natural logarithm that keeps its range, the decision never
    falls earlier than 37 beta load costs before the freshness deadline - 37
    being above 53 ln 2, the largest value the draw allows - and always falls
    once the deadline has passed. *)
From S2P Require Import Prelude Int64 Float64 Errors Runtime Envelope Options Instances.
From Stdlib Require Import ZArith Lia.
Local Open Scope Z_scope.

(** ** Rounding up *)

(** A non-negative value rounds to a non-negative double, larger by at most one
    part in 2^52 and one unit. *)
Lemma round_up z s :
  0 <= s → 0 <= z → z <= 2 ^ (1500 + s) →
  ∃ n, round z s = Fin n ∧ 0 <= n ∧ 2 ^ 52 * (n * 2 ^ s) <= (2 ^ 52 + 1) * z + 2 ^ 52 * 2 ^ s.
Proof.
  intros Hs Hz Hmax. assert (0 < 2 ^ s) as H2s by (apply Z.pow_pos_nonneg; lia).
  set (p := Z.max 53 (digits z - s)).
  assert (Z.abs z <= 2 ^ (p + s)) as Hp.
  { destruct (decide (z = 0)) as [->|Hz0]; [lia|]. pose proof (digits_spec z Hz0).
    assert (2 ^ digits z <= 2 ^ (p + s)) by (apply Z.pow_le_mono_r; lia). lia. }
  assert (digits z <= 1501 + s) as Hd.
  { apply digits_le; [lia|]. rewrite Z.abs_eq by done.
    replace (1501 + s) with ((1500 + s) + 1) by lia. rewrite Z.pow_add_r by lia. lia. }
  destruct (round_error z s p) as (n & Hn & _ & He); [done|unfold unit_exp; lia|done|].
  exists n. split; [done|].
  assert (0 <= n) as Hn0.
  { unfold round in Hn. destruct (_ <=? _); [done|]. injection Hn as <-.
    pose proof (round_exp_bounds z s Hs). apply Z.mul_nonneg_nonneg; [|apply Z.pow_nonneg; lia].
    apply rne_ge; lia. }
  split; [done|]. destruct (Z.max_spec 53 (digits z - s)) as [[Hlt Hm]|[Hle Hm]];
    fold p in Hm; rewrite Hm in He.
  - assert (z ≠ 0) as Hz0 by (intros ->; unfold digits in Hlt; simpl in Hlt; lia).
    pose proof (digits_spec z Hz0) as [Hlow _].
    replace (digits z - s - 53 + s) with (digits z - 53) in He by lia.
    assert (2 ^ (digits z - 1) = 2 ^ 52 * 2 ^ (digits z - 53)) as Hsplit
      by (rewrite <-Z.pow_add_r by lia; f_equal; lia).
    lia.
  - replace (53 - 53 + s) with s in He by lia. lia.
Qed.

(** ** The spread *)

(** A logarithm of the draws that keeps the range of the natural one: from
    ln 2^-53 = -36.7 to ln 1 = 0. *)
Definition log_in_range (log : float64 → float64) : Prop :=
  ∀ k, ∃ m, log (fsub fone (of_draw k)) = Fin (- m) ∧ 0 <= m <= 37 * one_units.

(** The product, rounded three times; [b] and [m] are in units of 2^-1074. *)
Lemma spread_product d b m :
  0 < d < 2 ^ 62 → 0 < b → 37 * (d * b) <= 2 ^ 61 * one_units → 0 <= m <= 37 * one_units →
  ∃ y, fmul (fmul (of_int d) (Fin b)) (fneg (Fin (- m))) = Fin y
    ∧ 0 <= y ∧ 2 ^ 50 * y <= (2 ^ 50 + 1) * (37 * (d * b)) + 39 * 2 ^ 50.
Proof.
  intros Hd Hb Hdb Hm. pose proof one_units_pos as HU.
  destruct (of_int_error d ltac:(lia)) as (x & -> & [Hx _] & Hxe).
  assert (2 ^ 52 * x <= (2 ^ 52 + 1) * (d * one_units)) as A1 by lia. clear Hxe.
  assert (2 ^ 52 * (x * b) <= (2 ^ 52 + 1) * (d * b * one_units)) as A1b.
  { replace (2 ^ 52 * (x * b)) with (2 ^ 52 * x * b) by ring.
    replace ((2 ^ 52 + 1) * (d * b * one_units)) with ((2 ^ 52 + 1) * (d * one_units) * b) by ring.
    apply Z.mul_le_mono_nonneg_r; lia. }
  assert (one_units * one_units = 2 ^ 2148) as HUU
    by (unfold one_units; by rewrite <-Z.pow_add_r by lia).
  assert (d * b * one_units <= 2 ^ 61 * 2 ^ 2148) as Hbound.
  { rewrite <-HUU, Z.mul_assoc. apply Z.mul_le_mono_nonneg_r; lia. }
  rewrite <-Z.pow_add_r in Hbound by lia.
  cbn [fmul]. change unit_exp with 1074.
  destruct (round_up (x * b) 1074) as (y1 & -> & Hy1 & A2); [lia|lia| |].
  { transitivity (2 ^ 2210); [|apply Z.pow_le_mono_r; lia].
    replace 2210 with (61 + 2148 + 1) by lia. rewrite (Z.pow_add_r 2 (61 + 2148)) by lia.
    lia. }
  fold one_units in A2.
  assert (2 ^ 104 * y1 <= (2 ^ 52 + 1) ^ 2 * (d * b) + 2 ^ 104) as B1.
  { apply (Z.mul_le_mono_pos_r _ _ one_units); [done|]. lia. }
  cbn [fneg fmul]. change unit_exp with 1074. rewrite Z.opp_involutive.
  assert (y1 * m <= 37 * y1 * one_units) as Hym.
  { replace (37 * y1 * one_units) with (y1 * (37 * one_units)) by ring.
    apply Z.mul_le_mono_nonneg_l; lia. }
  destruct (round_up (y1 * m) 1074) as (y & -> & Hy & A3); [lia|lia| |].
  { transitivity (2 ^ 70 * one_units * one_units).
    - transitivity (37 * y1 * one_units); [done|]. apply Z.mul_le_mono_nonneg_r; lia.
    - rewrite <-Z.mul_assoc, HUU, <-Z.pow_add_r by lia. apply Z.pow_le_mono_r; lia. }
  fold one_units in A3. exists y. split_and!; [done|done|].
  assert (2 ^ 52 * y <= 37 * (2 ^ 52 + 1) * y1 + 2 ^ 52) as B2.
  { apply (Z.mul_le_mono_pos_r _ _ one_units); [done|]. lia. }
  generalize dependent (d * b). intros P. lia.
Qed.

(** C30: The window of early refreshes (XFetch).  For an entry with a deadline,
    a finite positive beta (here in units of 2^-1074) and any logarithm that
    keeps the range of the natural one, with a product below 2^61 ns: before
    the deadline by more than 37 x load cost x beta - up to one part in 2^50
    for the three roundings and a nanosecond - no draw whatever refreshes
    early; once the deadline has passed every draw does; for the same draw a
    later hit refreshes whenever an earlier one does.  An unknown load cost
    counts as a millisecond.  One number is drawn, nothing else is touched. *)
Theorem early_refresh_window {S} e t b (w : World S) :
  let d := if delta e <=? 0 then Millisecond else delta e in
  let r := run (shouldEarlyRefresh e t (Fin b)) w in
  IsZero (freshUntil e) = false → log_in_range (libm_log (w_orc w)) →
  0 < b → d < 2 ^ 62 → 37 * (d * b) <= 2 ^ 61 * one_units →
  ((2 ^ 50 + 1) * (37 * (d * b)) + 2 ^ 56 <= 2 ^ 50 * ((freshUntil e - t) * one_units) →
     r.1 = false)
  ∧ (freshUntil e < t → r.1 = true)
  ∧ (∀ t', t <= t' → r.1 = true → (run (shouldEarlyRefresh e t' (Fin b)) w).1 = true)
  ∧ r.2 = (read_rand w).2.
Proof.
  intros d r Hz Hlog Hb Hd Hdb. pose proof one_units_pos as HU.
  assert (0 < d) as Hd0 by (subst d; unfold Millisecond; destruct (Z.leb_spec (delta e) 0); lia).
  destruct (Hlog (draw (w_orc w) (w_draws w))) as (m & Hm & Hmr).
  destruct (spread_product d b m ltac:(lia) Hb Hdb Hmr) as (y & Hy & Hy0 & Hmax).
  assert (∀ t, run (shouldEarlyRefresh e t (Fin b)) w
    = (After (time_Add t (Z.quot y one_units)) (freshUntil e), (read_rand w).2)) as Hrun.
  { intros t'. unfold shouldEarlyRefresh. rewrite Hz. cbn [fle fzero flt negb orb].
    rewrite (proj2 (Z.ltb_lt 0 b)) by done. cbn [negb orb]. fold d.
    step. change (w_orc (read_rand w).2) with (w_orc w).
    change (read_rand w).1 with (of_draw (draw (w_orc w) (w_draws w))).
    rewrite Hm, Hy. cbn [to_int64].
    rewrite bool_decide_eq_true_2; [done|]. rewrite Z.quot_div_nonneg by lia.
    unfold is_int64, min_int64, max_int64. split; [pose proof (Z.div_pos y one_units); lia|].
    enough (y / one_units < 2 ^ 63) by lia. apply Z.div_lt_upper_bound; [done|].
    assert (39 <= one_units) by done. generalize dependent (d * b). intros. lia. }
  assert (0 <= Z.quot y one_units) as Hq0 by (apply Z.quot_pos; lia).
  subst r. rewrite !Hrun. cbn [fst snd]. unfold After, time_Add. split_and!.
  - intros Hfar. apply Z.ltb_ge.
    enough (Z.quot y one_units <= freshUntil e - t) by lia.
    rewrite Z.quot_div_nonneg by lia. apply Z.div_le_upper_bound; [done|].
    clear - Hfar Hmax. generalize dependent (d * b). intros P Hfar Hmax. lia.
  - intros Hlate. apply Z.ltb_lt. lia.
  - intros t' Ht' H. apply Z.ltb_lt in H. rewrite Hrun. cbn [fst].
    apply Z.ltb_lt. unfold time_Add. lia.
  - done.
Qed.

(** An entry that cost 20 ms, with beta 1: one second before its deadline no
    draw refreshes it early, past the deadline every draw does. *)
Lemma early_refresh_window_witness :
  let e := mkEnvelope (demo_time + Second) (20 * Millisecond) in
  (run (shouldEarlyRefresh e demo_time (Fin one_units)) demo_empty).1 = false
  ∧ (run (shouldEarlyRefresh e (demo_time + 2 * Second) (Fin one_units)) demo_empty).1 = true.
Proof.
  intros e.
  assert (log_in_range (libm_log (w_orc demo_empty))) as Hlog.
  { intros k. exists one_units. split; [reflexivity|]. pose proof one_units_pos. lia. }
  destruct (early_refresh_window e demo_time one_units demo_empty) as (Hnone & _);
    [reflexivity|exact Hlog|reflexivity|reflexivity|vm_compute; discriminate|].
  destruct (early_refresh_window e (demo_time + 2 * Second) one_units demo_empty)
    as (_ & Hall & _);
    [reflexivity|exact Hlog|reflexivity|reflexivity|vm_compute; discriminate|].
  split; [apply Hnone; vm_compute; discriminate|apply Hall; reflexivity].
Defined.
