(* ===== verification/Termination.v ===== *)
(** * The concurrent system terminates

    Callers and flights are finite trees of steps, but branch on the world, so
    no number bounds a run; and entering [do] or [doAsync] may add a flight of
    any size.  The order that decreases is lexicographic: the callers, place by
    place, and then the flights.  With the steps that are always possible while
    anything is unfinished, every run ends with every caller returned, whatever
    the scheduler and the environment do. *)
From S2P Require Import Prelude Int64 Float64 Errors Runtime Envelope Hooks Codec.
From S2P Require Import Options Cache Memory Group GetOrSet GetOrSetFacts Instances.
From S2P Require Import Flights FlightsThms.
From stdpp Require Import relations.
From Stdlib Require Import ZArith Lia.

(** ** Lists that decrease at one place *)

Section list_lt.
Context {A : Type} (R : relation A).

Inductive list_lt : relation (list A) :=
| list_lt_here x y l : R y x → list_lt (y :: l) (x :: l)
| list_lt_there x l l' : list_lt l' l → list_lt (x :: l') (x :: l).

Lemma list_lt_nil : Acc list_lt [].
Proof. constructor. intros l H. inversion H. Qed.

Lemma list_lt_cons x l : Acc R x → Acc list_lt l → Acc list_lt (x :: l).
Proof.
  intros Hx. revert l. induction Hx as [x Hx IHx]. intros l Hl.
  induction Hl as [l Hl IHl]. constructor. intros l' H. inversion H; subst.
  - apply IHx; [done|]. by constructor.
  - by apply IHl.
Qed.

Lemma list_lt_wf l : (∀ x, Acc R x) → Acc list_lt l.
Proof. intros H. induction l; [apply list_lt_nil|by apply list_lt_cons]. Qed.

Lemma list_lt_insert l i x y : l !! i = Some x → R y x → list_lt (<[i := y]> l) l.
Proof.
  revert i. induction l as [|z l IH]; intros [|i] Hi HR; try done.
  - injection Hi as ->. by constructor.
  - constructor. by apply IH.
Qed.
End list_lt.

(** ** The orders on callers and flights *)

Section order.
Context {S A : Type}.

(** What one step leaves of a flight. *)
Inductive phase_lt : phase S → phase S → Prop :=
| lt_running f w : phase_lt (Running (f w).1) (Running (Step f))
| lt_forgotten r : phase_lt (Forgotten r) (Running (Ret r))
| lt_delivered r : phase_lt (Delivered r) (Forgotten r).

Lemma phase_lt_wf ph : Acc phase_lt ph.
Proof.
  assert (∀ r, Acc phase_lt (Delivered r)) as Hd.
  { intros r. constructor. intros ph' H. inversion H. }
  assert (∀ r, Acc phase_lt (Forgotten r)) as Hf.
  { intros r. constructor. intros ph' H. inversion H. apply Hd. }
  destruct ph as [m|r|r]; [|apply Hf|apply Hd].
  induction m as [r|f IH] using act_rect'; constructor; intros ph' H; inversion H; subst;
    [apply Hf|apply IH].
Qed.

Definition flight_lt (f' f : flight S) : Prop := phase_lt (f_phase f') (f_phase f).

Lemma flight_lt_wf f : Acc flight_lt f.
Proof.
  destruct f as [key ph]. revert key. induction (phase_lt_wf ph) as [ph _ IH].
  intros key. constructor. intros [key' ph'] H. by apply IH.
Qed.

(** And of a caller. *)
Inductive caller_lt : caller S A → caller S A → Prop :=
| lt_step f w : caller_lt (Caller (f w).1) (Caller (PStep f))
| lt_wait ctx key fn n k : caller_lt (Waiting ctx key n k) (Caller (PDo ctx key fn k))
| lt_async key fn k : caller_lt (Caller k) (Caller (PAsync key fn k))
| lt_resume ctx key n k r : caller_lt (Caller (k r)) (Waiting ctx key n k)
| lt_return a : caller_lt (Finished a) (Caller (PRet a)).

Lemma caller_lt_wf c : Acc caller_lt c.
Proof.
  assert (∀ a, Acc caller_lt (Finished a)) as Hf.
  { intros a. constructor. intros c' H. inversion H. }
  assert (∀ p, Acc caller_lt (Caller p)) as Hc.
  { intros p. induction p as [a|f IH|ctx key fn k IH|key fn k IH] using prog_rect';
      constructor; intros c' H; inversion H; subst; [apply Hf|apply IH| |apply IH].
    constructor. intros c2 H2. inversion H2; subst. apply IH. }
  destruct c as [p|ctx key n k|a]; [apply Hc| |apply Hf].
  constructor. intros c' H. inversion H; subst. apply Hc.
Qed.

Lemma lt_irrefl {B} (R : relation B) x : Acc R x → ¬ R x x.
Proof. induction 1 as [x _ IH]. intros H. by apply (IH x). Qed.
End order.

(** ** Runs of the system *)

Section system.
Context {G S A : Type} `{!SingleFlight G} `{!SingleFlightLaws G}.
Implicit Types (s : system G S A) (fs : list (flight S)) (cs : list (caller S A)).

(** A step in which a caller or a flight moves. *)
Definition work s s' : Prop :=
  step_sys s s' ∧ (s_callers s' ≠ s_callers s ∨ s_flights s' ≠ s_flights s).

(** The environment moves: time passes, signals fire. *)
Definition env_sys s s' : Prop :=
  ∃ w', env_step (s_world s) w'
  ∧ s' = mkSystem w' (s_group s) (s_flights s) (s_callers s).

(** Work, after any interference of the environment. *)
Definition round s s' : Prop := ∃ s1, rtc env_sys s s1 ∧ work s1 s'.

Lemma env_sys_same s s' :
  rtc env_sys s s' → s_callers s' = s_callers s ∧ s_flights s' = s_flights s
    ∧ rtc step_sys s s'.
Proof.
  induction 1 as [|[w g fs cs] s2 s3 (w' & Hw & ->) _ (IH1 & IH2 & IH3)]; [done|].
  cbn in *. split_and!; [done..|]. eapply rtc_l; [by apply S_env|done].
Qed.

(** Every step that is no work is the environment's; work decreases the
    callers or, leaving them, the flights. *)
Lemma step_lt s s' :
  step_sys s s' →
  (s_callers s' = s_callers s ∧ s_flights s' = s_flights s)
  ∨ list_lt caller_lt (s_callers s') (s_callers s)
  ∨ s_callers s' = s_callers s ∧ list_lt flight_lt (s_flights s') (s_flights s).
Proof.
  destruct 1; cbn [s_callers s_flights]; [right..|by left];
    [left; eapply list_lt_insert; [done|constructor]..| | |];
    right; (split; [done|]); (eapply list_lt_insert; [done|constructor]).
Qed.

Lemma work_sn cs fs s :
  Acc (list_lt caller_lt) cs → s_callers s = cs → s_flights s = fs → sn round s.
Proof.
  intros Hcs. revert fs s. induction Hcs as [cs _ IHc]. intros fs.
  pose proof (list_lt_wf flight_lt fs flight_lt_wf) as Hfs.
  induction Hfs as [fs _ IHf]. intros s Hc Hf. constructor.
  intros s' (s1 & Henv & Hstep & Hmoved).
  destruct (env_sys_same _ _ Henv) as (Hc1 & Hf1 & _).
  destruct (step_lt _ _ Hstep) as [[H1 H2]|[Hlt|[H1 Hlt]]].
  - by destruct Hmoved.
  - eapply IHc; [|done..]. congruence.
  - eapply IHf; [|congruence|done]. congruence.
Qed.

Lemma round_sn s : sn round s.
Proof. eapply work_sn; [apply list_lt_wf, caller_lt_wf|done|done]. Qed.

(** ** Something can always move until everything is finished *)

Definition finished (c : caller S A) : Prop :=
  match c with Finished _ => True | _ => False end.
Definition delivered (f : flight S) : Prop :=
  match f_phase f with Delivered _ => True | _ => False end.

#[export] Instance finished_dec c : Decision (finished c).
Proof. destruct c; apply _. Defined.
#[export] Instance delivered_dec f : Decision (delivered f).
Proof. unfold delivered. destruct (f_phase f); apply _. Defined.

Definition all_done s : Prop :=
  Forall finished (s_callers s) ∧ Forall delivered (s_flights s).

Lemma moved_callers cs i c c' : cs !! i = Some c → caller_lt c' c → <[i := c']> cs ≠ cs.
Proof.
  intros Hi Hlt E. apply (list_lt_insert caller_lt _ _ _ _ Hi) in Hlt. rewrite E in Hlt.
  by apply (lt_irrefl _ _ (list_lt_wf _ cs caller_lt_wf)) in Hlt.
Qed.

Lemma moved_flights fs n f f' : fs !! n = Some f → flight_lt f' f → <[n := f']> fs ≠ fs.
Proof.
  intros Hn Hlt E. apply (list_lt_insert flight_lt _ _ _ _ Hn) in Hlt. rewrite E in Hlt.
  by apply (lt_irrefl _ _ (list_lt_wf _ fs flight_lt_wf)) in Hlt.
Qed.

(** A flight that has not delivered can go on. *)
Lemma flight_moves s n f :
  s_flights s !! n = Some f → ¬ delivered f → ∃ s', work s s'.
Proof.
  destruct s as [w g fs cs], f as [key ph]. cbn [s_flights]. intros Hn Hd.
  destruct ph as [[r|h]|r|r]; [| | |by destruct Hd]; eexists.
  - split; [by eapply S_forget|right]. eapply moved_flights; [exact Hn|constructor].
  - split; [by eapply S_flight|right]. eapply moved_flights; [exact Hn|constructor].
  - split; [by eapply S_deliver|right]. eapply moved_flights; [exact Hn|constructor].
Qed.

(** A caller that has not returned can go on, once the flights have delivered. *)
Lemma caller_moves s i c :
  flight_inv s → Forall delivered (s_flights s) →
  s_callers s !! i = Some c → ¬ finished c → ∃ s', work s s'.
Proof.
  intros Hinv Hd Hi Hf. destruct s as [w g fs cs]. cbn [s_callers s_flights] in *.
  destruct c as [p|ctx key n k|a]; [|clear Hf|by destruct Hf].
  - clear Hf. destruct p as [a|f|ctx key fn k|key fn k].
    3,4: destruct (DoChan key fn g fs) as [[n g'] fs'] eqn:E.
    all: eexists; (split; [by econstructor|left]);
      cbn [s_callers]; eapply moved_callers; [exact Hi|constructor].
  - destruct (inv_waiting _ Hinv _ _ _ _ _ Hi) as (f & Hn & _). cbn [s_flights] in Hn.
    rewrite Forall_forall in Hd. pose proof (Hd f (list_elem_of_lookup_2 _ _ _ Hn)) as Hf.
    unfold delivered in Hf. destruct (f_phase f) as [| |r] eqn:E; [done..|].
    eexists. split; [by eapply S_receive|left]. cbn [s_callers].
    eapply moved_callers; [exact Hi|constructor].
Qed.

Lemma progress s : flight_inv s → all_done s ∨ ∃ s', work s s'.
Proof.
  intros Hinv. destruct (Forall_Exists_dec delivered (λ f, ¬ delivered f)
    (λ f, decide (delivered f)) (s_flights s)) as [Hd|Hd].
  - destruct (Forall_Exists_dec finished (λ c, ¬ finished c)
      (λ c, decide (finished c)) (s_callers s)) as [Hf|Hf]; [by left|right].
    apply Exists_exists in Hf as (c & [i Hi]%list_elem_of_lookup & Hc).
    by eapply caller_moves.
  - right. apply Exists_exists in Hd as (f & [n Hn]%list_elem_of_lookup & Hf).
    by eapply flight_moves.
Qed.

(** C18: Every run of the system ends, and ends well.  From any reachable state:
    the callers and flights can only take finitely many steps, whatever the
    scheduler chooses and however often time passes and contexts are canceled
    in between; a state in which nobody can move is one in which every caller
    has returned and every flight has delivered - there is no deadlock -; and
    from every state such a one is reached.  (Loaders and backends are code
    that returns, fails or panics.) *)
Theorem concurrent_termination w (ps : list (prog S A)) s :
  reachable w ps s →
  sn round s
  ∧ (all_done s ↔ ¬ ∃ s', work s s')
  ∧ ∃ s', rtc step_sys s s' ∧ all_done s'.
Proof.
  intros Hr. pose proof (flight_inv_reachable _ _ _ Hr) as Hinv. split_and!.
  - apply round_sn.
  - split; [|intros Hno; destruct (progress _ Hinv); [done|by destruct Hno]].
    intros Hdone (s' & Hstep & Hmoved). revert Hdone. clear -Hstep Hmoved.
    intros [Hc Hf].
    assert (∀ i c, s_callers s !! i = Some c → finished c) as Hc'
      by (intros i c; by apply Forall_lookup_1).
    assert (∀ n f, s_flights s !! n = Some f → delivered f) as Hf'
      by (intros n f; by apply Forall_lookup_1).
    destruct Hstep; cbn [s_callers s_flights] in *;
      try (by apply (Hc' _ _ H)); try (by apply (Hf' _ _ H)); by destruct Hmoved.
  - pose proof (round_sn s) as Hsn. clear Hr. induction Hsn as [s _ IH].
    destruct (progress _ Hinv) as [Hd|[s1 Hw]]; [by exists s|].
    destruct (IH s1) as (s' & Hst & Hd).
    { exists s. split; [apply rtc_refl|done]. }
    { eapply flight_inv_step; [done|apply Hw]. }
    exists s'. split; [|done]. eapply rtc_l; [apply Hw|done].
Qed.
End system.

Lemma concurrent_termination_witness :
  ∃ s', rtc step_sys demo_waiting s' ∧ all_done s'.
Proof.
  apply (concurrent_termination demo_empty (call_prog <$> demo_calls) demo_waiting
    demo_waiting_reachable).
Defined.
