(* ===== verification/BatchSpec.v ===== *)
(** * GetOrSetMany against a reference function

    What a batch call answers is a function of the bytes its keys show and of
    the loader's answer: [many_spec], a few lines over lists, with no loops,
    no backend, no clock.  The program - deduplicating loop, batched or
    per-key reads, decoding and packing loops, write phase - is equivalent to
    it on every backend that keeps its contract; so neither the choice of
    backend nor the BatchCache interface can be observed in a result. *)
From S2P Require Import Prelude Int64 Float64 Errors Runtime Envelope Hooks Codec.
From S2P Require Import Options Cache Memory Group GetOrSet GetOrSetFacts Batch BatchFacts.
From S2P Require Import Instances.
From Stdlib Require Import ZArith Lia.
Local Open Scope Z_scope.

(** ** The reference *)

(** Every element once, at its first place. *)
Fixpoint nub (l : list string) : list string :=
  match l with
  | [] => []
  | k :: l => k :: filter (λ k', k' ≠ k) (nub l)
  end.

Section reference.
Context {T : Type} (codec : Codec T) (cfg : cacheConfig).

(** What the bytes of a key say: load it, or it is known absent or has a value. *)
Definition answer (b : option bytes) : option (option T) :=
  data ← b;
  if isNegativeEntry data then Some None
  else match Unmarshal codec (parseStored cfg data).2 with
       | Ok v => Some (Some v)
       | Err _ => None
       end.

Definition unanswered (b : option bytes) : bool :=
  match answer b with None => true | Some _ => false end.

Definition tabulate (keys : list string) (f : string → option T) : gmap string T :=
  list_to_map (omap (λ k, v ← f k; Some (k, v)) keys).

Definition many_spec (shown : string → option bytes)
    (o : list string → outcome (result (gmap string T))) (keys : list string)
    : outcome (result (gmap string T)) :=
  let missing := filter (λ k, unanswered (shown k) = true) (nub keys) in
  if decide (missing = []) then
    Returned (Ok (tabulate (nub keys) (λ k, mjoin (answer (shown k)))))
  else
    match o missing with
    | Returned (Ok loaded) =>
        Returned (Ok (tabulate (nub keys) (λ k, default (loaded !! k) (answer (shown k)))))
    | r => r
    end.
End reference.

(** ** Lemmas *)

Lemma elem_of_nub k l : k ∈ nub l ↔ k ∈ l.
Proof.
  induction l as [|x l IH]; cbn [nub]; [done|].
  rewrite !elem_of_cons, list_elem_of_filter, IH. destruct (decide (k = x)); tauto.
Qed.

Lemma NoDup_nub l : NoDup (nub l).
Proof.
  induction l as [|x l IH]; cbn [nub]; [apply NoDup_nil_2|].
  apply NoDup_cons. split; [|by apply NoDup_filter].
  rewrite list_elem_of_filter. by intros [? _].
Qed.

Lemma lookup_tabulate {T} keys (f : string → option T) k :
  NoDup keys → tabulate keys f !! k = if decide (k ∈ keys) then f k else None.
Proof.
  intros Hnd. unfold tabulate. induction keys as [|x keys IH]; cbn [omap list_omap].
  { rewrite decide_False by apply not_elem_of_nil. apply lookup_empty. }
  apply NoDup_cons in Hnd as [Hx Hnd]. specialize (IH Hnd).
  destruct (decide (k = x)) as [->|Hne].
  - rewrite (decide_True (P := x ∈ x :: keys)) by apply list_elem_of_here.
    destruct (f x) as [v|]; cbn [mbind option_bind].
    + cbn. apply lookup_insert_eq.
    + rewrite IH. by rewrite decide_False.
  - assert (∀ A (a b : A), (if decide (k ∈ keys) then a else b)
      = if decide (k ∈ x :: keys) then a else b) as Hdec.
    { intros A a b. apply decide_ext. rewrite elem_of_cons. tauto. }
    rewrite <-Hdec. destruct (f x) as [v|]; cbn [mbind option_bind]; [|done].
    cbn. by rewrite lookup_insert_ne.
Qed.

Lemma filter_keeps {A} (P : A → Prop) `{!∀ x, Decision (P x)} (l : list A) :
  (∀ x, x ∈ l → P x) → filter P l = l.
Proof.
  induction l as [|x l IH]; intros Hl; [done|]. rewrite filter_cons, decide_True.
  - f_equal. apply IH. intros y Hy. by apply Hl, list_elem_of_further.
  - apply Hl, list_elem_of_here.
Qed.

(** The deduplicating loop computes the reference. *)
Lemma uniq_fold_nub keys u (seen : gset string) :
  (∀ k, k ∈ seen ↔ k ∈ u) →
  (foldl uniq_step (u, seen) keys).1 = u ++ filter (λ k, k ∉ u) (nub keys).
Proof.
  revert u seen. induction keys as [|x keys IH]; intros u seen Hs; cbn [foldl nub].
  { by rewrite app_nil_r. }
  unfold uniq_step at 2. rewrite filter_cons. case_decide as Hx.
  - rewrite IH by done. f_equal. rewrite decide_False by (intros Hn; apply Hn, Hs, Hx).
    rewrite list_filter_filter. apply list_filter_iff. intros k. split; [|by intros []].
    intros Hk. split; [done|]. intros ->. by apply Hk, Hs.
  - assert (x ∉ u) as Hu by by rewrite <-Hs.
    rewrite (decide_True (P := x ∉ u)) by done.
    rewrite IH by (intros k; rewrite elem_of_union, elem_of_singleton, elem_of_snoc, Hs; tauto).
    rewrite <-(assoc_L (++)). cbn [app]. do 2 f_equal.
    rewrite list_filter_filter. apply list_filter_iff. intros k.
    rewrite elem_of_snoc. tauto.
Qed.

Lemma uniqKeys_nub keys : uniqKeys keys = nub keys.
Proof.
  unfold uniqKeys. rewrite uniq_fold_nub by set_solver. cbn [app].
  apply filter_keeps. intros k _ H. by apply not_elem_of_nil in H.
Qed.

Lemma filter_ext_in {A} (P Q : A → Prop) `{!∀ x, Decision (P x), !∀ x, Decision (Q x)}
    (l : list A) :
  (∀ x, x ∈ l → P x ↔ Q x) → filter P l = filter Q l.
Proof.
  induction l as [|x l IH]; intros Hl; [done|].
  assert (filter P l = filter Q l) as E by (apply IH; intros; by apply Hl, list_elem_of_further).
  pose proof (Hl x (list_elem_of_here _ _)) as Hx. rewrite !filter_cons, E.
  repeat case_decide; tauto.
Qed.

Section answers.
Context {T : Type} (codec : Codec T) (cfg : cacheConfig).
Context (raw : gmap string bytes) (shown : string → option bytes) (keys : list string).
Context (Hraw : ∀ k, k ∈ keys → raw !! k = shown k).

Lemma answer_needs_load k :
  k ∈ keys → needs_load codec cfg raw k = unanswered codec cfg (shown k).
Proof using Hraw.
  intros Hk. unfold needs_load, undecodable, unanswered, answer. rewrite Hraw by done.
  destruct (shown k) as [data|]; cbn [mbind option_bind]; [|done].
  rewrite bool_decide_eq_false_2 by done. destruct (isNegativeEntry data); [done|].
  by destruct (Unmarshal codec _).
Qed.

Lemma answer_cached k :
  k ∈ keys → cached_value codec cfg raw k = mjoin (answer codec cfg (shown k)).
Proof using Hraw.
  intros Hk. unfold cached_value, answer. rewrite Hraw by done.
  destruct (shown k) as [data|]; cbn [mbind option_bind]; [|done].
  destruct (isNegativeEntry data); [done|]. by destruct (Unmarshal codec _).
Qed.

Lemma answer_batch_value loaded k :
  k ∈ keys →
  batch_value codec cfg raw loaded k = default (loaded !! k) (answer codec cfg (shown k)).
Proof using Hraw.
  intros Hk. unfold batch_value. rewrite answer_needs_load, answer_cached by done.
  unfold unanswered. by destruct (answer codec cfg (shown k)).
Qed.

Lemma missing_spec :
  missingKeys codec cfg raw keys
  = filter (λ k, unanswered codec cfg (shown k) = true) (nub keys).
Proof using Hraw.
  unfold missingKeys. rewrite uniqKeys_nub. apply filter_ext_in. intros k Hk.
  by rewrite answer_needs_load by by apply elem_of_nub.
Qed.

(** A result that holds a value for each key is the tabulated one. *)
Lemma tabulate_result (res : gmap string T) f g :
  (∀ k, res !! k = if decide (k ∈ keys) then f k else None) →
  (∀ k, k ∈ keys → f k = g k) → res = tabulate (nub keys) g.
Proof.
  intros Hres Hfg. apply map_eq. intros k. rewrite Hres, lookup_tabulate by apply NoDup_nub.
  destruct (decide (k ∈ keys)) as [Hk|Hk].
  - rewrite decide_True by by apply elem_of_nub. by apply Hfg.
  - rewrite decide_False; [done|]. by rewrite elem_of_nub.
Qed.
End answers.

(** C21: GetOrSetMany is equivalent to its reference on every backend that keeps
    the contract, with or without batch operations: if each key shows the same
    bytes throughout the read phase and the loader's answer depends on the keys
    only, the outcome - values, error or panic - is [many_spec] of what the
    keys show.  So two backends, or the batched and the per-key path of one,
    that show the same bytes give the same answer, whatever the duplicates and
    the order in the input, the TTL, the jitter, and the result of the writes. *)
Theorem GetOrSetMany_equiv {S T} `{!JSON T} (c : Cache S) view lifetime
    `{!BatchCacheSpec c view lifetime} ctx keys ttl (codec : option (Codec T)) loader o
    shown (w : World S) :
  0 <= w_time w →
  (∀ ctx ks w', (run (loader ctx ks) w').1 = o ks) →
  (∀ k t, k ∈ keys → w_time w <= t <= w_time (run (readRaw ctx c (uniqKeys keys)) w).2 →
     view (w_store w) k t = shown k) →
  (run (GetOrSetManyWithCodec ctx c keys ttl codec loader) w).1
  = many_spec (codec_or_default codec) (configOf (c_config c)) shown o keys.
Proof.
  intros Hw Hload Hshown. destruct (uniqKeys_spec keys) as (Hnd & Hin & _).
  destruct (readRaw_spec c view lifetime ctx (uniqKeys keys) w Hw Hnd) as [_ _ Hseen].
  destruct (run_GetOrSetMany ctx c keys ttl codec loader w) as (res & w2 & _ & Hres & ->).
  set (raw := (run (readRaw ctx c (uniqKeys keys)) w).1) in *.
  set (cdc := codec_or_default codec) in *. set (cfg := configOf (c_config c)) in *.
  assert (∀ k, k ∈ keys → raw !! k = shown k) as Hraw.
  { intros k Hk. destruct (Hseen k) as (t & Ht & ->); [by apply Hin|]. by apply Hshown. }
  unfold many_spec. rewrite <-(missing_spec cdc cfg raw shown keys Hraw).
  case_decide as Hm.
  - cbn [fst]. do 2 f_equal. eapply tabulate_result; [done|]. intros k Hk.
    by apply (answer_cached cdc cfg raw shown keys).
  - rewrite run_loadMissing. cbn zeta. rewrite Hload.
    destruct (o (missingKeys cdc cfg raw keys)) as [[loaded|e]|v]; [|done|done].
    cbn [fst]. do 2 f_equal. eapply tabulate_result; [by apply packed_result|].
    intros k Hk. by apply (answer_batch_value cdc cfg raw shown keys).
Qed.

(** Two keys, one of them twice, one cached; the loader knows "b" only. *)
Definition demo_answers (ks : list string) : outcome (result (gmap string bool)) :=
  Returned (Ok (if decide ("b" ∈ ks) then {["b" := false]} else ∅)).
Definition demo_many : batch_loader items bool := λ _ ks, mret (demo_answers ks).

Lemma GetOrSetMany_equiv_witness :
  (run (GetOrSetManyWithCodec Background demo_cache ["b"; "k"; "b"; "a"] Minute None demo_many)
     (demo_with demo_fresh_entry)).1
  = Returned (Ok {["b" := false; "k" := true]}).
Proof.
  rewrite (GetOrSetMany_equiv demo_cache (mem_view demo_memory) (mem_lifetime demo_memory)
    Background ["b"; "k"; "b"; "a"] Minute None demo_many demo_answers
    (λ k, if decide (k = "k") then Some demo_fresh_entry else None)).
  - vm_compute. reflexivity.
  - vm_compute. discriminate.
  - intros ctx ks w'. reflexivity.
  - intros k t Hk Ht. assert (t < demo_time + Minute) as Hlt.
    { eapply Z.le_lt_trans; [apply Ht|]. vm_compute. reflexivity. }
    repeat (apply elem_of_cons in Hk as [->|Hk]); [..|by apply not_elem_of_nil in Hk];
      unfold mem_view; try reflexivity.
    change (item_at (mkItem demo_fresh_entry (demo_time + Minute)) t = Some demo_fresh_entry).
    unfold item_at, Before. cbn [mi_deadline mi_val].
    by rewrite (proj2 (Z.ltb_lt _ _) Hlt), orb_true_r.
Defined.
