(* ===== verification/MemoryHeap.v ===== *)
(** * MemoryCache and the caller's slices (memory.go)

    A Go slice is a reference: whoever holds it can change the bytes behind it
    at any time.  Memory.v treats bytes as values; here the same operations
    are modelled over a heap, with [bytes.Clone] where memory.go calls it, and
    a client that holds slices, writes through them at will and passes them
    to the cache.  The development shows that the two models cannot be told
    apart: "values are copied on Set and Get so callers can't alias the stored
    bytes".  A slice is the reference of its whole backing array (the package
    hands none of its sub-slices to a client); nil is a reference to an empty
    one. *)
From S2P Require Import Prelude Int64 Float64 Errors Runtime Envelope Hooks Codec.
From S2P Require Import Options Cache Memory Instances.
From stdpp Require Import gmap.
From Stdlib Require Import ZArith Lia.
Local Open Scope Z_scope.

(** ** Definitions *)

Abbreviation slice := nat (only parsing).

(** [memoryItem] with its slice, and the map of the cache beside the heap. *)
Record hitem := mkHItem {
  hi_val : slice;
  hi_deadline : Time
}.

Record hstore := mkHStore {
  hs_heap : gmap nat bytes;
  hs_items : gmap string hitem
}.

Definition set_heap (h : gmap nat bytes) (s : hstore) : hstore := mkHStore h (hs_items s).
Definition set_items (i : gmap string hitem) (s : hstore) : hstore := mkHStore (hs_heap s) i.

(** The bytes behind a slice. *)
Definition deref (s : hstore) (r : slice) : bytes := default [] (hs_heap s !! r).

(** A new array, and [bytes.Clone]. *)
Definition alloc (b : bytes) : act hstore slice :=
  atom (λ w, let r := fresh (dom (hs_heap (w_store w))) in
             (r, set_store (set_heap (<[r := b]> (hs_heap (w_store w))) (w_store w)) w)).

Definition bytes_Clone (r : slice) : act hstore slice :=
  s ← get_store; alloc (deref s r).

Section heap.
Context {T : Type}.
Implicit Types c : MemoryCache T.

Definition hmem_lookup c (key : string) : act hstore (option slice) :=
  s ← get_store;
  match hs_items s !! mem_key c key with
  | None => mret None
  | Some it =>
      if IsZero (hi_deadline it) then r ← bytes_Clone (hi_val it); mret (Some r)
      else
        t ← now;
        if negb (Before t (hi_deadline it))
        then modify_store (λ s, set_items (delete (mem_key c key) (hs_items s)) s);;
             mret None
        else r ← bytes_Clone (hi_val it); mret (Some r)
  end.

Definition hmem_Get c (_ : Context) (key : string) : act hstore (result slice) :=
  v ← locked (hmem_lookup c key);
  match v with
  | None =>
      hooks_miss (m_hooks c) key;;
      mret (Err (Errorf "%w: %s" [AStr key] (Some ErrCacheMiss)))
  | Some val =>
      hooks_hit (m_hooks c) key;;
      mret (Ok val)
  end.

Definition hnewItem c (val : slice) (ttl : Duration) : act hstore hitem :=
  s ← get_store;
  let ttl := if ttl <=? 0 then m_defaultTTL c else ttl in
  ttl ← (if negb (hasEnvelope (deref s val)) then applyJitter ttl (m_ttlJitter c)
         else mret ttl);
  r ← bytes_Clone val;
  if 0 <? ttl
  then t ← now; mret (mkHItem r (time_Add t ttl))
  else mret (mkHItem r zero_time).

Definition hmem_put c (key : string) (it : hitem) : act hstore () :=
  modify_store (λ s, set_items (<[mem_key c key := it]> (hs_items s)) s).

Definition hmem_Set c (_ : Context) (key : string) (val : slice) (ttl : Duration)
    : act hstore (option error) :=
  it ← hnewItem c val ttl;
  locked (hmem_put c key it);;
  mret None.

Definition hmem_GetMany_step c (acc : gmap string slice * list string * list string)
    (k : string) : act hstore (gmap string slice * list string * list string) :=
  let '(out, hits, misses) := acc in
  v ← hmem_lookup c k;
  match v with
  | None => mret (out, hits, misses ++ [k])
  | Some val => mret (<[k := val]> out, hits ++ [k], misses)
  end.

Definition hmem_GetMany c (_ : Context) (keys : list string)
    : act hstore (result (gmap string slice)) :=
  r ← locked (for_fold (hmem_GetMany_step c) (∅, [], []) keys);
  let '(out, hits, misses) := r in
  for_each (hooks_hit (m_hooks c)) hits;;
  for_each (hooks_miss (m_hooks c)) misses;;
  mret (Ok out).

Definition hmem_SetMany c (_ : Context) (m : gmap string slice) (ttl : Duration)
    : act hstore (option error) :=
  locked (
    l ← range m;
    for_each (λ kv : string * slice,
      it ← hnewItem c kv.2 ttl; hmem_put c kv.1 it) l);;
  mret None.

Definition hmem_Delete c (_ : Context) (key : string) : act hstore (option error) :=
  locked (modify_store (λ s, set_items (delete (mem_key c key) (hs_items s)) s));;
  mret None.
End heap.

(** ** The abstraction

    What the heap store stands for: the map with the bytes in place of the
    slices. *)
Definition item_value (s : hstore) (it : hitem) : memoryItem :=
  mkItem (deref s (hi_val it)) (hi_deadline it).

Definition abs (s : hstore) : items := item_value s <$> hs_items s.

Definition abs_world (w : World hstore) : World items :=
  mkWorld (w_orc w) (w_reads w) (w_draws w) (w_ranges w) (w_selects w)
    (w_time w) (w_canceled w) (abs (w_store w)) (w_trace w).

(** The cache's slices are in the heap, and no client holds one of them. *)
Record isolated (held : gset slice) (s : hstore) : Prop := {
  iso_items k it : hs_items s !! k = Some it →
    hi_val it ∉ held ∧ hi_val it ∈ dom (hs_heap s);
  iso_held : held ⊆ dom (hs_heap s)
}.

(** The heap only grows while the cache runs. *)
Definition grows (s s' : hstore) : Prop := hs_heap s ⊆ hs_heap s'.

(** ** Lemmas *)

Lemma grows_refl s : grows s s.
Proof. unfold grows. reflexivity. Qed.

Lemma grows_trans s1 s2 s3 : grows s1 s2 → grows s2 s3 → grows s1 s3.
Proof. unfold grows. by intros ->. Qed.

Lemma deref_grows s s' r : grows s s' → r ∈ dom (hs_heap s) → deref s' r = deref s r.
Proof.
  intros Hg [b Hb]%elem_of_dom. unfold deref. rewrite Hb.
  by rewrite (lookup_weaken _ _ _ _ Hb Hg).
Qed.

Lemma run_alloc b w :
  run (alloc b) w
  = (fresh (dom (hs_heap (w_store w))),
     set_store (set_heap (<[fresh (dom (hs_heap (w_store w))) := b]>
       (hs_heap (w_store w))) (w_store w)) w).
Proof. unfold alloc. by rewrite run_atom. Qed.

Lemma run_Clone r w : run (bytes_Clone r) w = run (alloc (deref (w_store w) r)) w.
Proof. unfold bytes_Clone. by step. Qed.

(** A fresh array: held by nobody, and nothing the cache stores changes. *)
Lemma alloc_spec held b w :
  isolated held (w_store w) →
  let r := (run (alloc b) w).1 in let w' := (run (alloc b) w).2 in
  abs_world w' = abs_world w ∧ deref (w_store w') r = b
  ∧ grows (w_store w) (w_store w') ∧ isolated held (w_store w')
  ∧ isolated ({[r]} ∪ held) (w_store w')
  ∧ r ∈ dom (hs_heap (w_store w')) ∧ hs_items (w_store w') = hs_items (w_store w)
  ∧ r ∉ dom (hs_heap (w_store w)).
Proof.
  intros [Hit Hheld]. rewrite run_alloc. cbn [fst snd set_store w_store set_heap hs_heap].
  set (r := fresh (dom (hs_heap (w_store w)))).
  assert (r ∉ dom (hs_heap (w_store w))) as Hr by apply is_fresh.
  set (s' := mkHStore (<[r := b]> (hs_heap (w_store w))) (hs_items (w_store w))).
  assert (grows (w_store w) s') as Hg.
  { apply insert_subseteq. by apply not_elem_of_dom. }
  assert (abs s' = abs (w_store w)) as Habs.
  { unfold abs. apply map_fmap_ext. intros k it Hk. unfold item_value. f_equal.
    apply deref_grows; [done|]. by eapply Hit. }
  assert (dom (hs_heap s') = {[r]} ∪ dom (hs_heap (w_store w))) as Hdom
    by apply dom_insert_L.
  assert (∀ h, h ⊆ {[r]} ∪ held → isolated h s') as Hiso.
  { intros h Hh. split; rewrite Hdom; [|set_solver].
    intros k it Hk. destruct (Hit k it Hk) as [H1 H2]. split; [|set_solver].
    intros H%Hh. apply elem_of_union in H as [E%elem_of_singleton|H]; [|done].
    by rewrite E in H2. }
  split_and!.
  - unfold abs_world. cbn. by rewrite <-Habs.
  - unfold deref. cbn. by rewrite lookup_insert_eq.
  - done.
  - apply Hiso. set_solver.
  - by apply Hiso.
  - change (r ∈ dom (hs_heap s')). rewrite Hdom. set_solver.
  - done.
  - done.
Qed.

Lemma isolated_mono h h' s : h ⊆ h' → isolated h' s → isolated h s.
Proof.
  intros Hh [Hi Hd]. split; [|by etrans].
  intros k it Hk. destruct (Hi k it Hk) as [H1 H2]. split; [|done]. intros H. by apply H1, Hh.
Qed.

(** Dropping an entry, and storing a slice the client does not hold. *)
Lemma delete_isolated held k s :
  isolated held s →
  isolated held (set_items (delete k (hs_items s)) s)
  ∧ abs (set_items (delete k (hs_items s)) s) = delete k (abs s).
Proof.
  intros [Hi Hd]. split; [|apply fmap_delete].
  split; cbn; [|done]. intros k' it [_ Hk]%lookup_delete_Some. by eapply Hi.
Qed.

Lemma insert_isolated held k it s :
  isolated held s → hi_val it ∉ held → hi_val it ∈ dom (hs_heap s) →
  isolated held (set_items (<[k := it]> (hs_items s)) s)
  ∧ abs (set_items (<[k := it]> (hs_items s)) s) = <[k := item_value s it]> (abs s).
Proof.
  intros [Hi Hd] H1 H2. split; [|apply fmap_insert].
  split; cbn; [|done]. intros k' it' [[_ <-]|[_ Hk]]%lookup_insert_Some; [done|by eapply Hi].
Qed.

(** Code of the two models, side by side: [w'] is what the heap code left. *)
Record simulates (held : gset slice) (w w' : World hstore) (wv : World items) : Prop := {
  sim_world : wv = abs_world w';
  sim_grows : grows (w_store w) (w_store w');
  sim_isolated : isolated held (w_store w')
}.

Lemma simulates_refl held w : isolated held (w_store w) → simulates held w w (abs_world w).
Proof. intros H. by split; [|apply grows_refl|]. Qed.

Lemma simulates_trans held w1 w2 w3 wv2 wv3 :
  simulates held w1 w2 wv2 → simulates held w2 w3 wv3 → simulates held w1 w3 wv3.
Proof. intros [_ H1 _] [H2 H3 H4]. split; [done|by eapply grows_trans|done]. Qed.

Lemma add_events_sim held l w :
  isolated held (w_store w) →
  simulates held w (add_events l w) (add_events l (abs_world w)).
Proof. intros H. by split; [|apply grows_refl|]. Qed.

(** A slice of the result: the client may hold it from now on. *)
Definition handed_out (held : gset slice) (s s' : hstore) (r : slice) : Prop :=
  r ∈ dom (hs_heap s') ∧ isolated ({[r]} ∪ held) s' ∧ r ∉ dom (hs_heap s).

Section sim.
Context {T : Type} (c : MemoryCache T).
Implicit Types (held : gset slice) (w : World hstore).

Lemma clone_sim held val w :
  isolated held (w_store w) →
  let r := run (bytes_Clone val) w in
  simulates held w r.2 (abs_world w)
  ∧ deref (w_store r.2) r.1 = deref (w_store w) val
  ∧ handed_out held (w_store w) (w_store r.2) r.1
  ∧ hs_items (w_store r.2) = hs_items (w_store w).
Proof.
  intros Hiso. cbn zeta. rewrite run_Clone.
  destruct (alloc_spec held (deref (w_store w) val) w Hiso) as (H1 & H2 & H3 & H4 & H5 & H6 & H7 & H8).
  split_and!; [by split|done|by split_and!|done].
Qed.

Lemma lookup_sim held k w :
  isolated held (w_store w) →
  let r := run (hmem_lookup c k) w in
  let v := run (mem_lookup c k) (abs_world w) in
  simulates held w r.2 v.2
  ∧ v.1 = (deref (w_store r.2) <$> r.1)
  ∧ ∀ x, r.1 = Some x → handed_out held (w_store w) (w_store r.2) x.
Proof.
  intros Hiso. cbn zeta. unfold hmem_lookup, mem_lookup. step.
  assert (w_store (abs_world w) !! mem_key c k
    = item_value (w_store w) <$> hs_items (w_store w) !! mem_key c k) as ->
    by apply lookup_fmap.
  destruct (hs_items (w_store w) !! mem_key c k) as [it|] eqn:E; cbn [fmap option_fmap option_map].
  2:{ split_and!; [by apply simulates_refl|done|done]. }
  cbn [item_value mi_deadline mi_val].
  assert (∀ w1, isolated held (w_store w1) → hs_items (w_store w1) = hs_items (w_store w) →
    hs_heap (w_store w1) = hs_heap (w_store w) →
    let r := run (r ← bytes_Clone (hi_val it); mret (Some r)) w1 in
    simulates held w1 r.2 (abs_world w1)
    ∧ Some (deref (w_store w) (hi_val it)) = (deref (w_store r.2) <$> r.1)
    ∧ ∀ x, r.1 = Some x → handed_out held (w_store w) (w_store r.2) x) as Hclone.
  { intros w1 Hiso1 _ Hheap. cbn zeta. step.
    destruct (clone_sim held (hi_val it) w1 Hiso1) as (H1 & H2 & H3 & _).
    split_and!; [done| |].
    - cbn [fmap option_fmap option_map fst snd]. rewrite H2. unfold deref. by rewrite Hheap.
    - intros x [= <-]. unfold handed_out in *. by rewrite <-Hheap. }
  destruct (IsZero (hi_deadline it)).
  { by apply Hclone. }
  step. cbn [read_clock abs_world w_time w_orc w_reads fst snd].
  destruct (Before _ _); cbn [negb].
  - specialize (Hclone (read_clock w).2 Hiso eq_refl eq_refl) as (H1 & H2 & H3).
    split_and!; [|done|done]. eapply simulates_trans; [|exact H1].
    by split; [|apply grows_refl|].
  - step. destruct (delete_isolated held (mem_key c k) (w_store w) Hiso) as [H1 H2].
    split_and!; [|done|done].
    split; [|by change (grows (w_store w) (w_store w)); apply grows_refl|exact H1].
    transitivity (set_store (abs (set_items (delete (mem_key c k)
      (hs_items (w_store w))) (w_store w))) (abs_world (read_clock w).2)); [by rewrite H2|done].
Qed.

Lemma run_hmem_Get ctx k w :
  run (hmem_Get c ctx k) w =
  let r := run (hmem_lookup c k) w in
  match r.1 with
  | None => (Err (Errorf "%w: %s" [AStr k] (Some ErrCacheMiss)),
             add_events (ev_if (OnMiss (m_hooks c)) (EvMiss k)) r.2)
  | Some v => (Ok v, add_events (ev_if (OnHit (m_hooks c)) (EvHit k)) r.2)
  end.
Proof. unfold hmem_Get. step. by case_match; step. Qed.

(** The result of a Get, read through its slice. *)
Definition read_result (s : hstore) (r : result slice) : result bytes :=
  match r with Ok x => Ok (deref s x) | Err e => Err e end.

Lemma Get_sim ctx held k w :
  isolated held (w_store w) →
  let r := run (hmem_Get c ctx k) w in
  let v := run (mem_Get c ctx k) (abs_world w) in
  simulates held w r.2 v.2
  ∧ v.1 = read_result (w_store r.2) r.1
  ∧ ∀ x, r.1 = Ok x → isolated ({[x]} ∪ held) (w_store r.2).
Proof.
  intros Hiso. cbn zeta. rewrite run_hmem_Get, run_mem_Get. cbn zeta.
  destruct (lookup_sim held k w Hiso) as (Hs & -> & Hx).
  destruct (run (mem_lookup c k) (abs_world w)) as [v wv]. cbn [fst snd] in *.
  destruct Hs as [-> Hg Hi].
  destruct (run (hmem_lookup c k) w) as [[x|] w1]; cbn [fmap option_fmap option_map fst snd] in *.
  - split_and!; [by split|done|]. intros y [= <-]. by destruct (Hx x eq_refl) as (_ & ? & _).
  - split_and!; [by split|done|done].
Qed.

Lemma jitter_sim ttl frac w :
  run (applyJitter ttl frac) (abs_world w)
    = ((run (applyJitter ttl frac) w).1, abs_world (run (applyJitter ttl frac) w).2)
  ∧ w_store (run (applyJitter ttl frac) w).2 = w_store w.
Proof. unfold applyJitter. case_match; [done|]. step. done. Qed.

(** A new item, from a slice of the client. *)
Lemma newItem_sim held val ttl w :
  isolated held (w_store w) →
  let r := run (hnewItem c val ttl) w in
  let v := run (newItem c (deref (w_store w) val) ttl) (abs_world w) in
  simulates held w r.2 v.2
  ∧ v.1 = item_value (w_store r.2) r.1
  ∧ hi_val r.1 ∉ held ∧ hi_val r.1 ∈ dom (hs_heap (w_store r.2)).
Proof.
  intros Hiso. cbn zeta. unfold hnewItem, newItem. step.
  set (b := deref (w_store w) val). set (t := if ttl <=? 0 then m_defaultTTL c else ttl).
  assert (∃ e w1, run (if negb (hasEnvelope b) then applyJitter t (m_ttlJitter c)
      else mret t) w = (e, w1)
    ∧ run (if negb (hasEnvelope b) then applyJitter t (m_ttlJitter c) else mret t)
        (abs_world w) = (e, abs_world w1) ∧ w_store w1 = w_store w) as (e & w1 & -> & -> & E1).
  { destruct (negb (hasEnvelope b)); [|by exists t, w].
    destruct (jitter_sim t (m_ttlJitter c) w) as [-> Hs].
    destruct (run (applyJitter t (m_ttlJitter c)) w) as [e w1]. by exists e, w1. }
  cbn [fst snd]. rewrite <-E1 in Hiso.
  destruct (clone_sim held val w1 Hiso) as ([Hw Hg Hi] & Hd & (Hx1 & Hx2 & Hx3) & _).
  rewrite E1 in Hd, Hg, Hx3. fold b in Hd.
  destruct (run (bytes_Clone val) w1) as [x w2]. cbn [fst snd] in *. rewrite Hw.
  assert (x ∉ held) as Hfresh.
  { intros H. apply Hx3. rewrite <-E1. by apply (iso_held _ _ Hiso). }
  destruct (0 <? e); step; cbn [read_clock fst snd item_value hi_val hi_deadline w_store].
  - split_and!; [by split| |done|done]. unfold item_value. cbn. by rewrite <-Hd.
  - split_and!; [by split| |done|done]. unfold item_value. cbn. by rewrite <-Hd.
Qed.

Lemma put_sim held k it w :
  isolated held (w_store w) → hi_val it ∉ held → hi_val it ∈ dom (hs_heap (w_store w)) →
  simulates held w (run (hmem_put c k it) w).2
    (set_store (<[mem_key c k := item_value (w_store w) it]> (w_store (abs_world w)))
       (abs_world w)).
Proof.
  intros Hiso H1 H2. unfold hmem_put. rewrite run_modify_store. cbn [snd].
  destruct (insert_isolated held (mem_key c k) it (w_store w) Hiso H1 H2) as [H3 H4].
  split; [|by change (grows (w_store w) (w_store w)); apply grows_refl|exact H3].
  unfold abs_world at 3. cbn [set_store w_store w_orc w_reads w_draws w_ranges w_selects
    w_time w_canceled w_trace]. by rewrite H4.
Qed.

Lemma Set_sim ctx held k val ttl w :
  isolated held (w_store w) →
  let r := run (hmem_Set c ctx k val ttl) w in
  let v := run (mem_Set c ctx k (deref (w_store w) val) ttl) (abs_world w) in
  simulates held w r.2 v.2 ∧ v.1 = r.1.
Proof.
  intros Hiso. cbn zeta. unfold hmem_Set, mem_Set. step.
  destruct (newItem_sim held val ttl w Hiso) as (Hs & Hv & H1 & H2).
  destruct (run (newItem c _ ttl) (abs_world w)) as [iv wv]. cbn [fst snd] in *. subst iv.
  destruct (run (hnewItem c val ttl) w) as [it w1]. cbn [fst snd] in *.
  split; [|done]. eapply simulates_trans; [exact Hs|].
  destruct Hs as [-> _ Hi]. by apply put_sim.
Qed.

Lemma Delete_sim ctx held k w :
  isolated held (w_store w) →
  let r := run (hmem_Delete c ctx k) w in
  let v := run (mem_Delete c ctx k) (abs_world w) in
  simulates held w r.2 v.2 ∧ v.1 = r.1.
Proof.
  intros Hiso. cbn zeta. unfold hmem_Delete, mem_Delete. step. split; [|done].
  destruct (delete_isolated held (mem_key c k) (w_store w) Hiso) as [H1 H2].
  split; [|by change (grows (w_store w) (w_store w)); apply grows_refl|exact H1].
  unfold abs_world at 3. cbn [set_store w_store w_orc w_reads w_draws w_ranges w_selects
    w_time w_canceled w_trace]. by rewrite H2.
Qed.

(** The slices of a result of GetMany. *)
Abbreviation slices := (map_img (SA := gset nat)).

Lemma deref_slices_grow (out : gmap string slice) s s' :
  slices out ⊆ dom (hs_heap s) → grows s s' → deref s' <$> out = deref s <$> out.
Proof.
  intros Hd Hg. apply map_fmap_ext. intros k x Hk. apply deref_grows; [done|].
  by apply Hd, (elem_of_map_img_2 _ k).
Qed.

Lemma run_hmem_GetMany_step out hits misses k w :
  run (hmem_GetMany_step c (out, hits, misses) k) w
  = (match (run (hmem_lookup c k) w).1 with
     | None => (out, hits, misses ++ [k])
     | Some val => (<[k := val]> out, hits ++ [k], misses)
     end, (run (hmem_lookup c k) w).2).
Proof. unfold hmem_GetMany_step. step. by case_match; step. Qed.

Lemma getmany_loop_sim held keys out hits misses w :
  isolated (slices out ∪ held) (w_store w) →
  let r := run (for_fold (hmem_GetMany_step c) (out, hits, misses) keys) w in
  let v := run (for_fold (mem_GetMany_step c)
             (deref (w_store w) <$> out, hits, misses) keys) (abs_world w) in
  simulates held w r.2 v.2
  ∧ isolated (slices r.1.1.1 ∪ held) (w_store r.2)
  ∧ v.1 = (deref (w_store r.2) <$> r.1.1.1, r.1.1.2, r.1.2).
Proof.
  revert out hits misses w. induction keys as [|k keys IH]; intros out hits misses w Hiso;
    cbn zeta.
  { split_and!; [|exact Hiso|done]. apply simulates_refl. eapply isolated_mono; [|exact Hiso].
    set_solver. }
  rewrite !run_for_fold_cons, !run_hmem_GetMany_step, !run_mem_GetMany_step. cbn [fst snd].
  destruct (lookup_sim (slices out ∪ held) k w Hiso) as ([Hw Hg Hi] & Hv & Hx).
  destruct (run (mem_lookup c k) (abs_world w)) as [v wv]. cbn [fst snd] in *. subst v wv.
  destruct (run (hmem_lookup c k) w) as [ox w1]. cbn [fst snd] in *.
  rewrite <-(deref_slices_grow out (w_store w) (w_store w1));
    [|by intros x Hxo; apply (iso_held _ _ Hiso), elem_of_union_l|done].
  destruct ox as [x|]; cbn [fmap option_fmap option_map].
  - destruct (Hx x eq_refl) as (_ & Hi' & _). rewrite <-fmap_insert.
    destruct (IH (<[k:=x]> out) (hits ++ [k]) misses w1) as (H1 & H2 & H3).
    { eapply isolated_mono; [|exact Hi']. intros y. rewrite !elem_of_union, elem_of_singleton.
      intros [[i Hy]%elem_of_map_img_1|Hy]; [|by right; right].
      apply lookup_insert_Some in Hy as [[_ <-]|[_ Hy]]; [by left|].
      right. left. by eapply elem_of_map_img_2. }
    split_and!; [|exact H2|exact H3]. eapply simulates_trans; [|exact H1].
    split; [done|done|]. eapply isolated_mono; [|exact Hi]. set_solver.
  - destruct (IH out hits (misses ++ [k]) w1 Hi) as (H1 & H2 & H3).
    split_and!; [|done|done]. eapply simulates_trans; [|exact H1].
    split; [done|done|]. eapply isolated_mono; [|exact Hi]. set_solver.
Qed.

Lemma GetMany_sim ctx held keys w :
  isolated held (w_store w) →
  let r := run (hmem_GetMany c ctx keys) w in
  let v := run (mem_GetMany c ctx keys) (abs_world w) in
  ∃ out, r.1 = Ok out ∧ v.1 = Ok (deref (w_store r.2) <$> out)
  ∧ simulates held w r.2 v.2 ∧ isolated (slices out ∪ held) (w_store r.2).
Proof.
  intros Hiso. cbn zeta. rewrite run_mem_GetMany. unfold hmem_GetMany. step.
  destruct (getmany_loop_sim held keys ∅ [] [] w) as ([Hw Hg Hi] & Hi' & Hv).
  { eapply isolated_mono; [|exact Hiso]. rewrite map_img_empty. set_solver. }
  rewrite fmap_empty in Hw, Hv.
  destruct (run (for_fold (hmem_GetMany_step c) _ keys) w) as [[[out hits] misses] w1].
  destruct (run (for_fold (mem_GetMany_step c) _ keys) (abs_world w)) as [v wv].
  cbn [fst snd] in *. subst v wv. cbn [fst snd].
  rewrite run_bind, run_each_hit, run_bind, run_each_miss, run_ret. cbn [fst snd].
  rewrite add_events_app. exists out. by split_and!.
Qed.

(** Go over the same pairs, in the same order. *)
Lemma shuffle_fmap {A B} (f : A → B) n seed l :
  shuffle n seed (f <$> l) = f <$> shuffle n seed l.
Proof.
  revert seed l. induction n as [|n IH]; intros seed l; [done|]. cbn [shuffle].
  rewrite length_fmap, list_lookup_fmap.
  destruct (l !! _) as [x|]; [|done]. cbn. f_equal. rewrite <-IH. f_equal.
  generalize (seed mod length l)%nat. clear. intros i. revert i.
  induction l as [|y l IH]; intros [|i]; cbn; try done. by rewrite IH.
Qed.

Lemma range_sim (m : gmap string slice) w :
  run (range (deref (w_store w) <$> m)) (abs_world w)
  = (prod_map id (deref (w_store w)) <$> (run (range m) w).1, abs_world (run (range m) w).2).
Proof.
  rewrite !run_range. unfold range_map. cbn [fst snd].
  by rewrite map_to_list_fmap, length_fmap, shuffle_fmap.
Qed.

Lemma setmany_loop_sim held ttl (l : list (string * slice)) w :
  isolated held (w_store w) → Forall (λ kv, kv.2 ∈ dom (hs_heap (w_store w))) l →
  simulates held w
    (run (for_each (λ kv, it ← hnewItem c kv.2 ttl; hmem_put c kv.1 it) l) w).2
    (run (for_each (λ kv, it ← newItem c kv.2 ttl; modify_store <[mem_key c kv.1 := it]>)
       (prod_map id (deref (w_store w)) <$> l)) (abs_world w)).2.
Proof.
  revert w. induction l as [|[k x] l IH]; intros w Hiso Hl; [by apply simulates_refl|].
  apply Forall_cons in Hl as [Hx Hl]. rewrite fmap_cons, !run_for_each_cons. cbn [prod_map id fst snd].
  rewrite !run_bind. destruct (newItem_sim held x ttl w Hiso) as (Hs & Hv & H1 & H2).
  destruct (run (newItem c _ ttl) (abs_world w)) as [iv wv]. cbn [fst snd] in *. subst iv.
  destruct (run (hnewItem c x ttl) w) as [it w1]. cbn [fst snd] in *.
  destruct Hs as [-> Hg Hi]. pose proof (put_sim held k it w1 Hi H1 H2) as Hput.
  rewrite run_modify_store. cbn [snd]. destruct Hput as [-> Hg2 Hi2].
  set (w2 := (run (hmem_put c k it) w1).2) in *.
  assert (prod_map id (deref (w_store w)) <$> l = prod_map id (deref (w_store w2)) <$> l)
    as ->.
  { apply list_fmap_ext. intros i [k' x'] Hi'. cbn. f_equal. symmetry.
    apply deref_grows; [by eapply grows_trans|]. by apply (Forall_lookup_1 _ _ _ _ Hl Hi'). }
  eapply simulates_trans; [|apply IH; [done|]].
  - split; [done|by eapply grows_trans|done].
  - eapply Forall_impl; [exact Hl|]. cbn. intros [k' x'] Hx'. cbn in *.
    apply elem_of_dom in Hx' as [b Hb]. apply elem_of_dom. exists b.
    by apply (lookup_weaken _ _ _ _ Hb), (grows_trans _ _ _ Hg Hg2).
Qed.

Lemma SetMany_sim ctx held (m : gmap string slice) ttl w :
  isolated held (w_store w) → slices m ⊆ held →
  let r := run (hmem_SetMany c ctx m ttl) w in
  let v := run (mem_SetMany c ctx (deref (w_store w) <$> m) ttl) (abs_world w) in
  simulates held w r.2 v.2 ∧ v.1 = r.1.
Proof.
  intros Hiso Hm. cbn zeta. unfold hmem_SetMany, mem_SetMany. rewrite !run_bind, !run_ret.
  split; [|done]. cbn [snd]. rewrite !run_locked, !run_bind, range_sim. cbn [fst snd].
  destruct (range_map_spec m w) as [Hperm _]. rewrite <-run_range in Hperm.
  assert (w_store (run (range m) w).2 = w_store w) as E by by rewrite run_range.
  rewrite <-E. eapply simulates_trans; [|apply setmany_loop_sim].
  - split; [done|rewrite E; apply grows_refl|by rewrite E].
  - by rewrite E.
  - rewrite E, Forall_forall. intros [k x] Hkx. rewrite Hperm in Hkx.
    apply elem_of_map_to_list in Hkx. apply (iso_held _ _ Hiso), Hm.
    by eapply elem_of_map_img_2.
Qed.
End sim.
