(* ===== verification/MemoryClient.v ===== *)
(** * A client that shares memory with a MemoryCache (memory.go)

    The client of this file makes arrays, writes whatever it likes through the
    slices it holds, hands them to the cache and keeps the slices the cache
    hands back.  Every run of it over the heap model of MemoryHeap.v shows the
    answers of the value model of Memory.v, for the bytes the slices had at
    the instant of each call: "values are copied on Set and Get so callers
    can't alias the stored bytes". *)
From S2P Require Import Prelude Int64 Float64 Errors Runtime Envelope Hooks Codec.
From S2P Require Import Options Cache Memory Instances MemoryHeap.
From stdpp Require Import gmap.
From Stdlib Require Import ZArith Lia.
Local Open Scope Z_scope.

(** ** Definitions *)

(** What the client does.  A call names slices. *)
Inductive command :=
| CMake (b : bytes)                          (* r := []byte(...) *)
| CWrite (r : slice) (b : bytes)             (* copy(r, b) *)
| CGet (k : string)
| CSet (k : string) (val : slice) (ttl : Duration)
| CGetMany (keys : list string)
| CSetMany (m : gmap string slice) (ttl : Duration)
| CDelete (k : string).

(** What there is to see of it: a call with the bytes it passes, and what came
    back with the bytes in it. *)
Inductive call :=
| VGet (k : string)
| VSet (k : string) (val : bytes) (ttl : Duration)
| VGetMany (keys : list string)
| VSetMany (m : gmap string bytes) (ttl : Duration)
| VDelete (k : string).

Inductive answer :=
| ABytes (r : result bytes)
| AMap (r : result (gmap string bytes))
| AErr (e : option error).

Section client.
Context {T : Type} (c : MemoryCache T) (ctx : Context).

(** The calls over values. *)
Definition vcall (x : call) : act items answer :=
  match x with
  | VGet k => r ← mem_Get c ctx k; mret (ABytes r)
  | VSet k v ttl => e ← mem_Set c ctx k v ttl; mret (AErr e)
  | VGetMany ks => r ← mem_GetMany c ctx ks; mret (AMap r)
  | VSetMany m ttl => e ← mem_SetMany c ctx m ttl; mret (AErr e)
  | VDelete k => e ← mem_Delete c ctx k; mret (AErr e)
  end.

Fixpoint vcalls (l : list call) : act items (list answer) :=
  match l with
  | [] => mret []
  | x :: l => a ← vcall x; r ← vcalls l; mret (a :: r)
  end.

(** The client: the slices it holds and the world. *)
Record client := mkClient { cl_held : gset slice; cl_world : World hstore }.

(** One command, and what it shows; [None] when it names a slice the client
    does not hold. *)
Definition client_step (x : command) (s : client) : option (client * list (call * answer)) :=
  let '(mkClient held w) := s in
  match x with
  | CMake b =>
      let (r, w') := run (alloc b) w in Some (mkClient ({[r]} ∪ held) w', [])
  | CWrite r b =>
      if decide (r ∈ held)
      then Some (mkClient held (set_store
             (set_heap (<[r := b]> (hs_heap (w_store w))) (w_store w)) w), [])
      else None
  | CGet k =>
      let (r, w') := run (hmem_Get c ctx k) w in
      Some (mkClient (match r with Ok x => {[x]} ∪ held | Err _ => held end) w',
            [(VGet k, ABytes (read_result (w_store w') r))])
  | CSet k val ttl =>
      if decide (val ∈ held)
      then let (e, w') := run (hmem_Set c ctx k val ttl) w in
           Some (mkClient held w', [(VSet k (deref (w_store w) val) ttl, AErr e)])
      else None
  | CGetMany ks =>
      let (r, w') := run (hmem_GetMany c ctx ks) w in
      Some (mkClient (match r with Ok m => map_img m ∪ held | Err _ => held end) w',
            [(VGetMany ks,
              AMap (match r with Ok m => Ok (deref (w_store w') <$> m) | Err e => Err e end))])
  | CSetMany m ttl =>
      if decide (map_img (SA := gset slice) m ⊆ held)
      then let (e, w') := run (hmem_SetMany c ctx m ttl) w in
           Some (mkClient held w', [(VSetMany (deref (w_store w) <$> m) ttl, AErr e)])
      else None
  | CDelete k =>
      let (e, w') := run (hmem_Delete c ctx k) w in
      Some (mkClient held w', [(VDelete k, AErr e)])
  end.

Fixpoint client_run (l : list command) (s : client)
    : option (client * list (call * answer)) :=
  match l with
  | [] => Some (s, [])
  | x :: l =>
      '(s1, log1) ← client_step x s;
      '(s2, log2) ← client_run l s1;
      Some (s2, log1 ++ log2)
  end.

(** The writes of a program go elsewhere than [r]. *)
Definition spares (r : slice) (x : command) : bool :=
  match x with CWrite r' _ => negb (bool_decide (r' = r)) | _ => true end.

(** ** Lemmas *)

Lemma run_vcalls_app l1 l2 w :
  run (vcalls (l1 ++ l2)) w
  = let r1 := run (vcalls l1) w in let r2 := run (vcalls l2) r1.2 in (r1.1 ++ r2.1, r2.2).
Proof.
  revert w. induction l1 as [|x l1 IH]; intros w; cbn [vcalls app].
  - rewrite run_ret. cbn. by destruct (run (vcalls l2) w).
  - rewrite !run_bind, IH. cbn zeta. by rewrite !run_ret.
Qed.

(** A write through a held slice changes nothing the cache stores. *)
Lemma write_isolated held r b s :
  r ∈ held → isolated held s →
  let s' := set_heap (<[r := b]> (hs_heap s)) s in isolated held s' ∧ abs s' = abs s.
Proof.
  intros Hr [Hi Hd]. cbn zeta. split.
  - split; cbn; rewrite dom_insert_L; [|set_solver].
    intros k it Hk. destruct (Hi k it Hk). set_solver.
  - unfold abs. apply map_fmap_ext. intros k it Hk. unfold item_value, deref. cbn.
    f_equal. rewrite lookup_insert_ne; [done|]. intros ->. by destruct (Hi k it Hk).
Qed.

(** What one command keeps: the client holds nothing of the cache, the value
    model makes the same step, and only a write changes bytes it holds. *)
Record step_ok (x : command) (s s' : client) (log : list (call * answer)) : Prop := {
  so_isolated : isolated (cl_held s') (w_store (cl_world s'));
  so_values : run (vcalls log.*1) (abs_world (cl_world s))
    = (log.*2, abs_world (cl_world s'));
  so_held : cl_held s ⊆ cl_held s';
  so_bytes r : r ∈ cl_held s → spares r x = true →
    deref (w_store (cl_world s')) r = deref (w_store (cl_world s)) r
}.

(** The steps that are calls, from their simulation. *)
Lemma call_step_ok x s held' w' (v : call) (a : answer) wv :
  isolated (cl_held s) (w_store (cl_world s)) →
  simulates (cl_held s) (cl_world s) w' wv →
  isolated held' (w_store w') → cl_held s ⊆ held' →
  run (vcall v) (abs_world (cl_world s)) = (a, wv) →
  step_ok x s (mkClient held' w') [(v, a)].
Proof.
  intros Hiso [Hw Hg _] Hi Hh Hv. split; [done| |done|].
  - cbn [vcalls fmap list_fmap fst snd cl_world]. rewrite !run_bind, Hv. cbn [fst snd].
    by rewrite !run_ret, <-Hw.
  - intros r Hr _. apply deref_grows; [done|]. by apply (iso_held _ _ Hiso).
Qed.

Lemma make_step_ok b held w :
  isolated held (w_store w) →
  step_ok (CMake b) (mkClient held w)
    (mkClient ({[(run (alloc b) w).1]} ∪ held) (run (alloc b) w).2) [].
Proof.
  intros Hi. destruct (alloc_spec held b w Hi) as (H1 & _ & H3 & _ & H5 & _).
  split; cbn [cl_held cl_world]; [done| |set_solver|].
  - by rewrite H1.
  - intros r' Hr' _. apply deref_grows; [done|]. by apply (iso_held _ _ Hi).
Qed.

Lemma write_step_ok r b held w :
  isolated held (w_store w) → r ∈ held →
  step_ok (CWrite r b) (mkClient held w)
    (mkClient held (set_store
       (set_heap (<[r := b]> (hs_heap (w_store w))) (w_store w)) w)) [].
Proof.
  intros Hi Hr. destruct (write_isolated held r b (w_store w) Hr Hi) as [H1 H2].
  split; cbn [cl_held cl_world]; [done| |done|].
  - cbn [vcalls fmap list_fmap]. rewrite run_ret. f_equal.
    unfold abs_world at 2. cbn [set_store w_store w_orc w_reads w_draws w_ranges w_selects
      w_time w_canceled w_trace]. by rewrite H2.
  - intros r' _. cbn. rewrite negb_true_iff, bool_decide_eq_false. intros Hne.
    unfold deref. cbn. by rewrite lookup_insert_ne.
Qed.

Lemma client_step_ok x s s' log :
  isolated (cl_held s) (w_store (cl_world s)) → client_step x s = Some (s', log) →
  step_ok x s s' log.
Proof.
  destruct s as [held w]. cbn [cl_held cl_world]. intros Hi H.
  destruct x as [b|r b|k|k val ttl|ks|m ttl|k]; cbn [client_step] in H.
  - pose proof (make_step_ok b held w Hi) as Hok.
    destruct (run (alloc b) w) as [r w']. by injection H as <- <-.
  - case_decide; [|done]. injection H as <- <-. by apply write_step_ok.
  - destruct (Get_sim c ctx held k w Hi) as (Hs & Hv & Hx).
    destruct (run (hmem_Get c ctx k) w) as [r w']. injection H as <- <-. cbn [fst snd] in *.
    eapply call_step_ok; [done|exact Hs|..]; [|by case_match; set_solver|].
    + destruct r as [x|e]; [by apply Hx|apply Hs].
    + cbn [vcall cl_world]. by rewrite run_bind, run_ret, Hv.
  - case_decide; [|done]. destruct (Set_sim c ctx held k val ttl w Hi) as (Hs & Hv).
    destruct (run (hmem_Set c ctx k val ttl) w) as [e w']. injection H as <- <-.
    eapply call_step_ok; [done|exact Hs|apply Hs|done|].
    cbn [vcall cl_world]. by rewrite run_bind, run_ret, Hv.
  - destruct (GetMany_sim c ctx held ks w Hi) as (out & Hr & Hv & Hs & Hx).
    destruct (run (hmem_GetMany c ctx ks) w) as [r w']. cbn [fst snd] in *. subst r.
    injection H as <- <-. eapply call_step_ok; [done|exact Hs|exact Hx|set_solver|].
    cbn [vcall cl_world]. by rewrite run_bind, run_ret, Hv.
  - case_decide as Hm; [|done]. destruct (SetMany_sim c ctx held m ttl w Hi Hm) as (Hs & Hv).
    destruct (run (hmem_SetMany c ctx m ttl) w) as [e w']. injection H as <- <-.
    eapply call_step_ok; [done|exact Hs|apply Hs|done|].
    cbn [vcall cl_world]. by rewrite run_bind, run_ret, Hv.
  - destruct (Delete_sim c ctx held k w Hi) as (Hs & Hv).
    destruct (run (hmem_Delete c ctx k) w) as [e w']. injection H as <- <-.
    eapply call_step_ok; [done|exact Hs|apply Hs|done|].
    cbn [vcall cl_world]. by rewrite run_bind, run_ret, Hv.
Qed.
End client.

(** A client writes through the slice it passed to Set and through the one Get
    returned; the second Get still sees the bytes that were set. *)
Definition demo_program : list command :=
  [CMake json_true; CSet "k" 0%nat 0; CWrite 0%nat json_false; CGet "k"; CWrite 2%nat json_false;
   CGet "k"].

Definition demo_client : client := mkClient ∅ (demo_world (mkHStore ∅ ∅)).

(** ** The copies make sharing unobservable *)

(** C25: A client that shares memory with a MemoryCache cannot tell: whatever
    it writes through the slices it holds - those it passed to Set and
    SetMany, those Get and GetMany returned -, its calls answer exactly what
    the same calls answer in the model without sharing, for the bytes the
    slices had when each call was made; the bytes behind a slice it holds
    change only when it writes them itself; and it never holds a slice of the
    cache. *)
Theorem client_refines_values {T} (c : MemoryCache T) ctx l s s' log :
  isolated (cl_held s) (w_store (cl_world s)) →
  client_run c ctx l s = Some (s', log) →
  run (vcalls c ctx log.*1) (abs_world (cl_world s)) = (log.*2, abs_world (cl_world s'))
  ∧ (∀ r, r ∈ cl_held s → forallb (spares r) l = true →
      deref (w_store (cl_world s')) r = deref (w_store (cl_world s)) r)
  ∧ isolated (cl_held s') (w_store (cl_world s')).
Proof.
  revert s s' log. induction l as [|x l IH]; intros s s' log Hi H.
  { by injection H as <- <-. }
  cbn [client_run] in H. apply bind_Some in H as ([s1 log1] & H1 & H).
  apply bind_Some in H as ([s2 log2] & H2 & [= <- <-]).
  destruct (client_step_ok _ _ _ _ _ _ Hi H1) as [Hi1 Hv1 Hh1 Hb1].
  destruct (IH s1 s2 log2 Hi1 H2) as (Hv2 & Hb2 & Hi2). split_and!; [| |done].
  - rewrite !fmap_app, run_vcalls_app, Hv1. cbn [fst snd]. by rewrite Hv2.
  - intros r Hr [Hx Hl]%andb_prop. by rewrite Hb2, Hb1 by eauto.
Qed.

Lemma client_refines_values_witness :
  ∃ s log, client_run demo_memory Background demo_program demo_client = Some (s, log)
  ∧ log.*2 = [AErr None; ABytes (Ok json_true); ABytes (Ok json_true)]
  ∧ (run (vcalls demo_memory Background log.*1) (demo_world ∅)).1 = log.*2.
Proof.
  destruct (client_run demo_memory Background demo_program demo_client) as [[s log]|] eqn:E;
    [|by vm_compute in E].
  exists s, log. split; [done|]. split.
  - assert (snd <$> client_run demo_memory Background demo_program demo_client = Some log)
      as Hl by by rewrite E.
    vm_compute in Hl. by injection Hl as <-.
  - destruct (client_refines_values demo_memory Background demo_program demo_client s log)
      as [H _]; [|exact E|].
    + by split; [intros k it Hk|].
    + exact (f_equal fst H).
Defined.
