(* ===== verification/TestApp.v ===== *)
(** * The test application (deploy/k3d/testapp/main.go)

    A service that runs cache-kit against a Valkey cluster: it waits for the
    cluster, fills its demo keys through GetOrSet, reads them again, and
    serves /healthz, /stats and /demo.  The environment, go-redis's cluster
    client and encoding/json are arguments; what the program writes to its log
    is part of each function's result, and its three counters, which the
    hooks bump, are read off the trace of hook calls. *)
From S2P Require Import Prelude Int64 Float64 Errors Runtime Envelope Hooks Codec.
From S2P Require Import Options Cache Group GetOrSet Server Redis.
From Stdlib Require Import ZArith Lia Ascii.
Local Open Scope Z_scope.

(** ** Definitions *)

Record User := mkUser {
  ID : Z;
  Name : string
}.

(** [demoKeys]. *)
Definition demoKeys : list string :=
  ["user:1"; "user:2"; "user:42"; "session:abc"; "session:xyz"; "product:100"; "cart:7";
   "flag:beta"].

(** The constant [prefix]. *)
Definition app_prefix : string := "testapp:".

(** [strings.Split] at a one-byte separator. *)
Fixpoint strings_Split (s : string) (sep : ascii) : list string :=
  match s with
  | EmptyString => [EmptyString]
  | String a s =>
      if decide (a = sep) then EmptyString :: strings_Split s sep
      else match strings_Split s sep with
           | w :: ws => String a w :: ws
           | [] => [String a EmptyString]
           end
  end.

(** [seeds]; [Getenv] is os.Getenv. *)
Definition default_addr : string := "valkey-cluster-headless.cache-kit.svc.cluster.local:6379".

Definition seeds (Getenv : string → string) : list string :=
  let addr := Getenv "CACHEKIT_SERVER_ADDR" in
  let addr := if decide (addr = EmptyString) then default_addr else addr in
  strings_Split addr ","%char.

(** The counters [hits], [misses] and [loads], and what the hooks of [main] do
    to them: OnHit, OnMiss and OnLoad add one, OnError only logs. *)
Record counters := mkCounters { n_hits : Z; n_misses : Z; n_loads : Z }.

Definition app_hook (n : counters) (e : event) : counters :=
  match e with
  | EvHit _ => mkCounters (wrap64 (n_hits n + 1)) (n_misses n) (n_loads n)
  | EvMiss _ => mkCounters (n_hits n) (wrap64 (n_misses n + 1)) (n_loads n)
  | EvLoad _ _ _ => mkCounters (n_hits n) (n_misses n) (wrap64 (n_loads n + 1))
  | EvError _ _ _ => n
  end.

Definition counters_of (tr : list event) : counters :=
  foldl app_hook (mkCounters 0 0 0) tr.

(** The lines of the log (beside those of the hooks). *)
Inductive log_line :=
| LogWaiting (attempt : nat) (err : error)
| LogConnected (addrs : list string)
| LogNodesFailed (err : error)
| LogTopology (addr role : string)
| LogGetOrSet (key : string) (err : error)
| LogSecondPass (key : string) (err : error)
| LogDemo (n : nat) (totals : counters).

Record keyResult := mkKeyResult {
  kr_Key : string;
  kr_Slot : Z;
  kr_Value : User
}.

(** The map runDemo returns: "count" and "keys". *)
Record report := mkReport {
  rep_count : nat;
  rep_keys : list keyResult
}.

(** [time.Sleep] pauses for at least the duration. *)
Definition Sleep {S} (d : Duration) : act S () := atom (λ w, ((), elapse (Z.to_N d) w)).

(** Loops of a caller over a slice. *)
Fixpoint pfor_fold {S A B} (f : B → A → prog S B) (b : B) (l : list A) : prog S B :=
  match l with
  | [] => mret b
  | x :: l => b' ← f b x; pfor_fold f b' l
  end.

(** *** Fields and lines of the reply to CLUSTER NODES, an ASCII text *)

Definition is_space (a : ascii) : bool :=
  let n := nat_of_ascii a in (n =? 32)%nat || ((9 <=? n)%nat && (n <=? 13)%nat).

(** [strings.Fields]: the words between runs of white space. *)
Fixpoint Fields_from (word : string) (s : string) : list string :=
  match s with
  | EmptyString => if decide (word = EmptyString) then [] else [word]
  | String a s =>
      if is_space a
      then (if decide (word = EmptyString) then [] else [word]) ++ Fields_from EmptyString s
      else Fields_from (word +:+ String a EmptyString) s
  end.

Definition Fields : string → list string := Fields_from EmptyString.

(** [strings.TrimSpace]. *)
Fixpoint trim_left (s : string) : string :=
  match s with
  | String a s' => if is_space a then trim_left s' else s
  | EmptyString => EmptyString
  end.

Fixpoint trim_right (s : string) : string :=
  match s with
  | EmptyString => EmptyString
  | String a s' =>
      match trim_right s' with
      | EmptyString => if is_space a then EmptyString else String a EmptyString
      | t => String a t
      end
  end.

Definition TrimSpace (s : string) : string := trim_right (trim_left s).

(** The line of the log for one line of the reply: its second and third field,
    when it has them. *)
Definition topology_line (line : string) : list log_line :=
  let f := Fields line in
  if (3 <=? length f)%nat
  then match f !! 1%nat, f !! 2%nat with
       | Some a, Some r => [LogTopology a r]
       | _, _ => []
       end
  else [].

Definition newline : ascii := ascii_of_nat 10.

Section app.
Context {S : Type} `{!JSON User}.

(** The cluster client: what the cache uses of it, CLUSTER KEYSLOT (the value
    of a failed command is what [Result] returns beside the error, zero) and
    CLUSTER NODES. *)
Record ClusterClient := mkCluster {
  cc_client : RedisClient S;
  cc_KeySlot : Context → string → act S (Z * option error);
  cc_Nodes : Context → act S (result string)
}.

Implicit Types (cache : RedisCache S User) (rdb : ClusterClient).

(** The cache [main] builds; all four hooks are set. *)
Definition app_cache (addr : N) rdb : RedisCache S User :=
  NewWithClient addr (cc_client rdb)
    [WithPrefix app_prefix; WithDefaultTTL (5 * Minute); WithHooks all_hooks].

(** [waitReady], for at most [fuel] attempts from the [i]-th on: [None] when
    none of them succeeded, else the log. *)
Fixpoint waitReady_from (fuel i : nat) (ctx : Context) cache
    : act S (option (list log_line)) :=
  match fuel with
  | O => mret None
  | Datatypes.S fuel =>
      cctx ← WithTimeout ctx (3 * Second);
      err ← redis_Ping cache cctx;
      match err with
      | None => mret (Some [])
      | Some err =>
          Sleep (2 * Second);;
          r ← waitReady_from fuel (1 + i) ctx cache;
          mret (cons (LogWaiting i err) <$> r)
      end
  end.

Definition waitReady (fuel : nat) : Context → RedisCache S User → act S (option (list log_line)) :=
  waitReady_from fuel 1.

Definition logTopology (ctx : Context) rdb : act S (list log_line) :=
  r ← cc_Nodes rdb ctx;
  mret (match r with
        | Err err => [LogNodesFailed err]
        | Ok s => strings_Split (TrimSpace s) newline ≫= topology_line
        end).

(** The loaders of the two passes. *)
Definition firstLoader (id : Z) (k : string) (_ : Context) : act S (outcome (result User)) :=
  mret (Returned (Ok (mkUser id ("name-of-" +:+ k)))).

Definition secondLoader (k : string) (_ : Context) : act S (outcome (result User)) :=
  mret (Returned (Err (Errorf "loader must not run on a hit for %s" [AStr k] None))).

(** One round of each loop of runDemo: the results and the log so far. *)
Definition firstPass (ctx : Context) cache rdb (acc : list keyResult * list log_line)
    (ik : nat * string) : prog S (list keyResult * list log_line) :=
  let '(results, log) := acc in
  let '(i, k) := ik in
  let id := Z.of_nat i + 1 in
  r ← GetOrSet ctx (RedisCache_Cache cache) k Minute (firstLoader id k);
  match r with
  | Err err => mret (results, log ++ [LogGetOrSet k err])
  | Ok u =>
      slot ← lift (cc_KeySlot rdb ctx (app_prefix +:+ k));
      mret (results ++ [mkKeyResult k slot.1 u], log)
  end.

Definition secondPass (ctx : Context) cache (log : list log_line) (k : string)
    : prog S (list log_line) :=
  r ← GetOrSet ctx (RedisCache_Cache cache) k Minute (secondLoader k);
  mret (match r with
        | Err err => log ++ [LogSecondPass k err]
        | Ok _ => log
        end).

(** The counters, as the handlers and the log read them. *)
Definition read_counters : act S counters := atom (λ w, (counters_of (w_trace w), w)).

Definition runDemo (ctx : Context) cache rdb : prog S (report * list log_line) :=
  '(results, log) ← pfor_fold (firstPass ctx cache rdb) ([], []) (imap pair demoKeys);
  log ← pfor_fold (secondPass ctx cache) log demoKeys;
  totals ← lift read_counters;
  mret (mkReport (length results) results, log ++ [LogDemo (length results) totals]).

(** [main] up to the listening: [None] when the cluster never answered. *)
Definition startup (fuel : nat) (Getenv : string → string) (addr : N)
    (NewClusterClient : list string → ClusterClient)
    : prog S (option (report * list log_line)) :=
  let addrs := seeds Getenv in
  let rdb := NewClusterClient addrs in
  let cache := app_cache addr rdb in
  let ctx := Background in
  w ← lift (waitReady fuel ctx cache);
  match w with
  | None => mret None
  | Some log1 =>
      log2 ← lift (logTopology ctx rdb);
      '(rep, log3) ← runDemo ctx cache rdb;
      mret (Some (rep, log1 ++ [LogConnected addrs] ++ log2 ++ log3))
  end.

(** *** The handlers: status and body of the response *)

Inductive body :=
| BodyError (err : error)
| BodyOk
| BodyStats (n : counters)
| BodyDemo (r : report).

Definition StatusOK : Z := 200.
Definition StatusServiceUnavailable : Z := 503.

Definition handle_healthz (ctx : Context) cache : act S (Z * body) :=
  err ← redis_Ping cache ctx;
  match err with
  | Some err => mret (StatusServiceUnavailable, BodyError err)
  | None => mret (StatusOK, BodyOk)
  end.

Definition handle_stats : act S (Z * body) :=
  n ← read_counters; mret (StatusOK, BodyStats n).

Definition handle_demo (ctx : Context) cache rdb : prog S (Z * body) :=
  '(rep, _) ← runDemo ctx cache rdb; mret (StatusOK, BodyDemo rep).
End app.
Arguments ClusterClient S : clear implicits.
