(* ===== verification/TestAppThms.v ===== *)
(** * The test application: the theorems

    waitReady returns once the cluster answers; runDemo on a responsive
    cluster fills its keys in the first pass and reads all of them back from
    the cache in the second, which loads nothing. *)
From S2P Require Import Prelude Int64 Float64 Errors Runtime Envelope Hooks Codec.
From S2P Require Import Options Cache Group GetOrSet GetOrSetFacts GetOrSetSpec Server.
From S2P Require Import Redis FakeServer Instances Detached TestApp.
From stdpp Require Import pretty.
From Stdlib Require Import ZArith Lia Ascii.
Local Open Scope Z_scope.

(** ** What is asked of the cluster *)

(** The cluster client: a responsive server, whose commands call no hooks of
    the cache; CLUSTER KEYSLOT is a function of the key and changes nothing. *)
Class ResponsiveCluster {S} (rdb : ClusterClient S) (db : S → string → Time → option bytes)
    (slot : string → Z) : Prop := {
  rc_server :: RedisServer (cc_client rdb) db;
  rc_Get_silent ctx k w : w_trace (run (rc_Get (cc_client rdb) ctx k) w).2 = w_trace w;
  rc_Set_silent ctx k v d w :
    w_trace (run (rc_Set (cc_client rdb) ctx k v d) w).2 = w_trace w;
  rc_KeySlot ctx k w :
    ∃ w', run (cc_KeySlot rdb ctx k) w = ((slot k, None), w')
    ∧ w_time w <= w_time w' ∧ w_trace w' = w_trace w
    ∧ ∀ k t, w_time w' <= t → db (w_store w') k t = db (w_store w) k t
}.

(** ** The text functions *)

Fixpoint has_char (a : ascii) (s : string) : bool :=
  match s with
  | EmptyString => false
  | String b s => bool_decide (b = a) || has_char a s
  end.

(** Splitting yields the parts between the separators: at least one, none with
    a separator in it, and they join back to the text. *)
Lemma strings_Split_spec s sep :
  strings_Split s sep ≠ [] ∧ Forall (λ p, has_char sep p = false) (strings_Split s sep)
  ∧ String.concat (String sep EmptyString) (strings_Split s sep) = s.
Proof.
  induction s as [|a s (Hne & Hfree & Hcat)]; cbn [strings_Split].
  { split_and!; [done|by repeat constructor|done]. }
  case_decide as Ha.
  - subst a. split_and!; [done|by constructor|].
    destruct (strings_Split s sep) as [|w ws]; [done|]. cbn [String.concat] in *.
    by rewrite Hcat.
  - destruct (strings_Split s sep) as [|w ws]; [done|].
    apply Forall_cons in Hfree as [Hw Hws]. split_and!; [done| |].
    + constructor; [|done]. cbn [has_char]. by rewrite bool_decide_eq_false_2.
    + destruct ws as [|w' ws]; cbn [String.concat] in *; by rewrite <-Hcat.
Qed.

(** The seeds of the cluster client are the comma-separated parts of the
    environment variable, or the one default address. *)
Lemma seeds_spec Getenv :
  let addr := Getenv "CACHEKIT_SERVER_ADDR" in
  seeds Getenv ≠ []
  ∧ String.concat "," (seeds Getenv) = if decide (addr = EmptyString) then default_addr else addr.
Proof.
  cbn zeta. unfold seeds. destruct (strings_Split_spec
    (if decide (Getenv "CACHEKIT_SERVER_ADDR" = EmptyString) then default_addr
     else Getenv "CACHEKIT_SERVER_ADDR") ",") as (H1 & _ & H3). done.
Qed.

(** A word of the reply: not empty, no white space in it. *)
Fixpoint no_space (s : string) : bool :=
  match s with
  | EmptyString => true
  | String a s => negb (is_space a) && no_space s
  end.

Definition is_word (s : string) : Prop := s ≠ EmptyString ∧ no_space s = true.

Lemma Fields_from_word word s rest :
  no_space s = true → Fields_from word (s +:+ rest) = Fields_from (word +:+ s) rest.
Proof.
  revert word. induction s as [|a s IH]; intros word; cbn [no_space].
  { intros _. change (EmptyString +:+ rest) with rest. by rewrite string_app_nil_r. }
  intros [Ha Hs]%andb_prop. apply negb_true_iff in Ha. 
  change (String a s +:+ rest) with (String a (s +:+ rest)). cbn [Fields_from].
  rewrite Ha, IH by done. by rewrite <-string_app_assoc.
Qed.

(** Fields undoes joining words with spaces. *)
Lemma Fields_concat ws : Forall is_word ws → Fields (String.concat " " ws) = ws.
Proof.
  unfold Fields. induction ws as [|w ws IH]; intros Hws; [done|].
  apply Forall_cons in Hws as [[Hne Hw] Hws]. destruct ws as [|w' ws].
  - cbn [String.concat]. rewrite <-(string_app_nil_r w) at 1. rewrite Fields_from_word by done.
    change (Fields_from (EmptyString +:+ w) EmptyString)
      with (if decide (w = EmptyString) then [] else [w]). by rewrite decide_False.
  - change (String.concat " " (w :: w' :: ws))
      with (w +:+ (" " +:+ String.concat " " (w' :: ws))).
    rewrite Fields_from_word by done.
    change (Fields_from (EmptyString +:+ w) (" " +:+ String.concat " " (w' :: ws)))
      with ((if decide (w = EmptyString) then [] else [w]) ++ Fields (String.concat " " (w' :: ws))).
    rewrite decide_False by done. cbn [app]. f_equal. by apply IH.
Qed.

(** A node's line has its address and role logged. *)
Lemma topology_line_spec id a role more :
  Forall is_word (id :: a :: role :: more) →
  topology_line (String.concat " " (id :: a :: role :: more)) = [LogTopology a role].
Proof. intros H. unfold topology_line. by rewrite Fields_concat. Qed.

(** ** waitReady *)

Section waiting.
Context {S : Type} `{!JSON User} (addr : N) (rdb : ClusterClient S).
Abbreviation cache := (app_cache addr rdb).
Abbreviation Ping := (rc_Ping (cc_client rdb)).
Implicit Types w : World S.

(** Attempts are numbered from [i]. *)
Definition numbered (i : nat) (log : list log_line) : Prop :=
  ∀ j l, log !! j = Some l → ∃ e, l = LogWaiting (i + j) e.

Lemma numbered_cons i e log : numbered (1 + i) log → numbered i (LogWaiting i e :: log).
Proof.
  intros H [|j] l Hl; cbn in Hl.
  - injection Hl as <-. exists e. by rewrite Nat.add_0_r.
  - destruct (H j l Hl) as [e' ->]. exists e'. f_equal. lia.
Qed.

Lemma run_app_Ping ctx w :
  run (redis_Ping cache ctx) w
  = ((λ e, Errorf "cachekit: ping: %w" [] (Some e)) <$> (run (Ping ctx) w).1,
     (run (Ping ctx) w).2).
Proof.
  unfold redis_Ping, opContext. change (r_opTimeout cache <=? 0) with true. cbv iota. step.
  change (r_client cache) with (cc_client rdb).
  destruct (run (Ping ctx) w) as [[e|] w1]; by step.
Qed.

(** One attempt: its context has three seconds left when it starts. *)
Lemma run_waitReady_S fuel i ctx w :
  let cctx := WithDeadline ctx ((read_clock w).1 + 3 * Second) in
  let r := run (Ping cctx) (read_clock w).2 in
  run (waitReady_from (1 + fuel) i ctx cache) w
  = match r.1 with
    | None => (Some [], r.2)
    | Some e =>
        let r2 := run (waitReady_from fuel (1 + i) ctx cache)
                    (elapse (Z.to_N (2 * Second)) r.2) in
        (cons (LogWaiting i (Errorf "cachekit: ping: %w" [] (Some e))) <$> r2.1, r2.2)
    end.
Proof.
  cbn zeta. cbn [waitReady_from Nat.add]. unfold WithTimeout. step.
  rewrite run_app_Ping. cbn [fst snd]. unfold time_Add.
  destruct (run (Ping _) (read_clock w).2) as [[e|] w1]; cbn [fmap option_fmap option_map fst snd];
    step; [|done].
  unfold Sleep. step. done.
Qed.

(** With [n] failing attempts left at most. *)
Lemma waitReady_from_returns ready n i w :
  (∀ ctx w, w_time w <= w_time (run (Ping ctx) w).2) →
  (∀ ctx w, ready <= w_time w → ctx_Err ctx w = None → (run (Ping ctx) w).1 = None) →
  ready - w_time w <= 2 * Second * Z.of_nat n →
  ∃ log w', (length log <= n)%nat ∧ numbered i log
  ∧ w_time w + 2 * Second * Z.of_nat (length log) <= w_time w'
  ∧ ∀ fuel, (n < fuel)%nat →
      run (waitReady_from fuel i Background cache) w = (Some log, w').
Proof.
  intros Hmono Hready. revert i w. induction n as [|n IH]; intros i w Hn.
  all: set (cctx := WithDeadline Background ((read_clock w).1 + 3 * Second)).
  all: pose proof (Hmono cctx (read_clock w).2) as Ht.
  all: assert (ctx_Err cctx (read_clock w).2 = None) as Hctx
    by (unfold ctx_Err; cbn; rewrite (proj2 (Z.leb_gt _ _)); [done|unfold Second, Millisecond; lia]).
  all: assert (w_time w <= w_time (read_clock w).2) as Ht0 by (cbn; lia).
  all: destruct (run (Ping cctx) (read_clock w).2) as [o w1] eqn:E; cbn [fst snd] in *.
  all: assert (∀ fuel, o = None →
    run (waitReady_from (1 + fuel) i Background cache) w = (Some [], w1)) as Hnone
    by (intros fuel ->; rewrite run_waitReady_S; fold cctx; by rewrite E).
  - assert (o = None) as Ho.
    { change o with (o, w1).1. rewrite <-E. apply Hready; [lia|done]. }
    exists [], w1. split_and!; [simpl; lia|done|simpl; lia|].
    intros [|fuel] Hf; [lia|by apply Hnone].
  - destruct o as [e|].
    + assert (w_time (elapse (Z.to_N (2 * Second)) w1) = w_time w1 + 2 * Second) as Hel
        by (unfold elapse, Second, Millisecond; cbn [w_time]; lia).
      destruct (IH (1 + i)%nat (elapse (Z.to_N (2 * Second)) w1)) as (log & w' & H1 & H2 & H3 & H4);
        [rewrite Hel; lia|].
      exists (LogWaiting i (Errorf "cachekit: ping: %w" [] (Some e)) :: log), w'.
      split_and!; [simpl; lia|by apply numbered_cons|simpl length; lia|].
      intros [|fuel] Hf; [lia|]. rewrite run_waitReady_S. fold cctx. rewrite E.
      cbn [fst snd]. by rewrite H4 by lia.
    + exists [], w1. split_and!; [simpl; lia|done|simpl; lia|].
      intros [|fuel] Hf; [lia|by apply Hnone].
Qed.

(** C33: waitReady terminates: if from some instant on the cluster answers every
    PING whose context is live, it returns after at most one failed attempt for
    every two seconds until then, having logged exactly the failed attempts,
    numbered from one, and slept two seconds after each. *)
Theorem waitReady_returns ready w :
  let n := Z.to_nat ((ready - w_time w + 2 * Second - 1) / (2 * Second)) in
  (∀ ctx w, w_time w <= w_time (run (Ping ctx) w).2) →
  (∀ ctx w, ready <= w_time w → ctx_Err ctx w = None → (run (Ping ctx) w).1 = None) →
  ∃ log w', (length log <= n)%nat ∧ numbered 1 log
  ∧ w_time w + 2 * Second * Z.of_nat (length log) <= w_time w'
  ∧ ∀ fuel, (n < fuel)%nat →
      run (waitReady fuel Background cache) w = (Some log, w').
Proof.
  cbn zeta. intros Hmono Hready. apply (waitReady_from_returns ready); [done|done|].
  unfold Second, Millisecond in *. 
  pose proof (Z.div_mod (ready - w_time w + 2 * (1000 * 1000000) - 1) (2 * (1000 * 1000000))).
  pose proof (Z.mod_pos_bound (ready - w_time w + 2 * (1000 * 1000000) - 1) (2 * (1000 * 1000000))).
  lia.
Qed.
End waiting.

(** ** runDemo *)

(** The user the first pass loads for the [i]-th key. *)
Definition demoUser (i : nat) (k : string) : User :=
  mkUser (Z.of_nat i + 1) ("name-of-" +:+ k).

Section demo.
Context {S : Type} `{!JSON User} (addr : N) (rdb : ClusterClient S).
Context (db : S → string → Time → option bytes) (slot : string → Z).
Context `{!ResponsiveCluster rdb db slot}.
Abbreviation cache := (app_cache addr rdb).
Abbreviation app := (RedisCache_Cache cache).
(** The cache as callers with an endless context see it. *)
Abbreviation dapp := (detached app).
Abbreviation view := (redis_view cache db).
Abbreviation lifetime := (server_lifetime (redis_config cache)).
Implicit Types w : World S.

#[local] Instance app_no_keep : NoKeepTTL cache.
Proof. apply no_keep_ttl_plain; [vm_compute; discriminate|reflexivity]. Qed.

#[local] Instance app_server : RedisServer (r_client cache) db := rc_server.

#[local] Instance app_spec : CacheSpec dapp view lifetime.
Proof.
  apply (detached_cache_spec app view lifetime 0); [done|]. apply (RedisCache_spec cache db).
Qed.

(** Nothing ends a command of the cache. *)
Lemma app_not_done ctx ctx' (w w' : World S) (P : Prop) :
  op_context (r_opTimeout cache) (WithoutCancel ctx) w ctx' → is_Some (ctx_Err ctx' w') → P.
Proof. intros H [] %H%op_never_done; done. Qed.

(** The event of a Get. *)
Lemma app_Get_trace ctx k w :
  w_trace (run (c_Get dapp ctx k) w).2 = w_trace w
    ++ [if is_Ok (run (c_Get dapp ctx k) w).1 then EvHit k else EvMiss k].
Proof.
  cbn [c_Get RedisCache_Cache detached].
  destruct (run_redis_Get cache (WithoutCancel ctx) k w)
    as (ctx' & w0 & _ & _ & Htr & Hoc & ->).
  destruct (rs_Get ctx' (redis_key cache k) w0) as (t & _ & Hr & _).
  pose proof (rc_Get_silent ctx' (redis_key cache k) w0) as Hs.
  change (r_client cache) with (cc_client rdb) in *. rewrite Htr in Hs.
  destruct (run (rc_Get _ _ _) w0) as [[data|e] w1]; cbn [fst snd] in *.
  - cbn. by rewrite Hs.
  - destruct (errors_Is e _); [cbn; by rewrite Hs|]. destruct Hr as [Hr _].
    by apply (app_not_done ctx ctx' w w1).
Qed.

Lemma app_Set_trace ctx k v ttl w : w_trace (run (c_Set dapp ctx k v ttl) w).2 = w_trace w.
Proof.
  cbn [c_Set RedisCache_Cache detached].
  destruct (run_redis_Set cache (WithoutCancel ctx) k v ttl w)
    as (ctx' & d & w0 & _ & _ & Htr & Hoc & Hd & ->).
  destruct (rs_Set ctx' (redis_key cache k) v d w0 (no_keep_ttl _ _ _ Hd)) as (_ & _ & Hr).
  pose proof (rc_Set_silent ctx' (redis_key cache k) v d w0) as Hs.
  change (r_client cache) with (cc_client rdb) in *.
  destruct (run (rc_Set _ _ _ _ _) w0) as [[e|] w1]; cbn [fst snd] in *; [|congruence].
  destruct Hr as [Hr _]. by apply (app_not_done ctx ctx' w w1).
Qed.

Lemma firstLoader_yields id k :
  loader_yields view (firstLoader id k) (Returned (Ok (mkUser id ("name-of-" +:+ k)))).
Proof. intros ctx w Hw. unfold firstLoader. rewrite run_ret. cbn [fst snd]. by split_and!. Qed.

(** The loading phase fires OnLoad once and stores silently. *)
Lemma app_loadPhase_trace k ttl fctx id data w :
  Marshal (JSONCodec (T := User)) (mkUser id ("name-of-" +:+ k)) = Ok data →
  ∃ d, w_trace (run (loadPhase dapp k ttl JSONCodec (firstLoader id k) (redis_config cache)
                       fctx) w).2
    = w_trace w ++ [EvLoad k d None].
Proof.
  intros Hm. rewrite run_loadPhase. unfold firstLoader. rewrite run_ret. cbn zeta.
  cbn [fst snd]. eexists. unfold storeLoaded. rewrite Hm.
  change (envelopeEnabled (redis_config cache)) with false.
  unfold packForStore. change (envelopeEnabled (redis_config cache)) with false.
  cbn [negb]. step. rewrite run_bind, run_ret. cbn [snd]. by rewrite app_Set_trace.
Qed.

(** The encoding a key's user is stored as. *)
Definition stored_as (u : User) (data : bytes) : Prop :=
  Marshal (JSONCodec (T := User)) u = Ok data ∧ Unmarshal (JSONCodec (T := User)) data = Ok u
  ∧ head data ≠ Some x00.

Lemma stored_not_negative u data : stored_as u data → isNegativeEntry data = false.
Proof. intros (_ & _ & Hh). apply bool_decide_eq_false. by intros ->. Qed.

(** The flight of a first call: it misses again, loads and stores. *)
Lemma app_missFlight ctx k id data w :
  0 <= w_time w → absent view k w →
  stored_as (mkUser id ("name-of-" +:+ k)) data →
  ∃ d w1, run (start (loadAndStore ctx dapp k Minute JSONCodec (firstLoader id k)
                        (redis_config cache) (mkFlightOpts true 0 zero_time))) w
      = (Ok data, w1)
  ∧ w_time w <= w_time w1
  ∧ w_trace w1 = w_trace w ++ [EvMiss k; EvLoad k d None]
  ∧ ∀ t, w_time w1 <= t < w_time w + Minute → view (w_store w1) k t = Some data.
Proof.
  intros Hw Ha (Hm & Hu & Hh). set (fopts := mkFlightOpts true 0 zero_time).
  rewrite run_start. unfold loadAndStore. rewrite run_bind.
  destruct (flightContext_quiet ctx fopts w) as (Ht2 & Hs2 & Htr2 & _).
  destruct (absent_later view k _ w Hw (quiet_flightContext view ctx fopts) Ha) as [Ha2 _].
  destruct (run (flightContext ctx fopts) w) as [fctx w2]. cbn [fst snd] in *.
  rewrite run_bind, (recheck_absent dapp view lifetime) by done. cbn [fst snd].
  pose proof (app_Get_trace fctx k w2) as Htr3.
  destruct (spec_Get_miss dapp view lifetime fctx k w2) as (e3 & He3 & _);
    [intros t Ht; apply Ha2; lia|]. rewrite He3 in Htr3. cbn [is_Ok] in Htr3.
  pose proof (spec_Get_time dapp view lifetime fctx k w2) as Ht3.
  set (w3 := (run (c_Get dapp fctx k) w2).2) in *.
  destruct (app_loadPhase_trace k Minute fctx id data w3 Hm) as [d Hload].
  destruct (loadPhase_ok dapp view lifetime k Minute JSONCodec (firstLoader id k)
    (redis_config cache) fctx _ data w3 ltac:(lia) (firstLoader_yields id k) Hm)
    as (data' & sttl & t & d' & wa & Hr & Hp & Hta & Htb & Hwr).
  destruct (run (loadPhase _ _ _ _ _ _ _) w3) as [o w4]. cbn [fst snd] in *. subst o.
  assert (data' = data) as -> by by apply (pk_bare _ _ _ _ _ _ _ Hp).
  exists d, w4. split_and!; [done|lia| |].
  - rewrite Hload, Htr3, Htr2. by rewrite <-!(assoc_L (++)).
  - intros t' Ht'. apply (packed_visible dapp view lifetime (redis_config cache) k data Minute
      d' data sttl t wa w4); try done; try lia.
    right. change (floor_ms (base_ttl (redis_config cache) Minute)) with Minute. lia.
Qed.

(** A call of the first pass: it misses twice, loads and stores. *)
Lemma GetOrSet_first ctx k id data w :
  0 <= w_time w → absent view k w → endless ctx →
  stored_as (mkUser id ("name-of-" +:+ k)) data →
  ∃ d w1, solo (GetOrSet ctx app k Minute (firstLoader id k)) w
      = (Ok (mkUser id ("name-of-" +:+ k)), [], w1)
  ∧ w_time w <= w_time w1
  ∧ w_trace w1 = w_trace w ++ [EvMiss k; EvMiss k; EvLoad k d None]
  ∧ (∀ t, w_time w1 <= t < w_time w + Minute → view (w_store w1) k t = Some data)
  ∧ ∀ k' t, k' ≠ k → w_time w1 <= t → view (w_store w1) k' t = view (w_store w) k' t.
Proof.
  intros Hw Ha Hctx Hst.
  destruct (caller_touches_GetOrSet dapp view lifetime ctx k Minute (Some defaultCodec)
    (firstLoader id k) ltac:(by intros ctx' w' _; split) w Hw) as [_ Hvf].
  destruct (spec_Get_miss dapp view lifetime ctx k w) as (e & He & _);
    [intros t Ht; apply Ha; lia|].
  destruct (absent_later view k _ w Hw (quiet_Get dapp view lifetime ctx k) Ha) as [Ha1 Ht1].
  pose proof (app_Get_trace ctx k w) as Htr1. rewrite He in Htr1. cbn [is_Ok] in Htr1.
  destruct (run (c_Get dapp ctx k) w) as [r w1] eqn:Eg. cbn [fst snd] in *. subst r.
  destruct (app_missFlight ctx k id data w1 ltac:(lia) Ha1 Hst) as (d & w2 & Hf & Ht2 & Htr2 & Hv).
  assert (solo (GetOrSetWithCodec ctx dapp k Minute (Some defaultCodec) (firstLoader id k)) w
    = (Ok (mkUser id ("name-of-" +:+ k)), [], w2)) as Hs.
  { erewrite solo_GetOrSet_miss by done.
    change (codec_or_default (Some defaultCodec)) with (JSONCodec (T := User)).
    change (configOf (c_config dapp)) with (redis_config cache). rewrite Hf.
    rewrite select_result_live by by apply ctx_Err_endless.
    unfold decodeFlight. rewrite (stored_not_negative _ _ Hst).
    change (parseStored (redis_config cache) data) with (no_envelope, data). cbv beta iota.
    by rewrite (proj1 (proj2 Hst)). }
  rewrite Hs in *. cbn [snd] in *. exists d, w2.
  split_and!; [by apply GetOrSet_from_detached|lia| |intros; apply Hv; lia|done].
  rewrite Htr2, Htr1. by rewrite <-!(assoc_L (++)).
Qed.

Lemma secondLoader_quiet k ctx : touches view k (secondLoader k ctx).
Proof. intros w _. split; [simpl; lia|done]. Qed.

Lemma app_bare data : parseStored (configOf (c_config dapp)) data = (no_envelope, data).
Proof. change (configOf (c_config dapp)) with (redis_config cache). reflexivity. Qed.

Lemma app_no_early : fle (cfg_earlyRefreshBeta (configOf (c_config dapp))) fzero = true.
Proof. change (configOf (c_config dapp)) with (redis_config cache). reflexivity. Qed.

(** A call of the second pass: one hit, nothing is loaded or started. *)
Lemma GetOrSet_second_detached ctx k u data until w :
  0 <= w_time w → stored_as u data →
  (∀ t, w_time w <= t < until → view (w_store w) k t = Some data) →
  let p := GetOrSetWithCodec ctx dapp k Minute (Some defaultCodec) (secondLoader k) in
  w_time (solo p w).2 < until →
  ∃ w1, solo p w = (Ok u, [], w1)
  ∧ same_view_by view w w1 ∧ w_trace w1 = w_trace w ++ [EvHit k].
Proof.
  cbn zeta. intros Hw Hst Hvis Hlt. destruct (Hst) as (_ & Hu & _).
  pose proof (GetOrSet_after_Get dapp view lifetime ctx k Minute (Some defaultCodec)
    (secondLoader k) w Hw (secondLoader_quiet k)) as Hge.
  pose proof (stored_not_negative _ _ Hst) as Hn.
  pose proof (spec_Get_hit dapp view lifetime ctx k w data
    ltac:(intros t Ht; apply Hvis; lia)) as Hr.
  pose proof (app_Get_trace ctx k w) as Htr. rewrite Hr in Htr. cbn [is_Ok] in Htr.
  destruct (quiet_Get dapp view lifetime ctx k w Hw) as [Ht Hv].
  unfold GetOrSetWithCodec. cbn zeta. rewrite solo_bind, solo_lift, Hr, solo_bind.
  destruct (solo_serveHit_ok dapp ctx k Minute (Some defaultCodec) (secondLoader k) data
    no_envelope data u (run (c_Get dapp ctx k) w).2 Hn (app_bare data) Hu)
    as (sp & w' & -> & Hs' & Htr' & Ht' & _ & _ & Hsp). rewrite solo_ret.
  rewrite (Hsp (stale_no_envelope _) app_no_early). exists w'. split_and!; [done| |congruence].
  split; rewrite Ht'; cbn [read_clock fst]; [lia|]. intros k' t Hle.
  rewrite Hs', Hv by lia. done.
Qed.

Lemma GetOrSet_second ctx k u data until w :
  endless ctx → 0 <= w_time w → stored_as u data →
  (∀ t, w_time w <= t < until → view (w_store w) k t = Some data) →
  w_time (solo (GetOrSet ctx app k Minute (secondLoader k)) w).2 < until →
  ∃ w1, solo (GetOrSet ctx app k Minute (secondLoader k)) w = (Ok u, [], w1)
  ∧ same_view_by view w w1 ∧ w_trace w1 = w_trace w ++ [EvHit k].
Proof.
  intros Hctx Hw Hst Hvis. rewrite GetOrSet_detached_time by done. intros Hlt.
  destruct (GetOrSet_second_detached ctx k u data until w Hw Hst Hvis Hlt) as (w1 & Hs & H).
  exists w1. split; [|done]. by apply GetOrSet_from_detached.
Qed.

(** *** The passes *)

Definition demo_result (ik : nat * string) : keyResult :=
  mkKeyResult ik.2 (slot (app_prefix +:+ ik.2)) (demoUser ik.1 ik.2).

Definition load_events (kd : string * Duration) : list event :=
  [EvMiss kd.1; EvMiss kd.1; EvLoad kd.1 kd.2 None].

(** The users of these keys can be encoded. *)
Definition encodable (iks : list (nat * string)) : Prop :=
  ∀ ik, ik ∈ iks → ∃ data, stored_as (demoUser ik.1 ik.2) data.

(** Until the instant [until], the keys hold their users. *)
Definition filled (iks : list (nat * string)) (until : Time) w : Prop :=
  ∀ ik data, ik ∈ iks → stored_as (demoUser ik.1 ik.2) data →
    ∀ t, w_time w <= t < until → view (w_store w) ik.2 t = Some data.

Lemma firstPass_step ctx results log ik data w :
  endless ctx → 0 <= w_time w → absent view ik.2 w →
  stored_as (demoUser ik.1 ik.2) data →
  ∃ d w1, solo (firstPass ctx cache rdb (results, log) ik) w
    = ((results ++ [demo_result ik], log), [], w1)
  ∧ w_time w <= w_time w1 ∧ w_trace w1 = w_trace w ++ load_events (ik.2, d)
  ∧ (∀ t, w_time w1 <= t < w_time w + Minute → view (w_store w1) ik.2 t = Some data)
  ∧ ∀ k t, k ≠ ik.2 → w_time w1 <= t → view (w_store w1) k t = view (w_store w) k t.
Proof.
  destruct ik as [i k]. cbn [fst snd]. intros Hctx Hw Ha Hst. unfold firstPass.
  destruct (GetOrSet_first ctx k (Z.of_nat i + 1) data w Hw Ha Hctx Hst)
    as (d & w1 & Hrun & Ht & Htr & Hv & Hf).
  rewrite solo_bind, Hrun, solo_bind, solo_lift.
  destruct (rc_KeySlot ctx (app_prefix +:+ k) w1) as (w2 & -> & Ht2 & Htr2 & Hv2).
  cbn [fst snd]. rewrite solo_ret. exists d, w2.
  split_and!; [done|lia|by rewrite Htr2| |].
  - intros t Hwin. unfold redis_view in *. rewrite Hv2 by lia. apply Hv. lia.
  - intros k' t Hk' Hle. unfold redis_view in *. rewrite Hv2 by lia. apply Hf; [done|lia].
Qed.

Lemma stored_as_inj u data data' : stored_as u data → stored_as u data' → data = data'.
Proof. intros (H & _) (H' & _). congruence. Qed.

Lemma first_pass ctx iks results log w :
  endless ctx → 0 <= w_time w → NoDup iks.*2 → encodable iks →
  (∀ k, k ∈ iks.*2 → absent view k w) →
  ∃ durs w1, solo (pfor_fold (firstPass ctx cache rdb) (results, log) iks) w
    = ((results ++ (demo_result <$> iks), log), [], w1)
  ∧ w_time w <= w_time w1 ∧ length durs = length iks
  ∧ w_trace w1 = w_trace w ++ (zip iks.*2 durs ≫= load_events)
  ∧ filled iks (w_time w + Minute) w1
  ∧ ∀ k t, k ∉ iks.*2 → w_time w1 <= t → view (w_store w1) k t = view (w_store w) k t.
Proof.
  intros Hctx. revert results w. induction iks as [|ik iks IH]; intros results w Hw Hnd Henc Ha.
  { exists [], w. rewrite !app_nil_r. split_and!; try done.
    intros ik data Hin. by apply not_elem_of_nil in Hin. }
  cbn [fmap list_fmap] in Hnd, Ha. apply NoDup_cons in Hnd as [Hk Hnd].
  destruct (Henc ik (list_elem_of_here _ _)) as [data Hst].
  destruct (firstPass_step ctx results log ik data w Hctx Hw (Ha _ (list_elem_of_here _ _)) Hst)
    as (d & w1 & Hrun & Ht & Htr & Hv & Hf).
  destruct (IH (results ++ [demo_result ik]) w1) as (durs & w2 & Hrun2 & Ht2 & Hlen & Htr2 & Hv2 & Hf2);
    [lia|done|by intros ik' Hin; apply Henc, list_elem_of_further| |].
  { intros k Hin t Hle. rewrite Hf; [|by intros ->|done].
    apply Ha; [by apply list_elem_of_further|lia]. }
  exists (d :: durs), w2. cbn [pfor_fold]. rewrite solo_bind, Hrun, Hrun2.
  split_and!.
  - by rewrite <-(assoc_L (++)).
  - lia.
  - cbn. by rewrite Hlen.
  - rewrite Htr2, Htr, <-(assoc_L (++)). done.
  - intros ik' data' [->|Hin]%elem_of_cons Hst' t Hwin.
    + rewrite Hf2 by (done || lia). rewrite (stored_as_inj _ _ _ Hst' Hst). apply Hv. lia.
    + apply Hv2; [done|done|lia].
  - intros k t [Hne Hnin]%not_elem_of_cons Hle. rewrite Hf2 by done. apply Hf; [done|lia].
Qed.

(** One round of the second pass, with what is left to do. *)
Definition second_log (log : list log_line) (k : string) (r : result User) : list log_line :=
  match r with Err err => log ++ [LogSecondPass k err] | Ok _ => log end.

Lemma solo_second_cons ctx log k keys w :
  solo (pfor_fold (secondPass ctx cache) log (k :: keys)) w
  = let '(r, sp, w1) := solo (GetOrSet ctx app k Minute (secondLoader k)) w in
    let '(log', sp', w2) := solo (pfor_fold (secondPass ctx cache) (second_log log k r) keys) w1 in
    (log', sp ++ sp', w2).
Proof.
  cbn [pfor_fold]. rewrite solo_bind.
  assert (solo (secondPass ctx cache log k) w
    = let '(r, sp, w1) := solo (GetOrSet ctx app k Minute (secondLoader k)) w in
      (second_log log k r, sp, w1)) as ->.
  { unfold secondPass. rewrite solo_bind.
    destruct (solo (GetOrSet _ _ _ _ _) w) as [[r sp] w1]. rewrite solo_ret.
    by rewrite app_nil_r. }
  by destruct (solo (GetOrSet _ _ _ _ _) w) as [[r sp] w1].
Qed.

Lemma second_call_time ctx k w :
  endless ctx → 0 <= w_time w →
  w_time w <= w_time (solo (GetOrSet ctx app k Minute (secondLoader k)) w).2.
Proof.
  intros Hctx Hw. rewrite GetOrSet_detached_time by done.
  apply (caller_touches_GetOrSet dapp view lifetime ctx k Minute (Some defaultCodec)
    (secondLoader k) (secondLoader_quiet k) w Hw).
Qed.

(** Every call of the second pass takes time. *)
Lemma second_pass_time ctx log keys w :
  endless ctx → 0 <= w_time w → w_time w <= w_time (solo (pfor_fold (secondPass ctx cache) log keys) w).2.
Proof.
  intros Hctx. revert log w. induction keys as [|k keys IH]; intros log w Hw; [simpl; lia|].
  rewrite solo_second_cons. pose proof (second_call_time ctx k w Hctx Hw) as Ht.
  destruct (solo (GetOrSet _ _ _ _ _) w) as [[r sp] w1]. cbn [snd] in Ht.
  specialize (IH (second_log log k r) w1 ltac:(lia)).
  destruct (solo (pfor_fold _ _ keys) w1) as [[l2 sp2] w2]. cbn [snd] in *. lia.
Qed.

Lemma second_pass ctx iks log until w :
  endless ctx → 0 <= w_time w → encodable iks → filled iks until w →
  w_time (solo (pfor_fold (secondPass ctx cache) log iks.*2) w).2 < until →
  ∃ w1, solo (pfor_fold (secondPass ctx cache) log iks.*2) w = (log, [], w1)
  ∧ w_time w <= w_time w1 ∧ w_trace w1 = w_trace w ++ (EvHit <$> iks.*2).
Proof.
  intros Hctx. revert w. induction iks as [|[i k] iks IH]; intros w Hw Henc Hfill.
  { exists w. by rewrite app_nil_r. }
  destruct (Henc (i, k) (list_elem_of_here _ _)) as [data Hst].
  rewrite !fmap_cons. cbn [snd]. rewrite solo_second_cons.
  pose proof (GetOrSet_second ctx k (demoUser i k) data until w Hctx Hw Hst
    (Hfill _ data (list_elem_of_here _ _) Hst)) as Hget.
  pose proof (second_call_time ctx k w Hctx Hw) as Ht.
  destruct (solo (GetOrSet _ _ _ _ _) w) as [[r sp] w1]. cbn [snd] in Ht, Hget.
  pose proof (second_pass_time ctx (second_log log k r) iks.*2 w1 Hctx ltac:(lia)) as Ht2.
  destruct (solo (pfor_fold _ _ _) w1) as [[l2 sp2] w2] eqn:Erest. cbn [snd] in *. intros Hlt.
  destruct (Hget ltac:(lia)) as (w1' & [= -> -> <-] & [_ Hsame] & Htr).
  cbn [second_log] in Erest.
  destruct (IH w1) as (w2' & Hrun & Htw & Htrw); [lia| | | |].
  - intros ik Hin. by apply Henc, list_elem_of_further.
  - intros ik data' Hin Hst' t Hwin. rewrite Hsame by lia.
    apply (Hfill ik data'); [by apply list_elem_of_further|done|lia].
  - by rewrite Erest.
  - rewrite Erest in Hrun. injection Hrun as -> -> ->. exists w2'.
    split_and!; [done|lia|]. by rewrite Htrw, Htr, <-(assoc_L (++)).
Qed.

(** runDemo, from its two passes. *)
Lemma solo_runDemo ctx w :
  solo (runDemo ctx cache rdb) w
  = let '(results, log, sp, w1) :=
      solo (pfor_fold (firstPass ctx cache rdb) ([], []) (imap pair demoKeys)) w in
    let '(log', sp', w2) := solo (pfor_fold (secondPass ctx cache) log demoKeys) w1 in
    ((mkReport (length results) results,
      log' ++ [LogDemo (length results) (counters_of (w_trace w2))]), sp ++ sp', w2).
Proof.
  unfold runDemo. rewrite solo_bind.
  destruct (solo (pfor_fold _ _ (imap pair demoKeys)) w) as [[[results log] sp] w1].
  cbv beta iota. rewrite solo_bind.
  destruct (solo (pfor_fold _ log demoKeys) w1) as [[log' sp'] w2].
  rewrite solo_bind, solo_lift. unfold read_counters. rewrite run_atom, solo_ret.
  cbn [fst snd]. by rewrite !app_nil_r.
Qed.

(** C32: runDemo proves what it is meant to on a responsive cluster, in under a
    minute and with none of the demo keys cached before: it reports the eight
    users with the slots of their prefixed keys, the second pass never runs
    its loader - each of its eight calls is a hit, no error is logged or
    reported to a hook, no refresh is started - and the counters of a fresh
    process then say 8 hits, 8 loads and 16 misses, for a miss is looked up
    twice. *)
Theorem runDemo_second_pass_hits ctx w :
  let r := solo (runDemo ctx cache rdb) w in
  endless ctx → 0 <= w_time w → encodable (imap pair demoKeys) →
  (∀ k, k ∈ demoKeys → absent view k w) →
  w_time r.2 < w_time w + Minute →
  r.1.1 = (mkReport 8 (demo_result <$> imap pair demoKeys),
           [LogDemo 8 (counters_of (w_trace r.2))])
  ∧ r.1.2 = []
  ∧ (∃ durs, length durs = 8%nat ∧ w_trace r.2
       = w_trace w ++ (zip demoKeys durs ≫= load_events) ++ (EvHit <$> demoKeys))
  ∧ (w_trace w = [] → counters_of (w_trace r.2) = mkCounters 8 16 8).
Proof.
  cbn zeta. intros Hctx Hw Henc Ha. rewrite solo_runDemo.
  assert ((imap pair demoKeys).*2 = demoKeys) as Hkeys by reflexivity.
  destruct (first_pass ctx (imap pair demoKeys) [] [] w Hctx Hw) as
    (durs & w1 & Hrun & Ht & Hlen & Htr & Hfill & _); [|done|by rewrite Hkeys|].
  { rewrite Hkeys. apply (bool_decide_unpack _). vm_compute. done. }
  rewrite Hrun, app_nil_l. cbv beta iota.
  pose proof (second_pass ctx (imap pair demoKeys) [] (w_time w + Minute) w1
    Hctx ltac:(lia) Henc Hfill) as Hsecond. rewrite Hkeys in *.
  destruct (solo (pfor_fold (secondPass ctx cache) [] demoKeys) w1) as [[log' sp'] w2].
  cbn [fst snd] in *. intros Hlt.
  destruct (Hsecond Hlt) as (w2' & [= -> -> ->] & _ & Htr2). rewrite Htr2, Htr.
  change (length (imap pair demoKeys)) with 8%nat in Hlen.
  split_and!; [done|done| |].
  - exists durs. by rewrite (assoc_L (++)).
  - intros ->. do 9 (destruct durs as [|? durs]; [done|]). done.
Qed.
End demo.

(** ** On a server in memory *)

(** JSON for the users of the demo: their text, and its inverse. *)
Definition quote (s : string) : string :=
  let q := String (ascii_of_nat 34) EmptyString in q +:+ s +:+ q.

Definition user_text (u : User) : string :=
  "{" +:+ quote "id" +:+ ":" +:+ pretty (ID u) +:+ "," +:+ quote "name" +:+ ":"
  +:+ quote (Name u) +:+ "}".

Definition demo_users : list User := (λ ik : nat * string, demoUser ik.1 ik.2) <$> imap pair demoKeys.

#[local] Instance JSON_demo_user : JSON User := {|
  json_Marshal := λ u, Ok (bytes_of_string (user_text u));
  json_Unmarshal := λ data,
    match List.find (λ u, bytes_Equal data (bytes_of_string (user_text u))) demo_users with
    | Some u => Ok u
    | None => Err (ErrOther "json: invalid value")
    end
|}.

(** A cluster of one server that places keys by their length; the PING of
    [late_cluster] fails until half a minute after [demo_time]. *)
Definition fake_cluster : ClusterClient entries :=
  mkCluster fake_redis (λ _ k, mret (Z.of_nat (String.length k), None)) (λ _, mret (Ok EmptyString)).

#[local] Instance fake_cluster_responsive :
  ResponsiveCluster fake_cluster fake_db (λ k, Z.of_nat (String.length k)).
Proof.
  split.
  - exact fake_redis_server.
  - intros ctx k w. cbn [cc_client fake_cluster rc_Get fake_redis]. by step; rewrite run_fake_get.
  - intros ctx k v d w. cbn [cc_client fake_cluster rc_Set fake_redis]. unfold fake_set. by step.
  - intros ctx k w. exists w. split_and!; [done|lia|done|done].
Qed.

Definition late_redis : RedisClient entries :=
  mkRedisClient redis_nil (rc_Get fake_redis) (rc_Set fake_redis) (rc_Del fake_redis)
    (λ _, atom (λ w, (if w_time w <? demo_time + 30 * Second
                      then Some (ErrOther "CLUSTERDOWN") else None, w)))
    (rc_MGet fake_redis) (rc_Exec fake_redis) (rc_Close fake_redis).

Definition late_cluster : ClusterClient entries :=
  mkCluster late_redis (cc_KeySlot fake_cluster) (cc_Nodes fake_cluster).

Lemma waitReady_returns_witness :
  ∃ log w', run (waitReady 16 Background
      (app_cache 1 late_cluster)) (demo_world ∅) = (Some log, w')
  ∧ (length log <= 15)%nat.
Proof.
  destruct (waitReady_returns 1 late_cluster (demo_time + 30 * Second)
    (demo_world ∅)) as (log & w' & Hlen & _ & _ & Hrun).
  - intros ctx w. simpl. lia.
  - intros ctx w Hw _. simpl. by rewrite (proj2 (Z.ltb_ge _ _)).
  - exists log, w'. split; [apply Hrun; vm_compute; lia|exact Hlen].
Defined.

Lemma runDemo_second_pass_hits_witness :
  (solo (runDemo Background (app_cache 1 fake_cluster)
     fake_cluster) (demo_world ∅)).1.1.1.(rep_count) = 8%nat.
Proof.
  destruct (runDemo_second_pass_hits 1 fake_cluster fake_db
    (λ k, Z.of_nat (String.length k)) Background (demo_world ∅)) as (H & _).
  - by split.
  - vm_compute. discriminate.
  - intros ik Hin. eexists. split; [reflexivity|].
    repeat (apply elem_of_cons in Hin as [->|Hin]; [vm_compute; split; [reflexivity|discriminate]|]).
    by apply not_elem_of_nil in Hin.
  - intros k _ t _. reflexivity.
  - vm_compute. reflexivity.
  - by rewrite H.
Defined.

(** The comment on runDemo says an error of the second pass's loader "would
    surface via OnError"; it is returned, and reported by OnLoad alone. *)
Example second_pass_error_is_no_OnError :
  let r := solo (secondPass Background (app_cache 1 fake_cluster) [] "user:1") (demo_world ∅) in
  let err := Errorf "loader must not run on a hit for %s" [AStr "user:1"] None in
  r.1.1 = [LogSecondPass "user:1" err]
  ∧ w_trace r.2 = [EvMiss "user:1"; EvMiss "user:1"; EvLoad "user:1" 5 (Some err)].
Proof. vm_compute. done. Qed.

(** /healthz answers 200 exactly when the PING of the request succeeds; the
    error of a 503 wraps the client's. *)
Lemma handle_healthz_spec {S} `{!JSON User} addr (rdb : ClusterClient S) ctx (w : World S) :
  let r := run (handle_healthz ctx (app_cache addr rdb)) w in
  match (run (rc_Ping (cc_client rdb) ctx) w).1 with
  | None => r.1 = (StatusOK, BodyOk)
  | Some e => ∃ e', r.1 = (StatusServiceUnavailable, BodyError e')
      ∧ ∀ t, errors_Is e t = true → errors_Is e' t = true
  end.
Proof.
  cbn zeta. unfold handle_healthz. rewrite run_bind, run_app_Ping.
  destruct (run (rc_Ping (cc_client rdb) ctx) w) as [[e|] w1]; cbn [fst snd fmap option_fmap option_map];
    [|done]. eexists. split; [done|]. intros t. apply errors_Is_wrap.
Qed.

(** The whole start-up, against a cluster that comes up after half a minute:
    fifteen failed attempts, then the demo. *)
Example startup_late_cluster :
  let r := (solo (startup 100 (λ _, EmptyString) 1 (λ _, late_cluster)) (demo_world ∅)).1.1 in
  let down := Errorf "cachekit: ping: %w" [] (Some (ErrOther "CLUSTERDOWN")) in
  r = Some (mkReport 8 (demo_result (λ k, Z.of_nat (String.length k)) <$> imap pair demoKeys),
        imap (λ i _, LogWaiting (1 + i) down) (replicate 15 ())
        ++ [LogConnected [default_addr]; LogDemo 8 (mkCounters 8 16 8)]).
Proof. vm_compute. reflexivity. Qed.
