(* ===== verification/ServerProvenance.v ===== *)
(** * Where returned values come from, on the network backends

    RedisCache and ValkeyCache keep the guarantee of Provenance.v on any
    server that hands out, under a key, only bytes that were stored under that
    key - through the client-side cache of ValkeyCache as well, whose answers
    may be old.  Keys of other prefixes, written by other services, may hold
    anything. *)
From stdpp Require Import vector.
From S2P Require Import Prelude Int64 Float64 Errors Runtime Envelope Hooks Codec.
From S2P Require Import Options Cache Server Redis Valkey FakeServer Group GetOrSet Batch.
From S2P Require Import Instances Flights FlightsThms Provenance MixedProvenance.
From Stdlib Require Import ZArith Lia.
Local Open Scope Z_scope.

(** ** What is asked of a client

    [J D s]: what the server, and the client's own cache, hold under each key
    satisfies [D].  Every step of a command keeps that, for any [D] that holds
    of what the command stores; what a read yields satisfies it. *)
Class KeyedRedis {S} (cl : RedisClient S) (J : (string → bytes → Prop) → S → Prop) : Prop := {
  kr_Get D ctx k : act_ok (J D) (λ r, ∀ data, r = Ok data → D k data) (rc_Get cl ctx k);
  kr_Set D ctx k v d : D k v → act_ok (J D) (λ _, True) (rc_Set cl ctx k v d);
  kr_Del D ctx k : act_ok (J D) (λ _, True) (rc_Del cl ctx k);
  kr_MGet D ctx keys : act_ok (J D)
    (λ r, ∀ vals, r = Ok vals →
       ∀ k data, (k, Some data) ∈ zip keys (vec_to_list vals) → D k data)
    (rc_MGet cl ctx keys);
  kr_Exec D ctx pipe : Forall (λ cmd, D cmd.1.1 cmd.1.2) pipe →
    act_ok (J D) (λ _, True) (rc_Exec cl ctx pipe)
}.

Definition stores_ok (D : string → bytes → Prop) (cmd : Command) : Prop :=
  match cmd with CmdSet k v _ => D k v | _ => True end.

Definition reply_ok (D : string → bytes → Prop) (cmd : Command) (r : ValkeyResult) : Prop :=
  match cmd with
  | CmdGet k => ∀ data, AsBytes r = Ok data → D k data
  | _ => True
  end.

Class KeyedValkey {S} (cl : ValkeyClient S) (J : (string → bytes → Prop) → S → Prop) : Prop := {
  kv_Do D ctx cmd : stores_ok D cmd → act_ok (J D) (reply_ok D cmd) (vc_Do cl ctx cmd);
  kv_DoCache D ctx cmd ttl :
    stores_ok D cmd → act_ok (J D) (reply_ok D cmd) (vc_DoCache cl ctx cmd ttl);
  kv_DoMulti D ctx cmds : Forall (stores_ok D) cmds →
    act_ok (J D) (λ rs, Forall2 (reply_ok D) cmds (vec_to_list rs)) (vc_DoMulti cl ctx cmds);
  kv_DoMultiCache D ctx cmds : Forall (stores_ok D) cmds.*1 →
    act_ok (J D) (λ rs, Forall2 (reply_ok D) cmds.*1 (vec_to_list rs))
      (vc_DoMultiCache cl ctx cmds)
}.

(** ** The backends keep the guarantee *)

Lemma ok_opContext {S} (J : S → Prop) ctx d : act_ok J (λ _, True) (opContext ctx d).
Proof. unfold opContext, WithTimeout. case_goal; [done|]. by eapply ok_bind; [apply ok_now|]. Qed.

(** What a read of a key makes of the reply. *)
Lemma ok_read {S} (J : S → Prop) (D : bytes → Prop) h key (nil : error → bool) e1 e2
    (r : result bytes) :
  (∀ data, r = Ok data → D data) →
  act_ok J (λ r, ∀ data, r = Ok data → D data)
    (match r with
     | Err err =>
         if nil err then hooks_miss h key;; mret (Err (e1 err))
         else hooks_error h OpGet key err;; mret (Err (e2 err))
     | Ok data => hooks_hit h key;; mret (Ok data)
     end : act S (result bytes)).
Proof.
  intros Hr. destruct r as [data|err].
  - eapply ok_bind; [apply ok_if_emit|]. intros _ _ ? [= <-]. by apply Hr.
  - case_goal; by eapply ok_bind; [apply ok_if_emit|].
Qed.

(** What a write makes of the client's error. *)
Lemma ok_written {S} (J : S → Prop) h op key (f : error → error) (e : option error) :
  act_ok J (λ _, True)
    (match e with
     | Some err => hooks_error h op key err;; mret (Some (f err))
     | None => mret None
     end : act S (option error)).
Proof. destruct e; [|done]. by eapply ok_bind; [apply ok_if_emit|]. Qed.

Section redis.
Context {S T : Type} (c : RedisCache S T) (codec : Codec T) (V : string → T → Prop).
Context (J : (string → bytes → Prop) → S → Prop) `{!KeyedRedis (r_client c) J}.

(** Under the cache's own keys [D] says that the bytes are valid. *)
Definition redis_covers (D : string → bytes → Prop) : Prop :=
  ∀ key data, D (redis_key c key) data ↔ valid (redis_config c) codec V key data.

Context (D : string → bytes → Prop) (HD : redis_covers D).

Lemma redis_honest_in :
  HonestCache (RedisCache_Cache c) codec V (J D).
Proof.
  split; cbn [RedisCache_Cache c_Get c_Set c_Delete c_config configOf].
  - intros ctx key. unfold redis_Get. eapply ok_bind; [apply ok_opContext|intros ctx' _].
    eapply ok_bind; [apply kr_Get|]. intros r Hr.
    apply (ok_read _ (valid (redis_config c) codec V key) _ _ (λ e, errors_Is e _)
      (λ _, _) (λ e, _)). intros data Hd. by apply HD, (Hr data Hd).
  - intros ctx key data ttl Hd. unfold redis_Set.
    eapply ok_bind; [apply ok_opContext|intros ctx' _].
    eapply (ok_bind _ (λ _, True)).
    { unfold redis_ttlFor. case_goal; [done|apply ok_applyJitter]. }
    intros d _. eapply ok_bind; [by apply kr_Set, HD|intros e _].
    apply (ok_written _ _ _ _ (λ e, _)).
  - intros ctx key. unfold redis_Delete. eapply ok_bind; [apply ok_opContext|intros ctx' _].
    eapply ok_bind; [apply kr_Del|intros e _]. apply (ok_written _ _ _ _ (λ e, _)).
Qed.

Abbreviation valid_map := (all_valid (redis_config c) codec V).

Lemma ok_redis_collect l :
  (∀ k data, (k, Some data) ∈ l → valid (redis_config c) codec V k data) →
  act_ok (J D) valid_map (for_fold (redis_GetMany_step c) ∅ l).
Proof.
  intros Hl. apply ok_for_fold; [apply map_Forall_empty|]. intros out [k o] Hin Hout.
  unfold redis_GetMany_step. destruct o as [data|]; cbn [fst snd].
  - eapply ok_bind; [apply ok_if_emit|intros _ _].
    apply map_Forall_insert_2; [by apply Hl|done].
  - by eapply ok_bind; [apply ok_if_emit|].
Qed.

Lemma redis_honest_batch_in :
  HonestBatch (RedisCache_Cache c) codec V (J D).
Proof.
  split; intros bc ctx.
  - intros keys [= <-]. cbn [b_GetMany]. unfold redis_GetMany. case_decide.
    { intros m [= <-]. apply map_Forall_empty. }
    eapply ok_bind; [apply ok_opContext|intros ctx' _].
    eapply ok_bind; [apply kr_MGet|]. intros [vals|err] Hr.
    + eapply ok_bind; [apply ok_redis_collect|by intros out Hout m [= <-]].
      intros k data (i & Hi & Hd)%elem_of_zip_lookup.
      assert (D (redis_key c k) data) as Hown; [|by apply HD].
      apply (Hr vals eq_refl). eapply zip_lookup_elem; [|exact Hd].
      by rewrite list_lookup_fmap, Hi.
    + by eapply ok_bind; [apply ok_for_each; intros; apply ok_if_emit|].
  - intros m ttl [= <-] Hm. cbn [b_SetMany]. unfold redis_SetMany. case_decide; [done|].
    eapply ok_bind; [apply ok_opContext|intros ctx' _].
    eapply ok_bind; [apply ok_range|intros l Hl].
    eapply (ok_bind _ (Forall (λ cmd, D cmd.1.1 cmd.1.2))).
    + apply ok_for_fold; [done|]. intros pipe [k data] Hin Hp. unfold redis_SetMany_step.
      eapply (ok_bind _ (λ _, True)).
      { unfold redis_ttlFor. case_goal; [done|apply ok_applyJitter]. }
      intros d _. apply Forall_app. split; [done|]. apply Forall_singleton, HD.
      apply (Hm k), (Hl _ Hin).
    + intros pipe Hp. eapply ok_bind; [by apply kr_Exec|]. intros [err|] _; [|done].
      eapply ok_bind; [apply ok_range|intros l' _].
      by eapply ok_bind; [apply ok_for_each; intros; apply ok_if_emit|].
Qed.
End redis.

Section redis_own.
Context {S T : Type} (c : RedisCache S T) (codec : Codec T) (V : string → T → Prop).
Context (J : (string → bytes → Prop) → S → Prop) `{!KeyedRedis (r_client c) J}.

(** The cache's own keys hold valid bytes. *)
Definition redis_own (full : string) (data : bytes) : Prop :=
  ∀ key, full = redis_key c key → valid (redis_config c) codec V key data.

Lemma redis_own_covers : redis_covers c codec V redis_own.
Proof. intros key data. split; [by intros H; apply H|]. by intros H key' <-%redis_key_inj. Qed.

#[export] Instance RedisCache_honest : HonestCache (RedisCache_Cache c) codec V (J redis_own).
Proof. apply (redis_honest_in c codec V J), redis_own_covers. Qed.

#[export] Instance RedisCache_honest_batch : HonestBatch (RedisCache_Cache c) codec V (J redis_own).
Proof. apply (redis_honest_batch_in c codec V J), redis_own_covers. Qed.
End redis_own.

Section valkey.
Context {S T : Type} (c : ValkeyCache S T) (codec : Codec T) (V : string → T → Prop).
Context (J : (string → bytes → Prop) → S → Prop) `{!KeyedValkey (v_client c) J}.

(** Under the cache's own keys [D] says that the bytes are valid. *)
Definition valkey_covers (D : string → bytes → Prop) : Prop :=
  ∀ key data, D (valkey_key c key) data ↔ valid (valkey_config c) codec V key data.

Context (D : string → bytes → Prop) (HD : valkey_covers D).

Lemma ok_setCmd key data ttl :
  valid (valkey_config c) codec V key data →
  act_ok (J D) (stores_ok D) (setCmd c key data ttl).
Proof.
  intros Hd. unfold setCmd, valkey_ttlFor. eapply (ok_bind _ (λ _, True)).
  - eapply (ok_bind _ (λ _, True)); [case_goal; [apply ok_applyJitter|done]|done].
  - intros d _. by apply HD.
Qed.

Lemma valkey_honest_in :
  HonestCache (ValkeyCache_Cache c) codec V (J D).
Proof.
  split; cbn [ValkeyCache_Cache c_Get c_Set c_Delete c_config configOf].
  - intros ctx key. unfold valkey_Get. eapply ok_bind; [apply ok_opContext|intros ctx' _].
    eapply (ok_bind _ (reply_ok D (CmdGet (valkey_key c key)))).
    { case_goal; [by apply kv_DoCache|by apply kv_Do]. }
    intros r Hr. apply (ok_read _ (valid (valkey_config c) codec V key) _ _ _ (λ _, _) (λ e, _)).
    intros data Hd. by apply HD, (Hr data Hd).
  - intros ctx key data ttl Hd. unfold valkey_Set.
    eapply ok_bind; [apply ok_opContext|intros ctx' _].
    eapply ok_bind; [by apply ok_setCmd|]. intros cmd Hcmd. eapply ok_bind; [by apply kv_Do|intros r _].
    apply (ok_written _ _ _ _ (λ e, _)).
  - intros ctx key. unfold valkey_Delete. eapply ok_bind; [apply ok_opContext|intros ctx' _].
    eapply ok_bind; [by apply kv_Do|intros r _]. apply (ok_written _ _ _ _ (λ e, _)).
Qed.

Abbreviation valid_map := (all_valid (valkey_config c) codec V).

(** What a reply to a batch read holds. *)
Definition replies_ok (l : list (string * ValkeyResult)) : Prop :=
  ∀ k r, (k, r) ∈ l → reply_ok D (CmdGet (valkey_key c k)) r.

Lemma replies_zip keys rs :
  Forall2 (reply_ok D) ((λ k, CmdGet (valkey_key c k)) <$> keys) rs →
  replies_ok (zip keys rs).
Proof.
  intros H k r (i & Hi & Hr)%elem_of_zip_lookup.
  assert (((λ k, CmdGet (valkey_key c k)) <$> keys) !! i = Some (CmdGet (valkey_key c k)))
    as Hi' by by rewrite list_lookup_fmap, Hi.
  destruct (Forall2_lookup_l _ _ _ _ _ H Hi') as (r' & Hr' & Hok).
  by assert (r' = r) as -> by congruence.
Qed.

Lemma ok_valkey_collect l :
  replies_ok l →
  act_ok (J D) (λ acc, valid_map acc.1) (for_fold (valkey_GetMany_step c) (∅, None) l).
Proof.
  intros Hl. apply (ok_for_fold _ (λ acc, valid_map acc.1)); [apply map_Forall_empty|].
  intros [out first] [k r] Hin Hout. cbn [fst] in Hout. unfold valkey_GetMany_step.
  cbn [fst snd]. destruct (AsBytes r) as [data|err] eqn:E.
  - eapply ok_bind; [apply ok_if_emit|intros _ _].
    apply map_Forall_insert_2; [|done]. by apply HD, (Hl k r Hin data E).
  - case_goal; by eapply ok_bind; [apply ok_if_emit|].
Qed.

Lemma ok_valkey_built m ttl l :
  all_valid (valkey_config c) codec V m → (∀ kv, kv ∈ l → m !! kv.1 = Some kv.2) →
  act_ok (J D) (λ acc, Forall (stores_ok D) acc.2)
    (for_fold (valkey_build_step c ttl) ([], []) l).
Proof.
  intros Hm Hl. apply (ok_for_fold _ (λ acc, Forall (stores_ok D) acc.2)); [done|].
  intros [ks cmds] [k data] Hin Hc. unfold valkey_build_step. cbn [fst snd] in *.
  eapply ok_bind; [apply ok_setCmd, (Hm k), (Hl _ Hin)|]. intros cmd Hcmd.
  cbn. apply Forall_app. by split; [|apply Forall_singleton].
Qed.

Lemma valkey_honest_batch_in :
  HonestBatch (ValkeyCache_Cache c) codec V (J D).
Proof.
  split; intros bc ctx.
  - intros keys [= <-]. cbn [b_GetMany]. unfold valkey_GetMany. case_decide.
    { intros m [= <-]. apply map_Forall_empty. }
    eapply ok_bind; [apply ok_opContext|intros ctx' _].
    eapply (ok_bind _ (λ rs, replies_ok (zip keys rs))).
    + assert (Forall (stores_ok D) ((λ k, CmdGet (valkey_key c k)) <$> keys)) as Hst
        by by apply Forall_fmap, Forall_true.
      case_goal.
      * eapply ok_bind; [apply kv_DoMultiCache|]; rewrite <-list_fmap_compose; [done|].
        intros rs Hrs. by apply replies_zip.
      * eapply ok_bind; [by apply kv_DoMulti|]. intros rs Hrs. by apply replies_zip.
    + intros rs Hrs. eapply ok_bind; [by apply ok_valkey_collect|].
      intros [out [e|]] Hout; [done|]. by intros m [= <-].
  - intros m ttl [= <-] Hm. cbn [b_SetMany]. unfold valkey_SetMany. case_decide; [done|].
    eapply ok_bind; [apply ok_opContext|intros ctx' _].
    eapply ok_bind; [apply ok_range|intros l Hl].
    eapply ok_bind; [by eapply ok_valkey_built|]. intros [ks cmds] Hc.
    eapply ok_bind; [by apply kv_DoMulti|intros rs _].
    apply ok_for_fold; [done|]. intros first [k r] _ _. unfold valkey_SetMany_step.
    cbn [fst snd]. destruct (Error r); [|done]. by eapply ok_bind; [apply ok_if_emit|].
Qed.
End valkey.

Section valkey_own.
Context {S T : Type} (c : ValkeyCache S T) (codec : Codec T) (V : string → T → Prop).
Context (J : (string → bytes → Prop) → S → Prop) `{!KeyedValkey (v_client c) J}.

Definition valkey_own (full : string) (data : bytes) : Prop :=
  ∀ key, full = valkey_key c key → valid (valkey_config c) codec V key data.

Lemma valkey_own_covers : valkey_covers c codec V valkey_own.
Proof. intros key data. split; [by intros H; apply H|]. by intros H key' <-%valkey_key_inj. Qed.

#[export] Instance ValkeyCache_honest : HonestCache (ValkeyCache_Cache c) codec V (J valkey_own).
Proof. apply (valkey_honest_in c codec V J), valkey_own_covers. Qed.

#[export] Instance ValkeyCache_honest_batch : HonestBatch (ValkeyCache_Cache c) codec V (J valkey_own).
Proof. apply (valkey_honest_batch_in c codec V J), valkey_own_covers. Qed.
End valkey_own.

(** ** The servers in memory keep it *)

Definition holds_only (D : string → bytes → Prop) (s : entries) : Prop :=
  ∀ k en, s !! k = Some en → D k (en_val en).

Definition both_hold (D : string → bytes → Prop) (s : two_tier) : Prop :=
  holds_only D (tt_server s) ∧ holds_only D (tt_local s).

Lemma holds_only_db D s k t v : holds_only D s → fake_db s k t = Some v → D k v.
Proof.
  intros H. unfold fake_db. destruct (s !! k) as [en|] eqn:E; [|done]. cbn [mbind option_bind].
  specialize (H _ _ E). unfold entry_at. destruct (en_expiry en); [case_match|]; congruence.
Qed.

Lemma holds_only_insert D s k en :
  holds_only D s → D k (en_val en) → holds_only D (<[k := en]> s).
Proof. intros H Hd k' en' [[<- <-]|[_ Hk]]%lookup_insert_Some; [done|by apply (H k')]. Qed.

Lemma fake_get_ok D k :
  act_ok (holds_only D) (λ o, ∀ v, o = Some v → D k v) (fake_get k).
Proof.
  unfold fake_get. eapply ok_bind; [apply ok_now|intros t _].
  eapply (ok_bind _ (holds_only D)); [by apply ok_atom|]. intros s Hs v Hv.
  by eapply holds_only_db.
Qed.

Lemma fake_set_ok D k v d : D k v → act_ok (holds_only D) (λ _, True) (fake_set k v d).
Proof.
  intros Hd. unfold fake_set. eapply ok_bind; [apply ok_now|intros t _].
  apply ok_atom. intros w Hw. split; [by apply holds_only_insert|done].
Qed.

Lemma fake_del_ok D k : act_ok (holds_only D) (λ _, True) (fake_del k).
Proof.
  apply ok_atom. intros w Hw. split; [|done].
  intros k' en Hk. cbn [snd w_store set_store] in Hk.
  apply lookup_delete_Some in Hk as [_ Hk]. by apply (Hw k').
Qed.

Lemma fake_exec_ok D cmd :
  stores_ok D cmd → act_ok (holds_only D) (reply_ok D cmd) (fake_exec cmd).
Proof.
  destruct cmd as [k|k v o|k|]; cbn [stores_ok fake_exec]; intros Hst; [| | |done].
  - eapply ok_bind; [apply fake_get_ok|].
    intros [v|] Hv data; cbn; [intros [= <-]; by apply Hv|done].
  - by eapply ok_bind; [apply fake_set_ok|].
  - by eapply ok_bind; [apply fake_del_ok|].
Qed.

Lemma fake_multi_ok D cmds :
  Forall (stores_ok D) cmds →
  act_ok (holds_only D) (λ rs, Forall2 (reply_ok D) cmds (vec_to_list rs)) (fake_multi cmds).
Proof.
  induction 1 as [|cmd cmds Hc _ IH]; cbn [fake_multi]; [constructor|].
  eapply ok_bind; [by apply fake_exec_ok|intros r Hr].
  eapply ok_bind; [exact IH|intros rs Hrs]. by constructor.
Qed.

Lemma fake_multi_cache_ok D cmds :
  Forall (stores_ok D) cmds.*1 →
  act_ok (holds_only D) (λ rs, Forall2 (reply_ok D) cmds.*1 (vec_to_list rs))
    (fake_multi_cache cmds).
Proof.
  induction cmds as [|[cmd ttl] cmds IH]; cbn [fake_multi_cache fmap list_fmap fst];
    [constructor|]. intros [Hc Hcs]%Forall_cons.
  eapply ok_bind; [by apply fake_exec_ok|intros r Hr].
  eapply ok_bind; [by apply IH|intros rs Hrs]. by constructor.
Qed.

#[export] Instance fake_valkey_keyed : KeyedValkey fake_valkey holds_only.
Proof.
  split; intros; [by apply fake_exec_ok..|by apply fake_multi_ok|by apply fake_multi_cache_ok].
Qed.

#[export] Instance fake_redis_keyed : KeyedRedis fake_redis holds_only.
Proof.
  split; cbn [fake_redis rc_Get rc_Set rc_Del rc_MGet rc_Exec].
  - intros D _ k. eapply ok_bind; [apply fake_get_ok|].
    intros [v|] Hv data; [intros [= <-]; by apply Hv|done].
  - intros D _ k v d Hd. by eapply ok_bind; [apply fake_set_ok|].
  - intros D _ k. by eapply ok_bind; [apply fake_del_ok|].
  - intros D _ keys. eapply ok_bind; [apply ok_now|intros t _].
    eapply (ok_bind _ (holds_only D)); [by apply ok_atom|]. intros s Hs vals [= <-] k data.
    rewrite vec_to_list_map, vec_to_list_to_vec.
    intros (i & Hk & Hd)%elem_of_zip_lookup. rewrite list_lookup_fmap, Hk in Hd.
    injection Hd as Hd. by eapply holds_only_db.
  - intros D _ pipe Hp. rewrite Forall_forall in Hp. eapply (ok_bind _ (λ _, True)); [|done].
    apply ok_for_each. intros cmd Hin. by apply fake_set_ok, Hp.
Qed.

(** Running on the server keeps what running on it alone keeps. *)
Lemma on_server_ok {A} D (Q : A → Prop) (m : act entries A) :
  act_ok (holds_only D) Q m → act_ok (both_hold D) Q (on_server m).
Proof.
  intros Hm. apply ok_atom. intros w [Hs Hl].
  match goal with |- context [run m ?w0] => destruct (ok_run _ _ m w0 Hm) as [H1 H2]; [exact Hs|];
    destruct (run m w0) as [a w'] end.
  by split.
Qed.

Lemma cached_get_ok D k ttl :
  act_ok (both_hold D) (reply_ok D (CmdGet k)) (cached_get k ttl).
Proof.
  unfold cached_get. eapply ok_bind; [apply ok_now|intros t _].
  eapply (ok_bind _ (both_hold D)); [by apply ok_atom|]. intros s [Hs Hl].
  destruct (fake_db (tt_local s) k t) as [v|] eqn:E.
  { intros data [= <-]. by apply (holds_only_db _ _ _ _ _ Hl E). }
  destruct (fake_db (tt_server s) k t) as [v|] eqn:E'; [|done].
  pose proof (holds_only_db _ _ _ _ _ Hs E') as Hv.
  eapply (ok_bind _ (λ _, True)); [|by intros _ _ data [= <-]].
  apply ok_atom. intros w [H1 H2]. split; [|done]. split; [done|]. by apply holds_only_insert.
Qed.

#[export] Instance caching_valkey_keyed : KeyedValkey caching_valkey both_hold.
Proof.
  split; cbn [caching_valkey vc_Do vc_DoCache vc_DoMulti vc_DoMultiCache].
  - intros D _ cmd Hst. by apply on_server_ok, fake_exec_ok.
  - intros D _ [k|k v o|k|] ttl Hst; [by apply cached_get_ok|by apply on_server_ok, fake_exec_ok..].
  - intros D _ cmds Hst. by apply on_server_ok, fake_multi_ok.
  - intros D _ cmds Hst. by apply on_server_ok, fake_multi_cache_ok.
Qed.

(** ** Provenance *)

(** On ValkeyCache, with or without client-side caching, whose copies may
    outlive the server's: any number of clients of every kind - GetOrSet,
    GetOrSetMany, direct reads, writes and deletions - in any interleaving only
    get values that satisfy [V] for the key they asked for - those the loaders
    and the writers of that key supplied, now or before -, and the cache's own
    keys only ever hold such, whatever other services keep under other prefixes
    of the same server. *)
Theorem valkey_provenance {G S T} `{!SingleFlight G, !SingleFlightLaws G, !JSON T}
    (c : ValkeyCache S T) (codec : Codec T) `{!CodecRoundTrip codec} V J
    `{!KeyedValkey (v_client c) J} w (ts : list (task S T)) s :
  let own := valkey_own c codec V in
  let vc := ValkeyCache_Cache c in
  J own (w_store w) →
  Forall (honest_task vc codec V (J own)) ts →
  reachable w (task_prog vc <$> ts) s →
  J own (w_store (s_world s))
  ∧ ∀ i t a, ts !! i = Some t → s_callers (G := G) s !! i = Some (Finished a) →
      good_answer vc codec V t a.
Proof. intros own vc. by apply (mixed_system vc codec V (J own)). Qed.

(** The same of RedisCache. *)
Theorem redis_provenance {G S T} `{!SingleFlight G, !SingleFlightLaws G, !JSON T}
    (c : RedisCache S T) (codec : Codec T) `{!CodecRoundTrip codec} V J
    `{!KeyedRedis (r_client c) J} w (ts : list (task S T)) s :
  let own := redis_own c codec V in
  let rc := RedisCache_Cache c in
  J own (w_store w) →
  Forall (honest_task rc codec V (J own)) ts →
  reachable w (task_prog rc <$> ts) s →
  J own (w_store (s_world s))
  ∧ ∀ i t a, ts !! i = Some t → s_callers (G := G) s !! i = Some (Finished a) →
      good_answer rc codec V t a.
Proof. intros own rc. by apply (mixed_system rc codec V (J own)). Qed.

(** NewValkeyWithClient(WithPrefix("svc:"), WithClientSideCacheTTL(1m)): two
    callers of GetOrSet one after the other, the second served by the local
    copy, and a batch load of that key and another. *)
Definition caching_cache : ValkeyCache two_tier bool :=
  NewValkeyWithClient 0xc000060000 caching_valkey
    [WithPrefix "svc:"; WithClientSideCacheTTL Minute].

Definition caching_tasks : list (task two_tier bool) :=
  replicate 2 (LoadOne (mkCall Background (ValkeyCache_Cache caching_cache) "k" Minute None
    (demo_loader (Returned (Ok true)))))
  ++ [LoadMany Background ["k"; "x:k"] Minute None
        (λ _ keys, mret (Returned (Ok (list_to_map ((λ k, (k, true)) <$> keys)))))].

(** The server already holds the key, and a key of another service. *)
Definition caching_start : World two_tier :=
  demo_world (mkTwoTier {[ "svc:k" := mkEntry json_true None; "x:k" := mkEntry json_false None ]} ∅).

Definition caching_end : system (gmap string nat) two_tier (answer bool) :=
  schedule (replicate 20 (ChCaller 0) ++ replicate 20 (ChCaller 1) ++ replicate 20 (ChCaller 2))
    (initial caching_start (task_prog (ValkeyCache_Cache caching_cache) <$> caching_tasks)).

Lemma valkey_provenance_witness :
  (caller_result <$> s_callers caching_end)
  = [Some (One (Ok true)); Some (One (Ok true));
     Some (Many (Returned (Ok {[ "k" := true; "x:k" := true ]})))]
  ∧ is_Some (tt_local (w_store (s_world caching_end)) !! "svc:k")
  ∧ ∀ i t a, caching_tasks !! i = Some t →
      s_callers caching_end !! i = Some (Finished a) →
      good_answer (ValkeyCache_Cache caching_cache) defaultCodec (λ _ v, v = true) t a.
Proof.
  split_and!; [vm_compute; reflexivity|by vm_compute; eexists|].
  apply (valkey_provenance caching_cache defaultCodec (λ _ v, v = true) both_hold caching_start
    caching_tasks caching_end).
  - split; [|intros k en H; discriminate H].
    intros k en H. change ((<["svc:k" := mkEntry json_true None]>
      {["x:k" := mkEntry json_false None]} : entries) !! k = Some en) in H.
    apply lookup_insert_Some in H as [[<- <-]|[_ Hk]].
    + intros key E _ v Hv. vm_compute in Hv. congruence.
    + apply lookup_singleton_Some in Hk as [<- <-]. intros key E. discriminate E.
  - repeat apply Forall_cons_2; [..|apply Forall_nil_2].
    1,2: split; [reflexivity|split; [reflexivity|]]; intros ctx;
       apply ok_atom; intros w Hw; split; [exact Hw|intros v [= <-]; reflexivity].
    split; [reflexivity|]. intros ctx keys m [= <-] k v Hk.
    apply elem_of_list_to_map_2 in Hk. by apply list_elem_of_fmap in Hk as (k' & [= -> ->] & _).
  - apply schedule_sound.
Defined.
