(* ===== verification/Fleet.v ===== *)
(** * Several caches of one process on one server

    The flight group is a variable of the package (group.go): all caches of a
    process share it, whatever their backends and value types, and tell their
    flights apart by the cache's address in the flight key.  Their servers they
    share with each other, and tell their entries apart by the prefix.  Here
    the clients of any family of caches, of different types, work at once; a
    client is a task for one of the caches, and its answer has that cache's
    type. *)
From S2P Require Import Prelude Int64 Float64 Errors Runtime Envelope Hooks Codec.
From S2P Require Import Options Cache Server Redis Valkey FakeServer Group GetOrSet Batch.
From S2P Require Import Instances Flights FlightsThms Provenance MixedProvenance ServerProvenance.
From Stdlib Require Import ZArith Lia.
Local Open Scope Z_scope.

(** ** Any family of caches on one store *)

Section fleet.
Context {S I : Type} (T : I → Type) {HJSON : ∀ i, JSON (T i)}.
Context (cache : I → Cache S) (codec : ∀ i, Codec (T i)) (V : ∀ i, string → T i → Prop).

(** A task for one of the caches; the answer is of that cache's type. *)
Definition fleet_task : Type := {i : I & task S (T i)}.
Definition fleet_answer : Type := {i : I & answer (T i)}.

Definition fleet_prog (t : fleet_task) : prog S fleet_answer :=
  a ← task_prog (cache (projT1 t)) (projT2 t); mret (existT (projT1 t) a).

Definition fleet_honest (J : S → Prop) (t : fleet_task) : Prop :=
  honest_task (cache (projT1 t)) (codec (projT1 t)) (V (projT1 t)) J (projT2 t).

Definition fleet_good (t : fleet_task) (a : fleet_answer) : Prop :=
  ∃ a', a = existT (projT1 t) a'
    ∧ good_answer (cache (projT1 t)) (codec (projT1 t)) (V (projT1 t)) (projT2 t) a'.

(** Addresses are 64-bit pointers, and no two live objects have the same. *)
Definition distinct_addresses : Prop :=
  ∀ i j, (c_addr (cache i) < 2 ^ 64)%N
    ∧ (c_addr (cache i) = c_addr (cache j) → i = j).

Context (Haddr : distinct_addresses).

(** What the group hands out is in order for every cache. *)
Definition fleet_handed (fk : string) (r : result bytes) : Prop :=
  ∀ i, handed (cache i) (codec i) (V i) fk r.

Lemma fleet_hands_out i : hands_out (cache i) (codec i) (V i) fleet_handed.
Proof using Haddr.
  intros key r. split; [intros H; by apply handed_hands_out, (H i)|].
  intros H j key' data Hk. apply no_nul_split in Hk as [Ha <-]; [|apply fmt_p_no_nul..].
  apply fmt_p_inj in Ha; [|by apply Haddr..]. apply (Haddr i j) in Ha as <-. apply H.
Qed.

Lemma fleet_handed_Err fk e : fleet_handed fk (Err e).
Proof. intros i. apply handed_Err. Qed.

Context (J : S → Prop) {Hone : ∀ i, HonestCache (cache i) (codec i) (V i) J}.
Context {Hbatch : ∀ i, HonestBatch (cache i) (codec i) (V i) J} {Hrt : ∀ i, CodecRoundTrip (codec i)}.

Lemma fleet_prog_ok t :
  fleet_honest J t → prog_ok J fleet_handed (fleet_good t) (fleet_prog t).
Proof using All.
  destruct t as [i t]. intros Ht. eapply prog_ok_bind.
  - by apply (task_prog_ok (cache i) (codec i) (V i) J); [apply fleet_hands_out|].
  - intros a Ha. by exists a.
Qed.

Lemma fleet_system {G} `{!SingleFlight G, !SingleFlightLaws G} w (ts : list fleet_task)
    (s : system G S fleet_answer) :
  J (w_store w) → Forall (fleet_honest J) ts → reachable w (fleet_prog <$> ts) s →
  J (w_store (s_world s))
  ∧ ∀ n t a, ts !! n = Some t → s_callers s !! n = Some (Finished a) → fleet_good t a.
Proof using All.
  intros Hw Hts Hr.
  assert (system_ok J fleet_handed (fleet_good <$> ts) s) as Hok.
  { eapply system_ok_reachable; [apply fleet_handed_Err|done| |done].
    apply Forall2_fmap, Forall_Forall2_diag. eapply Forall_impl; [exact Hts|].
    apply fleet_prog_ok. }
  split; [apply Hok|]. intros n t a Hn Hs.
  eapply system_ok_finished; [exact Hok| |exact Hs]. by rewrite list_lookup_fmap, Hn.
Qed.
End fleet.

(** ** Network caches on one server *)

Inductive net_cache (S T : Type) :=
| OnRedis (c : RedisCache S T)
| OnValkey (c : ValkeyCache S T).
Arguments OnRedis {S T} c. Arguments OnValkey {S T} c.

Definition net_Cache {S T} `{!JSON T} (b : net_cache S T) : Cache S :=
  match b with OnRedis c => RedisCache_Cache c | OnValkey c => ValkeyCache_Cache c end.

Definition net_prefix {S T} (b : net_cache S T) : string :=
  match b with OnRedis c => r_prefix c | OnValkey c => v_prefix c end.

Definition net_config {S T} (b : net_cache S T) : cacheConfig :=
  match b with OnRedis c => redis_config c | OnValkey c => valkey_config c end.

(** The client hands out under a key only what was stored under it. *)
Definition net_keyed {S T} (b : net_cache S T) (J : (string → bytes → Prop) → S → Prop) : Prop :=
  match b with
  | OnRedis c => KeyedRedis (r_client c) J
  | OnValkey c => KeyedValkey (v_client c) J
  end.

(** Neither string begins with the other. *)
Definition apart (p q : string) : bool := negb (String.prefix p q) && negb (String.prefix q p).

Lemma apart_keys p q k k' : apart p q = true → p +:+ k ≠ q +:+ k'.
Proof.
  unfold apart. revert q. induction p as [|x p IH]; intros [|y q]; cbn; try done.
  intros H [= <- Hk]. revert H. destruct (Ascii.ascii_dec x x); [|done].
  intros H. by apply (IH q H).
Qed.

Section services.
Context {S I : Type} (T : I → Type) {HJSON : ∀ i, JSON (T i)}.
Context (net : ∀ i, net_cache S (T i)) (codec : ∀ i, Codec (T i)).
Context (V : ∀ i, string → T i → Prop).

(** What is valid under a key of the server, for every cache that may read it. *)
Definition services_own (full : string) (data : bytes) : Prop :=
  ∀ i key, full = net_prefix (net i) +:+ key →
    valid (net_config (net i)) (codec i) (V i) key data.

(** Caches whose keys can coincide agree on what is valid there. *)
Definition compatible : Prop :=
  ∀ i j key key' data, net_prefix (net i) +:+ key = net_prefix (net j) +:+ key' →
    valid (net_config (net i)) (codec i) (V i) key data →
    valid (net_config (net j)) (codec j) (V j) key' data.

(** Caches whose prefixes are apart are. *)
Lemma prefixes_compatible :
  (∀ i j, i = j ∨ apart (net_prefix (net i)) (net_prefix (net j)) = true) → compatible.
Proof.
  intros H i j key key' data Hk Hv. destruct (H i j) as [<-|Ha].
  - by apply (inj (String.append _)) in Hk as <-.
  - by apply apart_keys in Hk.
Qed.

Context (J : (string → bytes → Prop) → S → Prop) (HJ : ∀ i, net_keyed (net i) J).
Context (Hc : compatible) {Hrt : ∀ i, CodecRoundTrip (codec i)}.

Lemma services_cover i key data :
  services_own (net_prefix (net i) +:+ key) data
  ↔ valid (net_config (net i)) (codec i) (V i) key data.
Proof using Hc.
  split; [intros H; by apply H|]. intros Hv j key' Hk. by eapply Hc.
Qed.

Lemma services_honest i :
  HonestCache (net_Cache (net i)) (codec i) (V i) (J services_own)
  ∧ HonestBatch (net_Cache (net i)) (codec i) (V i) (J services_own).
Proof using HJ Hc.
  pose proof (services_cover i) as Hcov. specialize (HJ i).
  destruct (net i) as [c|c]; cbn [net_Cache net_prefix net_config net_keyed] in *.
  - split; [by apply redis_honest_in|by apply redis_honest_batch_in].
  - split; [by apply valkey_honest_in|by apply valkey_honest_batch_in].
Qed.
End services.

(** C13: Several caches of one process share the package's flight group and a
    server: RedisCaches and ValkeyCaches of any value types, client-side caching
    on or off.  If their addresses differ, and caches whose keys can coincide
    agree on what is valid there - any whose prefixes are apart do -, then
    their clients, of every kind and in any interleaving, only get values that
    their own cache's loaders and writers supplied for the key they asked for:
    no flight, entry or local copy of one cache ever reaches a client of
    another. *)
Theorem services_provenance {G S I : Type} `{!SingleFlight G, !SingleFlightLaws G}
    (T : I → Type) {HJSON : ∀ i, JSON (T i)} (net : ∀ i, net_cache S (T i))
    (codec : ∀ i, Codec (T i)) {Hrt : ∀ i, CodecRoundTrip (codec i)}
    (V : ∀ i, string → T i → Prop) (J : (string → bytes → Prop) → S → Prop)
    w (ts : list (fleet_task (S := S) T)) (s : system G S (fleet_answer T)) :
  let cache i := net_Cache (net i) in
  let own := services_own T net codec V in
  distinct_addresses cache → compatible T net codec V → (∀ i, net_keyed (net i) J) →
  J own (w_store w) → Forall (fleet_honest T cache codec V (J own)) ts →
  reachable w (fleet_prog T cache <$> ts) s →
  J own (w_store (s_world s))
  ∧ ∀ n t a, ts !! n = Some t → s_callers s !! n = Some (Finished a) →
      fleet_good T cache codec V t a.
Proof.
  intros cache own Ha Hc HJ Hw Hts Hr.
  pose proof (λ i, proj1 (services_honest T net codec V J HJ Hc i)) as H1.
  pose proof (λ i, proj2 (services_honest T net codec V J HJ Hc i)) as H2.
  by apply (fleet_system T cache codec V Ha (J own) w).
Qed.

(** Two services on a server, the one with JSON booleans on RedisCache, the
    other with levels, JSON numbers, on ValkeyCache; they use the same key. *)
Inductive level := Low | High.

#[local] Instance JSON_level : JSON level := {|
  json_Marshal := λ l, Ok (bytes_of_string (match l with Low => "0" | High => "1" end));
  json_Unmarshal := λ data,
    if bytes_Equal data (bytes_of_string "0") then Ok Low
    else if bytes_Equal data (bytes_of_string "1") then Ok High
    else Err (ErrOther "json: invalid value")
|}.

Definition two_types (i : bool) : Type := if i then bool else level.

#[local] Instance two_json i : JSON (two_types i) :=
  match i with true => JSON_bool | false => JSON_level end.

Definition two_codecs i : Codec (two_types i) := defaultCodec.

#[local] Instance two_round_trips i : CodecRoundTrip (two_codecs i).
Proof. destruct i; intros [] data; cbn; intros [= <-]; reflexivity. Defined.

Definition two_caches (i : bool) : net_cache entries (two_types i) :=
  match i with
  | true => OnRedis (NewWithClient 0xc0000a0000 fake_redis [WithPrefix "flags:"])
  | false => OnValkey (NewValkeyWithClient 0xc0000b0000 fake_valkey [WithPrefix "levels:"])
  end.

Definition two_V (i : bool) : string → two_types i → Prop :=
  match i with true => λ _ v, v = true | false => λ _ v, v = High end.

Definition two_tasks : list (fleet_task (S := entries) two_types) :=
  [existT true (LoadOne (mkCall Background (net_Cache (two_caches true)) "k" Minute None
     (λ _, mret (Returned (Ok true)))));
   existT false (LoadOne (mkCall Background (net_Cache (two_caches false)) "k" Minute None
     (λ _, mret (Returned (Ok High)))));
   existT false (Read Background "k")].

Definition two_end : system (gmap string nat) entries (fleet_answer two_types) :=
  schedule (replicate 20 (ChCaller 0) ++ replicate 20 (ChCaller 1)
      ++ concat (replicate 40 [ChFlight 0; ChFlight 1])
      ++ [ChReceive 0; ChReceive 1] ++ replicate 20 (ChCaller 0) ++ replicate 20 (ChCaller 1)
      ++ replicate 20 (ChCaller 2))
    (initial (demo_world ∅)
      (fleet_prog two_types (λ i, net_Cache (two_caches i)) <$> two_tasks)).

Lemma services_provenance_witness :
  map caller_result (s_callers two_end)
  = [Some (existT true (One (Ok true))); Some (existT false (One (Ok High)));
     Some (existT false (Bytes (Ok (bytes_of_string "1"))))]
  ∧ length (s_flights two_end) = 2%nat
  ∧ ∀ n t a, two_tasks !! n = Some t → s_callers two_end !! n = Some (Finished a) →
      fleet_good two_types (λ i, net_Cache (two_caches i)) two_codecs two_V t a.
Proof.
  split_and!; [vm_compute; reflexivity..|].
  apply (services_provenance two_types two_caches two_codecs two_V holds_only
    (demo_world ∅) two_tasks two_end).
  - intros i j. split; [by destruct i|]. destruct i, j; done.
  - apply prefixes_compatible. intros i j. destruct i, j; first [by left|by right].
  - intros [|]; [apply fake_redis_keyed|apply fake_valkey_keyed].
  - intros k en H. discriminate H.
  - repeat apply Forall_cons_2; [..|apply Forall_nil_2].
    1,2: split; [reflexivity|split; [reflexivity|]]; intros ctx v [= <-]; reflexivity.
    exact I.
  - apply schedule_sound.
Defined.
